(* ===== verification/_CoqProject ===== *)
-Q . S2P
Prelude.v
Types.v
Bytes.v
Separation.v
StripeFormat.v
KvFormat.v
Engine.v
LogManager.v
Encoder.v
Lrc.v
Latency.v
Grouper.v
Memory.v
Storage.v
Serializer.v
LogFile.v
StripeApply.v
StripeRead.v
PersistQueue.v
Monitors.v
RaftBase.v
RaftEncode.v
RaftCore.v
RaftFrames.v
RaftVote.v
RaftLog.v
RaftElection.v
RaftCluster.v
StripeStore.v
Transport.v
BatchTransport.v
RaftNode.v
Queue.v
KvServer.v
GroupRegistry.v
Client.v
Message.v
BatchSystem.v
Routing.v
Config.v
RaftStore.v
Memberships.v
RaftBoot.v
PeerFsm.v
Legacy.v
