(* ===== verification/Prelude.v ===== *)
(** * FlexRaft: a verification development of the Multi-Raft store

    FlexRaft is a key-value store replicated by Raft whose log entries are erasure
    coded: a follower stores fragments of a command instead of the command. A
    physical node runs many Raft groups. Its parts, and who calls whom:

    - a client (src/kv/client.cc) hashes a key to a group and sends puts and gets to
      the node with the number of that group;
    - the node's service (src/multi-raft/group_registry.cc) hands a put to the
      [RaftStore] (raft_store_stripe.cc), which serialises it as a write command
      (stripe_format.cc) and proposes it to the Raft node of the group;
    - the Raft node (src/raft/raft_node.cc) owns a [RaftState] (raft.cc), which
      appends the entry to its log (log_manager.cc), encodes it (encoder.cc,
      lrc_encoder.h) for the nodes a grouper chose (lrc_complementary_grouper.h),
      persists it (persist_queue.cc, storage.cc) and sends it to its peers;
    - messages are serialised (serializer.cc), batched per destination
      (batch_transport.cc, batch_rpc_sender.cc) and routed at the receiver to the
      group they name (raft_unified_rpc_server.cc);
    - committed entries go through a bridge (batch_system_bridge.cc) into mailboxes,
      from which the threads of the batch system (raft_store_batch.cc) run the apply
      FSM of the group; it stores fragments and metadata in the node's database;
    - a get (stripe_read.cc) reads the metadata and collects the data fragments from
      the nodes that hold them.

    ** Files

    Every file names the sources it models; a definition has the name of the function
    it translates, with the class in front where two functions share a name.

    - Prelude: machine integers, arrays that may be read out of range, the state
      monad [M] of the handlers, and [obeys], a relation every step of a computation
      satisfies, with its hints.
    - Types, Bytes, Engine: the entries and messages of src/raft/raft_type.h,
      log_entry.h and raft_struct.h; byte strings and a reader monad; the interface
      of the database (src/kv/storage_engine.h).
    - StripeFormat, KvFormat, Serializer: the byte formats of stripe_format.cc,
      src/kv/kv_format.cc and src/raft/serializer.cc.
    - LogManager, Encoder, Lrc, Latency, Grouper, Storage, PersistQueue, Monitors:
      the components a Raft node is made of (log_manager.cc, encoder.cc,
      lrc_encoder.h and lrc_placement.h, latency_matrix.h,
      lrc_complementary_grouper.h, storage.cc, persist_queue.cc, the helper classes
      of raft.h).
    - LogFile: the log file of storage.cc once more, as bytes, with the calls of
      [lseek], [read] and [write]; it refines the records of Storage.
    - Separation, Memory: a separation logic over a heap of byte buffers, and in it
      the slices and entries of log_entry.h with their pointers and ownership flags.
      Memory proves that entries behave as the values of Types, which is why all other
      files treat them as values. The exception is the log: its deleter destroys an
      entry inside the array, and LogManager keeps for each slot of the ring what became
      of the storage of its vectors. The flag [undefined_] of a log is set once freed
      storage is used; what the theorems say of a log's contents is about the program
      as long as it is not set, and LogManager and RaftLog say when that is.
    - RaftBase, RaftEncode, RaftCore: the state of a Raft node and all handlers of
      raft.cc; [RaftCore.handle] runs one event. RaftFrames says what each of them
      leaves alone; RaftVote, RaftLog and RaftElection are the theorems about one
      node, RaftCluster those about a group of nodes and a network.
    - Transport, BatchTransport, RaftNode: the RPC client and the unified service
      (rcf_rpc.h, raft_unified_rpc_server.cc), the batched transport, and the object
      that owns a Raft state.
    - StripeApply, StripeRead, StripeStore: from a committed entry to the database,
      from the database to an answer, and the composition of both with the proposal.
    - Queue, KvServer, GroupRegistry, Client: the key-value service of src/kv and
      group_registry.cc.
    - Message, BatchSystem, Routing, PeerFsm: the messages, mailboxes, threads,
      routers and FSMs of a node (message.h, raft_store_batch.cc, rpc_router.cc,
      peer_list_manager.cc, peer_fsm.h).
    - Config, RaftStore, Memberships, RaftBoot: the configuration file
      (src/bench/bench_server_multiraft.cc), the store of a node with the life cycle
      of its groups (raft_store.h), and theorems about its start.
    - Legacy: the single-group service, the hooks, the coordinator, the encoders of
      bundles and the warm-up, which the Multi-Raft server does not reach.

    ** How state and effects are modelled

    A class is a Record, an operation a function from the state to an [option] of the
    result and the new state. [None] is what has no defined continuation: a failed
    [assert], [abort], an exception nobody catches, a null or dangling pointer, an
    access out of range, and for a blocking call that it never returns; what exactly
    it is for a file stands at the top of the file. Integers are [Z]; a conversion to
    a width is written out ([u32], [i32], [u64]). Bytes are [Z] in [0, 256). Maps are
    [gmap]; where the order of a hash table shows, it is a parameter.

    Concurrency: a handler that holds the lock of its object is one step. Where the
    code can be interrupted between two accesses the steps are separate, and an
    execution is an interleaving of them: [PqStep] (PersistQueue), the steps of
    producer and consumer with their locks and condition variables (Queue), [poll_step] with [send] and [register]
    (BatchSystem), [cluster_step] and the network (RaftCluster). The waiting loops of
    a put and of the key-value server run beside the other threads and take what they
    observe as an argument.

    ** The theorems

    - Agreement: a node never changes a vote it cast within a term and its term never
      decreases (RaftVote); two nodes never lead in one term in a group with an odd
      number of members, and can in a group of four (RaftCluster); a node whose id is
      not the id of its group never stands for election (RaftElection).
    - Log: what an AppendEntries request does to the log and when it is refused, the
      commit rule, and that entries are applied in order and once (RaftLog); the ring
      buffer implements a list (LogManager); the bytes of the file are the log, also
      after restarts (LogFile, on top of Storage); what the queue of unpersisted
      entries holds and answers, in whatever order entries are pushed (PersistQueue).
    - Memory: constructors, assignments, setters and destructors of entries neither
      share a buffer nor free one twice nor leak one, as long as no slice is set twice
      (Memory).
    - Coding: any [k] fragments give the command back (Encoder, RaftEncode); local and
      global repair (Lrc); every node gets two fragments and the two descriptions of
      the placement agree (Grouper).
    - End to end: what is put is what a get answers or there is no answer, as long as
      the nodes apply what the proposal sent them; a put reaches every peer
      (StripeStore); reads terminate (StripeRead).
    - Formats: messages, entries and records are read back as they were written, but
      for the fragments the reader drops (Serializer, StripeFormat, PeerFsm), and a
      call through client, bytes and service is the delivery of its message to one
      group of the receiver (Transport); no message is lost or
      reordered by the batches (BatchTransport).
    - A node: groups come up as configured (Config, Memberships, RaftBoot); one apply
      thread applies a group's entries in order, two can reorder them (BatchSystem);
      commits are counted once, routing tables stay consistent (Routing); the bounded
      queue is a list that loses no wake-up (Queue); gathering a value from its fragments (KvServer); whom a
      client asks (Client).
    - What goes wrong: a lost put is acknowledged (GroupRegistry), a retransmitted
      entry files its fragments under wrong ids (StripeStore), a conflict between LRC
      entries uses freed memory (RaftLog), pushes in the wrong order stop the
      persistence worker (PersistQueue), a restarted node votes twice and a second
      notification takes a group down (RaftBoot), a proposed bundle is never applied
      (PeerFsm), two key ids share a key (Legacy), a slice that is set twice is freed
      twice (Memory), a deletion that was not synced brings back empty entries after a
      restart (LogFile), and [Stop] can wait for ever for a full mailbox (BatchSystem).

    ** Parameters

    Code that is not part of the repository is an argument. [IsaL] is the erasure-code
    library, with [IsaL_spec] for the linear algebra it documents; Encoder.v computes
    an instance over GF(2^8) for the witnesses. [StorageEngine] is RocksDB with
    [engine_ok], and [gmap_engine] an instance. [Allocator] says which [new char[]]
    succeed, [Shuffle] is [std::shuffle] with its generator, [HashOrder] and
    [LatencySource] the order of a hash table and the random latencies with their
    sort. [Disk] says how much of its bytes a [write] takes. What the
    language leaves open is a parameter too: [Uninit], [Indeterminate] and [Unset]
    are members that are never set, [Image] and [Layout] the bytes of an object that
    [memcpy] copies.

    ** Bounds and fuel

    [grow] of LogManager runs on 32 steps; the capacity is multiplied by four in each
    and is below [2^32]. The loop over [write] gets the number of bytes, as every call
    takes one at least, and the scan of the log file the offset of its end, as every
    record is longer than that ([append_loop_run], [scan_records]). [apply_loop] gets the distance to the commit index, which
    each iteration shortens by one. [select_anchors] gets the number of groups and
    [assign_loop] the number of nodes: every iteration places one. [fill_loop]
    finishes with one step when the groups partition the nodes ([mapping_ok]); the
    rounds of phase 3 stop after ten without an improvement, and as the code gives no
    bound on the improvements their fuel is an argument. [GetValue] and
    [TryStripeGet] call each other; one level is enough ([reads_terminate]). The
    theorems on logs assume fewer than [2^27] entries, those on puts values whose
    fragments stay below 1 MiB, which is where the code drops a fragment.

    ** Not modelled

    - RCF/ and third-party/ are vendored. Sockets, server threads and connection pools
      are RCF's; a call is its bytes and their answer, or a failure.
    - Logging, the status and statistics printed by a store, an FSM or a recorder, and
      the sleeps between two polls, which change no state.
    - The measurement drivers of src/bench and the tests. Of
      bench_server_multiraft.cc the configuration and the order of the start are
      modelled.
    - [RaftManager] (group_manager.h) is declared without any definition; the source
      beside it belongs to a member [RaftRPCService] does not have.
    - lrc_group_builder.h declares data that nothing uses.
    - Destructors of other objects than entries, where they only free memory. *)

From stdpp Require Export base gmap list list_numbers numbers option sorting.
From Stdlib Require Export ZArith Lia.

#[export] Set Default Goal Selector "!".

(** ** Notation scope of the development *)
Declare Scope flex_scope.
Delimit Scope flex_scope with flex.
#[global] Open Scope Z_scope.

(** ** Machine integers.
    An unsigned [w]-bit integer of the source is a [Z] in [0, 2^w); the C++
    conversions are written out as reductions. [int] values are kept as the
    mathematical integer and reduced with [i32] where the source converts. *)
Definition u32 (z : Z) : Z := z mod 2 ^ 32.
Definition u64 (z : Z) : Z := z mod 2 ^ 64.
Definition i32 (z : Z) : Z := (z + 2 ^ 31) mod 2 ^ 32 - 2 ^ 31.
Definition is_u32 (z : Z) : Prop := 0 <= z < 2 ^ 32.

(** [std::min]/[std::max] are [Z.min]/[Z.max]; [bool] to [int] promotion. *)
Definition b2z (b : bool) : Z := if b then 1 else 0.

(** C++ [/] and [%] on signed operands truncate towards zero. *)
Definition cdiv (a b : Z) : Z := Z.quot a b.
Definition crem (a b : Z) : Z := Z.rem a b.

Ltac zdm := Z.to_euclidean_division_equations.

Lemma u32_small z : is_u32 z -> u32 z = z.
Proof. unfold is_u32, u32. intros. by apply Z.mod_small. Qed.

Lemma u64_small z : 0 <= z < 2 ^ 64 -> u64 z = z.
Proof. unfold u64. intros. by apply Z.mod_small. Qed.

Lemma u32_range z : is_u32 (u32 z).
Proof. unfold is_u32, u32. apply Z.mod_pos_bound. lia. Qed.

Lemma i32_small z : - 2 ^ 31 <= z < 2 ^ 31 -> i32 z = z.
Proof. unfold i32. intros. rewrite Z.mod_small; lia. Qed.

Lemma b2z_range b : 0 <= b2z b <= 1.
Proof. destruct b; simpl; lia. Qed.

(** ** Arrays indexed by [Z]: reading out of range is undefined behaviour and
    gives [None]; the write fails in the same way. *)
Definition arr_get {A} (l : list A) (i : Z) : option A :=
  if decide (0 <= i) then l !! Z.to_nat i else None.

Definition arr_set {A} (l : list A) (i : Z) (x : A) : option (list A) :=
  if decide (0 <= i < Z.of_nat (length l)) then Some (<[Z.to_nat i := x]> l) else None.

Section arrays.
Context {A : Type}.
Implicit Types (l : list A) (x y : A) (i j : Z).

Lemma arr_get_Some l i x :
  arr_get l i = Some x -> 0 <= i < Z.of_nat (length l).
Proof.
  unfold arr_get. case_decide; [|done]. intros Hl%lookup_lt_Some. lia.
Qed.

Lemma arr_get_is_Some l i :
  0 <= i < Z.of_nat (length l) -> is_Some (arr_get l i).
Proof.
  intros. unfold arr_get. rewrite decide_True by lia.
  apply lookup_lt_is_Some. lia.
Qed.

Lemma arr_get_None l i :
  arr_get l i = None <-> ~ (0 <= i < Z.of_nat (length l)).
Proof.
  split.
  - intros Hn Hi. destruct (arr_get_is_Some l i Hi). congruence.
  - intros Hi. destruct (arr_get l i) eqn:E; [|done].
    apply arr_get_Some in E. lia.
Qed.

Lemma arr_set_Some l i x l' :
  arr_set l i x = Some l' ->
  0 <= i < Z.of_nat (length l) /\ l' = <[Z.to_nat i := x]> l.
Proof. unfold arr_set. case_decide; [|done]. by intros [= <-]. Qed.

Lemma arr_set_in l i x :
  0 <= i < Z.of_nat (length l) -> arr_set l i x = Some (<[Z.to_nat i := x]> l).
Proof. intros. unfold arr_set. by rewrite decide_True. Qed.

Lemma arr_set_length l i x l' : arr_set l i x = Some l' -> length l' = length l.
Proof. intros [_ ->]%arr_set_Some. apply length_insert. Qed.

Lemma arr_get_set_eq l i x l' : arr_set l i x = Some l' -> arr_get l' i = Some x.
Proof.
  intros [Hi ->]%arr_set_Some. unfold arr_get. rewrite decide_True by lia.
  apply list_lookup_insert_eq. lia.
Qed.

Lemma arr_get_set_ne l i j x l' :
  i <> j -> arr_set l i x = Some l' -> arr_get l' j = arr_get l j.
Proof.
  intros Hne [Hi ->]%arr_set_Some. unfold arr_get.
  case_decide; [|done]. apply list_lookup_insert_ne. lia.
Qed.
End arrays.

(** ** Effects.
    A handler of the program runs on a state [S]; it either finishes with a
    value and the new state or hits a failed [assert], an [abort()], a null
    dereference or an out-of-range array access, which is [None]. *)
Definition M (S A : Type) : Type := S -> option (A * S).

Section monad.
Context {S : Type}.

Definition ret {A} (a : A) : M S A := fun s => Some (a, s).
Definition bind {A B} (m : M S A) (k : A -> M S B) : M S B :=
  fun s => match m s with Some (a, s') => k a s' | None => None end.
Definition crash {A} : M S A := fun _ => None.
Definition get : M S S := fun s => Some (s, s).
Definition gets {A} (f : S -> A) : M S A := fun s => Some (f s, s).
Definition modify (f : S -> S) : M S unit := fun s => Some (tt, f s).
Definition lift {A} (o : option A) : M S A :=
  fun s => match o with Some a => Some (a, s) | None => None end.
Definition assertM (b : bool) : M S unit := if b then ret tt else crash.
Definition when (b : bool) (m : M S unit) : M S unit := if b then m else ret tt.

(** [for (x : l) body], and the variant whose body answers [false] for [break]. *)
Fixpoint forM_ {X} (l : list X) (f : X -> M S unit) : M S unit :=
  match l with
  | [] => ret tt
  | x :: l => bind (f x) (fun _ => forM_ l f)
  end.

Fixpoint forM_break {X} (l : list X) (f : X -> M S bool) : M S unit :=
  match l with
  | [] => ret tt
  | x :: l => bind (f x) (fun go => if (go : bool) then forM_break l f else ret tt)
  end.
End monad.

Notation "x <- c ;; d" := (bind c (fun x => d))
  (at level 100, c at next level, right associativity) : flex_scope.
Notation "c ;;; d" := (bind c (fun _ => d))
  (at level 100, right associativity) : flex_scope.
#[global] Open Scope flex_scope.

(** ** Relational reasoning on handlers: [obeys R m] says that every run of [m]
    relates the state before and after by [R]; for a preorder [R] it is closed
    under the combinators, so a frame or monotonicity fact about a handler
    follows from its state updates alone. *)
Definition obeys {S A} (R : S -> S -> Prop) (m : M S A) : Prop :=
  forall s a s', m s = Some (a, s') -> R s s'.

Section obeys.
Context {S : Type} (R : S -> S -> Prop) `{!PreOrder R}.

Lemma obeys_ret {A} (a : A) : obeys R (ret a).
Proof. intros s b s' [= <- <-]. reflexivity. Qed.

Lemma obeys_crash {A} : obeys R (@crash S A).
Proof. intros s b s' [=]. Qed.

Lemma obeys_get : obeys R get.
Proof. intros s b s' [= <- <-]. reflexivity. Qed.

Lemma obeys_gets {A} (f : S -> A) : obeys R (gets f).
Proof. intros s b s' [= <- <-]. reflexivity. Qed.

Lemma obeys_lift {A} (o : option A) : obeys R (lift o).
Proof. unfold lift. intros s b s'. destruct o; intros [=]; subst. reflexivity. Qed.

Lemma obeys_modify (f : S -> S) : (forall s, R s (f s)) -> obeys R (modify f).
Proof. intros Hf s b s' [= <- <-]. apply Hf. Qed.

Lemma obeys_bind {A B} (m : M S A) (k : A -> M S B) :
  obeys R m -> (forall a, obeys R (k a)) -> obeys R (bind m k).
Proof.
  intros Hm Hk s b s'. unfold bind.
  destruct (m s) as [[a s1]|] eqn:E; [|done]. intros H.
  transitivity s1; [by eapply Hm | by eapply Hk].
Qed.

Lemma obeys_assert b : obeys R (assertM b).
Proof. destruct b; [apply obeys_ret | apply obeys_crash]. Qed.

Lemma obeys_when b m : obeys R m -> obeys R (when b m).
Proof. intros. destruct b; [done | apply obeys_ret]. Qed.

Lemma obeys_if {A} (b : bool) (m1 m2 : M S A) :
  obeys R m1 -> obeys R m2 -> obeys R (if b then m1 else m2).
Proof. by destruct b. Qed.

Lemma obeys_option {A B} (o : option A) (f : A -> M S B) (m : M S B) :
  (forall a, obeys R (f a)) -> obeys R m ->
  obeys R (match o with Some a => f a | None => m end).
Proof. by destruct o. Qed.

Lemma obeys_forM_ {X} (l : list X) (f : X -> M S unit) :
  (forall x, obeys R (f x)) -> obeys R (forM_ l f).
Proof.
  intros Hf. induction l as [|x l IH]; simpl; [apply obeys_ret|].
  by apply obeys_bind.
Qed.

Lemma obeys_forM_break {X} (l : list X) (f : X -> M S bool) :
  (forall x, obeys R (f x)) -> obeys R (forM_break l f).
Proof.
  intros Hf. induction l as [|x l IH]; simpl; [apply obeys_ret|].
  apply obeys_bind; [done|]. intros []; [done | apply obeys_ret].
Qed.
End obeys.

(** The combinator lemmas, as a hint database used by every component. *)
Create HintDb obeys discriminated.
#[export] Hint Resolve obeys_ret obeys_crash obeys_get obeys_gets obeys_lift
  obeys_assert : obeys.

(** The relation "this field did not change". *)
Definition same {S B} (f : S -> B) (s s' : S) : Prop := f s' = f s.
#[export] Instance same_preorder {S B} (f : S -> B) : PreOrder (same f).
Proof. split; [by intros ? | intros x y z; unfold same; congruence]. Qed.

(** Splits the goal [obeys R m] along the structure of [m]; [side] closes the
    state updates. *)
Ltac obeys_step :=
  match goal with
  | |- obeys _ (bind _ _) => apply obeys_bind; [apply _ | | intros ?]
  | |- obeys _ (when _ _) => apply obeys_when; [apply _ |]
  | |- obeys _ (forM_ _ _) => apply obeys_forM_; [apply _ | intros ?]
  | |- obeys _ (forM_break _ _) => apply obeys_forM_break; [apply _ | intros ?]
  | |- obeys _ (modify _) => apply obeys_modify; intros ?
  | |- obeys _ (if _ then _ else _) => apply obeys_if
  | |- obeys _ (match ?x with _ => _ end) => destruct x
  | |- obeys _ (let _ := _ in _) => cbv zeta
  | |- obeys _ _ => solve [eauto with obeys typeclass_instances]
  end.
Ltac obeys_tac := repeat obeys_step.

(** Inverts one successful run [m s = Some (a, s')] step by step. *)
Lemma bind_Some {S A B} (m : M S A) (k : A -> M S B) s b s' :
  bind m k s = Some (b, s') ->
  exists a s1, m s = Some (a, s1) /\ k a s1 = Some (b, s').
Proof.
  unfold bind. destruct (m s) as [[a s1]|]; [|done]. eauto.
Qed.

Ltac run_inv :=
  repeat match goal with
  | H : bind _ _ _ = Some _ |- _ =>
      let a := fresh "v" in let s1 := fresh "s" in
      apply bind_Some in H as (a & s1 & ? & H)
  | H : ret _ _ = Some _ |- _ => injection H as ? ?; subst
  | H : gets _ _ = Some _ |- _ => injection H as ? ?; subst
  | H : get _ = Some _ |- _ => injection H as ? ?; subst
  | H : modify _ _ = Some _ |- _ => injection H as ? ?; subst
  | H : crash _ = Some _ |- _ => discriminate H
  end.

(** Running a computation forwards. *)
Section run.
Context {S A B : Type}.
Implicit Types (s : S).

Lemma bind_run (m : M S A) (k : A -> M S B) s a s' : m s = Some (a, s') -> bind m k s = k a s'.
Proof. intros H. unfold bind. by rewrite H. Qed.

Lemma bind_get (k : S -> M S B) s : bind get k s = k s s.
Proof. done. Qed.

Lemma bind_ret (a : A) (k : A -> M S B) s : bind (ret a) k s = k a s.
Proof. done. Qed.

Lemma bind_modify f (k : unit -> M S B) s : bind (modify f) k s = k tt (f s).
Proof. done. Qed.

Lemma bind_lift (o : option A) (k : A -> M S B) s a : o = Some a -> bind (lift o) k s = k a s.
Proof. by intros ->. Qed.

Lemma bind_assert b (k : unit -> M S B) s : b = true -> bind (assertM b) k s = k tt s.
Proof. by intros ->. Qed.

Lemma bind_assoc {C} (m : M S A) (f : A -> M S B) (g : B -> M S C) s :
  bind (bind m f) g s = bind m (fun a => bind (f a) g) s.
Proof. unfold bind. by destruct (m s) as [[a s']|]. Qed.
End run.
(** ** Record update.
    [setter_of eta p] is the update function of field [p], read off the eta
    expansion [eta] of its record. *)
Ltac setter_of eta p :=
  let t := eval unfold eta in eta in
  let t := eval pattern p in t in
  lazymatch t with
  | ?f _ =>
      lazymatch type of p with
      | ?R -> ?T =>
          let r := eval cbv beta in (fun (v : T) (s : R) => f (fun _ : R => v) s) in
          exact r
      end
  end.

(** ** Lists *)
Section lists.
Context {A : Type}.
Implicit Types (l : list A).

Lemma lookup_take_full l n i x :
  take n l !! i = Some x <-> l !! i = Some x /\ (i < n)%nat.
Proof.
  rewrite lookup_take_Some. done.
Qed.

Lemma lookup_nth_lt l (i : nat) d : (i < length l)%nat -> l !! i = Some (nth i l d).
Proof.
  intros Hi. destruct (lookup_lt_is_Some_2 l i Hi) as [x Hx].
  by rewrite Hx, (nth_lookup_Some _ _ d _ Hx).
Qed.

(** A [NoDup] list all of whose elements lie in a second list is no longer. *)
Lemma NoDup_incl_le l (l' : list A) : NoDup l -> l ⊆ l' -> (length l <= length l')%nat.
Proof.
  intros Hn Hs. apply NoDup_ListNoDup in Hn.
  apply (List.NoDup_incl_length Hn). intros x Hx.
  apply list_elem_of_In. apply Hs. by apply list_elem_of_In.
Qed.
End lists.

Lemma Forall2_Forall_impl {A B} (P P' : A -> B -> Prop) (Q : A -> Prop) l k :
  Forall2 P l k -> Forall Q l -> (forall x y, P x y -> Q x -> P' x y) -> Forall2 P' l k.
Proof.
  intros HP HQ Himp. induction HP as [|x y l k Hxy _ IH]; [constructor|].
  apply Forall_cons in HQ as [Hx HQ]. constructor; auto.
Qed.

Lemma seqZ_seq (z : Z) : 0 <= z -> seqZ 0 z = Z.of_nat <$> seq 0 (Z.to_nat z).
Proof.
  intros Hz. apply list_eq. intros i. rewrite list_lookup_fmap.
  destruct (decide (i < Z.to_nat z)%nat).
  - rewrite lookup_seqZ_lt, lookup_seq_lt by lia. done.
  - rewrite lookup_seqZ_ge, lookup_seq_ge by lia. done.
Qed.

Lemma seqZ_snoc (n : Z) : 0 <= n -> seqZ 0 (n + 1) = seqZ 0 n ++ [n].
Proof. intros. rewrite seqZ_app by lia. done. Qed.
