(* ===== verification/Types.v ===== *)
(** Data model shared by every component: the integer types, [ChunkInfo],
    [FragmentPlacement], [LogEntry] and the RPC structures of
    src/raft/raft_type.h, src/raft/log_entry.h and src/raft/raft_struct.h.

    A [Slice] is represented by its bytes: every setter and copy operation of
    [LogEntry] deep-copies its argument, so a log entry owns its contents and two
    entries never share a buffer; Memory.v proves that the pointers and ownership
    flags of the classes behave like this, and when they do not. Bytes are [Z] in [0, 256). A slice that is null
    or empty is not [valid()] and is the empty list. Fields that the default
    constructor leaves uninitialised are 0 in the model. *)

From S2P Require Import Prelude.

(** ** raft_type.h *)
Inductive raft_entry_type := kNormal | kFragments | kTypeMax.

#[export] Instance raft_entry_type_eq_dec : EqDecision raft_entry_type.
Proof. solve_decision. Defined.

Record ChunkInfo := mkChunkInfo {
  GetK : Z;
  GetRaftIndex : Z;
  GetL : Z;
  GetR : Z;
  GetLrcGroupId : Z;
  GetKeySize : Z;
  GetTotalSize : Z
}.

#[export] Instance ChunkInfo_eq_dec : EqDecision ChunkInfo.
Proof. solve_decision. Defined.

(** [ChunkInfo{k, raft_index}] with the default member initialisers. *)
Definition ChunkInfo_init (k raft_index : Z) : ChunkInfo :=
  mkChunkInfo k raft_index 0 0 (-1) 0 0.

Definition ChunkInfo_eta (c : ChunkInfo) : ChunkInfo :=
  mkChunkInfo (GetK c) (GetRaftIndex c) (GetL c) (GetR c) (GetLrcGroupId c)
    (GetKeySize c) (GetTotalSize c).
Definition SetRaftIndex : Z -> ChunkInfo -> ChunkInfo := ltac:(setter_of ChunkInfo_eta GetRaftIndex).

Definition ChunkInfo_IsLrcEncoded (c : ChunkInfo) : bool :=
  bool_decide (GetLrcGroupId c >= 0) && bool_decide (GetL c > 0).

Definition ChunkInfo_eqb (a b : ChunkInfo) : bool :=
  bool_decide (GetK a = GetK b) && bool_decide (GetRaftIndex a = GetRaftIndex b) &&
  bool_decide (GetL a = GetL b) && bool_decide (GetR a = GetR b) &&
  bool_decide (GetLrcGroupId a = GetLrcGroupId b) &&
  bool_decide (GetKeySize a = GetKeySize b) &&
  bool_decide (GetTotalSize a = GetTotalSize b).

(** ** log_entry.h *)
Abbreviation Slice := (list Z).
Definition byte (z : Z) : Prop := 0 <= z < 256.
Abbreviation bytes := (Forall byte).

(** [valid()]: non-null and non-empty. *)
Definition valid (s : Slice) : bool := match s with [] => false | _ => true end.
Definition slice_size (s : Slice) : Z := Z.of_nat (length s).

Inductive PlacementKind := kData | kLocalParity | kGlobalParity.

#[export] Instance PlacementKind_eq_dec : EqDecision PlacementKind.
Proof. solve_decision. Defined.

Record FragmentPlacement := mkFragmentPlacement {
  frag_id : Z;
  local_group : Z;
  node_id : Z;
  kind : PlacementKind
}.

#[export] Instance FragmentPlacement_eq_dec : EqDecision FragmentPlacement.
Proof. solve_decision. Defined.

Record LogEntry := mkLogEntry {
  Term : Z;
  Index : Z;
  Type_ : raft_entry_type;
  GetChunkInfo : ChunkInfo;
  StartOffset : Z;
  CommandLength : Z;
  command_data_ : Slice;
  not_encoded_slice_ : Slice;
  fragment_slice_ : Slice;
  Fragments : list Slice;
  FragIds : list Z;
  Placement : list FragmentPlacement
}.

#[export] Instance LogEntry_eq_dec : EqDecision LogEntry.
Proof. solve_decision. Defined.

Definition LogEntry_eta (e : LogEntry) : LogEntry :=
  mkLogEntry (Term e) (Index e) (Type_ e) (GetChunkInfo e) (StartOffset e)
    (CommandLength e) (command_data_ e) (not_encoded_slice_ e) (fragment_slice_ e)
    (Fragments e) (FragIds e) (Placement e).

(** [LogEntry()]. *)
Definition LogEntry_default : LogEntry :=
  mkLogEntry 0 0 kNormal (ChunkInfo_init 0 0) 0 0 [] [] [] [] [] [].

Definition SetTerm : Z -> LogEntry -> LogEntry := ltac:(setter_of LogEntry_eta Term).
Definition SetIndex : Z -> LogEntry -> LogEntry := ltac:(setter_of LogEntry_eta Index).
Definition SetType : raft_entry_type -> LogEntry -> LogEntry := ltac:(setter_of LogEntry_eta Type_).
Definition SetChunkInfo : ChunkInfo -> LogEntry -> LogEntry := ltac:(setter_of LogEntry_eta GetChunkInfo).
Definition SetStartOffset : Z -> LogEntry -> LogEntry := ltac:(setter_of LogEntry_eta StartOffset).
Definition SetCommandLength : Z -> LogEntry -> LogEntry := ltac:(setter_of LogEntry_eta CommandLength).
Definition SetNotEncodedSlice : Slice -> LogEntry -> LogEntry := ltac:(setter_of LogEntry_eta not_encoded_slice_).
Definition SetFragmentSlice : Slice -> LogEntry -> LogEntry := ltac:(setter_of LogEntry_eta fragment_slice_).
Definition SetPlacement : list FragmentPlacement -> LogEntry -> LogEntry := ltac:(setter_of LogEntry_eta Placement).
Definition set_command_data_ : Slice -> LogEntry -> LogEntry := ltac:(setter_of LogEntry_eta command_data_).
Definition set_Fragments : list Slice -> LogEntry -> LogEntry := ltac:(setter_of LogEntry_eta Fragments).
Definition set_FragIds : list Z -> LogEntry -> LogEntry := ltac:(setter_of LogEntry_eta FragIds).

(** [SetCommandData] also resets [command_size_]. *)
Definition SetCommandData (s : Slice) (e : LogEntry) : LogEntry :=
  SetCommandLength (slice_size s) (set_command_data_ s e).

Definition is_kNormal (e : LogEntry) : bool := bool_decide (Type_ e = kNormal).

Definition CommandData (e : LogEntry) : Slice := if is_kNormal e then command_data_ e else [].
Definition NotEncodedSlice (e : LogEntry) : Slice :=
  if is_kNormal e then CommandData e else not_encoded_slice_ e.
Definition FragmentSlice (e : LogEntry) : Slice := if is_kNormal e then [] else fragment_slice_ e.
Definition IsLrcEncoded (e : LogEntry) : bool := ChunkInfo_IsLrcEncoded (GetChunkInfo e).

Definition AddFragmentWithId (fid : Z) (frag : Slice) (e : LogEntry) : LogEntry :=
  if valid frag
  then set_FragIds (FragIds e ++ [fid]) (set_Fragments (Fragments e ++ [frag]) e)
  else e.

(** The default id of a fragment is its position. *)
Definition AddFragment (frag : Slice) (e : LogEntry) : LogEntry :=
  AddFragmentWithId (Z.of_nat (length (Fragments e))) frag e.

(** [SetFragments] keeps at most 256 fragments and empties those of 1 MiB or more
    (and the invalid ones), with the id -1. *)
Definition kMaxFragments : nat := 256.
Definition SetFragments (frags : list Slice) (e : LogEntry) : LogEntry :=
  let keep f := valid f && (slice_size f <? 1024 * 1024) in
  let frags := take kMaxFragments frags in
  set_FragIds (imap (fun i f => if keep f then Z.of_nat i else -1) frags)
    (set_Fragments ((fun f => if keep f then f else []) <$> frags) e).

(** [LogEntry::GetFragmentsForNode] of log_entry.cc. *)
Definition LogEntry_GetFragmentsForNode (nid : Z) (e : LogEntry) : list Slice :=
  if negb (IsLrcEncoded e) || bool_decide (Placement e = []) then Fragments e
  else map snd (filter (fun pf => node_id (fst pf) = nid) (zip (Placement e) (Fragments e))).

(** ** raft_struct.h *)
Record RequestVoteArgs := mkRequestVoteArgs {
  rva_term : Z;
  rva_candidate_id : Z;
  rva_last_log_index : Z;
  rva_last_log_term : Z;
  rva_group_id : Z;
  rva_candidate_priority : Z
}.

Record RequestVoteReply := mkRequestVoteReply {
  rvr_term : Z;
  rvr_vote_granted : bool;
  rvr_reply_id : Z;
  rvr_group_id : Z
}.

Record AppendEntriesArgs := mkAppendEntriesArgs {
  aea_term : Z;
  aea_group_id : Z;
  aea_leader_id : Z;
  aea_prev_log_index : Z;
  aea_prev_log_term : Z;
  aea_prev_k : Z;
  aea_leader_commit : Z;
  aea_entry_cnt : Z;
  aea_entries : list LogEntry
}.

Record AppendEntriesReply := mkAppendEntriesReply {
  aer_term : Z;
  aer_success : bool;
  aer_expect_index : Z;
  aer_reply_id : Z;
  aer_group_id : Z;
  aer_chunk_info_cnt : Z;
  aer_chunk_infos : list ChunkInfo
}.

Record RequestFragmentsArgs := mkRequestFragmentsArgs {
  rfa_group_id : Z;
  rfa_term : Z;
  rfa_leader_id : Z;
  rfa_start_index : Z;
  rfa_last_index : Z
}.

Record RequestFragmentsReply := mkRequestFragmentsReply {
  rfr_reply_id : Z;
  rfr_term : Z;
  rfr_start_index : Z;
  rfr_success : bool;
  rfr_entry_cnt : Z;
  rfr_fragments : list LogEntry
}.

(** The user's command: [start_fragment_offset] bytes are replicated verbatim,
    the rest is erasure coded. *)
Record CommandData_t := mkCommandData {
  cd_start_fragment_offset : Z;
  cd_command_data : Slice
}.

(** ** Lemmas *)

(** The entries whose fragments and placement survive the limits of [SetFragments]
    and of the deserializer. *)
Record within_limits (e : LogEntry) : Prop := {
  wl_count : (length (Fragments e) <= kMaxFragments)%nat;
  wl_sizes : Forall (fun f => slice_size f < 1024 * 1024) (Fragments e);
  wl_placement : (length (Placement e) <= 256)%nat
}.

Lemma SetFragments_small frags e :
  (length frags <= kMaxFragments)%nat -> Forall (fun f => slice_size f < 1024 * 1024) frags ->
  Fragments (SetFragments frags e) = frags.
Proof.
  intros Hn Hs. unfold SetFragments. cbv zeta. rewrite firstn_all2 by done. destruct e. cbn.
  clear Hn. induction Hs as [|f fs Hf _ IH]; [done|]. cbn. rewrite IH. f_equal.
  rewrite (proj2 (Z.ltb_lt _ _)) by done. by destruct f.
Qed.

(** The ids sent: those of the entry, completed by position. *)
Definition sent_ids (e : LogEntry) : list Z := imap (fun i _ => default (Z.of_nat i) (FragIds e !! i)) (Fragments e).

Lemma length_sent_ids e : length (sent_ids e) = length (Fragments e).
Proof. apply length_imap. Qed.

Lemma AddFragment_ids e frag :
  FragIds e = Z.of_nat <$> seq 0 (length (Fragments e)) ->
  FragIds (AddFragment frag e) = Z.of_nat <$> seq 0 (length (Fragments (AddFragment frag e))).
Proof.
  intros H. unfold AddFragment, AddFragmentWithId. destruct (valid frag); [|done].
  cbn. rewrite H, length_app, seq_app, fmap_app. done.
Qed.

Lemma ChunkInfo_eqb_eq a b : ChunkInfo_eqb a b = true <-> a = b.
Proof.
  unfold ChunkInfo_eqb. rewrite !andb_True || idtac.
  destruct a, b; cbn. split.
  - intros H. repeat (apply andb_prop in H as [H ?]).
    repeat match goal with X : bool_decide _ = true |- _ => apply bool_decide_eq_true in X end.
    congruence.
  - intros [=]. subst. by rewrite !bool_decide_eq_true_2.
Qed.
