(* ===== verification/Bytes.v ===== *)
(** Byte strings: fixed-width little-endian integers as serializer.h and
    stripe_format.cc write them, decimal numbers of [std::to_string], and a reader
    monad for the parsers.

    A parser runs on the bytes from its position to the end of its buffer and
    either succeeds, refuses the input ([return false], [return nullptr]) or is
    undefined: it reads past the end, or converts to an enumerator that does not
    exist. [exact r n bs a] says that [r] reads [a] from the [n] bytes [bs] and
    that it refuses every strict prefix of them, so round trips and the rejection
    of truncated inputs follow from the same composition lemmas. *)

From stdpp Require Import pretty strings.
From Stdlib Require Import Ascii.
From Stdlib Require String.
Export String.StringSyntax.
From S2P Require Import Prelude Types.

(** ** Fixed-width integers *)
Fixpoint le (n : nat) (z : Z) : Slice :=
  match n with
  | O => []
  | S n => z mod 256 :: le n (z / 256)
  end.

Fixpoint unle (bs : Slice) : Z :=
  match bs with
  | [] => 0
  | b :: bs => b + 256 * unle bs
  end.

(** [EncodeFixed32], [DecodeFixed32] and their 64-bit versions; a decoder applied
    to fewer bytes reads past the end. *)
Definition EncodeFixed32 (value : Z) : Slice := le 4 value.
Definition EncodeFixed64 (value : Z) : Slice := le 8 value.
Definition DecodeFixed32 (src : Slice) : option Z :=
  if (4 <=? length src)%nat then Some (unle (take 4 src)) else None.
Definition DecodeFixed64 (src : Slice) : option Z :=
  if (8 <=? length src)%nat then Some (unle (take 8 src)) else None.

(** The values of an [int]. *)
Definition is_int (z : Z) : Prop := - 2 ^ 31 <= z < 2 ^ 31.

Lemma length_le n z : length (le n z) = n.
Proof. revert z. induction n as [|n IH]; intros z; cbn; [done|]. by rewrite IH. Qed.

Lemma le_bytes n z : bytes (le n z).
Proof.
  revert z. induction n as [|n IH]; intros z; cbn; constructor; [|apply IH].
  apply Z.mod_pos_bound. lia.
Qed.

Lemma unle_le n z : unle (le n z) = z mod 256 ^ Z.of_nat n.
Proof.
  revert z. induction n as [|n IH]; intros z.
  - cbn. by rewrite Z.mod_1_r.
  - cbn [le unle]. rewrite IH, Nat2Z.inj_succ, Z.pow_succ_r by lia.
    by rewrite Z.rem_mul_r by lia.
Qed.

Lemma unle_le_small n z : 0 <= z < 256 ^ Z.of_nat n -> unle (le n z) = z.
Proof. intros. rewrite unle_le. by apply Z.mod_small. Qed.

Lemma le_unle bs : bytes bs -> le (length bs) (unle bs) = bs.
Proof.
  induction 1 as [|b bs Hb _ IH]; [done|]. cbn [length unle le]. unfold byte in Hb.
  rewrite (Z.mul_comm 256), Z.div_add, Z.mod_add by lia.
  by rewrite Z.mod_small, Z.div_small, Z.add_0_l, IH by lia.
Qed.

Lemma le_inj n a b : 0 <= a < 256 ^ Z.of_nat n -> 0 <= b < 256 ^ Z.of_nat n -> le n a = le n b -> a = b.
Proof. intros Ha Hb He. by rewrite <- (unle_le_small n a), <- (unle_le_small n b), He. Qed.

Lemma unle_bound bs : bytes bs -> 0 <= unle bs < 256 ^ Z.of_nat (length bs).
Proof.
  induction 1 as [|b bs Hb _ IH]; [cbn; lia|]. cbn [length unle]. unfold byte in Hb.
  rewrite Nat2Z.inj_succ, Z.pow_succ_r by lia. lia.
Qed.

Lemma Decode_EncodeFixed32 v rest : is_u32 v -> DecodeFixed32 (EncodeFixed32 v ++ rest) = Some v.
Proof.
  intros Hv. unfold DecodeFixed32, EncodeFixed32. rewrite length_app, length_le.
  rewrite take_app_length' by (by rewrite length_le). cbn [Nat.leb Nat.add]. by rewrite unle_le_small.
Qed.

(** ** Literals and decimal numbers *)
Definition str (s : string) : Slice := (fun c => Z.of_N (N_of_ascii c)) <$> String.list_ascii_of_string s.

Arguments str s%_string.

Definition to_string (z : Z) : Slice := str (pretty z).

#[export] Instance str_inj : Inj (=) (=) str.
Proof.
  assert (forall l l' : list ascii, (fun c => Z.of_N (N_of_ascii c)) <$> l = (fun c => Z.of_N (N_of_ascii c)) <$> l' -> l = l')
    as Hl.
  { induction l as [|a l IH]; intros [|b l']; cbn; try done. intros [= Hab Hl]. f_equal; [|by apply IH].
    apply N2Z.inj in Hab. by rewrite <- (ascii_N_embedding a), Hab, ascii_N_embedding. }
  intros a b H. apply Hl in H. by rewrite <- (String.string_of_list_ascii_of_string a), H,
    String.string_of_list_ascii_of_string.
Qed.

#[export] Instance to_string_inj : Inj (=) (=) to_string.
Proof. intros a b H. by apply str_inj, (inj pretty) in H. Qed.

Definition slash : Z := 47.

Definition digit_or_dash (b : Z) : Prop := 48 <= b <= 57 \/ b = 45.

Lemma str_app a b : str (a +:+ b) = str a ++ str b.
Proof.
  induction a as [|c a IH]; [done|]. change (str (String c a +:+ b)) with (str (String c "") ++ str (a +:+ b)).
  by rewrite IH.
Qed.

Lemma pretty_N_go_digits x : forall s, Forall digit_or_dash (str s) -> Forall digit_or_dash (str (pretty_N_go x s)).
Proof.
  induction (N.lt_wf_0 x) as [x _ IH]. intros s Hs.
  assert (x = 0 \/ 0 < x)%N as [->|Hx] by lia; [by rewrite pretty_N_go_0|].
  rewrite pretty_N_go_step by done. apply IH; [by apply N.div_lt|].
  cbn. constructor; [|exact Hs]. left. unfold pretty_N_char.
  repeat case_match; cbn; lia.
Qed.

Lemma to_string_digits z : Forall digit_or_dash (to_string z).
Proof.
  assert (forall n : N, Forall digit_or_dash (str (pretty n))) as Hn.
  { intros n. unfold pretty, pretty_N. case_decide; [apply Forall_singleton; left; cbn; lia|].
    apply pretty_N_go_digits. constructor. }
  unfold to_string, pretty, pretty_Z. destruct z as [|p|p].
  - apply Forall_singleton. left. cbn. lia.
  - apply Hn.
  - rewrite str_app. apply Forall_app. split; [apply Forall_singleton; right; reflexivity|apply Hn].
Qed.

(** The number in front of a slash can be read off. *)
Lemma to_string_slash a b x y :
  to_string a ++ slash :: x = to_string b ++ slash :: y -> a = b /\ x = y.
Proof.
  assert (forall l l', Forall digit_or_dash l -> Forall digit_or_dash l' ->
    l ++ slash :: x = l' ++ slash :: y -> l = l' /\ x = y) as H.
  { induction l as [|c l IH]; intros [|c' l'] Hl Hl'; cbn.
    - by intros [= ->].
    - intros [= <- _]. apply Forall_inv in Hl'. unfold digit_or_dash, slash in Hl'. lia.
    - intros [= -> _]. apply Forall_inv in Hl. unfold digit_or_dash, slash in Hl. lia.
    - intros [= -> He]. apply Forall_inv_tail in Hl. apply Forall_inv_tail in Hl'.
      destruct (IH l' Hl Hl' He). by subst. }
  intros He. apply H in He as [He Hxy]; [|apply to_string_digits..]. split; [by apply to_string_inj|done].
Qed.

(** ** Readers *)
Inductive outcome (A : Type) := Ok (a : A) | Reject | Undef.
Arguments Ok {A} a.
Arguments Reject {A}.
Arguments Undef {A}.

Definition Reader (A : Type) : Type := Slice -> outcome (A * Slice).

Definition rret {A} (a : A) : Reader A := fun p => Ok (a, p).
Definition rbind {A B} (r : Reader A) (k : A -> Reader B) : Reader B :=
  fun p => match r p with Ok (a, p) => k a p | Reject => Reject | Undef => Undef end.
Definition rfail {A} : Reader A := fun _ => Reject.
Definition rundef {A} : Reader A := fun _ => Undef.

Declare Scope reader_scope.
Delimit Scope reader_scope with reader.
Notation "'let?' x := r 'in' k" := (rbind r (fun x => k))
  (at level 10, x pattern, r at level 100, k at level 200) : reader_scope.
#[global] Open Scope reader_scope.

(** [n] bytes; [short] is what happens when there are fewer. *)
Definition read_bytes (short : outcome (Slice * Slice)) (n : Z) : Reader Slice :=
  fun p => if n <=? slice_size p then Ok (take (Z.to_nat n) p, drop (Z.to_nat n) p) else short.

Definition read_le (short : outcome (Slice * Slice)) (n : Z) : Reader Z :=
  let? bs := read_bytes short n in rret (unle bs).

(** At least [n] bytes must be left. *)
Definition need (n : Z) : Reader unit := fun p => if slice_size p <? n then Reject else Ok (tt, p).

(** [n] times [r]. *)
Fixpoint read_list {A} (n : nat) (r : Reader A) : Reader (list A) :=
  match n with
  | O => rret []
  | S n => let? a := r in let? l := read_list n r in rret (a :: l)
  end.

(** A parser that is given the sub-buffer [bs] and whose position is dropped. *)
Definition run_on {A} (r : Reader A) (bs : Slice) : Reader A :=
  fun p => match r bs with Ok (a, _) => Ok (a, p) | Reject => Reject | Undef => Undef end.

(** [PlacementKind] as the integer of the enumeration. *)
Definition kind_to_Z (k : PlacementKind) : Z :=
  match k with kData => 0 | kLocalParity => 1 | kGlobalParity => 2 end.
Definition kind_of_Z (z : Z) : Reader PlacementKind :=
  if z =? 0 then rret kData else if z =? 1 then rret kLocalParity
  else if z =? 2 then rret kGlobalParity else rundef.

(** ** Composition *)
Definition reads {A} (r : Reader A) (bs : Slice) (a : A) : Prop := forall rest, r (bs ++ rest) = Ok (a, rest).

Record exact {A} (r : Reader A) (bs : Slice) (a : A) : Prop := {
  ex_reads : reads r bs a;
  ex_short : forall p q, bs = p ++ q -> q <> [] -> r p = Reject
}.

Lemma reads_ret {A} (a : A) : reads (rret a) [] a.
Proof. by intros rest. Qed.

Lemma reads_bind {A B} (r : Reader A) (k : A -> Reader B) bs bs' a b :
  reads r bs a -> reads (k a) bs' b -> reads (rbind r k) (bs ++ bs') b.
Proof. intros Hr Hk rest. unfold rbind. by rewrite <- app_assoc, Hr, Hk. Qed.

Lemma exact_ret {A} (a : A) : exact (rret a) [] a.
Proof. split; [apply reads_ret|]. intros [|x p] [|y q]; done. Qed.

Lemma exact_bind {A B} (r : Reader A) (k : A -> Reader B) bs bs' a b :
  exact r bs a -> exact (k a) bs' b -> exact (rbind r k) (bs ++ bs') b.
Proof.
  intros [Hr Hs] [Hk Hs']. split; [by eapply reads_bind|].
  intros p q Hpq Hq. apply app_eq_inv in Hpq as [(l & Hp & Hq')|(l & Hp & Hq')].
  - unfold rbind. destruct l as [|x l].
    + rewrite app_nil_r in Hp. subst p. rewrite <- (app_nil_r bs), Hr. apply (Hs' [] bs'); [done|].
      cbn in Hq'. by rewrite <- Hq'.
    + by rewrite (Hs p (x :: l)).
  - subst p. unfold rbind. rewrite Hr. by apply (Hs' l q).
Qed.

Lemma exact_bind_last {A B} (r : Reader A) (k : A -> Reader B) bs a b :
  exact r bs a -> exact (k a) [] b -> exact (rbind r k) bs b.
Proof. intros Hr Hk. rewrite <- (app_nil_r bs). by eapply exact_bind. Qed.

Lemma reads_bytes short bs n : n = slice_size bs -> reads (read_bytes short n) bs bs.
Proof.
  intros -> rest. unfold read_bytes, slice_size. rewrite length_app, Nat2Z.id, (proj2 (Z.leb_le _ _)) by lia.
  by rewrite take_app_length, drop_app_length.
Qed.

Lemma exact_bytes bs n : n = slice_size bs -> exact (read_bytes Reject n) bs bs.
Proof.
  intros Hn. split; [by apply reads_bytes|]. intros p q Hpq Hq. unfold read_bytes.
  rewrite (proj2 (Z.leb_gt _ _)); [done|]. rewrite Hn, Hpq. unfold slice_size. rewrite length_app.
  destruct q; [done|]. cbn. lia.
Qed.

Lemma reads_le short n z : 0 <= z < 256 ^ Z.of_nat n -> reads (read_le short (Z.of_nat n)) (le n z) z.
Proof.
  intros Hz. unfold read_le. rewrite <- (app_nil_r (le n z)). eapply reads_bind.
  - apply reads_bytes. unfold slice_size. by rewrite length_le.
  - rewrite unle_le_small by done. apply reads_ret.
Qed.

Lemma exact_le n z : 0 <= z < 256 ^ Z.of_nat n -> exact (read_le Reject (Z.of_nat n)) (le n z) z.
Proof.
  intros Hz. apply exact_bind_last with (a := le n z).
  - apply exact_bytes. unfold slice_size. by rewrite length_le.
  - rewrite unle_le_small by done. apply exact_ret.
Qed.

Lemma exact_list {A} (r : Reader A) (enc : A -> Slice) (l : list A) n :
  n = length l -> (forall a, a ∈ l -> exact r (enc a) a) -> exact (read_list n r) (concat (enc <$> l)) l.
Proof.
  intros ->. induction l as [|a l IH]; intros Hr; cbn; [apply exact_ret|].
  eapply exact_bind; [apply Hr; by left|].
  eapply exact_bind_last; [apply IH; intros; apply Hr; by right|apply exact_ret].
Qed.

Lemma reads_list {A} (r : Reader A) (enc : A -> Slice) (l : list A) n :
  n = length l -> (forall a, a ∈ l -> reads r (enc a) a) -> reads (read_list n r) (concat (enc <$> l)) l.
Proof.
  intros ->. induction l as [|a l IH]; intros Hr; cbn; [apply reads_ret|].
  eapply reads_bind; [apply Hr; by left|]. rewrite <- (app_nil_r (concat _)).
  eapply reads_bind; [apply IH; intros; apply Hr; by right|apply reads_ret].
Qed.

Lemma reads_run_on {A} (r : Reader A) bs a : reads r bs a -> reads (run_on r bs) [] a.
Proof. intros Hr rest. unfold run_on. by rewrite <- (app_nil_r bs), Hr. Qed.

Lemma exact_run_on {A} (r : Reader A) bs a : reads r bs a -> exact (run_on r bs) [] a.
Proof. intros Hr. split; [by apply reads_run_on|]. intros [|x p] [|y q]; done. Qed.

Lemma exact_kind k : exact (kind_of_Z (kind_to_Z k)) [] k.
Proof. destruct k; apply exact_ret. Qed.


Lemma slice_size_app (a b : Slice) : slice_size (a ++ b) = slice_size a + slice_size b.
Proof. unfold slice_size. rewrite length_app. lia. Qed.

Lemma slice_size_le n z : slice_size (le n z) = Z.of_nat n.
Proof. unfold slice_size. by rewrite length_le. Qed.

Lemma slice_size_nonneg (a : Slice) : 0 <= slice_size a.
Proof. unfold slice_size. lia. Qed.

Lemma slice_size_app_ge (a b : Slice) : slice_size a <= slice_size (a ++ b).
Proof. rewrite slice_size_app. pose proof (slice_size_nonneg b). lia. Qed.

Lemma exact_bind_nil {A B} (r : Reader A) (k : A -> Reader B) bs a b :
  exact r [] a -> exact (k a) bs b -> exact (rbind r k) bs b.
Proof. intros Hr Hk. change bs with ([] ++ bs). by eapply exact_bind. Qed.

Lemma exact_byte b : byte b -> exact (read_le Reject 1) [b] b.
Proof.
  unfold byte. intros Hb. replace [b] with (le 1 b) by (cbn; by rewrite Z.mod_small).
  apply (exact_le 1). exact Hb.
Qed.

Lemma i32_u32 z : - 2 ^ 31 <= z < 2 ^ 31 -> i32 (u32 z) = z.
Proof. intros. unfold i32, u32. rewrite Zplus_mod_idemp_l. by apply i32_small. Qed.

(** A length-prefixed string read in two steps. *)
Lemma exact_bind_assoc {A B} (r : Reader A) (k : A -> Reader B) bs bs' rest a b :
  exact r (bs ++ bs') a -> exact (k a) rest b -> exact (rbind r k) (bs ++ bs' ++ rest) b.
Proof. rewrite app_assoc. apply exact_bind. Qed.

(** Finishes a reader all of whose pieces are consumed. *)
Ltac exact_steps field :=
  repeat first
    [ apply exact_ret
    | eapply exact_bind_nil; [solve [apply exact_kind]|]
    | eapply exact_bind; [solve [field]|]
    | eapply exact_bind_assoc; [solve [field]|]
    | eapply exact_bind_last; [solve [field]|] ].

(** ** Composition without the rejection of prefixes *)
Lemma reads_bind_nil {A B} (r : Reader A) (k : A -> Reader B) bs a b :
  reads r [] a -> reads (k a) bs b -> reads (rbind r k) bs b.
Proof. intros Hr Hk. change bs with ([] ++ bs). by eapply reads_bind. Qed.

Lemma reads_bind_last {A B} (r : Reader A) (k : A -> Reader B) bs a b :
  reads r bs a -> reads (k a) [] b -> reads (rbind r k) bs b.
Proof. intros Hr Hk. rewrite <- (app_nil_r bs). by eapply reads_bind. Qed.

Lemma reads_bind_assoc {A B} (r : Reader A) (k : A -> Reader B) bs bs' rest a b :
  reads r (bs ++ bs') a -> reads (k a) rest b -> reads (rbind r k) (bs ++ bs' ++ rest) b.
Proof. rewrite app_assoc. apply reads_bind. Qed.

Lemma le_mod n z : le n (z mod 256 ^ Z.of_nat n) = le n z.
Proof.
  revert z. induction n as [|n IH]; intros z; [done|]. cbn [le].
  rewrite Nat2Z.inj_succ, Z.pow_succ_r by lia. rewrite Z.rem_mul_r by lia.
  set (q := (z / 256) mod _). rewrite (Z.mul_comm 256 q), Z.mod_add, Z.mod_mod, Z.div_add by lia.
  rewrite (Z.div_small (z mod 256)) by (apply Z.mod_pos_bound; lia). unfold q. by rewrite Z.add_0_l, IH.
Qed.

Lemma reads_byte short b : byte b -> reads (read_le short 1) [b] b.
Proof.
  unfold byte. intros Hb. replace [b] with (le 1 b) by (cbn; by rewrite Z.mod_small).
  apply (reads_le short 1). exact Hb.
Qed.

Lemma rbind_reads {A B} (r : Reader A) (k : A -> Reader B) bs rest a :
  reads r bs a -> rbind r k (bs ++ rest) = k a rest.
Proof. intros Hr. unfold rbind. by rewrite Hr. Qed.

Ltac reads_steps field :=
  repeat first
    [ apply reads_ret
    | eapply reads_bind_nil; [solve [field]|]
    | eapply reads_bind; [solve [field]|]
    | eapply reads_bind_assoc; [solve [field]|]
    | eapply reads_bind_last; [solve [field]|] ].

Lemma reads_need {A} n (r : Reader A) bs a : n <= slice_size bs -> reads r bs a -> reads (let? _ := need n in r) bs a.
Proof.
  intros Hn Hr rest. unfold rbind at 1, need. rewrite slice_size_app, (proj2 (Z.ltb_ge _ _)); [apply Hr|].
  pose proof (slice_size_nonneg rest). lia.
Qed.
