(* ===== verification/Separation.v ===== *)
(** A separation logic for memory made of blocks, and weakest preconditions of
    computations on it.

    An assertion is a predicate on heaps; it describes exactly the blocks it owns
    (no block is ever dropped, so what a program leaks stays visible). [wp c Φ]
    holds of the heaps on which [c], run with any other blocks beside them, is
    defined, leaves those other blocks alone and ends in [Φ]. The assertions form a
    [bi], which gives them the proof mode of Iris. *)

From stdpp Require Import gmap.
From iris.proofmode Require Import proofmode.
From S2P Require Import Prelude.

(** ** Assertions *)
Abbreviation Heap := (gmap Z (list Z)).

Record hprop := Hprop { holds : Heap -> Prop }.
Add Printing Constructor hprop.
Bind Scope bi_scope with hprop.

Section connectives.
Implicit Types (P Q : hprop) (h : Heap).

Record hp_equiv P Q : Prop := { in_equiv : forall h, holds P h <-> holds Q h }.
#[export] Instance hprop_equiv : Equiv hprop := hp_equiv.
#[export] Instance hprop_dist : Dist hprop := discrete_dist.

Record hp_entails P Q : Prop := { in_entails : forall h, holds P h -> holds Q h }.
Definition hp_emp : hprop := Hprop (fun h => h = ∅).
Definition hp_pure (φ : Prop) : hprop := Hprop (fun _ => φ).
Definition hp_and P Q : hprop := Hprop (fun h => holds P h /\ holds Q h).
Definition hp_or P Q : hprop := Hprop (fun h => holds P h \/ holds Q h).
Definition hp_impl P Q : hprop := Hprop (fun h => holds P h -> holds Q h).
Definition hp_forall {A} (Φ : A -> hprop) : hprop := Hprop (fun h => forall a, holds (Φ a) h).
Definition hp_exist {A} (Φ : A -> hprop) : hprop := Hprop (fun h => exists a, holds (Φ a) h).
Definition hp_sep P Q : hprop :=
  Hprop (fun h => exists h1 h2, h = h1 ∪ h2 /\ h1 ##ₘ h2 /\ holds P h1 /\ holds Q h2).
Definition hp_wand P Q : hprop :=
  Hprop (fun h => forall h', h ##ₘ h' -> holds P h' -> holds Q (h ∪ h')).
Definition hp_persistently P : hprop := hp_pure (hp_entails hp_emp P).
Definition hp_later P : hprop := P.
End connectives.

(** ** The logic *)
Lemma hprop_equivalence : @Equivalence hprop (≡).
Proof.
  split; [by intros P|intros P Q [H]; split; intros h; by rw (H h)|].
  intros P Q R [H1] [H2]. split. intros h. by rw (H1 h) (H2 h).
Qed.

#[warnings="-redundant-canonical-projection"]
Canonical Structure hpropO : ofe := Ofe hprop (discrete_ofe_mixin hprop_equivalence).

Lemma hprop_bi_mixin :
  BiMixin hp_entails hp_emp hp_pure hp_and hp_or hp_impl (@hp_forall) (@hp_exist) hp_sep hp_wand.
Proof.
  unfold hp_emp, hp_pure, hp_and, hp_or, hp_impl, hp_forall, hp_exist, hp_sep, hp_wand.
  split; cbn.
  - split; [by intros P|intros P Q R [H1] [H2]; split; auto].
  - intros P Q. split; [intros [H]; split; split; intros h; apply H|intros [[H1] [H2]]; split; split; auto].
  - intros n φ ψ Hφ. by split.
  - intros n P P' [HP] Q Q' [HQ]. split. intros h. cbn. by rw (HP h) (HQ h).
  - intros n P P' [HP] Q Q' [HQ]. split. intros h. cbn. by rw (HP h) (HQ h).
  - intros n P P' [HP] Q Q' [HQ]. split. intros h. cbn. by rw (HP h) (HQ h).
  - intros A n Φ Ψ H. split. intros h. split; intros Ha a; by apply (H a).
  - intros A n Φ Ψ H. split. intros h. split; intros [a Ha]; exists a; by apply (H a).
  - intros n P P' [HP] Q Q' [HQ]. split. intros h. split; intros (h1 & h2 & ? & ? & ? & ?); exists h1, h2;
      split_and!; try done; by first [apply (HP h1)|apply (HQ h2)].
  - intros n P P' [HP] Q Q' [HQ]. split. intros h. split; intros H h' Hd Hp; apply (HQ _), H; try done; by apply (HP h').
  - intros φ P Hφ. by split.
  - intros φ P H. split. intros h Hφ. by apply H.
  - intros P Q. by split; intros h [? _].
  - intros P Q. by split; intros h [_ ?].
  - intros P Q R [H1] [H2]. split. intros h H. split; auto.
  - intros P Q. split. by left.
  - intros P Q. split. by right.
  - intros P Q R [H1] [H2]. split. intros h [H|H]; auto.
  - intros P Q R [H]. split. intros h Hp Hq. by apply H.
  - intros P Q R [H]. split. intros h [Hp Hq]. by apply H.
  - intros A P Ψ H. split. intros h Hp a. by apply H.
  - intros A Ψ a. split. intros h H. apply H.
  - intros A Ψ a. split. intros h H. by exists a.
  - intros A Φ Q H. split. intros h [a Ha]. by apply (H a).
  - intros P P' Q Q' [H1] [H2]. split. intros h (h1 & h2 & ? & ? & ? & ?). exists h1, h2. split_and!; auto.
  - intros P. split. intros h H. exists ∅, h. rw left_id_L. split_and!; try done. apply map_disjoint_empty_l.
  - intros P. split. intros h (h1 & h2 & -> & _ & H & ?). cbn in H. by rw H left_id_L.
  - intros P Q. split. intros h (h1 & h2 & -> & ? & ? & ?). exists h2, h1. by rw map_union_comm.
  - intros P Q R. split. intros h (h12 & h3 & -> & Hd & (h1 & h2 & -> & ? & ? & ?) & ?).
    apply map_disjoint_union_l in Hd as [? ?]. exists h1, (h2 ∪ h3). rw assoc_L. split_and!; try done.
    + by apply map_disjoint_union_r.
    + by exists h2, h3.
  - intros P Q R [H]. split. intros h Hp h' Hd Hq. apply H. by exists h, h'.
  - intros P Q R [H]. split. intros h (h1 & h2 & -> & Hd & Hp & Hq). by apply (H _ Hp).
Qed.

Lemma hprop_persistently_mixin :
  BiPersistentlyMixin hp_entails hp_emp hp_and (@hp_exist) hp_sep hp_persistently.
Proof.
  eapply bi_persistently_mixin_discrete, hprop_bi_mixin; [done| |done].
  intros A Φ [H]. destruct (H ∅ eq_refl) as [a Ha]. exists a. split. intros h Hh. cbn in Hh. by rw Hh.
Qed.

Lemma hprop_later_mixin :
  BiLaterMixin hp_entails hp_pure hp_or hp_impl (@hp_forall) (@hp_exist) hp_sep hp_persistently hp_later.
Proof. eapply bi_later_mixin_id, hprop_bi_mixin. done. Qed.

Canonical Structure hpropI : bi :=
  {| bi_ofe_mixin := discrete_ofe_mixin hprop_equivalence; bi_bi_mixin := hprop_bi_mixin;
     bi_bi_persistently_mixin := hprop_persistently_mixin; bi_bi_later_mixin := hprop_later_mixin |}.

#[export] Instance hprop_pure_forall : BiPureForall hpropI.
Proof. intros A φ. split. intros h H a. by apply H. Qed.

(** ** Blocks and weakest preconditions *)
Definition block_at (a : Z) (bs : list Z) : hprop := Hprop (fun h => h = {[a := bs]}).
Notation "a ↦ bs" := (block_at a bs) (at level 20) : bi_scope.

Definition wp {A} (c : M Heap A) (Φ : A -> hprop) : hprop :=
  Hprop (fun h => forall hf, h ##ₘ hf -> exists a h',
    c (h ∪ hf) = Some (a, h' ∪ hf) /\ h' ##ₘ hf /\ holds (Φ a) h').

Section rules.
Context {A B : Type}.
Implicit Types (Φ : A -> hprop).

Lemma wp_ret a Φ : Φ a ⊢ wp (ret a) Φ.
Proof. split. intros h H hf Hd. by exists a, h. Qed.

Lemma wp_bind (c : M Heap B) (k : B -> M Heap A) Φ : wp c (fun b => wp (k b) Φ) ⊢ wp (bind c k) Φ.
Proof.
  split. intros h H hf Hd. destruct (H hf Hd) as (b & h1 & Hc & Hd1 & H1).
  destruct (H1 hf Hd1) as (a & h2 & Hk & Hd2 & H2). exists a, h2. split; [|done].
  by rw (bind_run _ _ _ _ _ Hc).
Qed.

(** What a computation does not touch is still there afterwards. *)
Lemma wp_wand (c : M Heap A) Φ Ψ : wp c Φ ∗ (∀ a, Φ a -∗ Ψ a) ⊢ wp c Ψ.
Proof.
  split. intros h (h1 & h2 & -> & Hd & Hc & Hw) hf Hdf. apply map_disjoint_union_l in Hdf as [Hd1 Hd2].
  destruct (Hc (h2 ∪ hf)) as (a & h' & Hrun & Hd' & Ha); [by apply map_disjoint_union_r|].
  apply map_disjoint_union_r in Hd' as [Hd2' Hdf']. exists a, (h' ∪ h2). split_and!.
  - by rw -!assoc_L.
  - by apply map_disjoint_union_l.
  - rw map_union_comm //. by apply Hw.
Qed.

(** A computation on its own, from the empty heap. *)
Lemma wp_adequacy (c : M Heap A) Φ : (emp ⊢ wp c Φ) -> exists a h, c ∅ = Some (a, h) /\ holds (Φ a) h.
Proof.
  intros [H]. destruct (H ∅ eq_refl ∅) as (a & h & Hc & _ & Ha); [apply map_disjoint_empty_l|].
  rw left_id_L right_id_L in Hc. by exists a, h.
Qed.
End rules.
