(* ===== verification/StripeFormat.v ===== *)
(** The byte formats of the multi-raft layer (src/multi-raft/stripe_format.{h,cc},
    encoding_mode.h): the write command a client's put is proposed as, the metadata
    of a stripe, the fragments packed for one node, the merged record of the key
    value store, and the keys all of them are stored under.

    Lengths and 32-bit fields take eight bytes each. A [size_t] larger than 32 bits
    is truncated when it is written. Memory allocation ([reserve] with a count read
    from the input) is assumed to succeed. *)

From S2P Require Import Prelude Types Bytes.

(** ** encoding_mode.h.
    The enumeration has the underlying type [uint8_t]: a byte read from the input
    that names no mode is still a value of the type. *)
Inductive EncodingMode := kRsF | kRs3F | kLrc | kUnnamedMode (b : Z).

#[export] Instance EncodingMode_eq_dec : EqDecision EncodingMode.
Proof. solve_decision. Defined.

Definition mode_to_byte (m : EncodingMode) : Z :=
  match m with kRsF => 0 | kRs3F => 1 | kLrc => 2 | kUnnamedMode b => b end.
Definition mode_of_byte (b : Z) : EncodingMode :=
  if b =? 0 then kRsF else if b =? 1 then kRs3F else if b =? 2 then kLrc else kUnnamedMode b.

Definition upper (c : Z) : Z := if (97 <=? c) && (c <=? 122) then c - 97 + 65 else c.
Definition ParseEncodingMode (s : Slice) : option EncodingMode :=
  let up := upper <$> s in
  if bool_decide (up = str "RS_F") || bool_decide (up = str "RSF") then Some kRsF else
  if bool_decide (up = str "RS_3F") || bool_decide (up = str "RS3F") then Some kRs3F else
  if bool_decide (up = str "LRC") then Some kLrc else None.

(** ** Fields *)
Definition AppendU64 (v : Z) : Slice := le 8 v.
Definition AppendU32 (v : Z) : Slice := le 8 (u32 v).
Definition ReadU64 : Reader Z := read_le Reject 8.
Definition ReadU32 : Reader Z := let? v := read_le Reject 8 in rret (u32 v).
Definition read_int : Reader Z := let? v := ReadU32 in rret (i32 v).
Definition read_mode : Reader EncodingMode := let? b := read_le Reject 1 in rret (mode_of_byte b).
Definition read_string : Reader Slice := let? n := ReadU32 in read_bytes Reject n.

Definition kStripeMagic : Slice := str "STRI".
Definition kPackedFragMagic : Slice := str "MFRG".
Definition kMergedFragMagic : Slice := str "MFST".

(** ** StripeWriteCommand *)
Record StripeWriteCommand := mkStripeWriteCommand {
  swc_group_id : Z;
  swc_user_key : Slice;
  swc_user_value : Slice;
  swc_encoding_mode : EncodingMode
}.

Definition StripeWriteCommand_Serialize (c : StripeWriteCommand) : Slice :=
  kStripeMagic ++ AppendU32 (swc_group_id c) ++ [mode_to_byte (swc_encoding_mode c)] ++
  AppendU32 (slice_size (swc_user_key c)) ++ swc_user_key c ++
  AppendU32 (slice_size (swc_user_value c)) ++ swc_user_value c.

(** The magic is compared before anything is read. *)
Definition expect_magic (magic : Slice) : Reader unit := fun p =>
  if (slice_size p <? 4) || negb (bool_decide (take 4 p = magic)) then Reject else Ok (tt, drop 4 p).

Definition StripeWriteCommand_Deserialize : Reader StripeWriteCommand :=
  let? _ := expect_magic kStripeMagic in
  let? gid := ReadU32 in
  let? mode := read_mode in
  let? key := read_string in
  let? value := read_string in
  rret (mkStripeWriteCommand gid key value mode).

Definition IsStripeCommand (data : Slice) : bool :=
  (4 <=? slice_size data) && bool_decide (take 4 data = kStripeMagic).

(** ** StripeLogMeta *)
Record StripeLogMeta := mkStripeLogMeta {
  slm_user_key : Slice;
  slm_stripe_id : Z;
  slm_entry_id : Z;
  slm_group_id : Z;
  slm_original_size : Z;
  slm_encoding_mode : EncodingMode;
  slm_k : Z;
  slm_l : Z;
  slm_r : Z;
  slm_m : Z;
  slm_placement : list FragmentPlacement
}.

Definition StripeLogMeta_eta (m : StripeLogMeta) : StripeLogMeta :=
  mkStripeLogMeta (slm_user_key m) (slm_stripe_id m) (slm_entry_id m) (slm_group_id m)
    (slm_original_size m) (slm_encoding_mode m) (slm_k m) (slm_l m) (slm_r m) (slm_m m) (slm_placement m).
Definition set_slm_group_id : Z -> StripeLogMeta -> StripeLogMeta := ltac:(setter_of StripeLogMeta_eta slm_group_id).

Definition placement_bytes (fp : FragmentPlacement) : Slice :=
  AppendU32 (frag_id fp) ++ AppendU32 (kind_to_Z (kind fp)) ++
  AppendU32 (local_group fp) ++ AppendU32 (node_id fp).

Definition StripeLogMeta_Serialize (m : StripeLogMeta) : Slice :=
  AppendU32 (slice_size (slm_user_key m)) ++ slm_user_key m ++
  AppendU64 (slm_stripe_id m) ++ AppendU64 (slm_entry_id m) ++
  AppendU32 (slm_group_id m) ++ AppendU32 (slm_original_size m) ++
  [mode_to_byte (slm_encoding_mode m)] ++
  AppendU32 (slm_k m) ++ AppendU32 (slm_l m) ++ AppendU32 (slm_r m) ++ AppendU32 (slm_m m) ++
  AppendU32 (Z.of_nat (length (slm_placement m))) ++ concat (placement_bytes <$> slm_placement m).

Definition read_placement : Reader FragmentPlacement :=
  let? fid := read_int in
  let? kv := ReadU32 in
  let? kd := kind_of_Z kv in
  let? lg := read_int in
  let? nid := read_int in
  rret (mkFragmentPlacement fid lg nid kd).

Definition StripeLogMeta_Deserialize : Reader StripeLogMeta :=
  let? key := read_string in
  let? stripe_id := ReadU64 in
  let? entry_id := ReadU64 in
  let? gid := ReadU32 in
  let? orig := ReadU32 in
  let? mode := read_mode in
  let? k := read_int in
  let? l := read_int in
  let? r := read_int in
  let? m := read_int in
  let? pcnt := ReadU32 in
  let? placement := read_list (Z.to_nat pcnt) read_placement in
  rret (mkStripeLogMeta key stripe_id entry_id gid orig mode k l r m placement).

(** ** Fragments of one node *)
Record PackedNodeFragment := mkPackedNodeFragment { pnf_frag_id : Z; pnf_bytes : Slice }.

Definition packed_frag (f : PackedNodeFragment) : Slice :=
  AppendU32 (pnf_frag_id f) ++ AppendU32 (slice_size (pnf_bytes f)) ++ pnf_bytes f.

(** The metadata with its length, the number of fragments, the fragments: the body
    of both record formats. *)
Definition packed_body (meta : StripeLogMeta) (frags : list PackedNodeFragment) : Slice :=
  let meta_bytes := StripeLogMeta_Serialize meta in
  AppendU32 (slice_size meta_bytes) ++ meta_bytes ++
  AppendU32 (Z.of_nat (length frags)) ++ concat (packed_frag <$> frags).

Definition PackNodeFragments (meta : StripeLogMeta) (frags : list PackedNodeFragment) : Slice :=
  kPackedFragMagic ++ packed_body meta frags.
Definition SerializeMergedFragStore (meta : StripeLogMeta) (frags : list PackedNodeFragment) : Slice :=
  kMergedFragMagic ++ packed_body meta frags.

Definition read_packed_frag : Reader PackedNodeFragment :=
  let? fid := read_int in
  let? bs := read_string in
  rret (mkPackedNodeFragment fid bs).

Definition read_packed_body : Reader (StripeLogMeta * list PackedNodeFragment) :=
  let? meta_bytes := read_string in
  let? meta := run_on StripeLogMeta_Deserialize meta_bytes in
  let? cnt := ReadU32 in
  let? frags := read_list (Z.to_nat cnt) read_packed_frag in
  rret (meta, frags).

Definition UnpackNodeFragments : Reader (StripeLogMeta * list PackedNodeFragment) :=
  let? _ := expect_magic kPackedFragMagic in read_packed_body.
Definition DeserializeMergedFragStore : Reader (StripeLogMeta * list PackedNodeFragment) :=
  let? _ := expect_magic kMergedFragMagic in read_packed_body.

(** ** Database keys *)
Definition FragDbKey (group_id stripe_id frag_id : Z) : Slice :=
  str "__frag__/" ++ to_string group_id ++ slash :: to_string stripe_id ++ slash :: to_string frag_id.
Definition StripeMetaDbKey (group_id : Z) (user_key : Slice) : Slice :=
  str "__stripe_meta__/" ++ to_string group_id ++ slash :: user_key.
Definition MakeStripePrimaryKey (group_id : Z) (user_key : Slice) : Slice :=
  str "__stripe/" ++ to_string group_id ++ slash :: user_key.
Definition MakeFragIndexKey (group_id frag_id : Z) : Slice :=
  str "__frag_idx/" ++ to_string group_id ++ slash :: to_string frag_id.

(** ** The fields read back *)

Definition is_u64 (z : Z) : Prop := 0 <= z < 2 ^ 64.
Definition mode_ok (m : EncodingMode) : Prop := match m with kUnnamedMode b => 3 <= b < 256 | _ => True end.
Definition short (s : Slice) : Prop := slice_size s < 2 ^ 32.

Lemma short_u32 s : short s -> is_u32 (slice_size s).
Proof. unfold short, is_u32, slice_size. lia. Qed.

Lemma exact_U64 v : is_u64 v -> exact ReadU64 (AppendU64 v) v.
Proof. apply (exact_le 8). Qed.

Lemma exact_U32 v : is_u32 v -> exact ReadU32 (AppendU32 v) v.
Proof.
  intros Hv. unfold ReadU32, AppendU32. rewrite (u32_small v Hv).
  eapply exact_bind_last; [apply (exact_le 8); unfold is_u32 in Hv; cbn; lia|].
  rewrite u32_small by done. apply exact_ret.
Qed.

Lemma exact_int v : is_int v -> exact read_int (AppendU32 v) v.
Proof.
  intros Hv. unfold read_int. replace (AppendU32 v) with (AppendU32 (u32 v)).
  - eapply exact_bind_last; [apply exact_U32, u32_range|]. rewrite i32_u32 by exact Hv. apply exact_ret.
  - unfold AppendU32. by rewrite (u32_small _ (u32_range v)).
Qed.

Lemma exact_mode m : mode_ok m -> exact read_mode [mode_to_byte m] m.
Proof.
  intros Hm. unfold read_mode. eapply exact_bind_last; [apply exact_byte|].
  - unfold byte. destruct m; cbn in *; lia.
  - destruct m as [| | |b]; cbn in Hm |- *; [apply exact_ret..|].
    unfold mode_of_byte. rewrite !(proj2 (Z.eqb_neq _ _)) by lia. apply exact_ret.
Qed.

Lemma exact_string s : short s -> exact read_string (AppendU32 (slice_size s) ++ s) s.
Proof.
  intros Hs. eapply exact_bind; [by apply exact_U32, short_u32|]. by apply exact_bytes.
Qed.

Lemma exact_magic m : slice_size m = 4 -> exact (expect_magic m) m tt.
Proof.
  intros Hm. assert (length m = 4%nat) as Hl by (unfold slice_size in Hm; lia). unfold expect_magic. split.
  - intros rest. rewrite slice_size_app, (proj2 (Z.ltb_ge _ _)) by (pose proof (slice_size_nonneg rest); lia).
    rewrite take_app_length', drop_app_length' by done. by rewrite bool_decide_true.
  - intros p q -> Hq. rewrite (proj2 (Z.ltb_lt _ _)); [done|]. revert Hm. unfold slice_size.
    rewrite length_app. destruct q; [done|]. cbn. lia.
Qed.

Lemma magic_mismatch m m' rest : slice_size m' = 4 -> m <> m' -> expect_magic m (m' ++ rest) = Reject.
Proof.
  intros Hm Hne. unfold expect_magic. rewrite take_app_length' by (unfold slice_size in Hm; lia).
  rewrite bool_decide_false by congruence. by rewrite orb_true_r.
Qed.

Record placement_ok (fp : FragmentPlacement) : Prop := {
  po_frag : is_int (frag_id fp); po_group : is_int (local_group fp); po_node : is_int (node_id fp)
}.

Ltac format_field :=
  first [ apply exact_U64; assumption | apply exact_U32; assumption | apply exact_int; assumption
        | apply exact_mode; assumption | apply exact_string; assumption | apply exact_magic; reflexivity ].

Lemma exact_placement fp : placement_ok fp -> exact read_placement (placement_bytes fp) fp.
Proof.
  intros [Hf Hg Hn]. unfold placement_bytes, read_placement.
  assert (is_u32 (kind_to_Z (kind fp))) as Hk by (unfold is_u32; destruct (kind fp); cbn; lia).
  exact_steps format_field. destruct fp. apply exact_ret.
Qed.

(** The commands and records whose fields fit their encoding. *)
Record command_ok (c : StripeWriteCommand) : Prop := {
  co_group : is_u32 (swc_group_id c); co_key : short (swc_user_key c);
  co_value : short (swc_user_value c); co_mode : mode_ok (swc_encoding_mode c)
}.

Record meta_ok (m : StripeLogMeta) : Prop := {
  mo_key : short (slm_user_key m); mo_stripe : is_u64 (slm_stripe_id m); mo_entry : is_u64 (slm_entry_id m);
  mo_group : is_u32 (slm_group_id m); mo_size : is_u32 (slm_original_size m);
  mo_mode : mode_ok (slm_encoding_mode m); mo_k : is_int (slm_k m); mo_l : is_int (slm_l m);
  mo_r : is_int (slm_r m); mo_m : is_int (slm_m m); mo_count : is_u32 (Z.of_nat (length (slm_placement m)));
  mo_placement : Forall placement_ok (slm_placement m)
}.

Record frags_ok (meta : StripeLogMeta) (frags : list PackedNodeFragment) : Prop := {
  fo_meta : meta_ok meta; fo_size : short (StripeLogMeta_Serialize meta);
  fo_count : is_u32 (Z.of_nat (length frags));
  fo_frags : Forall (fun f => is_int (pnf_frag_id f) /\ short (pnf_bytes f)) frags
}.

Lemma exact_command c : command_ok c -> exact StripeWriteCommand_Deserialize (StripeWriteCommand_Serialize c) c.
Proof.
  intros [Hg Hk Hv Hm]. unfold StripeWriteCommand_Serialize, StripeWriteCommand_Deserialize.
  exact_steps format_field. destruct c. apply exact_ret.
Qed.

Lemma exact_meta m : meta_ok m -> exact StripeLogMeta_Deserialize (StripeLogMeta_Serialize m) m.
Proof.
  intros [? ? ? ? ? ? ? ? ? ? ? Hp]. unfold StripeLogMeta_Serialize, StripeLogMeta_Deserialize.
  exact_steps format_field. eapply exact_bind_last.
  - apply exact_list; [by rewrite Nat2Z.id|]. rewrite Forall_forall in Hp. intros fp Hin. by apply exact_placement, Hp.
  - destruct m. apply exact_ret.
Qed.

Lemma exact_packed_body meta frags :
  frags_ok meta frags -> exact read_packed_body (packed_body meta frags) (meta, frags).
Proof.
  intros [Hm Hs Hc Hf]. unfold packed_body, read_packed_body. cbv zeta.
  eapply exact_bind_assoc; [by apply exact_string|].
  eapply exact_bind_nil; [apply exact_run_on, exact_meta, Hm|].
  eapply exact_bind; [by apply exact_U32|]. eapply exact_bind_last; [|apply exact_ret].
  apply exact_list; [by rewrite Nat2Z.id|]. rewrite Forall_forall in Hf. intros f Hin.
  destruct (Hf f Hin) as [Hi Hb]. unfold packed_frag, read_packed_frag.
  exact_steps format_field. destruct f. apply exact_ret.
Qed.

Lemma exact_packed meta frags :
  frags_ok meta frags -> exact UnpackNodeFragments (PackNodeFragments meta frags) (meta, frags).
Proof. intros H. eapply exact_bind; [by apply exact_magic|by apply exact_packed_body]. Qed.

Lemma exact_merged meta frags :
  frags_ok meta frags -> exact DeserializeMergedFragStore (SerializeMergedFragStore meta frags) (meta, frags).
Proof. intros H. eapply exact_bind; [by apply exact_magic|by apply exact_packed_body]. Qed.

(** [C18] Every record of the multi-raft layer is read back as it was written, also
    when more bytes follow it: the write command, the stripe metadata, the packed
    fragments of a node and the merged record. *)
Theorem stripe_formats_roundtrip (c : StripeWriteCommand) (meta : StripeLogMeta)
    (frags : list PackedNodeFragment) (rest : Slice) (Hc : command_ok c) (Hf : frags_ok meta frags) :
  StripeWriteCommand_Deserialize (StripeWriteCommand_Serialize c ++ rest) = Ok (c, rest) /\
  StripeLogMeta_Deserialize (StripeLogMeta_Serialize meta ++ rest) = Ok (meta, rest) /\
  UnpackNodeFragments (PackNodeFragments meta frags ++ rest) = Ok ((meta, frags), rest) /\
  DeserializeMergedFragStore (SerializeMergedFragStore meta frags ++ rest) = Ok ((meta, frags), rest).
Proof.
  split_and!; [apply exact_command, Hc|apply exact_meta, Hf|apply exact_packed, Hf|apply exact_merged, Hf].
Qed.

(** A truncated record is never mistaken for a shorter one: each parser
    refuses every strict prefix of what was written, and the two record formats
    refuse each other's bytes. *)
Theorem stripe_formats_reject (c : StripeWriteCommand) (meta : StripeLogMeta)
    (frags : list PackedNodeFragment) (p q : Slice) (Hc : command_ok c) (Hf : frags_ok meta frags) (Hq : q <> []) :
  (StripeWriteCommand_Serialize c = p ++ q -> StripeWriteCommand_Deserialize p = Reject) /\
  (PackNodeFragments meta frags = p ++ q -> UnpackNodeFragments p = Reject) /\
  (SerializeMergedFragStore meta frags = p ++ q -> DeserializeMergedFragStore p = Reject) /\
  UnpackNodeFragments (SerializeMergedFragStore meta frags) = Reject /\
  DeserializeMergedFragStore (PackNodeFragments meta frags) = Reject.
Proof.
  split_and!; [intros H..| |].
  4,5: unfold UnpackNodeFragments, DeserializeMergedFragStore, rbind, SerializeMergedFragStore, PackNodeFragments;
    by rewrite magic_mismatch.
  - by eapply ex_short; [apply exact_command|..].
  - by eapply ex_short; [apply exact_packed|..].
  - by eapply ex_short; [apply exact_merged|..].
Qed.

(** The keys of the store: a fragment, the metadata of a user key, the merged
    record of a user key, the index entry of a fragment. *)
Inductive DbKey :=
| KFrag (group_id stripe_id frag_id : Z)
| KMeta (group_id : Z) (user_key : Slice)
| KPrimary (group_id : Z) (user_key : Slice)
| KIndex (group_id frag_id : Z).

Definition db_key (k : DbKey) : Slice :=
  match k with
  | KFrag g s f => FragDbKey g s f
  | KMeta g key => StripeMetaDbKey g key
  | KPrimary g key => MakeStripePrimaryKey g key
  | KIndex g f => MakeFragIndexKey g f
  end.

Lemma db_key_inj k k' : db_key k = db_key k' -> k = k'.
Proof.
  destruct k as [g s f|g key|g key|g f], k' as [g' s' f'|g' key'|g' key'|g' f']; cbn [db_key]; intros H; try done;
    unfold FragDbKey, StripeMetaDbKey, MakeStripePrimaryKey, MakeFragIndexKey in H; apply app_inv_head in H.
  - apply to_string_slash in H as [-> H]. apply to_string_slash in H as [-> H%(inj to_string)]. by subst.
  - by apply to_string_slash in H as [-> ->].
  - by apply to_string_slash in H as [-> ->].
  - by apply to_string_slash in H as [-> ->%(inj to_string)].
Qed.

(** No two records share a key of the database: the four families of keys are
    disjoint and each determines its group, stripe, fragment and user key, whatever
    bytes the user key contains. *)
Theorem db_keys_injective : Inj (=) (=) db_key.
Proof. exact db_key_inj. Qed.

(** A stripe of two fragments. *)
Section witness.
Definition demo_meta : StripeLogMeta :=
  mkStripeLogMeta [107; 47] 7 7 3 5 kLrc 2 1 1 0
    [mkFragmentPlacement 0 0 1 kData; mkFragmentPlacement 1 (-1) 2 kGlobalParity].
Definition demo_frags : list PackedNodeFragment := [mkPackedNodeFragment 0 [1; 2; 3]; mkPackedNodeFragment 3 []].
Definition demo_command : StripeWriteCommand := mkStripeWriteCommand 3 [107] [1; 2; 3; 4; 5] kRs3F.

Lemma demo_command_ok : command_ok demo_command.
Proof. split; unfold is_u32, short; cbn; done || lia. Qed.

Lemma demo_frags_ok : frags_ok demo_meta demo_frags.
Proof.
  split; [split|..]; unfold is_u32, is_u64, is_int, short; cbn; try lia; try done.
  - repeat (apply Forall_cons; split; [split; unfold is_int; cbn; lia|]). by apply Forall_nil.
  - apply (bool_decide_unpack _). vm_compute. exact I.
Qed.

Lemma stripe_formats_roundtrip_witness :
  StripeWriteCommand_Deserialize (StripeWriteCommand_Serialize demo_command ++ [0]) = Ok (demo_command, [0]) /\
  UnpackNodeFragments (PackNodeFragments demo_meta demo_frags ++ [0]) = Ok ((demo_meta, demo_frags), [0]).
Proof.
  destruct (stripe_formats_roundtrip demo_command demo_meta demo_frags [0]) as (H1 & _ & H2 & _).
  - exact demo_command_ok.
  - exact demo_frags_ok.
  - split; [exact H1|exact H2].
Defined.

Lemma stripe_formats_reject_witness : UnpackNodeFragments (take 60 (PackNodeFragments demo_meta demo_frags)) = Reject.
Proof.
  destruct (stripe_formats_reject demo_command demo_meta demo_frags
    (take 60 (PackNodeFragments demo_meta demo_frags)) (drop 60 (PackNodeFragments demo_meta demo_frags)))
    as (_ & H & _).
  - exact demo_command_ok.
  - exact demo_frags_ok.
  - vm_compute. discriminate.
  - apply H. vm_compute. reflexivity.
Defined.
End witness.
