(* ===== verification/KvFormat.v ===== *)
(** Requests and stored values of the key-value service: src/kv/type.h,
    src/kv/kv_format.{h,cc} and [KvServiceClient::DecodeString] (client.h).

    The functions read from raw pointers without a bound; a read past the end of
    the bytes that were passed is undefined. *)

From S2P Require Import Prelude Types Bytes.

(** ** type.h.
    A type copied out of a byte buffer need not be one of the enumerators. *)
Inductive RequestType := kPut | kDelete | kGet | kDetectLeader | kAbort | kUnnamedType (z : Z).

#[export] Instance RequestType_eq_dec : EqDecision RequestType.
Proof. solve_decision. Defined.

Inductive ErrorType :=
| kNotALeader | kKeyNotExist | kEntryDeleted | kRequestExecTimeout | kOk | kKVRequestTimesout
| kRPCCallFailed | kKVDecodeFail.

#[export] Instance ErrorType_eq_dec : EqDecision ErrorType.
Proof. solve_decision. Defined.

Definition kNoDetectLeader : Z := u32 (-1).

Record Request := mkRequest {
  rq_type : RequestType;
  rq_client_id : Z;
  rq_sequence : Z;
  rq_group_id : Z;
  rq_key : Slice;
  rq_value : Slice
}.

Record Response := mkResponse {
  rs_type : RequestType;
  rs_client_id : Z;
  rs_sequence : Z;
  rs_group_id : Z;
  rs_err : ErrorType;
  rs_raft_term : Z;
  rs_value : Slice;
  rs_read_index : Z;
  rs_reply_server_id : Z;
  rs_leader_hint : Z;
  rs_apply_elapse_time : Z;
  rs_commit_elapse_time : Z
}.

Record GetValueRequest := mkGetValueRequest { gvq_key : Slice; gvq_read_index : Z; gvq_group_id : Z }.
Record GetValueResponse := mkGetValueResponse { gvr_value : Slice; gvr_err : ErrorType; gvr_reply_server_id : Z }.

Definition request_type_to_Z (t : RequestType) : Z :=
  match t with kPut => 1 | kDelete => 2 | kGet => 3 | kDetectLeader => 4 | kAbort => 5 | kUnnamedType z => z end.
Definition request_type_of_Z (z : Z) : RequestType :=
  if z =? 1 then kPut else if z =? 2 then kDelete else if z =? 3 then kGet
  else if z =? 4 then kDetectLeader else if z =? 5 then kAbort else kUnnamedType z.

Definition RequestHdrSize : Z := 12.

(** ** Length-prefixed strings *)
Definition MakePrefixLengthKey (s : Slice) : Slice := le 4 (slice_size s) ++ s.

(** The length is an [int]; a negative one makes the string constructor throw. *)
Definition GetKeyFromPrefixLengthFormat : Reader Slice :=
  let? key_size := read_le Undef 4 in
  if 2 ^ 31 <=? key_size then rundef else read_bytes Undef key_size.

(** ** Requests as raw bytes *)
Definition request_header (r : Request) : Slice :=
  le 4 (request_type_to_Z (rq_type r)) ++ le 4 (rq_client_id r) ++ le 4 (rq_sequence r).

(** The group id is not part of the header: the target keeps its own. *)
Definition read_header : Reader (RequestType * Z * Z) :=
  let? t := read_le Undef 4 in let? c := read_le Undef 4 in let? s := read_le Undef 4 in
  rret (request_type_of_Z t, c, s).

Definition GetRawBytesSizeForRequest (r : Request) : Z :=
  RequestHdrSize + (4 + slice_size (rq_key r)) + (4 + slice_size (rq_value r)).

Definition RequestToRawBytes (r : Request) : Slice :=
  request_header r ++ MakePrefixLengthKey (rq_key r) ++ MakePrefixLengthKey (rq_value r).

Definition RawBytesToRequest (target : Request) : Reader Request :=
  let? h := read_header in
  let? key := GetKeyFromPrefixLengthFormat in
  let? value := GetKeyFromPrefixLengthFormat in
  rret (mkRequest h.1.1 h.1.2 h.2 (rq_group_id target) key value).

(** ** A log entry as a request.
    The value that will be stored starts with [k], [m] and the fragment id. *)
Definition value_header (k m frag_id : Z) : Slice := le 4 k ++ le 4 m ++ le 4 frag_id.

Definition request_of (target : Request) (bytes header tail : Slice) (whole : bool) : outcome Request :=
  match (let? h := read_header in let? key := GetKeyFromPrefixLengthFormat in rret (h, key)) bytes with
  | Ok ((h, key), rest) =>
      Ok (mkRequest h.1.1 h.1.2 h.2 (rq_group_id target) key
            (rq_value target ++ header ++ if whole then rest else tail))
  | Reject => Reject
  | Undef => Undef
  end.

Definition RaftEntryToRequest (target : Request) (server_id server_num : Z) (ent : LogEntry) : outcome Request :=
  if is_kNormal ent then request_of target (CommandData ent) (value_header 1 0 0) [] true
  else
    let k := i32 (GetK (GetChunkInfo ent)) in
    request_of target (NotEncodedSlice ent) (value_header k (i32 (server_num - k)) server_id) (FragmentSlice ent) false.

(** The overload without the server leaves the twelve bytes of a fragment's header
    uninitialised. *)
Definition RaftEntryToRequest_plain (junk : Slice) (target : Request) (ent : LogEntry) : outcome Request :=
  if is_kNormal ent then request_of target (CommandData ent) (value_header 1 0 0) [] true
  else request_of target (NotEncodedSlice ent) junk (FragmentSlice ent) false.

Definition FormatFullEntryValueForStorage (user_value : Slice) : Slice :=
  value_header 1 0 0 ++ MakePrefixLengthKey user_value.

(** ** DecodeString *)
Record DecodedString := mkDecodedString { ds_k : Z; ds_m : Z; ds_frag_id : Z; ds_frag : Slice }.

(** [None]: the string is shorter than its header. *)
Definition DecodeString (s : Slice) : option DecodedString :=
  if slice_size s <? 12 then None else
  Some (mkDecodedString (i32 (unle (take 4 s))) (i32 (unle (take 4 (drop 4 s)))) (unle (take 4 (drop 8 s))) (drop 12 s)).

(** ** Lemmas *)
Definition short_string (s : Slice) : Prop := slice_size s < 2 ^ 31.

Record request_ok (r : Request) : Prop := {
  rk_type : match rq_type r with kUnnamedType z => is_u32 z /\ ~ (1 <= z <= 5) | _ => True end;
  rk_client : is_u32 (rq_client_id r); rk_sequence : is_u32 (rq_sequence r);
  rk_key : short_string (rq_key r); rk_value : short_string (rq_value r)
}.

Lemma reads_prefix_key s : short_string s -> reads GetKeyFromPrefixLengthFormat (MakePrefixLengthKey s) s.
Proof.
  unfold short_string. intros Hs. pose proof (slice_size_nonneg s). unfold GetKeyFromPrefixLengthFormat, MakePrefixLengthKey.
  eapply reads_bind; [apply (reads_le Undef 4); cbn; lia|].
  rewrite (proj2 (Z.leb_gt _ _)) by lia. by apply reads_bytes.
Qed.

Lemma reads_header r : request_ok r ->
  reads read_header (request_header r) (rq_type r, rq_client_id r, rq_sequence r).
Proof.
  intros [Ht Hc Hs _ _]. unfold read_header, request_header.
  assert (is_u32 (request_type_to_Z (rq_type r)) /\ request_type_of_Z (request_type_to_Z (rq_type r)) = rq_type r) as [Hu He].
  { unfold is_u32 in *. destruct (rq_type r); cbn; try (split; [lia|done]). split; [lia|].
    unfold request_type_of_Z. rewrite !(proj2 (Z.eqb_neq _ _)) by lia. done. }
  eapply reads_bind; [by apply (reads_le Undef 4)|].
  eapply reads_bind; [by apply (reads_le Undef 4)|].
  eapply reads_bind_last; [by apply (reads_le Undef 4)|]. rewrite He. apply reads_ret.
Qed.

Lemma reads_request target r : request_ok r -> rq_group_id r = rq_group_id target ->
  reads (RawBytesToRequest target) (RequestToRawBytes r) r.
Proof.
  intros Hr Hg. unfold RawBytesToRequest, RequestToRawBytes.
  eapply reads_bind; [by apply reads_header|].
  eapply reads_bind; [by apply reads_prefix_key, Hr|].
  eapply reads_bind_last; [by apply reads_prefix_key, Hr|]. rewrite <- Hg. destruct r. apply reads_ret.
Qed.

Lemma request_of_spec target r header tail whole rest : request_ok r ->
  request_of target (request_header r ++ MakePrefixLengthKey (rq_key r) ++ rest) header tail whole =
  Ok (mkRequest (rq_type r) (rq_client_id r) (rq_sequence r) (rq_group_id target) (rq_key r)
        (rq_value target ++ header ++ if whole then rest else tail)).
Proof.
  intros Hr. unfold request_of. rewrite (rbind_reads _ _ _ _ _ (reads_header r Hr)).
  by rewrite (rbind_reads _ _ _ _ _ (reads_prefix_key _ (rk_key _ Hr))).
Qed.

Lemma length_value_header k m i : length (value_header k m i) = 12%nat.
Proof. unfold value_header. by rewrite !length_app, !length_le. Qed.

Lemma DecodeString_header k m i frag :
  is_int k -> is_int m -> is_u32 i -> DecodeString (value_header k m i ++ frag) = Some (mkDecodedString k m i frag).
Proof.
  unfold is_int, is_u32. intros Hk Hm Hi. unfold DecodeString, slice_size. rewrite length_app, length_value_header.
  rewrite (proj2 (Z.ltb_ge _ _)) by lia.
  assert (forall z, is_int z -> i32 (unle (le 4 z)) = z) as Hz.
  { intros z Hz. rewrite unle_le. change (256 ^ Z.of_nat 4) with (2 ^ 32). fold (u32 z). by apply i32_u32. }
  rewrite (drop_app_length' (value_header k m i) frag 12) by (by rewrite length_value_header). unfold value_header. rewrite <- !app_assoc.
  assert (forall n z (t : Slice), take n (le n z ++ t) = le n z) as Ht by (intros; by rewrite take_app_length' by (by rewrite length_le)).
  assert (forall n z (t : Slice), drop n (le n z ++ t) = t) as Hd by (intros; by rewrite drop_app_length' by (by rewrite length_le)).
  replace 8%nat with (4 + 4)%nat by lia. rewrite <- drop_drop, !Hd, !Ht, !Hz by done.
  by rewrite unle_le_small by (cbn; lia).
Qed.

(** A request that is proposed, replicated and applied is the request of the
    client: its raw bytes read back give the same request and have the announced
    size; and the value the apply thread stores for the whole entry is the stored
    form of the client's value, from which a reader recovers exactly that value. *)
Theorem request_roundtrip (r target : Request) (rest : Slice) (ent : LogEntry) (id n : Z)
    (Hr : request_ok r) (Hg : rq_group_id r = rq_group_id target) (Hv : rq_value target = [])
    (Hn : Type_ ent = kNormal) (He : command_data_ ent = RequestToRawBytes r) :
  RawBytesToRequest target (RequestToRawBytes r ++ rest) = Ok (r, rest) /\
  slice_size (RequestToRawBytes r) = GetRawBytesSizeForRequest r /\
  exists q, RaftEntryToRequest target id n ent = Ok q /\ rq_key q = rq_key r /\ rq_type q = rq_type r /\
    rq_value q = FormatFullEntryValueForStorage (rq_value r) /\
    exists d, DecodeString (rq_value q) = Some d /\ ds_k d = 1 /\ ds_m d = 0 /\
      GetKeyFromPrefixLengthFormat (ds_frag d) = Ok (rq_value r, []).
Proof.
  split; [by apply reads_request|]. split.
  { unfold RequestToRawBytes, request_header, MakePrefixLengthKey, GetRawBytesSizeForRequest, RequestHdrSize.
    rewrite !slice_size_app, !slice_size_le. lia. }
  unfold RaftEntryToRequest, CommandData, is_kNormal. rewrite bool_decide_true, He by done.
  unfold RequestToRawBytes. rewrite request_of_spec by done. eexists. split; [done|].
  cbn [rq_key rq_type rq_value]. rewrite Hv. split_and!; [done..|]. eexists.
  split; [apply DecodeString_header; unfold is_int, is_u32; lia|]. split_and!; [done..|].
  cbn [ds_frag]. rewrite <- (app_nil_r (MakePrefixLengthKey _)). apply reads_prefix_key, Hr.
Qed.

Lemma request_roundtrip_witness :
  exists q, RaftEntryToRequest (mkRequest kGet 0 0 3 [] []) 1 5
      (SetCommandData (RequestToRawBytes (mkRequest kPut 7 9 3 [107] [1; 2])) LogEntry_default) = Ok q /\
    rq_value q = [1; 0; 0; 0; 0; 0; 0; 0; 0; 0; 0; 0; 2; 0; 0; 0; 1; 2].
Proof.
  destruct (request_roundtrip (mkRequest kPut 7 9 3 [107] [1; 2]) (mkRequest kGet 0 0 3 [] []) []
    (SetCommandData (RequestToRawBytes (mkRequest kPut 7 9 3 [107] [1; 2])) LogEntry_default) 1 5)
    as (_ & _ & q & Hq & _ & _ & Hv & _).
  - split; unfold is_u32, short_string, slice_size; cbn; lia || done.
  - reflexivity.
  - reflexivity.
  - reflexivity.
  - reflexivity.
  - exists q. split; [exact Hq|]. rewrite Hv. vm_compute. reflexivity.
Defined.
