(* ===== verification/Engine.v ===== *)
(** What the multi-raft layer asks of its key-value store: the interface of
    src/kv/storage_engine.h. The store itself is RocksDB; [StorageEngine] names the
    operations the code calls and [engine_ok] the documented effect of the ones
    that succeed. A write may fail, and a failed write promises nothing.

    [gmap_engine] is an in-memory store that satisfies the interface. *)

From S2P Require Import Prelude Types.

Class StorageEngine (DB : Type) := {
  db_get : DB -> Slice -> option Slice;
  db_put : DB -> Slice -> Slice -> DB * bool;
  db_delete : DB -> Slice -> DB * bool;
  db_write : DB -> list (Slice * Slice) -> DB * bool
}.

(** A batch puts its pairs in order: the last one of a key counts. *)
Definition batch_value (batch : list (Slice * Slice)) (key : Slice) : option Slice :=
  snd <$> last (filter (fun kv => fst kv = key) batch).

Record engine_ok (DB : Type) `{StorageEngine DB} : Prop := {
  eo_put : forall (d d' : DB) k v, db_put d k v = (d', true) ->
    forall key, db_get d' key = if decide (key = k) then Some v else db_get d key;
  eo_delete : forall (d d' : DB) k, db_delete d k = (d', true) ->
    forall key, db_get d' key = if decide (key = k) then None else db_get d key;
  eo_write : forall (d d' : DB) batch, db_write d batch = (d', true) ->
    forall key, db_get d' key = match batch_value batch key with Some v => Some v | None => db_get d key end
}.
Arguments eo_put {DB H} _.
Arguments eo_delete {DB H} _.
Arguments eo_write {DB H} _.

(** ** Batches *)
Lemma batch_value_nil key : batch_value [] key = None.
Proof. done. Qed.

Lemma batch_value_snoc batch k v key :
  batch_value (batch ++ [(k, v)]) key = if decide (key = k) then Some v else batch_value batch key.
Proof.
  unfold batch_value. rewrite filter_app. case_decide as Hk.
  - subst. rewrite (filter_cons_True _ (k, v)), filter_nil by done. by rewrite last_snoc.
  - rewrite (filter_cons_False _ (k, v)), filter_nil by (cbn; congruence). by rewrite app_nil_r.
Qed.

Lemma batch_value_None batch key : (forall k v, (k, v) ∈ batch -> k <> key) -> batch_value batch key = None.
Proof.
  intros Hk. unfold batch_value. destruct (filter _ batch) as [|kv l] eqn:E; [done|].
  assert (kv ∈ filter (fun kv : Slice * Slice => fst kv = key) batch) as [He Hin]%list_elem_of_filter
    by (rewrite E; left).
  destruct kv as [k v]. by destruct (Hk k v Hin).
Qed.

(** A key all of whose pairs carry the same value. *)
Lemma batch_value_unique batch key v :
  (key, v) ∈ batch -> (forall w, (key, w) ∈ batch -> w = v) -> batch_value batch key = Some v.
Proof.
  intros Hin Hu. unfold batch_value.
  assert ((key, v) ∈ filter (fun kv : Slice * Slice => fst kv = key) batch) as Hf
    by (apply list_elem_of_filter; done).
  destruct (last (filter _ batch)) as [[k w]|] eqn:E.
  - apply last_Some_elem_of, list_elem_of_filter in E as [Hk E]. cbn in Hk. subst. cbn. f_equal. by apply Hu.
  - apply last_None in E. rewrite E in Hf. by apply not_elem_of_nil in Hf.
Qed.

(** ** An in-memory store *)
#[export] Instance gmap_engine : StorageEngine (gmap Slice Slice) := {|
  db_get d k := d !! k;
  db_put d k v := (<[k := v]> d, true);
  db_delete d k := (delete k d, true);
  db_write d batch := (foldl (fun d kv => <[fst kv := snd kv]> d) d batch, true)
|}.

Lemma gmap_engine_ok : engine_ok (gmap Slice Slice).
Proof.
  split.
  - intros d d' k v [= <-] key. cbn. case_decide as Hk; [subst; apply lookup_insert_eq|by apply lookup_insert_ne].
  - intros d d' k [= <-] key. cbn. case_decide as Hk; [subst; apply lookup_delete_eq|by apply lookup_delete_ne].
  - intros d d' batch [= <-] key. cbn [db_get gmap_engine].
    induction batch as [|[k v] batch IH] using rev_ind; [done|]. rewrite foldl_app, batch_value_snoc. cbn.
    case_decide as Hk; [subst; apply lookup_insert_eq|]. by rewrite lookup_insert_ne.
Qed.
