(* ===== verification/LogManager.v ===== *)
(** [LogManager] (src/raft/log_manager.h, src/raft/log_manager.cc): the ring
    buffer of log entries, its well-formedness invariant, and the refinement of
    every operation to an operation on the plain list of entries. *)

From S2P Require Import Prelude Types.

Inductive Status := kOk | kMemAllocateFail | kIndexBeyondRange | kNeedSnapshot.

#[export] Instance Status_eq_dec : EqDecision Status.
Proof. solve_decision. Defined.

(** ** The objects of the ring

    The deleter runs [~LogEntry()] on the slot itself, and the slot is assigned to
    again later. The slices of a destroyed entry are null, but its three vectors have
    freed their storage and still point to it. A slot is therefore the value of the
    entry with what became of the storage of each vector: a vector has none until it
    holds an element; a destroyed one keeps a pointer to freed storage, which is used
    by the next assignment that copies an element into it, or freed again by the next
    destructor. This is what the members of the class and a [std::vector] do in
    practice; to the language every use of a destroyed object is undefined. *)
Inductive Buffer := NoBuffer | Allocated | Freed.

#[export] Instance Buffer_eq_dec : EqDecision Buffer.
Proof. solve_decision. Defined.

Record Slot := mkSlot {
  value : LogEntry;
  fragments_buf : Buffer;
  frag_ids_buf : Buffer;
  placement_buf : Buffer
}.

(** [LogEntry()]. *)
Definition Slot_default : Slot := mkSlot LogEntry_default NoBuffer NoBuffer NoBuffer.

(** A vector is assigned the elements [xs]. *)
Definition fill {A} (xs : list A) (b : Buffer) : Buffer :=
  match xs, b with _ :: _, NoBuffer => Allocated | _, _ => b end.
Definition fills_freed {A} (xs : list A) (b : Buffer) : bool :=
  match xs, b with _ :: _, Freed => true | _, _ => false end.

(** A vector is destroyed. *)
Definition free_buffer (b : Buffer) : Buffer :=
  match b with Allocated => Freed | _ => b end.
Definition is_Freed (b : Buffer) : bool := bool_decide (b = Freed).

(** [slot = e], and whether it uses freed storage. *)
Definition assign (e : LogEntry) (o : Slot) : Slot :=
  mkSlot e (fill (Fragments e) (fragments_buf o)) (fill (FragIds e) (frag_ids_buf o))
    (fill (Placement e) (placement_buf o)).
Definition assign_ub (e : LogEntry) (o : Slot) : bool :=
  fills_freed (Fragments e) (fragments_buf o) || fills_freed (FragIds e) (frag_ids_buf o) ||
  fills_freed (Placement e) (placement_buf o).

(** [default_Deleter(entry)], that is [entry->~LogEntry()], and whether it frees freed
    storage: the scalar members keep their values. *)
Definition default_Deleter (o : Slot) : Slot :=
  let e := value o in
  mkSlot (mkLogEntry (Term e) (Index e) (Type_ e) (GetChunkInfo e) (StartOffset e)
            (CommandLength e) [] [] [] [] [] [])
    (free_buffer (fragments_buf o)) (free_buffer (frag_ids_buf o)) (free_buffer (placement_buf o)).
Definition dtor_ub (o : Slot) : bool :=
  is_Freed (fragments_buf o) || is_Freed (frag_ids_buf o) || is_Freed (placement_buf o).

(** [undefined_] records that some operation has used or freed freed storage. From
    then on the C++ program has no defined behaviour; the other fields keep the values
    they would have if the access had done no harm. *)
Record LogManager := mkLogManager {
  capacity_ : Z;
  front_ : Z;
  back_ : Z;
  count_ : Z;
  base_ : Z;
  last_snapshot_index_ : Z;
  last_snapshot_term_ : Z;
  entries_ : list Slot;
  undefined_ : bool
}.

(** Whether [new LogEntry[n]] succeeds is up to the allocator. *)
Class Allocator := new_array_ok : Z -> bool.

Definition kExpandFactor : Z := 4.

(** [LogManager(persister, initial_cap, deleter)]. *)
Definition LogManager_ctor (initial_cap : Z) : LogManager :=
  mkLogManager initial_cap 0 0 0 1 0 0 (replicate (Z.to_nat initial_cap) Slot_default) false.

Section operations.
Context {alloc : Allocator}.
Implicit Types (lm : LogManager) (idx : Z) (e : LogEntry).

Definition Capacity lm : Z := capacity_ lm.
Definition Count lm : Z := count_ lm.

(** [entries_[i]]; [slot_in_range] shows that well-formed managers only
    access the array in range. *)
Definition slot_at (es : list Slot) (i : Z) : Slot := default Slot_default (arr_get es i).
Definition slot lm (i : Z) : LogEntry := value (slot_at (entries_ lm) i).
Definition upd_slot (i : Z) (f : Slot -> Slot) (es : list Slot) : list Slot :=
  alter f (Z.to_nat i) es.

(** The operands [idx], [base_] are [uint32_t], so the sum is computed modulo 2^32. *)
Definition raftIndexToArrayIndex lm idx : Z :=
  i32 (u32 (idx - base_ lm + front_ lm) mod Capacity lm).

Definition last_slot lm : LogEntry :=
  slot lm (crem (back_ lm - 1 + Capacity lm) (Capacity lm)).

Definition LastLogEntryIndex lm : Z :=
  if Count lm =? 0 then last_snapshot_index_ lm else Index (last_slot lm).

Definition LastLogEntryTerm lm : Z :=
  if Count lm =? 0 then last_snapshot_term_ lm else Term (last_slot lm).

Definition TermAt lm idx : Z :=
  if (idx <? u32 (base_ lm - 1)) || (LastLogEntryIndex lm <? idx) then u32 (-1)
  else if idx =? last_snapshot_index_ lm then last_snapshot_term_ lm
  else Term (slot lm (raftIndexToArrayIndex lm idx)).

(** The [while] of [ensureCapacity]. *)
Fixpoint grow (fuel : nat) (request_cap target : Z) : Z :=
  match fuel with
  | O => request_cap
  | S fuel => if request_cap <? target then grow fuel (request_cap * kExpandFactor) target
              else request_cap
  end.

(** The copy loop of [ensureCapacity]: [n] more entries to move. *)
Fixpoint move_entries (n : nat) lm (new_array : list Slot) (request_cap new_idx old_idx : Z)
  : list Slot * Z :=
  match n with
  | O => (new_array, new_idx)
  | S n =>
      move_entries n lm (upd_slot new_idx (assign (slot lm old_idx)) new_array) request_cap
        (crem (new_idx + 1) request_cap) (crem (old_idx + 1) (Capacity lm))
  end.

(** [delete[] entries_] destroys every slot, the destroyed ones again. *)
Definition ensureCapacity (entry_cnt : Z) lm : Status * LogManager :=
  if Count lm + entry_cnt <=? Capacity lm then (kOk, lm)
  else
    let request_cap := grow 32 (capacity_ lm) (Capacity lm + entry_cnt) in
    if new_array_ok request_cap then
      let '(new_array, new_idx) :=
        move_entries (Z.to_nat (Count lm)) lm
          (replicate (Z.to_nat request_cap) Slot_default) request_cap 0 (front_ lm) in
      (kOk, mkLogManager request_cap 0 new_idx (count_ lm) (base_ lm)
              (last_snapshot_index_ lm) (last_snapshot_term_ lm) new_array
              (undefined_ lm || existsb dtor_ub (entries_ lm)))
    else (kMemAllocateFail, lm).

Definition appendEntryHelper e lm : Status * LogManager :=
  match ensureCapacity 1 lm with
  | (kOk, lm) =>
      (kOk, mkLogManager (capacity_ lm) (front_ lm)
              (crem (back_ lm + 1) (Capacity lm)) (count_ lm + 1) (base_ lm)
              (last_snapshot_index_ lm) (last_snapshot_term_ lm)
              (upd_slot (back_ lm) (assign e) (entries_ lm))
              (undefined_ lm || assign_ub e (slot_at (entries_ lm) (back_ lm))))
  | (stat, lm) => (stat, lm)
  end.

Definition AppendLogEntry e lm : Status * LogManager := appendEntryHelper e lm.

Definition AppendLogEntryAtomic e lm : Z * Status * LogManager :=
  let allocated_index := u32 (LastLogEntryIndex lm + 1) in
  match appendEntryHelper (SetIndex allocated_index e) lm with
  | (kOk, lm) => (allocated_index, kOk, lm)
  | (stat, lm) => (0, stat, lm)
  end.

(** The loop of [DeleteLogEntriesFrom]. *)
Fixpoint delete_loop (n : nat) (cap : Z) (es : list Slot) (ub : bool) (start_idx : Z)
  : list Slot * bool * Z :=
  match n with
  | O => (es, ub, start_idx)
  | S n => delete_loop n cap (upd_slot start_idx default_Deleter es)
             (ub || dtor_ub (slot_at es start_idx)) (crem (start_idx - 1 + cap) cap)
  end.

Definition out_of_range lm idx : bool :=
  (Count lm <=? 0) || (idx <? base_ lm) || (LastLogEntryIndex lm <? idx).

Definition DeleteLogEntriesFrom idx lm : Status * LogManager :=
  if out_of_range lm idx then (kIndexBeyondRange, lm)
  else
    let start_idx := raftIndexToArrayIndex lm (LastLogEntryIndex lm) in
    let delete_cnt := i32 (u32 (LastLogEntryIndex lm - idx + 1)) in
    let '(es, ub, start_idx) :=
      delete_loop (Z.to_nat delete_cnt) (Capacity lm) (entries_ lm) (undefined_ lm) start_idx in
    (kOk, mkLogManager (capacity_ lm) (front_ lm) (crem (start_idx + 1) (Capacity lm))
            (count_ lm - delete_cnt) (base_ lm) (last_snapshot_index_ lm)
            (last_snapshot_term_ lm) es ub).

Fixpoint fetch_loop (n : nat) lm (start_idx : Z) : list LogEntry :=
  match n with
  | O => []
  | S n => slot lm start_idx :: fetch_loop n lm (crem (start_idx + 1) (Capacity lm))
  end.

Definition GetLogEntriesFrom idx lm : Status * list LogEntry :=
  if (Count lm <=? 0) || (LastLogEntryIndex lm <? idx) then (kIndexBeyondRange, [])
  else if idx <? base_ lm then (kNeedSnapshot, [])
  else
    let start_idx := raftIndexToArrayIndex lm idx in
    let fetch_cnt := i32 (u32 (LastLogEntryIndex lm - idx + 1)) in
    (kOk, fetch_loop (Z.to_nat fetch_cnt) lm start_idx).

Fixpoint discard_loop (n : nat) (cap : Z) (es : list Slot) (ub : bool) (start_idx : Z)
  : list Slot * bool * Z :=
  match n with
  | O => (es, ub, start_idx)
  | S n => discard_loop n cap (upd_slot start_idx default_Deleter es)
             (ub || dtor_ub (slot_at es start_idx)) (crem (start_idx + 1) cap)
  end.

(** The third component lists the indices passed to [lrc_cache_cleanup_cb_]. *)
Definition DiscardLogEntriesBefore idx lm : Status * LogManager * list Z :=
  if (Count lm <=? 0) || (idx <? base_ lm) then (kOk, lm, [])
  else
    let dest := Z.min (LastLogEntryIndex lm) idx in
    let discard_cnt := i32 (u32 (dest - base_ lm)) in
    let '(es, ub, start_idx) :=
      discard_loop (Z.to_nat discard_cnt) (Capacity lm) (entries_ lm) (undefined_ lm) (front_ lm) in
    let old_base := dest in
    (kOk, mkLogManager (capacity_ lm) start_idx (back_ lm) (count_ lm - discard_cnt) dest
            (last_snapshot_index_ lm) (last_snapshot_term_ lm) es ub,
     (fun i => u32 (old_base + i)) <$> seqZ 0 discard_cnt).

Definition GetSingleLogEntry lm idx : option LogEntry :=
  if out_of_range lm idx then None else Some (slot lm (raftIndexToArrayIndex lm idx)).

Definition GetEntryObject lm idx : Status * option LogEntry :=
  if out_of_range lm idx then (kIndexBeyondRange, None)
  else (kOk, Some (slot lm (raftIndexToArrayIndex lm idx))).

(** Write through the pointer returned by [GetSingleLogEntry], and
    [OverWriteLogEntry]. *)
Definition OverWriteLogEntry e idx lm : Status * LogManager :=
  if out_of_range lm idx then (kIndexBeyondRange, lm)
  else (kOk, mkLogManager (capacity_ lm) (front_ lm) (back_ lm) (count_ lm) (base_ lm)
               (last_snapshot_index_ lm) (last_snapshot_term_ lm)
               (upd_slot (raftIndexToArrayIndex lm idx) (assign e) (entries_ lm))
               (undefined_ lm || assign_ub e (slot_at (entries_ lm) (raftIndexToArrayIndex lm idx)))).

(** Whether [~LogManager()] frees freed storage: the deleter runs on the entries held,
    and [delete[] entries_] destroys every slot again. *)
Definition LogManager_dtor_ub lm : bool :=
  let '(es, ub, _) := discard_loop (Z.to_nat (Count lm)) (Capacity lm) (entries_ lm) (undefined_ lm) (front_ lm) in
  ub || existsb dtor_ub es.

(** [NewLogManager(storage)]: replays the entries of [storage->LogEntries],
    whose first element is padding, and checks [storage->LastIndex()]. *)
Definition NewLogManager (stored : option (list LogEntry * Z)) : option LogManager :=
  let ret := LogManager_ctor 100000 in
  match stored with
  | None => Some ret
  | Some (vec, last_index) =>
      let ret := foldl (fun lm e => snd (AppendLogEntry e lm)) ret (drop 1 vec) in
      if last_index =? LastLogEntryIndex ret then Some ret else None
  end.
End operations.

(** ** Invariant and abstraction *)

(** The entries held, oldest first. *)
Definition view (lm : LogManager) : list LogEntry :=
  (fun i => slot lm ((front_ lm + i) mod capacity_ lm)) <$> seqZ 0 (count_ lm).

Record wf (lm : LogManager) : Prop := {
  wf_cap : 0 < capacity_ lm < 2 ^ 29;
  wf_len : length (entries_ lm) = Z.to_nat (capacity_ lm);
  wf_front : 0 <= front_ lm < capacity_ lm;
  wf_count : 0 <= count_ lm <= capacity_ lm;
  wf_back : back_ lm = (front_ lm + count_ lm) mod capacity_ lm;
  wf_base : 1 <= base_ lm;
  wf_bound : base_ lm + count_ lm < 2 ^ 32;
  wf_index : forall i e, view lm !! i = Some e -> Index e = base_ lm + Z.of_nat i;
  wf_empty : count_ lm = 0 -> base_ lm = last_snapshot_index_ lm + 1
}.

(** The last index of the abstract log. *)
Definition last_of (lm : LogManager) : Z := base_ lm + count_ lm - 1.

(** The entry at a raft index of the abstract log. *)
Definition entry_at (lm : LogManager) (idx : Z) : option LogEntry := arr_get (view lm) (idx - base_ lm).

Lemma crem_mod a b : 0 <= a -> 0 < b -> crem a b = a mod b.
Proof. intros. unfold crem. by apply Z.rem_mod_nonneg. Qed.

(** Positions of a ring are distinct. *)
Lemma ring_inj c f i j :
  0 < c -> 0 <= i < c -> 0 <= j < c -> (f + i) mod c = (f + j) mod c -> i = j.
Proof.
  intros Hc Hi Hj He.
  assert ((f + i - (f + j)) mod c = 0) as Hd.
  { rewrite Zminus_mod, He, Z.sub_diag. by apply Z.mod_0_l; lia. }
  apply Z.mod_divide in Hd; [|lia]. destruct Hd as [q Hq].
  assert (q = 0) by nia. lia.
Qed.

Lemma ring_succ c f i : 0 < c -> ((f + i) mod c + 1) mod c = (f + (i + 1)) mod c.
Proof. intros. rewrite Zplus_mod_idemp_l. f_equal. lia. Qed.

Lemma ring_pred c f i : 0 < c -> ((f + i) mod c - 1 + c) mod c = (f + (i - 1)) mod c.
Proof.
  intros. replace ((f + i) mod c - 1 + c) with ((f + i) mod c + (c - 1)) by lia.
  rewrite Zplus_mod_idemp_l. replace (f + i + (c - 1)) with (f + (i - 1) + 1 * c) by lia.
  by rewrite Z_mod_plus_full.
Qed.

Section views.
Implicit Types lm : LogManager.

Lemma length_view lm : length (view lm) = Z.to_nat (count_ lm).
Proof. unfold view. by rewrite length_fmap, length_seqZ. Qed.

Lemma lookup_view lm (i : nat) :
  (Z.of_nat i < count_ lm) ->
  view lm !! i = Some (slot lm ((front_ lm + Z.of_nat i) mod capacity_ lm)).
Proof.
  intros. unfold view. rewrite list_lookup_fmap, lookup_seqZ_lt by lia. done.
Qed.

(** Two managers with the same ring contents have the same view. *)
Lemma view_ext lm (l : list LogEntry) :
  length l = Z.to_nat (count_ lm) ->
  (forall i : nat, Z.of_nat i < count_ lm ->
     l !! i = Some (slot lm ((front_ lm + Z.of_nat i) mod capacity_ lm))) ->
  view lm = l.
Proof.
  intros Hlen Hl. apply list_eq. intros i.
  destruct (decide (Z.of_nat i < count_ lm)) as [Hi|Hi].
  - by rewrite lookup_view, Hl.
  - rewrite !lookup_ge_None_2; [done | rewrite Hlen; lia | rewrite length_view; lia].
Qed.

Lemma entry_at_Some lm idx e :
  entry_at lm idx = Some e -> wf lm -> base_ lm <= idx <= last_of lm /\ Index e = idx.
Proof.
  unfold entry_at, last_of. intros H Hwf.
  pose proof (arr_get_Some _ _ _ H) as Hr. rewrite length_view in Hr.
  unfold arr_get in H. case_decide; [|lia].
  apply (wf_index _ Hwf) in H. pose proof (wf_count _ Hwf). lia.
Qed.

Lemma entry_at_is_Some lm idx :
  base_ lm <= idx <= last_of lm -> is_Some (entry_at lm idx).
Proof.
  intros. apply arr_get_is_Some. rewrite length_view. unfold last_of in *. lia.
Qed.

Lemma entry_at_None lm idx :
  wf lm -> entry_at lm idx = None <-> ~ (base_ lm <= idx <= last_of lm).
Proof.
  intros Hwf. unfold entry_at. rewrite arr_get_None, length_view.
  pose proof (wf_count _ Hwf). unfold last_of. lia.
Qed.

(** Every array access of a well-formed manager is in range. *)
Lemma slot_in_range lm i :
  wf lm -> arr_get (entries_ lm) (i mod capacity_ lm) = Some (slot_at (entries_ lm) (i mod capacity_ lm)).
Proof.
  intros [[Hc _] Hl _ _ _ _ _ _ _]. unfold slot_at.
  destruct (arr_get_is_Some (entries_ lm) (i mod capacity_ lm)) as [x Hx].
  { pose proof (Z.mod_pos_bound i (capacity_ lm)). lia. }
  by rewrite Hx.
Qed.

Lemma raftIndexToArrayIndex_spec lm idx :
  wf lm -> base_ lm <= idx <= last_of lm ->
  raftIndexToArrayIndex lm idx = (front_ lm + (idx - base_ lm)) mod capacity_ lm.
Proof.
  intros [] Hi. unfold raftIndexToArrayIndex, last_of, Capacity in *.
  rewrite u32_small by (unfold is_u32; lia).
  rewrite i32_small.
  - f_equal. lia.
  - pose proof (Z.mod_pos_bound (idx - base_ lm + front_ lm) (capacity_ lm)). lia.
Qed.

Lemma slot_raftIndex lm idx :
  wf lm -> base_ lm <= idx <= last_of lm ->
  entry_at lm idx = Some (slot lm (raftIndexToArrayIndex lm idx)).
Proof.
  intros Hwf Hi. rewrite raftIndexToArrayIndex_spec by done.
  unfold entry_at, arr_get. rewrite decide_True by lia.
  unfold last_of in Hi. rewrite lookup_view by lia.
  by rewrite Z2Nat.id by lia.
Qed.

Lemma last_slot_spec lm :
  wf lm -> 0 < count_ lm -> entry_at lm (last_of lm) = Some (last_slot lm).
Proof.
  intros Hwf Hc. unfold entry_at, last_slot, arr_get, last_of, Capacity.
  destruct Hwf as [Hcap ? Hf ? Hb]. rewrite decide_True by lia.
  rewrite lookup_view by lia. do 2 f_equal.
  rewrite crem_mod; rewrite ?Hb; [|pose proof (Z.mod_pos_bound (front_ lm + count_ lm) (capacity_ lm)); lia|lia].
  rewrite ring_pred by lia. f_equal. lia.
Qed.

(** [LastLogEntryIndex] is the last index of the abstract log. *)
Lemma LastLogEntryIndex_spec lm : wf lm -> LastLogEntryIndex lm = last_of lm.
Proof.
  intros Hwf. unfold LastLogEntryIndex, Count. case (Z.eqb_spec (count_ lm) 0) as [Hc|Hc].
  - pose proof (wf_empty _ Hwf Hc). unfold last_of. lia.
  - assert (0 < count_ lm) by (destruct Hwf; lia).
    pose proof (last_slot_spec lm Hwf ltac:(lia)) as Hl.
    by apply entry_at_Some in Hl as [_ ?].
Qed.

Lemma LastLogEntryTerm_spec lm e :
  wf lm -> last (view lm) = Some e -> LastLogEntryTerm lm = Term e.
Proof.
  intros Hwf. rewrite last_lookup, length_view. unfold LastLogEntryTerm, Count.
  case (Z.eqb_spec (count_ lm) 0) as [Hc|Hc].
  - rewrite Hc. cbn. rewrite lookup_ge_None_2; [done|]. rewrite length_view. lia.
  - assert (0 < count_ lm) by (destruct Hwf; lia).
    pose proof (last_slot_spec lm Hwf ltac:(lia)) as Hl.
    unfold entry_at, arr_get, last_of in Hl. case_decide; [|done].
    replace (Init.Nat.pred (Z.to_nat (count_ lm)))
      with (Z.to_nat (base_ lm + count_ lm - 1 - base_ lm)) by lia.
    rewrite Hl. by intros [= ->].
Qed.

Lemma out_of_range_spec lm idx :
  wf lm -> out_of_range lm idx = negb (bool_decide (base_ lm <= idx <= last_of lm)).
Proof.
  intros Hwf. unfold out_of_range. rewrite LastLogEntryIndex_spec by done.
  unfold Count. apply Bool.eq_iff_eq_true.
  rewrite negb_true_iff, bool_decide_eq_false, !orb_true_iff, Z.leb_le, !Z.ltb_lt.
  pose proof (wf_count _ Hwf). unfold last_of. lia.
Qed.

(** [GetSingleLogEntry] is lookup in the abstract log. *)
Lemma GetSingleLogEntry_spec lm idx : wf lm -> GetSingleLogEntry lm idx = entry_at lm idx.
Proof.
  intros Hwf. unfold GetSingleLogEntry. rewrite out_of_range_spec by done.
  case_bool_decide as Hi; cbn.
  - by rewrite slot_raftIndex.
  - symmetry. by apply entry_at_None.
Qed.
End views.

(** ** Growing the ring *)
Lemma grow_spec fuel c t :
  0 < c -> t <= c * kExpandFactor ^ Z.of_nat fuel ->
  t <= grow fuel c t /\ c <= grow fuel c t.
Proof.
  unfold kExpandFactor. revert c. induction fuel as [|fuel IH]; intros c Hc Ht; cbn [grow].
  - cbn in Ht. lia.
  - case (Z.ltb_spec c t) as [Hlt|Hlt]; [|lia].
    destruct (IH (c * 4)) as [H1 H2]; [lia| |].
    + rewrite Nat2Z.inj_succ, Z.pow_succ_r in Ht by lia. lia.
    + unfold kExpandFactor. lia.
Qed.

Lemma grow_one c : 0 < c -> grow 32 c (c + 1) = c * 4.
Proof.
  intros. cbn [grow]. unfold kExpandFactor.
  rewrite (proj2 (Z.ltb_lt c (c + 1))) by lia.
  by rewrite (proj2 (Z.ltb_ge (c * 4) (c + 1))) by lia.
Qed.

Section ring_updates.
Implicit Types (lm : LogManager) (e : LogEntry) (idx : Z) (es : list Slot).

Lemma arr_get_upd_slot es i j f :
  0 <= i -> arr_get (upd_slot i f es) j = if decide (j = i) then f <$> arr_get es j else arr_get es j.
Proof.
  intros Hi. unfold arr_get, upd_slot. repeat case_decide; try done; subst.
  - by rewrite list_lookup_alter_eq.
  - rewrite list_lookup_alter_ne; [done|lia].
Qed.

Lemma length_upd_slot es i f : length (upd_slot i f es) = length es.
Proof. apply length_alter. Qed.

Lemma slot_assign lm es i j e :
  entries_ lm = upd_slot i (assign e) es -> 0 <= i -> (Z.to_nat i < length es)%nat ->
  slot lm j = if decide (j = i) then e else value (slot_at es j).
Proof.
  intros He Hi Hlen. unfold slot, slot_at. rewrite He, arr_get_upd_slot by done.
  case_decide as Hij; subst; [|done].
  destruct (arr_get_is_Some es i) as [o ->]; [lia|]. done.
Qed.

(** The copy loop moves [n] entries, starting with the [j]-th one. *)
Lemma move_entries_spec n lm arr rc j :
  wf lm -> 0 <= j -> j + Z.of_nat n < rc -> Z.of_nat (length arr) = rc ->
  exists arr', move_entries n lm arr rc j ((front_ lm + j) mod capacity_ lm)
               = (arr', j + Z.of_nat n) /\
    length arr' = length arr /\
    forall i : nat, value <$> arr' !! i =
      if decide (j <= Z.of_nat i < j + Z.of_nat n)
      then Some (slot lm ((front_ lm + Z.of_nat i) mod capacity_ lm)) else value <$> arr !! i.
Proof.
  intros Hwf. pose proof (wf_cap _ Hwf) as Hcap.
  revert arr j. induction n as [|n IH]; intros arr j Hj Hn Hlen; cbn [move_entries].
  - exists arr. rewrite Z.add_0_r. split_and!; [done..|]. intros i. rewrite decide_False by lia. done.
  - unfold Capacity. rewrite !crem_mod; [|pose proof (Z.mod_pos_bound (front_ lm + j) (capacity_ lm)); lia|lia..].
    rewrite (Z.mod_small (j + 1)), ring_succ by lia.
    destruct (IH (upd_slot j (assign (slot lm ((front_ lm + j) mod capacity_ lm))) arr) (j + 1))
      as (arr' & Heq & Hl & Hlk); rewrite ?length_upd_slot; [lia..|].
    exists arr'. split_and!.
    + rewrite Heq. f_equal. lia.
    + by rewrite Hl, length_upd_slot.
    + intros i. rewrite Hlk. unfold upd_slot. destruct (decide (Z.of_nat i = j)) as [<-|Hne].
      * rewrite decide_False, decide_True by lia.
        rewrite Nat2Z.id, list_lookup_alter_eq. destruct (lookup_lt_is_Some_2 arr i) as [o ->]; [lia|done].
      * rewrite list_lookup_alter_ne by lia. by repeat case_decide; try lia.
Qed.

Lemma wf_intro lm (l : list LogEntry) :
  0 < capacity_ lm < 2 ^ 29 -> length (entries_ lm) = Z.to_nat (capacity_ lm) ->
  0 <= front_ lm < capacity_ lm -> 0 <= count_ lm <= capacity_ lm ->
  back_ lm = (front_ lm + count_ lm) mod capacity_ lm ->
  1 <= base_ lm -> base_ lm + count_ lm < 2 ^ 32 -> view lm = l ->
  (forall i e, l !! i = Some e -> Index e = base_ lm + Z.of_nat i) ->
  (count_ lm = 0 -> base_ lm = last_snapshot_index_ lm + 1) -> wf lm.
Proof. intros ??????? <- ??. by split. Qed.
End ring_updates.

Section refinement.
Context {alloc : Allocator}.
Implicit Types (lm : LogManager) (e : LogEntry) (idx : Z).

(** Room for one more entry: either the ring is not full, or the allocator
    grants the four times larger array. *)
Definition can_append lm : Prop :=
  count_ lm < capacity_ lm \/
  (new_array_ok (capacity_ lm * 4) = true /\ capacity_ lm * 4 < 2 ^ 29).

Lemma ensureCapacity_spec lm :
  wf lm -> can_append lm ->
  exists lm', ensureCapacity 1 lm = (kOk, lm') /\ wf lm' /\ view lm' = view lm /\
    count_ lm' < capacity_ lm' /\ count_ lm' = count_ lm /\ base_ lm' = base_ lm /\
    last_snapshot_index_ lm' = last_snapshot_index_ lm /\
    last_snapshot_term_ lm' = last_snapshot_term_ lm.
Proof.
  intros Hwf Hroom. unfold ensureCapacity, Count, Capacity.
  case (Z.leb_spec (count_ lm + 1) (capacity_ lm)) as [Hle|Hgt].
  { exists lm. split_and!; try done; lia. }
  destruct Hroom as [?|[Hal Hbig]]; [lia|]. pose proof (wf_cap _ Hwf) as Hcap.
  pose proof (wf_count _ Hwf) as Hcnt. pose proof (wf_front _ Hwf) as Hfr.
  rewrite grow_one, Hal by lia.
  destruct (move_entries_spec (Z.to_nat (count_ lm)) lm
              (replicate (Z.to_nat (capacity_ lm * 4)) Slot_default)
              (capacity_ lm * 4) 0) as (arr & Heq & Hlen & Hlk);
    rewrite ?length_replicate in *; [done|lia..|].
  rewrite Z.add_0_r, Z.mod_small in Heq by lia. rewrite Heq.
  eexists; split; [done|].
  set (lm' := mkLogManager _ _ _ _ _ _ _ _ _).
  assert (view lm' = view lm) as Hv.
  { apply view_ext; [by rewrite length_view|]. intros i Hi. cbn in Hi.
    rewrite lookup_view by done. unfold slot at 2, slot_at, arr_get; cbn.
    rewrite (Z.mod_small (Z.of_nat i)), decide_True, Nat2Z.id by lia.
    specialize (Hlk i). rewrite decide_True in Hlk by lia.
    destruct (arr !! i); cbn in Hlk |- *; congruence. }
  split_and!; try done; [|cbn; lia].
  apply (wf_intro lm' (view lm)); cbn; try (destruct Hwf; lia || done).
  rewrite Z.mod_small by lia. lia.
Qed.

Lemma appendEntryHelper_spec lm e :
  wf lm -> can_append lm -> Index e = last_of lm + 1 -> last_of lm + 2 < 2 ^ 32 ->
  exists lm', appendEntryHelper e lm = (kOk, lm') /\ wf lm' /\ view lm' = view lm ++ [e] /\
    base_ lm' = base_ lm /\ count_ lm' = count_ lm + 1 /\
    last_snapshot_index_ lm' = last_snapshot_index_ lm /\
    last_snapshot_term_ lm' = last_snapshot_term_ lm.
Proof.
  intros Hwf Hroom Hidx Hbnd. unfold appendEntryHelper.
  destruct (ensureCapacity_spec lm Hwf Hroom) as (lm1 & -> & Hwf1 & Hv & Hlt & Hc & Hb & Hsi & Hst).
  eexists; split; [done|]. set (lm' := mkLogManager _ _ _ _ _ _ _ _ _).
  pose proof (wf_cap _ Hwf1) as Hcap. pose proof (wf_front _ Hwf1) as Hfr.
  pose proof (wf_count _ Hwf1) as Hcnt. pose proof (wf_back _ Hwf1) as Hbk.
  pose proof (Z.mod_pos_bound (front_ lm1 + count_ lm1) (capacity_ lm1)) as Hmod.
  assert (view lm' = view lm ++ [e]) as Hv'.
  { rewrite <- Hv. apply view_ext; cbn.
    - rewrite length_app, length_view. cbn. lia.
    - intros i Hi. rewrite (slot_assign lm' (entries_ lm1) (back_ lm1) _ e); cbn; try done;
        [|rewrite Hbk; lia|rewrite (wf_len _ Hwf1), Hbk; lia].
      destruct (decide (Z.of_nat i = count_ lm1)) as [Hic|Hic].
      + rewrite decide_True by (rewrite Hbk; f_equal; lia).
        rewrite lookup_app_r, length_view by (rewrite length_view; lia).
        by replace (i - Z.to_nat (count_ lm1))%nat with 0%nat by lia.
      + rewrite decide_False.
        * rewrite lookup_app_l by (rewrite length_view; lia). rewrite lookup_view by lia. done.
        * rewrite Hbk. intros Heq. apply ring_inj in Heq; lia. }
  split_and!; try done; [|cbn; lia].
  apply (wf_intro lm' (view lm ++ [e])); cbn; unfold Capacity; try (destruct Hwf1; lia || done).
  - rewrite length_upd_slot. apply wf_len, Hwf1.
  - rewrite crem_mod, Hbk by lia. by apply ring_succ; lia.
  - unfold last_of in Hbnd. lia.
  - intros i e' Hi. apply lookup_app_Some in Hi as [Hi|[Hlen Hi]].
    + apply (wf_index _ Hwf) in Hi. lia.
    + rewrite length_view in *. apply list_lookup_singleton_Some in Hi as [Hi <-].
      unfold last_of in Hidx. lia.
Qed.
End refinement.

Section truncation.
Implicit Types (lm : LogManager) (e : LogEntry) (idx : Z) (es : list Slot).

(** Deleting [n] entries ending at ring position [p] touches only those. *)
Lemma delete_loop_spec n cap es ub f p :
  0 < cap -> Z.of_nat n <= cap -> Z.of_nat n <= p + 1 -> p < cap ->
  exists es' ub', delete_loop n cap es ub ((f + p) mod cap) = (es', ub', (f + (p - Z.of_nat n)) mod cap) /\
    length es' = length es /\
    forall i, 0 <= i < cap -> arr_get es' ((f + i) mod cap) =
      if decide (p - Z.of_nat n < i <= p) then default_Deleter <$> arr_get es ((f + i) mod cap)
      else arr_get es ((f + i) mod cap).
Proof.
  intros Hc. revert es ub p. induction n as [|n IH]; intros es ub p Hn Hp Hpc; cbn [delete_loop].
  - exists es, ub. replace (p - Z.of_nat 0) with p by lia. split_and!; [done..|].
    intros i Hi. by rewrite decide_False by lia.
  - rewrite crem_mod by (pose proof (Z.mod_pos_bound (f + p) cap); lia).
    rewrite ring_pred by done.
    destruct (IH (upd_slot ((f + p) mod cap) default_Deleter es)
                (ub || dtor_ub (slot_at es ((f + p) mod cap))) (p - 1)) as (es' & ub' & -> & Hl & Hg); [lia..|].
    exists es', ub'. split_and!.
    + f_equal. do 2 f_equal. lia.
    + rewrite Hl. apply length_alter.
    + intros i Hi. rewrite Hg, arr_get_upd_slot by (lia || apply Z.mod_pos_bound; lia).
      destruct (decide (i = p)) as [->|Hip].
      * by rewrite decide_False, !decide_True by lia.
      * rewrite (decide_False (P := _ = _)) by (intros Heq; apply ring_inj in Heq; lia).
        by repeat case_decide; try lia.
Qed.

(** What a truncation at [idx] does to the ring: exactly the slots from [idx] on are
    destroyed, and the next append goes to the first of them. *)
Lemma DeleteLogEntriesFrom_ring lm idx :
  wf lm -> base_ lm <= idx <= last_of lm ->
  exists lm', DeleteLogEntriesFrom idx lm = (kOk, lm') /\
    length (entries_ lm') = length (entries_ lm) /\ front_ lm' = front_ lm /\
    back_ lm' = (front_ lm + (idx - base_ lm)) mod capacity_ lm /\ count_ lm' = idx - base_ lm /\
    base_ lm' = base_ lm /\ capacity_ lm' = capacity_ lm /\
    last_snapshot_index_ lm' = last_snapshot_index_ lm /\ last_snapshot_term_ lm' = last_snapshot_term_ lm /\
    forall i, 0 <= i < capacity_ lm ->
      arr_get (entries_ lm') ((front_ lm + i) mod capacity_ lm) =
      if decide (idx - base_ lm <= i < count_ lm)
      then default_Deleter <$> arr_get (entries_ lm) ((front_ lm + i) mod capacity_ lm)
      else arr_get (entries_ lm) ((front_ lm + i) mod capacity_ lm).
Proof.
  intros Hwf Hi. unfold DeleteLogEntriesFrom. rewrite out_of_range_spec, bool_decide_eq_true_2 by done.
  cbn [negb]. rewrite LastLogEntryIndex_spec by done.
  pose proof (wf_cap _ Hwf) as Hcap. pose proof (wf_count _ Hwf) as Hcnt.
  pose proof (wf_bound _ Hwf) as Hbnd. pose proof (wf_base _ Hwf) as Hbs.
  unfold last_of in *. rewrite raftIndexToArrayIndex_spec by (done || unfold last_of; lia).
  rewrite u32_small by (unfold is_u32; lia). rewrite i32_small by lia.
  set (n := base_ lm + count_ lm - 1 - idx + 1). unfold Capacity.
  destruct (delete_loop_spec (Z.to_nat n) (capacity_ lm) (entries_ lm) (undefined_ lm) (front_ lm)
              (base_ lm + count_ lm - 1 - base_ lm)) as (es & ub & -> & Hl & Hg); [lia..|].
  eexists. split; [done|]. cbn. split_and!; try done; [|lia|].
  - rewrite crem_mod by (pose proof (Z.mod_pos_bound (front_ lm + (base_ lm + count_ lm - 1 - base_ lm - Z.of_nat (Z.to_nat n))) (capacity_ lm)); lia).
    rewrite ring_succ by lia. f_equal. lia.
  - intros i Hir. rewrite Hg by done. by repeat case_decide; try lia.
Qed.

Lemma DeleteLogEntriesFrom_spec lm idx :
  wf lm -> base_ lm <= idx <= last_of lm ->
  exists lm', DeleteLogEntriesFrom idx lm = (kOk, lm') /\
    view lm' = take (Z.to_nat (idx - base_ lm)) (view lm) /\
    base_ lm' = base_ lm /\ count_ lm' = idx - base_ lm /\ capacity_ lm' = capacity_ lm /\
    last_snapshot_index_ lm' = last_snapshot_index_ lm /\
    last_snapshot_term_ lm' = last_snapshot_term_ lm /\
    (base_ lm < idx \/ base_ lm = last_snapshot_index_ lm + 1 -> wf lm').
Proof.
  intros Hwf Hi. destruct (DeleteLogEntriesFrom_ring lm idx Hwf Hi)
    as (lm' & Heq & Hl & Hf & Hbk & Hc & Hb & Hcp & Hsi & Hst & Hg).
  pose proof (wf_cap _ Hwf) as Hcap. pose proof (wf_count _ Hwf) as Hcnt.
  pose proof (wf_bound _ Hwf) as Hbnd. pose proof (wf_base _ Hwf) as Hbs.
  pose proof (wf_front _ Hwf) as Hfr. unfold last_of in *. exists lm'.
  assert (view lm' = take (Z.to_nat (idx - base_ lm)) (view lm)) as Hv.
  { apply view_ext; rewrite ?Hc, ?Hf, ?Hcp.
    - rewrite length_take, length_view. lia.
    - intros i Hlt. rewrite lookup_take, decide_True, lookup_view by lia. unfold slot, slot_at.
      by rewrite Hg, decide_False by lia. }
  split_and!; try done. intros Hok.
  apply (wf_intro lm' (take (Z.to_nat (idx - base_ lm)) (view lm))); rewrite ?Hc, ?Hf, ?Hcp, ?Hb, ?Hsi; try done; try lia.
  - rewrite Hl. apply wf_len, Hwf.
  - intros i e He. apply lookup_take_Some in He as [He _]. by apply (wf_index _ Hwf) in He.
Qed.

Lemma DeleteLogEntriesFrom_out lm idx :
  wf lm -> ~ (base_ lm <= idx <= last_of lm) ->
  DeleteLogEntriesFrom idx lm = (kIndexBeyondRange, lm).
Proof.
  intros Hwf Hi. unfold DeleteLogEntriesFrom.
  by rewrite out_of_range_spec, bool_decide_eq_false_2.
Qed.

Lemma OverWriteLogEntry_spec lm e idx :
  wf lm -> base_ lm <= idx <= last_of lm ->
  exists lm', OverWriteLogEntry e idx lm = (kOk, lm') /\
    view lm' = <[Z.to_nat (idx - base_ lm) := e]> (view lm) /\
    base_ lm' = base_ lm /\ count_ lm' = count_ lm /\ capacity_ lm' = capacity_ lm /\
    last_snapshot_index_ lm' = last_snapshot_index_ lm /\
    last_snapshot_term_ lm' = last_snapshot_term_ lm /\
    (Index e = idx -> wf lm').
Proof.
  intros Hwf Hi. unfold OverWriteLogEntry. rewrite out_of_range_spec, bool_decide_eq_true_2 by done.
  cbn [negb]. eexists; split; [done|]. set (lm' := mkLogManager _ _ _ _ _ _ _ _ _).
  pose proof (wf_cap _ Hwf) as Hcap. pose proof (wf_count _ Hwf) as Hcnt. unfold last_of in Hi.
  assert (view lm' = <[Z.to_nat (idx - base_ lm) := e]> (view lm)) as Hv.
  { apply view_ext; cbn; [by rewrite length_insert, length_view|]. intros i Hlt.
    rewrite (slot_assign lm' (entries_ lm) (raftIndexToArrayIndex lm idx) _ e) by
      (done || (rewrite raftIndexToArrayIndex_spec by (done || unfold last_of; lia); apply Z.mod_pos_bound; lia) ||
       (rewrite raftIndexToArrayIndex_spec by (done || unfold last_of; lia);
        rewrite (wf_len _ Hwf); pose proof (Z.mod_pos_bound (front_ lm + (idx - base_ lm)) (capacity_ lm)); lia)).
    rewrite raftIndexToArrayIndex_spec by (done || unfold last_of; lia). cbn.
    destruct (decide (Z.of_nat i = idx - base_ lm)) as [Heq|Hne].
    - rewrite decide_True by (by rewrite Heq).
      rewrite <- Heq, Nat2Z.id. apply list_lookup_insert_eq. rewrite length_view. lia.
    - rewrite decide_False.
      + rewrite list_lookup_insert_ne by lia. by rewrite lookup_view.
      + intros H. apply ring_inj in H; lia. }
  split_and!; try done. intros He.
  apply (wf_intro lm' (<[Z.to_nat (idx - base_ lm) := e]> (view lm))); cbn;
    try (destruct Hwf; done).
  - rewrite length_upd_slot. apply wf_len, Hwf.
  - intros i e' H'. apply list_lookup_insert_Some in H' as [(<- & -> & _)|[_ H']].
    + lia.
    + by apply (wf_index _ Hwf) in H'.
Qed.

Lemma OverWriteLogEntry_out lm e idx :
  wf lm -> ~ (base_ lm <= idx <= last_of lm) ->
  OverWriteLogEntry e idx lm = (kIndexBeyondRange, lm).
Proof.
  intros Hwf Hi. unfold OverWriteLogEntry.
  by rewrite out_of_range_spec, bool_decide_eq_false_2.
Qed.

Lemma fetch_loop_spec lm n j :
  wf lm -> 0 <= j -> j + Z.of_nat n <= count_ lm ->
  fetch_loop n lm ((front_ lm + j) mod capacity_ lm) =
  take n (drop (Z.to_nat j) (view lm)).
Proof.
  intros Hwf. pose proof (wf_cap _ Hwf) as Hcap.
  revert j. induction n as [|n IH]; intros j Hj Hn; cbn [fetch_loop]; [by rewrite take_0|].
  unfold Capacity. rewrite crem_mod by (pose proof (Z.mod_pos_bound (front_ lm + j) (capacity_ lm)); lia).
  rewrite ring_succ, IH by lia.
  rewrite (drop_S (view lm) (slot lm ((front_ lm + j) mod capacity_ lm)) (Z.to_nat j)).
  - cbn. f_equal. f_equal. f_equal. lia.
  - rewrite lookup_view by lia. by rewrite Z2Nat.id by lia.
Qed.

Lemma GetLogEntriesFrom_spec lm idx :
  wf lm -> base_ lm <= idx <= last_of lm ->
  GetLogEntriesFrom idx lm = (kOk, drop (Z.to_nat (idx - base_ lm)) (view lm)).
Proof.
  intros Hwf Hi. unfold GetLogEntriesFrom. rewrite LastLogEntryIndex_spec by done.
  unfold Count. pose proof (wf_count _ Hwf). pose proof (wf_bound _ Hwf).
  pose proof (wf_base _ Hwf). pose proof (wf_cap _ Hwf). unfold last_of in *.
  rewrite (proj2 (Z.leb_gt (count_ lm) 0)), (proj2 (Z.ltb_ge _ idx)), (proj2 (Z.ltb_ge idx _)) by lia.
  cbn [orb]. f_equal. rewrite u32_small by (unfold is_u32; lia). rewrite i32_small by lia.
  rewrite raftIndexToArrayIndex_spec by (done || unfold last_of; lia).
  rewrite fetch_loop_spec by (done || lia). apply take_ge.
  rewrite length_drop, length_view. lia.
Qed.

(** [TermAt] on the indices of the log and just before it. *)
Lemma TermAt_spec lm idx :
  wf lm -> last_snapshot_index_ lm = 0 -> base_ lm = 1 -> 0 <= idx ->
  TermAt lm idx =
  if idx =? 0 then last_snapshot_term_ lm
  else match entry_at lm idx with Some e => Term e | None => u32 (-1) end.
Proof.
  intros Hwf Hs Hb Hi. unfold TermAt. rewrite LastLogEntryIndex_spec, Hs, Hb by done.
  replace (u32 (1 - 1)) with 0 by done.
  rewrite (proj2 (Z.ltb_ge idx 0)) by lia. cbn [orb].
  pose proof (wf_count _ Hwf).
  case (Z.eqb_spec idx 0) as [->|Hne].
  - rewrite (proj2 (Z.ltb_ge _ _)); [done|]. unfold last_of. lia.
  - case (Z.ltb_spec (last_of lm) idx) as [Hlt|Hge].
    + rewrite (proj2 (entry_at_None lm idx Hwf)); [done|lia].
    + rewrite (slot_raftIndex lm idx Hwf); [done|lia].
Qed.
End truncation.

(** ** The storage of the vectors

    An invariant of the slots that holds of a fresh one and is preserved by assigning
    entries of a class holds of every slot of a log that is only given such entries. *)
Section slots.
Context {alloc : Allocator} (P : Slot -> Prop) (Q : LogEntry -> Prop).
Implicit Types (lm : LogManager) (e : LogEntry) (idx : Z) (es : list Slot).

Record SlotInvariant : Prop := {
  si_default : P Slot_default;
  si_assign : forall e o, Q e -> P o -> P (assign e o);
  si_value : forall o, P o -> Q (value o)
}.
Record NoFreedUse : Prop := {
  nf_assign : forall e o, Q e -> P o -> assign_ub e o = false;
  nf_dtor : forall o, P o -> dtor_ub o = false
}.

Definition slots_hold lm : Prop := Forall P (entries_ lm).

Lemma Forall_upd_slot i f es : Forall P es -> (forall o, P o -> P (f o)) -> Forall P (upd_slot i f es).
Proof. intros He Hf. apply Forall_alter; auto. Qed.

Context (Hinv : SlotInvariant).

Lemma Forall_slot_at i es : Forall P es -> P (slot_at es i).
Proof.
  intros He. unfold slot_at, arr_get. case_decide; [|apply Hinv].
  destruct (es !! _) as [o|] eqn:Ho; [|apply Hinv]. by eapply Forall_lookup_1 in He.
Qed.

Lemma Forall_existsb es : NoFreedUse -> Forall P es -> existsb dtor_ub es = false.
Proof. intros Hn. induction 1 as [|o es Ho _ IH]; [done|]. cbn. by rewrite (nf_dtor Hn _ Ho). Qed.

Lemma Forall_move_entries n lm rc : forall arr i j,
  slots_hold lm -> Forall P arr -> Forall P (fst (move_entries n lm arr rc i j)).
Proof.
  induction n as [|n IH]; intros arr i j Hlm Ha; cbn [move_entries]; [done|].
  apply IH; [done|]. apply Forall_upd_slot; [done|]. intros o. apply (si_assign Hinv).
  apply (si_value Hinv). by apply Forall_slot_at.
Qed.

Lemma slots_ensureCapacity n lm :
  slots_hold lm -> slots_hold (snd (ensureCapacity n lm)) /\
    (NoFreedUse -> undefined_ (snd (ensureCapacity n lm)) = undefined_ lm).
Proof.
  intros Hlm. unfold ensureCapacity. destruct (_ <=? _); [done|]. destruct (new_array_ok _); [|done].
  pose proof (Forall_move_entries (Z.to_nat (Count lm)) lm (grow 32 (capacity_ lm) (Capacity lm + n))
    (replicate (Z.to_nat (grow 32 (capacity_ lm) (Capacity lm + n))) Slot_default) 0 (front_ lm) Hlm) as H.
  destruct (move_entries _ _ _ _ _ _) as [arr i]. cbn in *. split.
  - apply H, Forall_replicate, Hinv.
  - intros Hn. by rewrite (Forall_existsb _ Hn Hlm), orb_false_r.
Qed.

Lemma slots_append e lm :
  Q e -> slots_hold lm -> slots_hold (snd (appendEntryHelper e lm)) /\
    (NoFreedUse -> undefined_ (snd (appendEntryHelper e lm)) = undefined_ lm).
Proof.
  intros Hq Hlm. unfold appendEntryHelper. destruct (slots_ensureCapacity 1 lm Hlm) as [H Hu].
  destruct (ensureCapacity 1 lm) as [[] lm1]; cbn in *; try done. split.
  - apply Forall_upd_slot; [done|]. intros o. by apply (si_assign Hinv).
  - intros Hn. rewrite (nf_assign Hn), orb_false_r by (done || by apply Forall_slot_at). by apply Hu.
Qed.

Lemma slots_overwrite e idx lm :
  Q e -> slots_hold lm -> slots_hold (snd (OverWriteLogEntry e idx lm)) /\
    (NoFreedUse -> undefined_ (snd (OverWriteLogEntry e idx lm)) = undefined_ lm).
Proof.
  intros Hq Hlm. unfold OverWriteLogEntry. destruct (out_of_range lm idx); cbn; [done|]. split.
  - apply Forall_upd_slot; [done|]. intros o. by apply (si_assign Hinv).
  - intros Hn. by rewrite (nf_assign Hn), orb_false_r by (done || by apply Forall_slot_at).
Qed.

Context (Hdel : forall o, P o -> P (default_Deleter o)).

Lemma slots_delete_loop n cap : forall es ub i,
  Forall P es -> Forall P (fst (fst (delete_loop n cap es ub i))) /\
    (NoFreedUse -> snd (fst (delete_loop n cap es ub i)) = ub).
Proof.
  induction n as [|n IH]; intros es ub i He; cbn [delete_loop]; [done|].
  destruct (IH (upd_slot i default_Deleter es) (ub || dtor_ub (slot_at es i)) (crem (i - 1 + cap) cap))
    as [H1 H2]; [by apply Forall_upd_slot|].
  split; [done|]. intros Hn. rewrite (H2 Hn), (nf_dtor Hn), orb_false_r; [done|]. by apply Forall_slot_at.
Qed.

Lemma slots_delete idx lm :
  slots_hold lm -> slots_hold (snd (DeleteLogEntriesFrom idx lm)) /\
    (NoFreedUse -> undefined_ (snd (DeleteLogEntriesFrom idx lm)) = undefined_ lm).
Proof.
  intros Hlm. unfold DeleteLogEntriesFrom. destruct (out_of_range lm idx); [done|].
  match goal with |- context [delete_loop ?n ?c ?es ?ub ?i] =>
    pose proof (slots_delete_loop n c es ub i Hlm) as H; destruct (delete_loop n c es ub i) as [[es' ub'] i'] end.
  done.
Qed.
End slots.

(** Three invariants: a log whose entries have no vector elements never has any
    storage to free; a log that is never truncated has none that is freed; and a
    vector with elements has storage. *)
Definition plain (e : LogEntry) : Prop := Fragments e = [] /\ FragIds e = [] /\ Placement e = [].
Definition plain_slot (o : Slot) : Prop :=
  plain (value o) /\ fragments_buf o = NoBuffer /\ frag_ids_buf o = NoBuffer /\ placement_buf o = NoBuffer.

Lemma plain_invariant : SlotInvariant plain_slot plain.
Proof.
  split; [done| |by intros o []]. intros e [e' b1 b2 b3] [H1 [H2 H3]] (_ & Hb1 & Hb2 & Hb3). cbn in *. subst.
  unfold assign. rewrite H1, H2, H3. done.
Qed.

Lemma plain_unused : NoFreedUse plain_slot plain.
Proof.
  split.
  - intros e [e' b1 b2 b3] (H1 & H2 & H3) (_ & Hb1 & Hb2 & Hb3). cbn in *. subst.
    unfold assign_ub. by rewrite H1, H2, H3.
  - intros [e' b1 b2 b3] (_ & Hb1 & Hb2 & Hb3). cbn in *. by subst.
Qed.

Lemma plain_delete o : plain_slot o -> plain_slot (default_Deleter o).
Proof. destruct o. intros (_ & Hb1 & Hb2 & Hb3). cbn in *. by subst. Qed.

Definition unfreed_slot (o : Slot) : Prop := dtor_ub o = false.

Lemma is_Freed_fill {A} (xs : list A) b : is_Freed b = false -> is_Freed (fill xs b) = false /\ fills_freed xs b = false.
Proof. by destruct xs, b. Qed.

Lemma unfreed_assign e o : unfreed_slot o -> unfreed_slot (assign e o) /\ assign_ub e o = false.
Proof.
  unfold unfreed_slot, dtor_ub, assign_ub. destruct o as [e' b1 b2 b3]. cbn.
  intros [[H1 H2]%orb_false_elim H3]%orb_false_elim.
  destruct (is_Freed_fill (Fragments e) b1 H1) as [-> ->], (is_Freed_fill (FragIds e) b2 H2) as [-> ->],
    (is_Freed_fill (Placement e) b3 H3) as [-> ->]. done.
Qed.

Lemma unfreed_invariant : SlotInvariant unfreed_slot (fun _ => True).
Proof. split; [done| |done]. intros. by apply unfreed_assign. Qed.

Lemma unfreed_unused : NoFreedUse unfreed_slot (fun _ => True).
Proof. split; [|done]. intros. by apply unfreed_assign. Qed.

Definition has_storage {A} (xs : list A) (b : Buffer) : Prop := xs <> [] -> b <> NoBuffer.
Definition tracked_slot (o : Slot) : Prop :=
  has_storage (Fragments (value o)) (fragments_buf o) /\ has_storage (FragIds (value o)) (frag_ids_buf o) /\
  has_storage (Placement (value o)) (placement_buf o).

Lemma has_storage_fill {A} (xs : list A) b : has_storage xs (fill xs b).
Proof. unfold has_storage. by destruct xs, b. Qed.

Lemma tracked_invariant : SlotInvariant tracked_slot (fun _ => True).
Proof. split; [by split_and!; intros []| |done]. intros. split_and!; apply has_storage_fill. Qed.

Lemma tracked_delete o : tracked_slot o -> tracked_slot (default_Deleter o).
Proof. intros _. split_and!; by intros []. Qed.

(** Undefined behaviour is not undone. *)
Section undefined.
Context {alloc : Allocator}.
Implicit Types (lm : LogManager) (e : LogEntry) (idx : Z).

Lemma undefined_append e lm : undefined_ lm = true -> undefined_ (snd (AppendLogEntry e lm)) = true.
Proof.
  intros Hu. unfold AppendLogEntry, appendEntryHelper, ensureCapacity.
  destruct (_ <=? _); cbn; [by rewrite Hu|]. destruct (new_array_ok _); cbn; [|done].
  destruct (move_entries _ _ _ _ _ _); cbn. by rewrite Hu.
Qed.

(** The storage of a vector that has elements in both entries. *)
Definition share_vector (e old : LogEntry) : Prop :=
  (Fragments e <> [] /\ Fragments old <> []) \/ (FragIds e <> [] /\ FragIds old <> []) \/
  (Placement e <> [] /\ Placement old <> []).

Lemma share_vector_destroyed e o :
  tracked_slot o -> share_vector e (value o) -> assign_ub e (default_Deleter o) = true.
Proof.
  unfold tracked_slot, has_storage, share_vector, assign_ub. destruct o as [old b1 b2 b3]. cbn.
  intros (H1 & H2 & H3) [[Hx Hy]|[[Hx Hy]|[Hx Hy]]].
  - specialize (H1 Hy). destruct (Fragments e); [done|]. by destruct b1.
  - specialize (H2 Hy). destruct (FragIds e); [done|]. destruct b2; [done|..]; cbn; by rewrite orb_true_r.
  - specialize (H3 Hy). destruct (Placement e); [done|]. destruct b3; [done|..]; cbn; by rewrite orb_true_r.
Qed.

(** An entry appended over a truncated one. *)
Lemma truncate_append_undefined lm idx old e :
  wf lm -> slots_hold tracked_slot lm -> entry_at lm idx = Some old -> share_vector e old ->
  undefined_ (snd (AppendLogEntry e (snd (DeleteLogEntriesFrom idx lm)))) = true.
Proof.
  intros Hwf Ht Hold Hs. destruct (entry_at_Some _ _ _ Hold Hwf) as [Hi _].
  destruct (DeleteLogEntriesFrom_ring lm idx Hwf Hi) as (lm' & -> & _ & _ & Hbk & Hc & _ & Hcp & _ & _ & Hg).
  pose proof (wf_count _ Hwf) as Hcnt. unfold last_of in Hi. cbn [snd].
  unfold AppendLogEntry, appendEntryHelper, ensureCapacity, Count, Capacity.
  rewrite (proj2 (Z.leb_le _ _)) by lia. cbn [snd undefined_].
  rewrite (slot_raftIndex lm idx Hwf) in Hold by (unfold last_of; lia). injection Hold as Hold.
  rewrite raftIndexToArrayIndex_spec in Hold by (done || unfold last_of; lia).
  unfold slot_at. rewrite Hbk, Hg, decide_True by lia.
  rewrite slot_in_range by done. cbn [fmap option_fmap option_map default]. unfold id.
  rewrite share_vector_destroyed, orb_true_r; [done| |by unfold slot in Hold; rewrite Hold].
  apply (Forall_slot_at _ _ tracked_invariant _ _ Ht).
Qed.
End undefined.

(** ** Refinement of operation sequences *)
Module LogSpec.
(** The operations Raft issues on its log (no compaction: the log starts at 1). *)
Inductive LogOp :=
| OpAppend (e : LogEntry)
| OpAppendAtomic (e : LogEntry)
| OpDelete (idx : Z)
| OpOverwrite (e : LogEntry) (idx : Z).

Section ops.
Context {alloc : Allocator}.

Definition step (op : LogOp) (lm : LogManager) : Status * LogManager :=
  match op with
  | OpAppend e => AppendLogEntry e lm
  | OpAppendAtomic e => let '(_, st, lm) := AppendLogEntryAtomic e lm in (st, lm)
  | OpDelete idx => DeleteLogEntriesFrom idx lm
  | OpOverwrite e idx => OverWriteLogEntry e idx lm
  end.

Fixpoint run (ops : list LogOp) (lm : LogManager) : list Status * LogManager :=
  match ops with
  | [] => ([], lm)
  | op :: ops => let '(st, lm) := step op lm in
                 let '(sts, lm) := run ops lm in (st :: sts, lm)
  end.
End ops.

(** The specification: a list whose [i]-th element has raft index [i + 1]. *)
Definition in_log (idx : Z) (l : list LogEntry) : bool :=
  bool_decide (1 <= idx <= Z.of_nat (length l)).

Definition spec_step (op : LogOp) (l : list LogEntry) : Status * list LogEntry :=
  match op with
  | OpAppend e => (kOk, l ++ [e])
  | OpAppendAtomic e => (kOk, l ++ [SetIndex (Z.of_nat (length l) + 1) e])
  | OpDelete idx =>
      if in_log idx l then (kOk, take (Z.to_nat (idx - 1)) l) else (kIndexBeyondRange, l)
  | OpOverwrite e idx =>
      if in_log idx l then (kOk, <[Z.to_nat (idx - 1) := e]> l) else (kIndexBeyondRange, l)
  end.

Fixpoint spec_run (ops : list LogOp) (l : list LogEntry) : list Status * list LogEntry :=
  match ops with
  | [] => ([], l)
  | op :: ops => let '(st, l) := spec_step op l in
                 let '(sts, l) := spec_run ops l in (st :: sts, l)
  end.

(** What a caller of the log must respect: an entry appended or written
    carries the index of its position, and the log stays below 2^27 entries. *)
Definition op_ok (op : LogOp) (l : list LogEntry) : Prop :=
  match op with
  | OpAppend e => Index e = Z.of_nat (length l) + 1 /\ Z.of_nat (length l) < 2 ^ 27
  | OpAppendAtomic e => Z.of_nat (length l) < 2 ^ 27
  | OpDelete _ => True
  | OpOverwrite e idx => Index e = idx
  end.

Fixpoint ops_ok (ops : list LogOp) (l : list LogEntry) : Prop :=
  match ops with
  | [] => True
  | op :: ops => op_ok op l /\ ops_ok ops (snd (spec_step op l))
  end.

(** The state of a log that was never compacted. *)
Record fresh_base (lm : LogManager) : Prop := {
  fb_wf : wf lm;
  fb_base : base_ lm = 1;
  fb_snap : last_snapshot_index_ lm = 0
}.

Lemma fresh_last lm : fresh_base lm -> last_of lm = Z.of_nat (length (view lm)).
Proof.
  intros [Hwf Hb _]. rewrite length_view. unfold last_of. pose proof (wf_count _ Hwf). lia.
Qed.

Lemma in_log_spec lm idx :
  fresh_base lm -> in_log idx (view lm) = bool_decide (base_ lm <= idx <= last_of lm).
Proof.
  intros H. unfold in_log. rewrite (fresh_last lm H), (fb_base lm H). done.
Qed.

Lemma wf_ctor cap : 0 < cap < 2 ^ 29 -> fresh_base (LogManager_ctor cap).
Proof.
  intros. split; [|done..]. apply (wf_intro _ []); cbn; try lia; try done.
  - by rewrite length_replicate.
Qed.

Section simulation.
Context {alloc : Allocator} (Halloc : forall n, new_array_ok n = true).

Lemma append_room lm :
  wf lm -> count_ lm < 2 ^ 27 -> can_append lm.
Proof.
  intros Hwf Hc. unfold can_append. pose proof (wf_count _ Hwf).
  destruct (decide (count_ lm < capacity_ lm)); [by left|].
  right. split; [apply Halloc|]. lia.
Qed.

Lemma append_fresh lm e :
  fresh_base lm -> Index e = last_of lm + 1 -> Z.of_nat (length (view lm)) < 2 ^ 27 ->
  exists lm', appendEntryHelper e lm = (kOk, lm') /\ fresh_base lm' /\ view lm' = view lm ++ [e].
Proof.
  intros Hfb Hidx Hlen. pose proof (fresh_last lm Hfb) as Hlast. destruct Hfb as [Hwf Hb Hs].
  destruct (appendEntryHelper_spec lm e) as (lm' & Heq & Hwf' & Hv & Hb' & _ & Hs' & _); try done.
  - apply append_room; [done|]. rewrite length_view in Hlen. lia.
  - lia.
  - exists lm'. split_and!; try done. split; [done|congruence..].
Qed.

(** One step of the ring buffer is one step of the list. *)
Lemma step_sim op lm :
  fresh_base lm -> op_ok op (view lm) ->
  exists lm', step op lm = (fst (spec_step op (view lm)), lm') /\ fresh_base lm' /\
    view lm' = snd (spec_step op (view lm)).
Proof.
  intros Hfb Hok. pose proof (fresh_last lm Hfb) as Hlast.
  pose proof (fb_wf lm Hfb) as Hwf. pose proof (fb_base lm Hfb) as Hb. pose proof (fb_snap lm Hfb) as Hs.
  destruct op as [e|e|idx|e idx]; cbn in Hok |- *.
  - destruct Hok as [Hi Hl]. unfold AppendLogEntry.
    destruct (append_fresh lm e) as (lm' & ? & ? & ?); eauto. lia.
  - unfold AppendLogEntryAtomic. rewrite LastLogEntryIndex_spec, Hlast by done.
    rewrite u32_small by (unfold is_u32; lia).
    destruct (append_fresh lm (SetIndex (Z.of_nat (length (view lm)) + 1) e))
      as (lm' & -> & ? & ?); [done|cbn; lia|done|]. eauto.
  - rewrite in_log_spec by done. case_bool_decide as Hi.
    + destruct (DeleteLogEntriesFrom_spec lm idx Hwf Hi)
        as (lm' & Heq & Hv & Hb' & _ & _ & Hs' & _ & Hwf').
      exists lm'. split; [exact Heq|]. split; [|by rewrite Hv, Hb].
      split; [apply Hwf'; lia|congruence..].
    + exists lm. by rewrite DeleteLogEntriesFrom_out.
  - rewrite in_log_spec by done. case_bool_decide as Hi.
    + destruct (OverWriteLogEntry_spec lm e idx Hwf Hi)
        as (lm' & Heq & Hv & Hb' & _ & _ & Hs' & _ & Hwf').
      exists lm'. split; [exact Heq|]. split; [|by rewrite Hv, Hb].
      split; [by apply Hwf'|congruence..].
    + exists lm. by rewrite OverWriteLogEntry_out.
Qed.

Lemma run_sim ops lm :
  fresh_base lm -> ops_ok ops (view lm) ->
  exists lm', run ops lm = (fst (spec_run ops (view lm)), lm') /\ fresh_base lm' /\
    view lm' = snd (spec_run ops (view lm)).
Proof.
  revert lm. induction ops as [|op ops IH]; intros lm Hfb Hok; cbn.
  - eauto.
  - destruct Hok as [H1 H2]. destruct (step_sim op lm Hfb H1) as (lm1 & -> & Hfb1 & Hv1).
    destruct (spec_step op (view lm)) as [st l] eqn:Es. cbn in *. subst l.
    destruct (IH lm1 Hfb1 H2) as (lm' & -> & Hfb' & Hv'). exists lm'.
    destruct (spec_run ops (view lm1)) eqn:Er. done.
Qed.
End simulation.

(** The class of the entries an operation writes. *)
Definition op_writes (Q : LogEntry -> Prop) (op : LogOp) : Prop :=
  match op with
  | OpAppend e | OpAppendAtomic e | OpOverwrite e _ => Q e
  | OpDelete _ => True
  end.
Definition is_delete (op : LogOp) : bool := match op with OpDelete _ => true | _ => false end.

Section buffers.
Context {alloc : Allocator} (P : Slot -> Prop) (Q : LogEntry -> Prop) (Hinv : SlotInvariant P Q).
Context (Hset : forall i e, Q e -> Q (SetIndex i e)).

Lemma slots_step op lm :
  op_writes Q op -> ((forall o, P o -> P (default_Deleter o)) \/ is_delete op = false) ->
  slots_hold P lm -> slots_hold P (snd (step op lm)) /\
    (NoFreedUse P Q -> undefined_ (snd (step op lm)) = undefined_ lm).
Proof.
  intros Hq Hd Hlm. destruct op as [e|e|idx|e idx]; cbn in *.
  - by apply slots_append.
  - unfold AppendLogEntryAtomic.
    pose proof (slots_append P Q Hinv (SetIndex (u32 (LastLogEntryIndex lm + 1)) e) lm (Hset _ _ Hq) Hlm) as H.
    by destruct (appendEntryHelper _ lm) as [[] lm'].
  - destruct Hd as [Hd|]; [|done]. by apply (slots_delete P Q Hinv Hd).
  - by apply slots_overwrite.
Qed.

Lemma slots_run ops lm :
  Forall (op_writes Q) ops ->
  ((forall o, P o -> P (default_Deleter o)) \/ Forall (fun op => is_delete op = false) ops) ->
  slots_hold P lm -> slots_hold P (snd (run ops lm)) /\
    (NoFreedUse P Q -> undefined_ (snd (run ops lm)) = undefined_ lm).
Proof.
  revert lm. induction ops as [|op ops IH]; intros lm Hq Hd Hlm; cbn; [done|].
  apply Forall_cons in Hq as [Hq1 Hq]. rewrite Forall_cons in Hd.
  destruct (slots_step op lm Hq1 ltac:(tauto) Hlm) as [H1 H2]. destruct (step op lm) as [st lm1].
  destruct (IH lm1 Hq ltac:(tauto) H1) as [H3 H4]. destruct (run ops lm1) as [sts lm2]. cbn in *.
  split; [done|]. intros Hn. by rewrite H4, H2.
Qed.
End buffers.

(** The entries of a sequence without vector elements, or a sequence without
    truncation, never touch freed storage. *)
Definition keeps_memory (ops : list LogOp) : Prop :=
  Forall (op_writes plain) ops \/ Forall (fun op => is_delete op = false) ops.

Lemma run_defined {alloc : Allocator} ops cap :
  keeps_memory ops -> undefined_ (snd (run ops (LogManager_ctor cap))) = false.
Proof.
  intros [H|H].
  - refine (proj2 (slots_run _ _ plain_invariant _ ops _ H (or_introl plain_delete) _) plain_unused).
    + by intros i e.
    + apply Forall_replicate. by split_and!.
  - refine (proj2 (slots_run _ _ unfreed_invariant _ ops _ _ (or_intror H) _) unfreed_unused).
    + done.
    + by apply Forall_true; intros [].
    + by apply Forall_replicate.
Qed.
End LogSpec.

(** [C19] The ring buffer implements a list: for every sequence of append,
    atomic append, truncate and overwrite operations that respects the index
    discipline, as long as no freed storage was used, the statuses returned, the
    contents, the last index and every lookup agree with the operations on a plain
    list, whatever the initial capacity (so through every reallocation and
    wrap-around). And no freed storage is used when nothing is truncated, or when the
    entries carry no fragments, fragment ids or placement. Truncation destroys the
    slots in place, and an LRC entry appended over a truncated one is excluded: it uses
    freed storage ([truncate_append_undefined], [AppendEntries_conflict_undefined] of
    RaftLog.v). *)
Theorem LogManager_refines_list {alloc : Allocator} (cap : Z) (ops : list LogSpec.LogOp)
    (Halloc : forall n, new_array_ok n = true) (Hcap : 0 < cap < 2 ^ 29)
    (Hok : LogSpec.ops_ok ops []) :
  let '(statuses, lm) := LogSpec.run ops (LogManager_ctor cap) in
  let '(statuses', l) := LogSpec.spec_run ops [] in
  (undefined_ lm = false ->
   statuses = statuses' /\ view lm = l /\
   LastLogEntryIndex lm = Z.of_nat (length l) /\
   (forall idx, GetSingleLogEntry lm idx = arr_get l (idx - 1))) /\
  (LogSpec.keeps_memory ops -> undefined_ lm = false).
Proof.
  pose proof (LogSpec.wf_ctor cap Hcap) as Hfb. pose proof (LogSpec.run_defined ops cap) as Hu.
  destruct (LogSpec.run_sim Halloc ops (LogManager_ctor cap) Hfb Hok) as (lm & Hrun & Hfb' & Hv).
  rewrite Hrun in *. change (view (LogManager_ctor cap)) with (@nil LogEntry) in *.
  destruct (LogSpec.spec_run ops []) as [sts l]. cbn in *. split; [|done]. intros _. split_and!; try done.
  - rewrite LastLogEntryIndex_spec by apply Hfb'. by rewrite LogSpec.fresh_last, Hv.
  - intros idx. rewrite GetSingleLogEntry_spec by apply Hfb'.
    unfold entry_at. by rewrite (LogSpec.fb_base _ Hfb'), Hv.
Qed.

(** ** Log compaction *)
Section compaction.
Implicit Types (lm : LogManager) (es : list Slot).

Lemma discard_loop_spec n cap es ub f j :
  0 < cap -> 0 <= j -> j + Z.of_nat n <= cap ->
  exists es' ub', discard_loop n cap es ub ((f + j) mod cap) = (es', ub', (f + (j + Z.of_nat n)) mod cap) /\
    length es' = length es /\
    forall i, j + Z.of_nat n <= i < cap ->
      arr_get es' ((f + i) mod cap) = arr_get es ((f + i) mod cap).
Proof.
  intros Hc. revert es ub j. induction n as [|n IH]; intros es ub j Hj Hn; cbn [discard_loop].
  - exists es, ub. by rewrite Z.add_0_r.
  - rewrite crem_mod by (pose proof (Z.mod_pos_bound (f + j) cap); lia).
    rewrite ring_succ by done.
    destruct (IH (upd_slot ((f + j) mod cap) default_Deleter es)
                (ub || dtor_ub (slot_at es ((f + j) mod cap))) (j + 1)) as (es' & ub' & -> & Hl & Hg); [lia..|].
    exists es', ub'. split_and!.
    + do 3 f_equal. lia.
    + rewrite Hl. apply length_alter.
    + intros i Hi. rewrite Hg by lia.
      rewrite arr_get_upd_slot by (apply Z.mod_pos_bound; lia).
      rewrite decide_False; [done|]. intros Heq. apply ring_inj in Heq; lia.
Qed.

Lemma DiscardLogEntriesBefore_full lm idx :
  wf lm -> base_ lm <= idx <= last_of lm -> 2 * idx <= 2 ^ 32 ->
  exists lm', DiscardLogEntriesBefore idx lm = (kOk, lm', seqZ idx (idx - base_ lm)) /\
    wf lm' /\ base_ lm' = idx /\ view lm' = drop (Z.to_nat (idx - base_ lm)) (view lm).
Proof.
  intros Hwf Hi H2. unfold DiscardLogEntriesBefore, Count, Capacity.
  rewrite LastLogEntryIndex_spec by done.
  pose proof (wf_cap _ Hwf) as Hcap. pose proof (wf_count _ Hwf) as Hcnt.
  pose proof (wf_bound _ Hwf) as Hbnd. pose proof (wf_base _ Hwf) as Hbs.
  pose proof (wf_front _ Hwf) as Hfr. unfold last_of in *.
  rewrite (proj2 (Z.leb_gt (count_ lm) 0)), (proj2 (Z.ltb_ge idx _)) by lia. cbn [orb].
  rewrite Z.min_r by lia.
  rewrite u32_small by (unfold is_u32; lia). rewrite i32_small by lia.
  set (n := idx - base_ lm).
  destruct (discard_loop_spec (Z.to_nat n) (capacity_ lm) (entries_ lm) (undefined_ lm) (front_ lm) 0)
    as (es & ub & Heq & Hl & Hg); [lia..|].
  rewrite Z.add_0_r, Z.mod_small in Heq by lia. rewrite Heq.
  eexists; split.
  { f_equal.
    apply list_eq. intros i. rewrite list_lookup_fmap.
    destruct (decide (Z.of_nat i < n)).
    - rewrite !lookup_seqZ_lt by lia. cbn. by rewrite u32_small by (unfold is_u32; lia).
    - by rewrite !lookup_seqZ_ge by lia. }
  set (lm' := mkLogManager _ _ _ _ _ _ _ _ _).
  assert (view lm' = drop (Z.to_nat n) (view lm)) as Hv.
  { apply view_ext; cbn.
    - rewrite length_drop, length_view. lia.
    - intros i Hlt. rewrite lookup_drop, lookup_view by lia. unfold slot, slot_at; cbn.
      rewrite Zplus_mod_idemp_l.
      replace (front_ lm + (0 + Z.of_nat (Z.to_nat n)) + Z.of_nat i)
        with (front_ lm + (Z.of_nat (Z.to_nat n + i)%nat)) by lia.
      by rewrite Hg by lia. }
  split_and!; try done.
  apply (wf_intro lm' (drop (Z.to_nat n) (view lm))); cbn; try done; try lia.
  - rewrite Hl. apply wf_len, Hwf.
  - apply Z.mod_pos_bound; lia.
  - rewrite (wf_back _ Hwf), Zplus_mod_idemp_l. f_equal. lia.
  - intros i e He. rewrite lookup_drop in He. apply (wf_index _ Hwf) in He. lia.
Qed.
End compaction.

(** Log compaction keeps exactly the suffix from [idx] on and stays
    well-formed, but the LRC cache clean-up callback is invoked with the indices
    [idx, idx + n) instead of the [n] discarded ones [base, idx): every index it
    is given is at or above the new base. *)
Theorem Discard_cleans_wrong_indices (lm : LogManager) (idx : Z)
    (Hwf : wf lm) (Hidx : base_ lm <= idx <= last_of lm) (Hbig : 2 * idx <= 2 ^ 32) :
  exists lm' cleaned,
    DiscardLogEntriesBefore idx lm = (kOk, lm', cleaned) /\ wf lm' /\
    view lm' = drop (Z.to_nat (idx - base_ lm)) (view lm) /\
    cleaned = seqZ idx (idx - base_ lm) /\
    (forall i, i ∈ cleaned -> ~ (base_ lm <= i < idx)).
Proof.
  destruct (DiscardLogEntriesBefore_full lm idx Hwf Hidx Hbig) as (lm' & Heq & Hwf' & _ & Hv).
  exists lm', (seqZ idx (idx - base_ lm)). split_and!; try done.
  intros i [j [-> ?]%lookup_seqZ]%list_elem_of_lookup. lia.
Qed.

(** ** Recovery from storage *)
Section recovery.
Context {alloc : Allocator} (Halloc : forall n, new_array_ok n = true).

Lemma replay_spec (l : list LogEntry) lm :
  LogSpec.fresh_base lm ->
  (forall i e, l !! i = Some e -> Index e = last_of lm + 1 + Z.of_nat i) ->
  last_of lm + Z.of_nat (length l) < 2 ^ 27 ->
  let lm' := foldl (fun lm e => snd (AppendLogEntry e lm)) lm l in
  LogSpec.fresh_base lm' /\ view lm' = view lm ++ l.
Proof.
  revert lm. induction l as [|e l IH]; intros lm Hfb Hix Hlen; cbn.
  - by rewrite app_nil_r.
  - pose proof (LogSpec.fresh_last lm Hfb) as Hl. cbn in Hlen.
    destruct (LogSpec.append_fresh Halloc lm e) as (lm1 & Heq & Hfb1 & Hv1); [done| |lia|].
    { rewrite (Hix 0%nat e eq_refl). lia. }
    change (AppendLogEntry e lm) with (appendEntryHelper e lm). rewrite Heq. cbn.
    pose proof (LogSpec.fresh_last lm1 Hfb1) as Hl1. rewrite Hv1, length_app in Hl1. cbn in Hl1.
    destruct (IH lm1 Hfb1) as [H1 H2].
    { intros i x Hx. rewrite (Hix (S i) x Hx). lia. }
    { lia. }
    split; [exact H1|]. rewrite H2, Hv1, <- app_assoc. done.
Qed.
End recovery.

(** [NewLogManager] rebuilds the log from storage: if the stored vector
    (after its padding element) holds the entries of indices 1..n and the
    storage's last index is n, start-up succeeds and the in-memory log is exactly
    the stored one. *)
Lemma NewLogManager_recovers {alloc : Allocator} (pad : LogEntry) (l : list LogEntry)
    (Halloc : forall n, new_array_ok n = true)
    (Hix : forall i e, l !! i = Some e -> Index e = Z.of_nat i + 1)
    (Hlen : Z.of_nat (length l) < 2 ^ 27) :
  exists lm, NewLogManager (Some (pad :: l, Z.of_nat (length l))) = Some lm /\
    wf lm /\ view lm = l /\ base_ lm = 1.
Proof.
  assert (0 < 100000 < 2 ^ 29) as Hcap by lia.
  pose proof (LogSpec.wf_ctor 100000 Hcap) as Hfb.
  assert (last_of (LogManager_ctor 100000) = 0) as Hl0 by done.
  assert (view (LogManager_ctor 100000) = []) as Hv0 by done.
  destruct (replay_spec Halloc l (LogManager_ctor 100000) Hfb) as [H1 H2].
  { intros i e He. rewrite (Hix i e He). lia. }
  { lia. }
  unfold NewLogManager. cbn [drop]. rewrite drop_0.
  pose proof (LogSpec.fresh_last _ H1) as Hlast. rewrite H2, Hv0 in Hlast. cbn [app] in Hlast.
  rewrite LastLogEntryIndex_spec, Hlast, Z.eqb_refl by apply H1.
  eexists; split_and!; [done|apply H1|by rewrite H2, Hv0|apply H1].
Qed.

(** ** The interface of the log for its clients: a manager that was never compacted
    represents the list of its entries, entry [i] of the list having index [i + 1]. *)
Definition represents (lm : LogManager) (l : list LogEntry) : Prop :=
  LogSpec.fresh_base lm /\ view lm = l.

Section client.
Context (lm : LogManager) (l : list LogEntry) (Hr : represents lm l).

Lemma rep_wf : wf lm.
Proof. apply Hr. Qed.

Lemma rep_last : LastLogEntryIndex lm = Z.of_nat (length l).
Proof. destruct Hr as [Hf <-]. rewrite LastLogEntryIndex_spec by apply Hf. by apply LogSpec.fresh_last. Qed.

Lemma rep_get i : GetSingleLogEntry lm i = arr_get l (i - 1).
Proof.
  destruct Hr as [Hf <-]. rewrite GetSingleLogEntry_spec by apply Hf. unfold entry_at.
  by rewrite (LogSpec.fb_base _ Hf).
Qed.

Lemma rep_get_nat (i : nat) : GetSingleLogEntry lm (Z.of_nat i + 1) = l !! i.
Proof.
  rewrite rep_get. unfold arr_get. rewrite decide_True by lia. f_equal. lia.
Qed.

Lemma rep_index i e : l !! i = Some e -> Index e = Z.of_nat i + 1.
Proof.
  destruct Hr as [Hf <-]. intros He. apply (wf_index _ (LogSpec.fb_wf _ Hf)) in He.
  rewrite (LogSpec.fb_base _ Hf) in He. lia.
Qed.

Lemma rep_bound : Z.of_nat (length l) + 1 < 2 ^ 32.
Proof.
  destruct Hr as [Hf <-]. rewrite length_view. pose proof (wf_bound _ (LogSpec.fb_wf _ Hf)).
  pose proof (wf_count _ (LogSpec.fb_wf _ Hf)). rewrite (LogSpec.fb_base _ Hf) in *. lia.
Qed.

Lemma rep_term (i : nat) e : l !! i = Some e -> TermAt lm (Z.of_nat i + 1) = Term e.
Proof.
  intros Hi. rewrite TermAt_spec by (apply Hr || lia). rewrite (proj2 (Z.eqb_neq _ _)) by lia.
  pose proof (rep_get_nat i) as Hg. rewrite GetSingleLogEntry_spec in Hg by apply rep_wf.
  by rewrite Hg, Hi.
Qed.

Lemma rep_last_term : LastLogEntryTerm lm = match last l with Some e => Term e | None => last_snapshot_term_ lm end.
Proof.
  destruct Hr as [Hf <-]. destruct (last (view lm)) as [e|] eqn:He.
  - apply LastLogEntryTerm_spec; [apply Hf|done].
  - apply last_None in He. unfold LastLogEntryTerm, Count.
    assert (count_ lm = 0) as ->; [|done].
    pose proof (length_view lm) as Hl. rewrite He in Hl. cbn in Hl.
    pose proof (wf_count _ (LogSpec.fb_wf _ Hf)). lia.
Qed.
End client.

Lemma rep_append {alloc : Allocator} lm l e :
  (forall n, new_array_ok n = true) -> represents lm l ->
  Index e = Z.of_nat (length l) + 1 -> Z.of_nat (length l) < 2 ^ 27 ->
  represents (snd (AppendLogEntry e lm)) (l ++ [e]).
Proof.
  intros Ha [Hf <-] Hi Hl. unfold AppendLogEntry.
  destruct (LogSpec.append_fresh Ha lm e Hf) as (lm' & -> & Hf' & Hv).
  - rewrite LogSpec.fresh_last by done. lia.
  - done.
  - by split.
Qed.

Lemma rep_append_atomic {alloc : Allocator} lm l e :
  (forall n, new_array_ok n = true) -> represents lm l -> Z.of_nat (length l) < 2 ^ 27 ->
  exists lm', AppendLogEntryAtomic e lm = (Z.of_nat (length l) + 1, kOk, lm') /\
    represents lm' (l ++ [SetIndex (Z.of_nat (length l) + 1) e]).
Proof.
  intros Ha Hr Hl. unfold AppendLogEntryAtomic. rewrite (rep_last lm l Hr), u32_small by (unfold is_u32; lia).
  destruct Hr as [Hf <-].
  destruct (LogSpec.append_fresh Ha lm (SetIndex (Z.of_nat (length (view lm)) + 1) e) Hf) as (lm' & -> & Hf' & Hv).
  - rewrite LogSpec.fresh_last by done. cbn. lia.
  - done.
  - eexists. split; [done|]. by split.
Qed.

Lemma rep_delete lm l (i : nat) :
  represents lm l -> (i < length l)%nat ->
  represents (snd (DeleteLogEntriesFrom (Z.of_nat i + 1) lm)) (take i l).
Proof.
  intros [Hf <-] Hi. pose proof (LogSpec.fresh_last _ Hf) as Hl. pose proof (LogSpec.fb_base _ Hf) as Hb.
  destruct (DeleteLogEntriesFrom_spec lm (Z.of_nat i + 1)) as (lm' & -> & Hv & Hb' & _ & _ & Hs' & _ & Hw).
  - apply Hf.
  - lia.
  - split; cbn [snd]; [|rewrite Hv, Hb; f_equal; lia].
    split; [apply Hw; pose proof (LogSpec.fb_snap _ Hf); lia|congruence|].
    rewrite Hs'. apply Hf.
Qed.

Lemma rep_overwrite lm l (i : nat) e :
  represents lm l -> (i < length l)%nat -> Index e = Z.of_nat i + 1 ->
  represents (snd (OverWriteLogEntry e (Z.of_nat i + 1) lm)) (<[i := e]> l).
Proof.
  intros [Hf <-] Hi He. pose proof (LogSpec.fresh_last _ Hf) as Hl. pose proof (LogSpec.fb_base _ Hf) as Hb.
  destruct (OverWriteLogEntry_spec lm e (Z.of_nat i + 1)) as (lm' & -> & Hv & Hb' & _ & _ & Hs' & _ & Hw).
  - apply Hf.
  - lia.
  - split; cbn [snd]; [|rewrite Hv, Hb; f_equal; lia].
    split; [by apply Hw|congruence|]. rewrite Hs'. apply Hf.
Qed.

(** ** Witnesses: a capacity-1 log that grows, wraps, is truncated and overwritten *)
#[local] Instance demo_alloc : Allocator := fun _ => true.

Definition demo_ops : list LogSpec.LogOp :=
  let e i := SetIndex i (SetTerm 1 LogEntry_default) in
  [LogSpec.OpAppend (e 1); LogSpec.OpAppendAtomic (e 0); LogSpec.OpAppend (e 3); LogSpec.OpDelete 3;
   LogSpec.OpOverwrite (SetTerm 4 (e 2)) 2; LogSpec.OpDelete 9].

(** A log of entries with fragments that only grows. *)
Definition demo_lrc_ops : list LogSpec.LogOp :=
  let e i := AddFragment [1; 2] (SetIndex i LogEntry_default) in
  [LogSpec.OpAppend (e 1); LogSpec.OpAppendAtomic (e 0); LogSpec.OpOverwrite (AddFragment [3] (e 1)) 1].

Lemma LogManager_refines_list_witness :
  (let lm := snd (LogSpec.run demo_ops (LogManager_ctor 1)) in
   LogSpec.ops_ok demo_ops [] /\ fst (LogSpec.run demo_ops (LogManager_ctor 1)) = [kOk; kOk; kOk; kOk; kOk; kIndexBeyondRange] /\
   view lm = [SetIndex 1 (SetTerm 1 LogEntry_default); SetIndex 2 (SetTerm 4 LogEntry_default)] /\
   undefined_ lm = false) /\
  (let lm := snd (LogSpec.run demo_lrc_ops (LogManager_ctor 1)) in
   undefined_ lm = false /\ (length ∘ Fragments) <$> view lm = [2; 1]%nat).
Proof.
  split.
  - assert (LogSpec.ops_ok demo_ops []) as Hok by (vm_compute; repeat split).
    pose proof (LogManager_refines_list 1 demo_ops (fun _ => eq_refl) ltac:(lia) Hok) as H.
    cbv zeta. split; [exact Hok|].
    destruct (LogSpec.run demo_ops (LogManager_ctor 1)) as [sts lm]. cbn [fst snd].
    destruct H as [H Hu]. assert (undefined_ lm = false) as Hd.
    { apply Hu. left. repeat constructor. }
    destruct (H Hd) as (-> & -> & _). split; [reflexivity|]. split; [reflexivity|exact Hd].
  - assert (LogSpec.ops_ok demo_lrc_ops []) as Hok by (vm_compute; repeat split).
    pose proof (LogManager_refines_list 1 demo_lrc_ops (fun _ => eq_refl) ltac:(lia) Hok) as H.
    cbv zeta. destruct (LogSpec.run demo_lrc_ops (LogManager_ctor 1)) as [sts lm]. cbn [fst snd].
    destruct H as [H Hu]. assert (undefined_ lm = false) as Hd.
    { apply Hu. right. repeat constructor. }
    destruct (H Hd) as (_ & -> & _). split; [exact Hd|reflexivity].
Defined.

Lemma Discard_cleans_wrong_indices_witness :
  let lm := snd (LogSpec.run demo_ops (LogManager_ctor 1)) in
  exists lm' cleaned,
    DiscardLogEntriesBefore 2 lm = (kOk, lm', cleaned) /\ wf lm' /\
    view lm' = drop 1 (view lm) /\ cleaned = seqZ 2 1 /\
    (forall i, i ∈ cleaned -> ~ (1 <= i < 2)).
Proof.
  assert (LogSpec.ops_ok demo_ops []) as Hok by (vm_compute; repeat split).
  destruct (LogSpec.run_sim (alloc := demo_alloc) (fun _ => eq_refl) demo_ops (LogManager_ctor 1)
              (LogSpec.wf_ctor 1 ltac:(lia)) Hok) as (lm & Hr & Hfb & _).
  assert (lm = snd (LogSpec.run demo_ops (LogManager_ctor 1))) as Hlm by (rewrite Hr; reflexivity).
  cbv zeta. rewrite <- Hlm.
  assert (1 <= 2 <= last_of lm) as Hr2 by (rewrite Hlm; vm_compute; split; discriminate).
  pose proof (Discard_cleans_wrong_indices lm 2) as H. rewrite (LogSpec.fb_base _ Hfb) in H.
  apply H; [apply Hfb|exact Hr2|lia].
Defined.
