(* ===== verification/Encoder.v ===== *)
(** The Reed-Solomon encoder of src/raft/encoder.h and src/raft/encoder.cc.

    The Galois-field kernels come from ISA-L, which is not part of the
    repository: the class [IsaL] has one member per function the encoder calls
    and [IsaL_spec] states the documented behaviour the round trip relies on
    (a systematic Cauchy matrix any [k] rows of which are invertible, matrix
    inversion over GF(2^8), and the matrix-times-sources product).

    [std::map] is [gmap] and is iterated in key order; the raw buffers the code
    writes at computed offsets are byte lists updated with [memcpy_at]. *)

From S2P Require Import Prelude Types.

(** ** [std::map] iteration order *)
Definition sorted_keys {A} (m : gmap Z A) : list Z := merge_sort (≤) (elements (dom m)).
Definition map_iter {A} (m : gmap Z A) : list (Z * A) :=
  omap (fun i => (fun a => (i, a)) <$> m !! i) (sorted_keys m).

(** [map::insert] keeps an existing value. *)
Definition std_insert {A} (i : Z) (a : A) (m : gmap Z A) : gmap Z A :=
  match m !! i with Some _ => m | None => <[i := a]> m end.

(** [memcpy(buf + off, src, src.size())]. *)
Definition memcpy_at (buf : list Z) (off : Z) (src : list Z) : list Z :=
  take (Z.to_nat off) buf ++ src ++ drop (Z.to_nat off + length src) buf.

(** [Slice(p + off, len)]. *)
Definition sub_slice (s : list Z) (off len : Z) : list Z :=
  take (Z.to_nat len) (drop (Z.to_nat off) s).

(** [Stripe] of encoder.h. *)
Record Stripe := mkStripe {
  s_raft_index : Z;
  s_raft_term : Z;
  s_fragments : gmap Z LogEntry;
  s_collected_fragments : gmap Z LogEntry;
  s_peer_keyed_fragments : bool;
  s_lrc_group_id : Z;
  s_all_fragments : list Slice
}.

(** [Stripe()]: the members without an initialiser are indeterminate, 0 here. *)
Definition Stripe_default : Stripe := mkStripe 0 0 ∅ ∅ false (-1) [].

Definition Stripe_eta (s : Stripe) : Stripe :=
  mkStripe (s_raft_index s) (s_raft_term s) (s_fragments s) (s_collected_fragments s)
    (s_peer_keyed_fragments s) (s_lrc_group_id s) (s_all_fragments s).
Definition set_s_raft_index : Z -> Stripe -> Stripe := ltac:(setter_of Stripe_eta s_raft_index).
Definition set_s_raft_term : Z -> Stripe -> Stripe := ltac:(setter_of Stripe_eta s_raft_term).
Definition set_s_fragments : gmap Z LogEntry -> Stripe -> Stripe := ltac:(setter_of Stripe_eta s_fragments).
Definition set_s_collected : gmap Z LogEntry -> Stripe -> Stripe := ltac:(setter_of Stripe_eta s_collected_fragments).
Definition set_s_peer_keyed : bool -> Stripe -> Stripe := ltac:(setter_of Stripe_eta s_peer_keyed_fragments).
Definition set_s_lrc_group_id : Z -> Stripe -> Stripe := ltac:(setter_of Stripe_eta s_lrc_group_id).
Definition set_s_all_fragments : list Slice -> Stripe -> Stripe := ltac:(setter_of Stripe_eta s_all_fragments).

Definition CollectFragmentsCount (s : Stripe) : Z := Z.of_nat (size (s_collected_fragments s)).

Abbreviation EncodingResults := (gmap Z Slice).

(** ** The ISA-L functions the encoder calls. Matrices are row-major. *)
Class IsaL := {
  gf_gen_cauchy1_matrix : Z -> Z -> list Z;
  gf_invert_matrix : list Z -> Z -> list Z;
  gf_tables : Type;
  ec_init_tables : Z -> Z -> list Z -> gf_tables;
  ec_encode_data : Z -> Z -> Z -> gf_tables -> list Slice -> list Slice
}.

Definition kMaxK : Z := 16.
Definition kMaxM : Z := 32.

Section encoder.
Context {isal : IsaL}.

(** [Encoder::EncodeSlice]. [None] is the failed [assert(k != 0)] or an access
    past the [kMaxK]/[kMaxM] pointer arrays. *)
Definition EncodeSlice (slice : Slice) (k m : Z) (results : EncodingResults)
    : option (bool * EncodingResults) :=
  if k =? 0 then None else
  if k =? 1 then
    Some (true, foldl (fun r i => std_insert i slice r) results (seqZ 0 (k + m)))
  else if (k <? 0) || (kMaxK <? k) || (m <? 0) || (kMaxM <? m) then None else
  let encoding_size := slice_size slice in
  let fragment_size := (encoding_size + k - 1) / k in
  let padded_size := fragment_size * k in
  let padded_data := slice ++ replicate (Z.to_nat (padded_size - encoding_size)) 0 in
  let encode_input :=
    (fun i => sub_slice padded_data (i * fragment_size) fragment_size) <$> seqZ 0 k in
  let t := m + k in
  let encode_matrix := gf_gen_cauchy1_matrix t k in
  let g_tbls := ec_init_tables k m (drop (Z.to_nat (k * k)) encode_matrix) in
  let encode_output := ec_encode_data fragment_size k m g_tbls encode_input in
  let result i :=
    if i <? k then nth (Z.to_nat i) encode_input [] else nth (Z.to_nat (i - k)) encode_output [] in
  Some (true, foldl (fun r i => std_insert i (result i) r) results (seqZ 0 (k + m))).

(** The loop that drops the received rows from [missing_rows_]. *)
Definition missing_rows (frags : EncodingResults) (k : Z) : list Z :=
  foldl (fun missing fs =>
           if fst fs <? k then filter (fun i => i <> fst fs) missing else missing)
        (seqZ 0 k) (map_iter frags).

(** Copies the systematic fragments; a wrong length fails the [assert]. *)
Definition copy_data_rows (frags : EncodingResults) (k fragment_size : Z) (data : list Z)
    : option (list Z) :=
  foldl (fun acc fs =>
           match acc with
           | None => None
           | Some data =>
               if fst fs <? k then
                 if slice_size (snd fs) =? fragment_size
                 then Some (memcpy_at data (fst fs * fragment_size) (snd fs))
                 else None
               else Some data
           end)
        (Some data) (map_iter frags).

(** [Encoder::DecodeSliceHelper]: [Some None] is the result [false], otherwise
    the [complete_length] bytes written at [data]. *)
Definition DecodeSliceHelper (fragments : EncodingResults) (k m : Z) : option (option Slice) :=
  if (k <=? 0) || (kMaxK <? k) || (kMaxK * (kMaxK + kMaxM) <? (k + m) * k) then None else
  if Z.of_nat (size fragments) <? k then Some None else
  let missing := missing_rows fragments k in
  let valid_rows := sorted_keys fragments in
  let n := k + m in
  match map_iter fragments with
  | [] => None
  | (_, first) :: _ =>
      let fragment_size := slice_size first in
      let complete_length := fragment_size * k in
      let data := replicate (Z.to_nat complete_length) 0 in
      match copy_data_rows fragments k fragment_size data with
      | None => None
      | Some data =>
          if bool_decide (missing = []) then Some (Some data) else
          let encode_matrix := gf_gen_cauchy1_matrix n k in
          let errors_matrix :=
            row ← take (Z.to_nat k) valid_rows;
            sub_slice encode_matrix (row * k) k in
          let invert_matrix := gf_invert_matrix errors_matrix k in
          let rows := row ← missing; sub_slice invert_matrix (row * k) k in
          let encode_matrix := rows ++ drop (length rows) encode_matrix in
          let cnt := Z.of_nat (length missing) in
          let g_tbls := ec_init_tables k cnt encode_matrix in
          let decode_input := snd <$> take (Z.to_nat k) (map_iter fragments) in
          let decode_output := ec_encode_data fragment_size k cnt g_tbls decode_input in
          Some (Some (foldl (fun d ro => memcpy_at d (fst ro * fragment_size) (snd ro))
                            data (zip missing decode_output)))
      end
  end.

(** [Encoder::DecodeSlice]. *)
Definition DecodeSlice (fragments : EncodingResults) (k m : Z) : option (option Slice) :=
  match map_iter fragments with
  | [] => None
  | (_, first) :: _ =>
      if k =? 1 then Some (Some first) else DecodeSliceHelper fragments k m
  end.
End encoder.

(** ** Ordered maps *)
Section ordered_maps.
Context {A : Type}.
Implicit Types (m : gmap Z A).

Lemma sorted_keys_perm m : sorted_keys m ≡ₚ elements (dom m).
Proof. apply merge_sort_Permutation. Qed.

Lemma elem_of_sorted_keys m i : i ∈ sorted_keys m <-> is_Some (m !! i).
Proof. by rewrite sorted_keys_perm, elem_of_elements, elem_of_dom. Qed.

Lemma NoDup_sorted_keys m : NoDup (sorted_keys m).
Proof. rewrite sorted_keys_perm. apply NoDup_elements. Qed.

Lemma length_sorted_keys m : length (sorted_keys m) = size m.
Proof. rewrite sorted_keys_perm. apply size_dom. Qed.

Lemma sorted_keys_sorted m : StronglySorted (≤) (sorted_keys m).
Proof. apply (StronglySorted_merge_sort (≤)). Qed.

(** When every value is a function of its key, iteration is a [fmap]. *)
Lemma map_iter_fun m (f : Z -> A) :
  (forall i a, m !! i = Some a -> a = f i) ->
  map_iter m = (fun i => (i, f i)) <$> sorted_keys m.
Proof.
  intros Hf. unfold map_iter.
  assert (forall i, i ∈ sorted_keys m -> m !! i = Some (f i)) as Hin.
  { intros i [a Ha]%elem_of_sorted_keys. rewrite Ha. f_equal. by apply Hf. }
  induction (sorted_keys m) as [|i l IH]; [done|].
  cbn. rewrite Hin by (left; done). cbn. f_equal. apply IH.
  intros j Hj. apply Hin. by right.
Qed.

Lemma std_insert_fresh i (a : A) m : m !! i = None -> std_insert i a m = <[i := a]> m.
Proof. unfold std_insert. by intros ->. Qed.

(** Inserting a run of fresh keys. *)
Lemma foldl_std_insert (f : Z -> A) n m :
  (forall i, 0 <= i < n -> m !! i = None) -> 0 <= n ->
  forall j, foldl (fun r i => std_insert i (f i) r) m (seqZ 0 n) !! j =
    (if decide (0 <= j < n) then Some (f j) else m !! j).
Proof.
  intros Hfresh Hn.
  pattern n. revert n Hn Hfresh. refine (natlike_ind _ _ _).
  - intros _ j. cbn. by rewrite decide_False by lia.
  - intros n Hn IH Hfresh j.
    rewrite <- Z.add_1_r, seqZ_snoc, foldl_app by lia. cbn.
    assert (Hpre : forall i, 0 <= i < n -> m !! i = None) by (intros; apply Hfresh; lia).
    rewrite std_insert_fresh.
    2: { rewrite IH by done. rewrite decide_False by lia. apply Hfresh; lia. }
    destruct (decide (j = n)) as [->|Hne].
    + by rewrite lookup_insert_eq, decide_True by lia.
    + rewrite lookup_insert_ne, IH by done. repeat case_decide; done || lia.
Qed.
End ordered_maps.

(** ** Buffers made of equal rows *)
Section rows.
Implicit Types (R : list (list Z)).

Lemma bind_concat (f : Z -> list Z) (l : list Z) : (x ← l; f x) = concat (f <$> l).
Proof. induction l as [|x l IH]; [done|]. cbn. f_equal. apply IH. Qed.

Lemma concat_length_uniform R fs :
  Forall (fun r => length r = fs) R -> length (concat R) = (length R * fs)%nat.
Proof. induction 1 as [|r R Hr _ IH]; cbn; [done|]. rewrite length_app. lia. Qed.

Lemma take_drop_row R fs i :
  Forall (fun r => length r = fs) R -> (i < length R)%nat ->
  R !! i = Some (take fs (drop (i * fs) (concat R))).
Proof.
  intros HR. revert i. induction HR as [|r R Hr HR IH]; intros i Hi; [cbn in Hi; lia|].
  destruct i as [|i]; cbn.
  - by rewrite drop_0, take_app_length' by lia.
  - rewrite IH by (cbn in Hi; lia). f_equal. f_equal.
    rewrite drop_app_ge by lia. f_equal. lia.
Qed.

Lemma concat_uniform_inj R R' fs :
  Forall (fun r => length r = fs) R -> Forall (fun r => length r = fs) R' ->
  length R = length R' -> concat R = concat R' -> R = R'.
Proof.
  intros HR HR' Hl Hc. apply list_eq. intros i.
  destruct (decide (i < length R)%nat).
  - rewrite (take_drop_row R fs), (take_drop_row R' fs) by (done || lia). by rewrite Hc.
  - by rewrite !lookup_ge_None_2 by lia.
Qed.

Lemma memcpy_row R fs i r :
  Forall (fun r => length r = fs) R -> (i < length R)%nat -> length r = fs ->
  memcpy_at (concat R) (Z.of_nat i * Z.of_nat fs) r = concat (<[i := r]> R).
Proof.
  intros HR Hi Hr. unfold memcpy_at.
  replace (Z.to_nat (Z.of_nat i * Z.of_nat fs)) with (i * fs)%nat by lia.
  revert i Hi. induction HR as [|x R Hx HR IH]; intros i Hi; [cbn in Hi; lia|].
  destruct i as [|i].
  - cbn. rewrite take_0, drop_app_ge by lia. cbn. f_equal.
    replace (length r - length x)%nat with 0%nat by lia. apply drop_0.
  - cbn in Hi. change (<[S i := r]> (x :: R)) with (x :: <[i := r]> R).
    cbn [concat]. rewrite <- (IH i) by lia.
    rewrite take_app_ge by lia. rewrite <- app_assoc. cbn [Nat.mul]. f_equal.
    f_equal; [f_equal; lia|]. f_equal.
    rewrite drop_app_ge by lia. f_equal. lia.
Qed.

(** Writing the rows [rs] of a table [D] over a buffer of rows. *)
Lemma write_rows (D : Z -> list Z) fs rs R :
  Forall (fun r => length r = fs) R ->
  (forall r, r ∈ rs -> 0 <= r < Z.of_nat (length R) /\ length (D r) = fs) ->
  exists R', foldl (fun d r => memcpy_at d (r * Z.of_nat fs) (D r)) (concat R) rs = concat R' /\
    length R' = length R /\ Forall (fun r => length r = fs) R' /\
    forall j : nat, (j < length R)%nat ->
      ((Z.of_nat j ∈ rs) /\ R' !! j = Some (D (Z.of_nat j))) \/
      (~ (Z.of_nat j ∈ rs) /\ R' !! j = R !! j).
Proof.
  revert R. induction rs as [|r rs IH]; intros R HR Hrs; cbn.
  { exists R. split_and!; try done. intros j Hj. right. split; [set_solver|done]. }
  destruct (Hrs r) as [Hr Hl]; [by left|].
  pose proof (memcpy_row R fs (Z.to_nat r) (D r) HR) as Hm.
  rewrite Z2Nat.id in Hm by lia. rewrite Hm by lia.
  destruct (IH (<[Z.to_nat r := D r]> R)) as (R' & Heq & Hlen & HF & Hj).
  { by apply Forall_insert. }
  { intros x Hx. rewrite length_insert. apply Hrs. by right. }
  rewrite length_insert in *. exists R'. split_and!; try done.
  intros j Hlt. destruct (Hj j Hlt) as [[Hin Hv]|[Hnin Hv]].
  - left. split; [by right|done].
  - destruct (decide (Z.of_nat j = r)) as [<-|Hne].
    + left. split; [by left|]. rewrite Hv, Nat2Z.id.
      by rewrite list_lookup_insert_eq by lia.
    + right. rewrite not_elem_of_cons. split; [done|]. rewrite Hv.
      apply list_lookup_insert_ne. lia.
Qed.
End rows.

(** ** Decoding from a map whose fragments are given by a function *)
Section frag_function.
Context (D : Z -> Slice) (fs : nat) (k : Z) (F : EncodingResults)
  (HF : forall i s, F !! i = Some s -> 0 <= i /\ s = D i) (HD : forall i, is_Some (F !! i) -> length (D i) = fs).

Lemma map_iter_function : map_iter F = (fun i => (i, D i)) <$> sorted_keys F.
Proof using HF. apply map_iter_fun. intros i s Hi. by apply HF. Qed.

Lemma elem_of_missing i : i ∈ missing_rows F k <-> 0 <= i < k /\ ~ (i ∈ sorted_keys F).
Proof using HF.
  unfold missing_rows. rewrite map_iter_function, foldl_fmap. cbn [fst].
  assert (forall (ks M : list Z), i ∈ foldl (fun M j => if j <? k then filter (fun x => x <> j) M else M) M ks
            <-> i ∈ M /\ (~ (i ∈ ks) \/ k <= i)) as Hg.
  { induction ks as [|j ks IH]; intros M; cbn.
    { rewrite elem_of_nil. tauto. }
    rewrite IH. destruct (Z.ltb_spec j k).
    - rewrite list_elem_of_filter, not_elem_of_cons. intuition lia.
    - rewrite not_elem_of_cons. destruct (decide (i = j)) as [->|]; intuition lia. }
  rewrite Hg, elem_of_seqZ. intuition lia.
Qed.

Lemma copy_data_function R :
  length R = Z.to_nat k -> Forall (fun r => length r = fs) R ->
  exists R', copy_data_rows F k (Z.of_nat fs) (concat R) = Some (concat R') /\
    length R' = Z.to_nat k /\ Forall (fun r => length r = fs) R' /\
    forall i, 0 <= i < k -> i ∈ sorted_keys F -> R' !! Z.to_nat i = Some (D i).
Proof using HF HD.
  intros HRl HR. unfold copy_data_rows. rewrite map_iter_function, foldl_fmap. cbn [fst snd].
  assert (forall (ks : list Z) d, (forall i, i ∈ ks -> i ∈ sorted_keys F) ->
    foldl (fun acc i => match acc with
                        | None => None
                        | Some d => if i <? k then
                            if slice_size (D i) =? Z.of_nat fs
                            then Some (memcpy_at d (i * Z.of_nat fs) (D i)) else None
                            else Some d
                        end) (Some d) ks =
    Some (foldl (fun d i => memcpy_at d (i * Z.of_nat fs) (D i)) d (filter (fun i => i < k) ks)))
    as Hg.
  { induction ks as [|i ks IH]; intros d Hks; [done|]. cbn [foldl].
    assert (forall j, j ∈ ks -> j ∈ sorted_keys F) as Hks' by (intros; apply Hks; by right).
    rewrite filter_cons. destruct (Z.ltb_spec i k).
    - rewrite decide_True by done. unfold slice_size.
      rewrite HD, Z.eqb_refl by (apply elem_of_sorted_keys, Hks; left). by apply IH.
    - rewrite decide_False by lia. by apply IH. }
  rewrite Hg by done. clear Hg.
  destruct (write_rows D fs (filter (fun i => i < k) (sorted_keys F)) R)
    as (R' & Heq & Hl' & HR' & Hj); [done| |].
  { intros r [Hr Hin]%list_elem_of_filter. apply elem_of_sorted_keys in Hin. split; [|by apply HD].
    destruct Hin as [s Hs]. apply HF in Hs. lia. }
  exists R'. rewrite Heq. split_and!; try done; [congruence|].
  intros i Hi Hin. destruct (Hj (Z.to_nat i)) as [[_ Hv]|[Hn _]]; [lia| |].
  - by rewrite Hv, Z2Nat.id by lia.
  - destruct Hn. rewrite Z2Nat.id by lia. apply list_elem_of_filter; split; [lia|done].
Qed.
End frag_function.

Lemma replicate_rows (n fs : nat) : replicate (n * fs) 0 = concat (replicate n (replicate fs 0)).
Proof. induction n as [|n IH]; cbn; [done|]. by rewrite replicate_add, IH. Qed.

(** Rebuilding a map in iteration order. *)
Lemma foldl_insert_map_iter {A B} (f : A -> B) (m : gmap Z A) :
  foldl (fun fs '(i, x) => <[i := f x]> fs) ∅ (map_iter m) = f <$> m.
Proof.
  assert (forall (i j : Z) ks, j <> i -> forall (C : Type) (x y : C),
    (if decide (j ∈ i :: ks) then x else y) = if decide (j ∈ ks) then x else y) as Hcons.
  { intros i j ks Hne C x y. apply decide_ext. rewrite elem_of_cons. tauto. }
  assert (forall ks (acc : gmap Z B) j,
    foldl (fun fs '(i, x) => <[i := f x]> fs) acc (omap (fun i => (fun a => (i, a)) <$> m !! i) ks) !! j =
    if decide (j ∈ ks) then match m !! j with Some x => Some (f x) | None => acc !! j end else acc !! j) as Hg.
  { induction ks as [|i ks IH]; intros acc j; [done|].
    cbn [omap list_omap]. destruct (m !! i) as [x|] eqn:Hi; cbn [fmap option_fmap option_map foldl]; rewrite IH.
    - destruct (decide (j = i)) as [->|Hne].
      + rewrite Hi, lookup_insert_eq, (decide_True (P := i ∈ i :: ks)) by (by left).
        by case_decide.
      + rewrite lookup_insert_ne by done. by rewrite (Hcons i j ks Hne).
    - destruct (decide (j = i)) as [->|Hne]; [rewrite Hi; by repeat case_decide|].
      by rewrite (Hcons i j ks Hne). }
  apply map_eq. intros j. unfold map_iter. rewrite Hg, lookup_fmap.
  destruct (m !! j) as [x|] eqn:Hj; cbn.
  - rewrite decide_True; [done|]. apply elem_of_sorted_keys. eauto.
  - by case_decide.
Qed.

(** With all [k] data fragments present, decoding concatenates them. *)
Lemma DecodeSlice_data {isal : IsaL} (F : EncodingResults) (rows : list Slice) (fs : nat) (k m : Z) :
  1 <= k <= kMaxK -> (k + m) * k <= kMaxK * (kMaxK + kMaxM) ->
  length rows = Z.to_nat k -> Forall (fun r => length r = fs) rows ->
  (forall i, F !! i = if decide (0 <= i < k) then rows !! Z.to_nat i else None) ->
  DecodeSlice F k m = Some (Some (concat rows)).
Proof.
  unfold kMaxK, kMaxM. intros Hk Hm Hl Hr HF. set (D i := nth (Z.to_nat i) rows []).
  assert (forall i s, F !! i = Some s -> 0 <= i < k /\ s = D i) as HFD.
  { intros i s Hi. rewrite HF in Hi. case_decide; [|done]. split; [done|].
    symmetry. by apply nth_lookup_Some. }
  assert (forall i, 0 <= i < k -> is_Some (F !! i)) as Hin.
  { intros i Hi. rewrite HF, decide_True by done. apply lookup_lt_is_Some. lia. }
  assert (forall i, is_Some (F !! i) -> length (D i) = fs) as HD.
  { intros i [s Hs]. rewrite HF in Hs. case_decide; [|done]. rewrite Forall_forall in Hr. apply Hr.
    unfold D. rewrite (nth_lookup_Some _ _ [] _ Hs). by eapply list_elem_of_lookup_2. }
  assert (forall i s, F !! i = Some s -> 0 <= i /\ s = D i) as HFD' by (intros i s Hs; apply HFD in Hs; split; [lia|tauto]).
  pose proof (map_iter_function D F HFD') as Hmi.
  pose proof (length_sorted_keys F) as Hkl.
  assert (0 ∈ sorted_keys F) as H0 by (apply elem_of_sorted_keys, Hin; lia).
  unfold DecodeSlice, DecodeSliceHelper. rewrite Hmi.
  destruct (sorted_keys F) as [|i0 ks] eqn:Hks; [by apply not_elem_of_nil in H0|]. cbn [fmap list_fmap].
  assert (is_Some (F !! i0)) as Hi0 by (apply elem_of_sorted_keys; rewrite Hks; left).
  destruct (Z.eqb_spec k 1) as [->|Hk1].
  { destruct Hi0 as [s Hs]. destruct (HFD i0 s Hs) as [Hi0 _]. do 2 f_equal. unfold D.
    replace i0 with 0 by lia. destruct rows as [|r [|]]; try done. cbn. by rewrite app_nil_r. }
  unfold kMaxK, kMaxM. rewrite (proj2 (Z.leb_gt _ _)), !(proj2 (Z.ltb_ge _ _)) by lia. cbn [orb].
  assert (k <= Z.of_nat (size F)) as Hsz.
  { rewrite <- Hkl. pose proof (NoDup_incl_le (seqZ 0 k) (i0 :: ks) (NoDup_seqZ _ _)) as Hle.
    rewrite length_seqZ in Hle. assert (seqZ 0 k ⊆ i0 :: ks) as Hs; [|specialize (Hle Hs); lia].
    intros i Hi%elem_of_seqZ. rewrite <- Hks. apply elem_of_sorted_keys, Hin. lia. }
  rewrite (proj2 (Z.ltb_ge _ _)) by lia.
  unfold slice_size. rewrite (HD i0) by done.
  replace (Z.to_nat (Z.of_nat fs * k)) with (Z.to_nat k * fs)%nat by lia. rewrite replicate_rows.
  destruct (copy_data_function D fs k F HFD' HD
    (replicate (Z.to_nat k) (replicate fs 0))) as (R & HR & HRl & _ & HRi).
  { apply length_replicate. }
  { apply Forall_replicate, length_replicate. }
  rewrite HR. rewrite bool_decide_true.
  - do 3 f_equal. apply list_eq. intros j. destruct (decide (j < Z.to_nat k)%nat).
    + rewrite <- (Nat2Z.id j), HRi; [|lia|apply elem_of_sorted_keys, Hin; lia].
      symmetry. apply lookup_nth_lt. lia.
    + by rewrite !lookup_ge_None_2 by lia.
  - apply elem_of_nil_inv. intros i Hi.
    apply (elem_of_missing D k F HFD') in Hi as [Hi Hn].
    apply Hn, elem_of_sorted_keys, Hin, Hi.
Qed.

(** ** Linear algebra over GF(2^8) *)

Definition xor_sum (l : list Z) : Z := foldr Z.lxor 0 l.

(** Row [i] of a row-major matrix with [k] columns, and column [b] of the sources. *)
Definition mat_row (a : list Z) (k i : Z) : list Z := sub_slice a (i * k) k.
Definition src_col (srcs : list Slice) (b : nat) : list Z := (fun s => nth b s 0) <$> srcs.

Definition gf_dot (gf_mul : Z -> Z -> Z) (x y : list Z) : Z := xor_sum (zip_with gf_mul x y).

(** One output of the coding kernel: the row [coefs] times the sources. *)
Definition enc_row (gf_mul : Z -> Z -> Z) (coefs : list Z) (srcs : list Slice) (len : nat) : Slice :=
  (fun b => gf_dot gf_mul coefs (src_col srcs b)) <$> seq 0 len.

(** Documented behaviour of ISA-L for [k] sources and [n] rows: GF(2^8)
    arithmetic, the systematic Cauchy matrix, the inverse of any [k] of its rows,
    and the coding kernel. *)
Record IsaL_spec {isal : IsaL} (gf_mul : Z -> Z -> Z) (k n : Z) : Prop := {
  gf_byte : forall a b, byte a -> byte b -> byte (gf_mul a b);
  gf_0_l : forall b, byte b -> gf_mul 0 b = 0;
  gf_0_r : forall a, byte a -> gf_mul a 0 = 0;
  gf_1_l : forall b, byte b -> gf_mul 1 b = b;
  gf_xor_l : forall a b c, byte a -> byte b -> byte c ->
    gf_mul (Z.lxor a b) c = Z.lxor (gf_mul a c) (gf_mul b c);
  gf_xor_r : forall a b c, byte a -> byte b -> byte c ->
    gf_mul a (Z.lxor b c) = Z.lxor (gf_mul a b) (gf_mul a c);
  gf_assoc : forall a b c, byte a -> byte b -> byte c ->
    gf_mul a (gf_mul b c) = gf_mul (gf_mul a b) c;
  cauchy_len : length (gf_gen_cauchy1_matrix n k) = Z.to_nat (n * k);
  cauchy_byte : bytes (gf_gen_cauchy1_matrix n k);
  cauchy_id : forall i, 0 <= i < k ->
    mat_row (gf_gen_cauchy1_matrix n k) k i = (fun j => b2z (bool_decide (i = j))) <$> seqZ 0 k;
  encode_ok : forall a rows len srcs,
    0 <= rows -> rows * k <= Z.of_nat (length a) -> length srcs = Z.to_nat k ->
    Forall (fun s => length s = len) srcs ->
    ec_encode_data (Z.of_nat len) k rows (ec_init_tables k rows a) srcs =
      (fun l => enc_row gf_mul (mat_row a k l) srcs len) <$> seqZ 0 rows;
  invert_ok : forall vs, NoDup vs -> length vs = Z.to_nat k -> (forall v, v ∈ vs -> 0 <= v < n) ->
    let inv := gf_invert_matrix (v ← vs; mat_row (gf_gen_cauchy1_matrix n k) k v) k in
    length inv = Z.to_nat (k * k) /\ bytes inv /\
    forall r c, 0 <= r < k -> 0 <= c < k ->
      gf_dot gf_mul (mat_row inv k r)
        ((fun v => nth (Z.to_nat c) (mat_row (gf_gen_cauchy1_matrix n k) k v) 0) <$> vs) =
      b2z (bool_decide (r = c))
}.

Lemma byte_lxor a b : byte a -> byte b -> byte (Z.lxor a b).
Proof.
  unfold byte. intros Ha Hb.
  assert (forall z, 0 <= z < 256 -> Z.land z (Z.ones 8) = z) as Hl.
  { intros z Hz. rewrite Z.land_ones by lia. apply Z.mod_small. lia. }
  assert (Z.lxor (Z.land a (Z.ones 8)) (Z.land b (Z.ones 8)) =
          Z.land (Z.lxor a b) (Z.ones 8)) as Heq.
  { apply Z.bits_inj'. intros i Hi. rewrite Z.lxor_spec, !Z.land_spec, Z.lxor_spec.
    destruct (Z.testbit a i), (Z.testbit b i), (Z.testbit (Z.ones 8) i); done. }
  rewrite !Hl in Heq by done. rewrite Heq.
  rewrite Z.land_ones by lia. apply Z.mod_pos_bound. lia.
Qed.

Lemma byte_b2z b : byte (b2z b).
Proof. destruct b; unfold byte; cbn; lia. Qed.

Lemma bytes_sub_slice l off len : bytes l -> bytes (sub_slice l off len).
Proof. intros. by apply Forall_take, Forall_drop. Qed.

Lemma length_sub_slice l off len :
  0 <= off -> 0 <= len -> off + len <= Z.of_nat (length l) ->
  length (sub_slice l off len) = Z.to_nat len.
Proof. intros. unfold sub_slice. rewrite length_take, length_drop. lia. Qed.

Lemma bytes_src_col srcs b : Forall bytes srcs -> bytes (src_col srcs b).
Proof.
  intros H. apply Forall_fmap. eapply Forall_impl; [exact H|]. intros s Hs. cbn.
  destruct (nth_in_or_default b s 0) as [Hin| ->]; [|unfold byte; lia].
  rewrite Forall_forall in Hs. apply Hs. by apply list_elem_of_In.
Qed.

Section algebra.
Context {isal : IsaL} {gf_mul : Z -> Z -> Z} {k n : Z} (HI : IsaL_spec gf_mul k n).
Local Abbreviation dot := (gf_dot gf_mul).

Lemma byte_dot x y : bytes x -> bytes y -> byte (dot x y).
Proof.
  intros Hx. revert y. induction Hx as [|a x Ha Hx IH]; intros [|b y] Hy; cbn;
    try (unfold byte; lia).
  apply Forall_cons in Hy as [Hb Hy]. apply byte_lxor; [by apply HI|]. by apply IH.
Qed.

Lemma dot_cons a x b y : dot (a :: x) (b :: y) = Z.lxor (gf_mul a b) (dot x y).
Proof. done. Qed.

Lemma dot_xor_l p q y :
  bytes p -> bytes q -> bytes y -> length p = length q ->
  dot (zip_with Z.lxor p q) y = Z.lxor (dot p y) (dot q y).
Proof.
  intros Hp. revert q y. induction Hp as [|a p Ha Hp IH]; intros [|b q] [|c y] Hq Hy Hl;
    try done.
  apply Forall_cons in Hq as [Hb Hq]. apply Forall_cons in Hy as [Hc Hy].
  injection Hl as Hl. cbn [zip_with]. rewrite !dot_cons, IH, (gf_xor_l _ _ _ HI) by done.
  rewrite !Z.lxor_assoc. f_equal. rewrite <- !Z.lxor_assoc. f_equal. apply Z.lxor_comm.
Qed.

Lemma mul_dot a e y :
  byte a -> bytes e -> bytes y -> gf_mul a (dot e y) = dot (gf_mul a <$> e) y.
Proof.
  intros Ha He. revert y. induction He as [|b e Hb He IH]; intros [|c y] Hy;
    try (by apply (gf_0_r _ _ _ HI)).
  apply Forall_cons in Hy as [Hc Hy]. cbn [fmap list_fmap]. rewrite !dot_cons.
  rewrite (gf_xor_r _ _ _ HI), IH, (gf_assoc _ _ _ HI);
    try done; [by apply HI|by apply byte_dot].
Qed.

(** Multiplying by a matrix on the right associates. *)
Lemma dot_matrix (E : Z -> list Z) vs x y :
  bytes x -> bytes y -> length x = length vs ->
  (forall v, v ∈ vs -> bytes (E v) /\ length (E v) = length y) ->
  dot x ((fun v => dot (E v) y) <$> vs) =
  dot ((fun c => dot x ((fun v => nth c (E v) 0) <$> vs)) <$> seq 0 (length y)) y.
Proof.
  intros Hx Hy. revert vs. induction Hx as [|a x Ha Hx IH]; intros [|v vs] Hl HE; try done.
  - cbn. clear HE Hl. induction Hy as [|b y Hb Hy IHy]; [done|].
    cbn [length seq fmap list_fmap]. rewrite dot_cons. cbn [gf_dot xor_sum zip_with foldr].
    change (dot [] []) with 0. rewrite (gf_0_l _ _ _ HI) by done.
    rewrite Z.lxor_0_l. rewrite <- seq_shift, <- list_fmap_compose. done.
  - injection Hl as Hl. cbn [fmap list_fmap]. rewrite dot_cons.
    destruct (HE v) as [HEb HEl]; [by left|].
    rewrite IH by (try done; intros; apply HE; by right).
    rewrite mul_dot by done.
    rewrite <- dot_xor_l; try done.
    + f_equal. apply list_eq. intros c.
      rewrite lookup_zip_with, !list_lookup_fmap.
      destruct (decide (c < length y)%nat) as [Hc|Hc].
      * rewrite !lookup_seq_lt by done. cbn.
        destruct (lookup_lt_is_Some_2 (E v) c) as [z Hz]; [lia|].
        rewrite Hz. cbn. by rewrite (nth_lookup_Some _ _ _ _ Hz).
      * rewrite !lookup_seq_ge by lia. by rewrite (lookup_ge_None_2 (E v)) by lia.
    + apply Forall_fmap. eapply Forall_impl; [exact HEb|]. intros b Hb. by apply HI.
    + apply Forall_fmap, Forall_forall. intros c _. cbn. apply byte_dot; [done|].
      apply Forall_fmap, Forall_forall. intros w Hw. cbn.
      destruct (HE w) as [Hb _]; [by right|].
      destruct (nth_in_or_default c (E w) 0) as [Hin| ->]; [|unfold byte; lia].
      rewrite Forall_forall in Hb. apply Hb. by apply list_elem_of_In.
    + by rewrite !length_fmap, length_seq.
Qed.

(** A unit row selects a source byte. *)
Lemma dot_unit (y : list Z) (r s : nat) :
  bytes y -> (s <= r < s + length y)%nat ->
  dot ((fun j => b2z (bool_decide (Z.of_nat r = Z.of_nat j))) <$> seq s (length y)) y =
  nth (r - s) y 0.
Proof.
  intros Hy. revert s. induction Hy as [|b y Hb Hy IH]; intros s Hr; [cbn in Hr; lia|].
  cbn [length seq fmap list_fmap]. rewrite dot_cons. cbn in Hr.
  destruct (decide (r = s)) as [->|Hne].
  - rewrite bool_decide_eq_true_2 by done. cbn [b2z].
    rewrite (gf_1_l _ _ _ HI) by done. rewrite Nat.sub_diag. cbn.
    assert (forall t, (s < t)%nat ->
      dot ((fun j => b2z (bool_decide (Z.of_nat s = Z.of_nat j))) <$> seq t (length y)) y = 0) as H0.
    { clear IH Hr. induction Hy as [|c y Hc Hy IHy]; intros t Ht; [done|].
      cbn [length seq fmap list_fmap]. rewrite dot_cons, IHy by lia.
      rewrite bool_decide_eq_false_2 by lia. cbn. rewrite (gf_0_l _ _ _ HI) by done. done. }
    rewrite H0 by lia. apply Z.lxor_0_r.
  - rewrite bool_decide_eq_false_2 by lia. cbn [b2z].
    rewrite (gf_0_l _ _ _ HI) by done. rewrite Z.lxor_0_l, IH by lia.
    replace (r - s)%nat with (S (r - S s)) by lia. done.
Qed.
End algebra.

(** ** The round trip *)
Section roundtrip.
Context {isal : IsaL} {gf_mul : Z -> Z -> Z} {k m : Z}
  (HI : IsaL_spec gf_mul k (k + m)) (Hk : 1 <= k <= kMaxK) (Hm : 0 <= m <= kMaxM).
Context (D : list Slice) (fs : nat)
  (HDlen : length D = Z.to_nat k) (HDfs : Forall (fun s => length s = fs) D)
  (HDb : Forall bytes D).
Local Abbreviation E := (gf_gen_cauchy1_matrix (k + m) k).

(** Fragment [i] of the stripe with data rows [D]. *)
Definition frag (i : Z) : Slice := enc_row gf_mul (mat_row E k i) D fs.

Lemma length_frag i : length (frag i) = fs.
Proof. unfold frag, enc_row. by rewrite length_fmap, length_seq. Qed.

Lemma length_mat_row i : 0 <= i < k + m -> length (mat_row E k i) = Z.to_nat k.
Proof using HI Hk Hm.
  clear HDlen HDfs HDb. clear D. intros Hi. apply length_sub_slice; [nia|lia|].
  rewrite (cauchy_len _ _ _ HI), Z2Nat.id by nia. nia.
Qed.

Lemma lookup_enc_row coefs srcs b :
  (b < fs)%nat -> enc_row gf_mul coefs srcs fs !! b = Some (gf_dot gf_mul coefs (src_col srcs b)).
Proof. intros. unfold enc_row. by rewrite list_lookup_fmap, lookup_seq_lt. Qed.

Lemma src_col_length b : length (src_col D b) = Z.to_nat k.
Proof. unfold src_col. by rewrite length_fmap. Qed.

(** A unit coefficient row reproduces a data row. *)
Lemma unit_row r b :
  0 <= r < k ->
  gf_dot gf_mul ((fun j => b2z (bool_decide (r = j))) <$> seqZ 0 k) (src_col D b) =
  nth b (nth (Z.to_nat r) D []) 0.
Proof.
  intros Hr. rewrite seqZ_seq by lia. rewrite <- list_fmap_compose.
  rewrite <- (src_col_length b).
  pose proof (dot_unit HI (src_col D b) (Z.to_nat r) 0) as Hu.
  rewrite Z2Nat.id in Hu by lia. unfold compose. rewrite Hu.
  - rewrite Nat.sub_0_r. unfold src_col.
    destruct (lookup_lt_is_Some_2 D (Z.to_nat r)) as [s Hs]; [lia|].
    rewrite (nth_lookup_Some _ _ [] _ Hs). apply nth_lookup_Some.
    by rewrite list_lookup_fmap, Hs.
  - by apply bytes_src_col.
  - rewrite src_col_length. lia.
Qed.

(** The first [k] fragments are the data rows. *)
Lemma frag_data i : 0 <= i < k -> D !! Z.to_nat i = Some (frag i).
Proof.
  intros Hi. destruct (lookup_lt_is_Some_2 D (Z.to_nat i)) as [s Hs]; [lia|].
  rewrite Hs. f_equal.
  assert (length s = fs) as Hl by (eapply Forall_lookup_1 in HDfs; eauto).
  apply list_eq. intros b. destruct (decide (b < fs)%nat) as [Hb|Hb].
  - unfold frag. rewrite lookup_enc_row, (cauchy_id _ _ _ HI), unit_row by done.
    rewrite (nth_lookup_Some _ _ [] _ Hs).
    destruct (lookup_lt_is_Some_2 s b) as [z Hz]; [lia|].
    by rewrite Hz, (nth_lookup_Some _ _ 0 _ Hz).
  - rewrite !lookup_ge_None_2; [done| |lia]. rewrite length_frag. lia.
Qed.

Lemma bytes_mat_row i : bytes (mat_row E k i).
Proof. apply bytes_sub_slice, HI. Qed.

(** The inverse of the rows [vs] applied to the fragments [vs] gives back row [r]. *)
Lemma decode_row vs r :
  NoDup vs -> length vs = Z.to_nat k -> (forall v, v ∈ vs -> 0 <= v < k + m) -> 0 <= r < k ->
  enc_row gf_mul
    (mat_row (gf_invert_matrix (v ← vs; mat_row E k v) k) k r) (frag <$> vs) fs = frag r.
Proof.
  intros Hnd Hlen Hr0 Hr. destruct (invert_ok _ _ _ HI vs Hnd Hlen Hr0) as (Hil & Hib & Hid).
  set (inv := gf_invert_matrix _ k) in *.
  assert (length (mat_row inv k r) = Z.to_nat k) as Hrl.
  { apply length_sub_slice; [nia|lia|]. rewrite Hil, Z2Nat.id by nia. nia. }
  apply list_eq. intros b. destruct (decide (b < fs)%nat) as [Hb|Hb].
  2: { rewrite !lookup_ge_None_2; [done|rewrite length_frag; lia|].
       unfold enc_row. rewrite length_fmap, length_seq. lia. }
  unfold frag at 2. rewrite !lookup_enc_row by done. f_equal.
  assert (src_col (frag <$> vs) b =
          (fun v => gf_dot gf_mul (mat_row E k v) (src_col D b)) <$> vs) as ->.
  { unfold src_col at 1. rewrite <- list_fmap_compose. apply list_fmap_ext.
    intros i v Hv. cbn. apply nth_lookup_Some. unfold frag. by rewrite lookup_enc_row. }
  rewrite (dot_matrix HI).
  - rewrite (cauchy_id _ _ _ HI) by done. f_equal. rewrite seqZ_seq by lia.
    rewrite <- list_fmap_compose, src_col_length. apply list_fmap_ext.
    intros i c Hc. apply lookup_seq in Hc as [-> Hc]. cbn.
    rewrite <- (Hid r (Z.of_nat i)) by lia. by rewrite Nat2Z.id.
  - by apply bytes_sub_slice.
  - by apply bytes_src_col.
  - by rewrite Hrl, Hlen.
  - intros v Hv. split; [apply bytes_mat_row|].
    rewrite src_col_length. apply length_mat_row. by apply Hr0.
Qed.

(** Fragments received from a stripe: a part of [frag]. *)
Context (F : EncodingResults)
  (HF : forall i s, F !! i = Some s -> 0 <= i < k + m /\ s = frag i).

Lemma frag_keys i s : F !! i = Some s -> 0 <= i /\ s = frag i.
Proof. intros Hi. apply HF in Hi as [? ->]. split; [lia|done]. Qed.

Lemma map_iter_frags : map_iter F = (fun i => (i, frag i)) <$> sorted_keys F.
Proof. apply map_iter_function, frag_keys. Qed.

Lemma key_range i : i ∈ sorted_keys F -> 0 <= i < k + m.
Proof. intros [s Hs]%elem_of_sorted_keys. by apply HF in Hs as [??]. Qed.

Lemma elem_of_missing_rows i :
  i ∈ missing_rows F k <-> 0 <= i < k /\ ~ (i ∈ sorted_keys F).
Proof. apply (elem_of_missing frag), frag_keys. Qed.

Lemma copy_data_rows_ok R :
  length R = Z.to_nat k -> Forall (fun r => length r = fs) R ->
  exists R', copy_data_rows F k (Z.of_nat fs) (concat R) = Some (concat R') /\
    length R' = Z.to_nat k /\ Forall (fun r => length r = fs) R' /\
    forall i, 0 <= i < k -> i ∈ sorted_keys F -> R' !! Z.to_nat i = Some (frag i).
Proof. apply (copy_data_function frag); [apply frag_keys|]. intros i _. apply length_frag. Qed.

(** The data rows are the only rows that agree with the first [k] fragments. *)
Lemma data_rows_unique R : length R = Z.to_nat k -> (forall i, 0 <= i < k -> R !! Z.to_nat i = Some (frag i)) -> R = D.
Proof.
  intros Hl Hi. apply list_eq. intros j. destruct (decide (j < Z.to_nat k)%nat).
  - rewrite <- (Nat2Z.id j). rewrite Hi, frag_data by lia. done.
  - by rewrite !lookup_ge_None_2 by lia.
Qed.

Lemma map_iter_first : k <= Z.of_nat (size F) -> exists i0 rest, map_iter F = (i0, frag i0) :: rest.
Proof.
  intros Hsz. rewrite map_iter_frags. pose proof (length_sorted_keys F) as Hkl. destruct (sorted_keys F) as [|i0 ks]; [|cbn; eauto].
  rewrite <- Hkl in Hsz. cbn in Hsz. lia.
Qed.

(** The rows of the inverse that belong to [miss], one behind the other. *)
Lemma decode_rows_layout inv miss : length inv = (Z.to_nat k * Z.to_nat k)%nat -> (forall r, r ∈ miss -> 0 <= r < k) ->
  let rows := (row ← miss; sub_slice inv (row * k) k) in
  length rows = (length miss * Z.to_nat k)%nat /\
  forall i r, miss !! i = Some r -> take (Z.to_nat k) (drop (i * Z.to_nat k) rows) = mat_row inv k r.
Proof.
  intros Hinv Hms rows.
  assert (rows = concat ((fun r => mat_row inv k r) <$> miss)) as Hrows by apply bind_concat.
  assert (Forall (fun r => length r = Z.to_nat k) ((fun r => mat_row inv k r) <$> miss)) as Hrl.
  { apply Forall_fmap, Forall_forall. intros r Hr%Hms. cbn. apply length_sub_slice; [nia|lia|]. nia. }
  rewrite Hrows. split; [by rewrite (concat_length_uniform _ _ Hrl), length_fmap|].
  intros i r Hr. pose proof (take_drop_row _ _ i Hrl) as Ht. rewrite length_fmap in Ht.
  specialize (Ht (lookup_lt_Some _ _ _ Hr)). rewrite list_lookup_fmap, Hr in Ht. by injection Ht as <-.
Qed.

(** What the kernel computes for the missing rows. *)
Lemma decode_outputs vs miss rest : NoDup vs -> length vs = Z.to_nat k -> (forall v, v ∈ vs -> 0 <= v < k + m) ->
  (forall r, r ∈ miss -> 0 <= r < k) ->
  let rows := (row ← miss; sub_slice (gf_invert_matrix (v ← vs; mat_row E k v) k) (row * k) k) in
  ec_encode_data (Z.of_nat fs) k (Z.of_nat (length miss)) (ec_init_tables k (Z.of_nat (length miss)) (rows ++ rest)) (frag <$> vs)
    = frag <$> miss.
Proof.
  intros Hvn Hvl Hvr Hms rows. destruct (invert_ok _ _ _ HI vs Hvn Hvl Hvr) as (Hil & _ & _).
  destruct (decode_rows_layout (gf_invert_matrix (v ← vs; mat_row E k v) k) miss) as [Hrl Hrow];
    [rewrite Hil, Z2Nat.inj_mul by lia; done|done|].
  fold rows in Hrl, Hrow. rewrite (encode_ok _ _ _ HI); [|lia| | |].
  - apply list_eq. intros i. rewrite !list_lookup_fmap. destruct (decide (i < length miss)%nat) as [Hi|Hi].
    + rewrite lookup_seqZ_lt by lia. destruct (lookup_lt_is_Some_2 miss i Hi) as [r Hr].
      rewrite Hr. cbn. f_equal. rewrite <- (decode_row vs r) by (try done; by apply Hms, (list_elem_of_lookup_2 miss i)).
      f_equal. rewrite <- (Hrow i r Hr). unfold mat_row, sub_slice.
      replace (Z.to_nat ((0 + Z.of_nat i) * k)) with (i * Z.to_nat k)%nat by nia.
      by rewrite take_drop_commute, take_app_le, <- take_drop_commute by nia.
    + rewrite lookup_seqZ_ge, (lookup_ge_None_2 miss) by lia. done.
  - rewrite length_app, Hrl. nia.
  - by rewrite length_fmap.
  - apply Forall_fmap, Forall_forall. intros. apply length_frag.
Qed.

Lemma foldl_zip_frags miss d :
  foldl (fun d ro => memcpy_at d (fst ro * Z.of_nat fs) (snd ro)) d (zip miss (frag <$> miss)) =
  foldl (fun d r => memcpy_at d (r * Z.of_nat fs) (frag r)) d miss.
Proof. revert d. induction miss as [|r l IH]; intros d; cbn; [done|apply IH]. Qed.

(** Rows that are there where a fragment was received, with the missing ones written. *)
Lemma write_missing R : length R = Z.to_nat k -> Forall (fun r => length r = fs) R ->
  (forall i, 0 <= i < k -> i ∈ sorted_keys F -> R !! Z.to_nat i = Some (frag i)) ->
  foldl (fun d r => memcpy_at d (r * Z.of_nat fs) (frag r)) (concat R) (missing_rows F k) = concat D.
Proof.
  intros HRl HRfs HRin. destruct (write_rows frag fs (missing_rows F k) R) as (R' & -> & Hl' & _ & Hj); [done| |].
  { intros r Hr%elem_of_missing_rows. split; [lia|apply length_frag]. }
  f_equal. apply data_rows_unique; [congruence|]. intros i Hi.
  destruct (Hj (Z.to_nat i)) as [[_ Hv]|[Hn Hv]]; [lia| |]; rewrite Z2Nat.id in * by lia; [done|].
  rewrite Hv. apply HRin; [done|]. destruct (decide (i ∈ sorted_keys F)) as [|Hnk]; [done|].
  destruct Hn. by apply elem_of_missing_rows.
Qed.

(** Decoding any [k] or more fragments of the stripe gives the data rows. *)
Lemma DecodeSliceHelper_ok :
  k <= Z.of_nat (size F) -> DecodeSliceHelper F k m = Some (Some (concat D)).
Proof.
  intros Hsz. unfold DecodeSliceHelper. unfold kMaxK, kMaxM in *.
  destruct (Z.leb_spec k 0), (Z.ltb_spec 16 k), (Z.ltb_spec (16 * (16 + 32)) ((k + m) * k)); try nia. cbn [orb].
  destruct (Z.ltb_spec (Z.of_nat (size F)) k); [lia|].
  destruct (map_iter_first Hsz) as (i0 & rest & Hmi). rewrite Hmi. unfold slice_size. rewrite length_frag, <- Hmi, map_iter_frags.
  replace (Z.to_nat (Z.of_nat fs * k)) with (Z.to_nat k * fs)%nat by lia. rewrite replicate_rows.
  destruct (copy_data_rows_ok (replicate (Z.to_nat k) (replicate fs 0))) as (R & HeqR & HRl & HRfs & HRin).
  { apply length_replicate. }
  { apply Forall_replicate. apply length_replicate. }
  rewrite HeqR. pose proof (write_missing R HRl HRfs HRin) as Hw.
  case_bool_decide as Hmiss; [by rewrite Hmiss in Hw; cbn in Hw; rewrite Hw|].
  set (vs := take (Z.to_nat k) (sorted_keys F)). pose proof (length_sorted_keys F) as Hkl.
  assert (snd <$> take (Z.to_nat k) ((fun i => (i, frag i)) <$> sorted_keys F) = frag <$> vs) as ->
    by (rewrite <- fmap_take, <- list_fmap_compose; done).
  rewrite (decode_outputs vs).
  - by rewrite foldl_zip_frags, Hw.
  - eapply sublist_NoDup; [apply (NoDup_sorted_keys F)|apply sublist_take].
  - unfold vs. rewrite length_take. lia.
  - intros v Hv. apply key_range. eapply subseteq_take. exact Hv.
  - intros r Hr%elem_of_missing_rows. tauto.
Qed.
End roundtrip.

(** ** The encoder's output *)
Lemma concat_chunks (p : list Z) (n fs : nat) :
  length p = (n * fs)%nat ->
  concat ((fun i => take fs (drop (i * fs) p)) <$> seq 0 n) = p.
Proof.
  revert p. induction n as [|n IH]; intros p Hp.
  { by destruct p. }
  cbn [seq fmap list_fmap concat]. cbn [Nat.mul]. rewrite drop_0.
  rewrite <- seq_shift, <- list_fmap_compose.
  transitivity (take fs p ++ drop fs p); [|apply take_drop]. f_equal.
  rewrite <- (IH (drop fs p)) by (rewrite length_drop; lia).
  f_equal. apply list_fmap_ext. intros i x _. cbn. by rewrite drop_drop.
Qed.

Section encode.
Context {isal : IsaL} {gf_mul : Z -> Z -> Z} {k m : Z}
  (HI : IsaL_spec gf_mul k (k + m)) (Hk : 2 <= k <= kMaxK) (Hm : 0 <= m <= kMaxM).
Context (slice : Slice) (Hb : bytes slice).

Definition frag_size : Z := (slice_size slice + k - 1) / k.
Definition pad_len : nat := Z.to_nat (frag_size * k - slice_size slice).
Definition data_rows : list Slice :=
  (fun i => sub_slice (slice ++ replicate pad_len 0) (i * frag_size) frag_size) <$> seqZ 0 k.

Lemma frag_size_bounds : 0 <= frag_size /\ slice_size slice <= frag_size * k < slice_size slice + k.
Proof. unfold frag_size, slice_size. zdm. nia. Qed.

Lemma padded_length :
  length (slice ++ replicate pad_len 0) = (Z.to_nat k * Z.to_nat frag_size)%nat.
Proof.
  pose proof frag_size_bounds. unfold pad_len, slice_size in *.
  rewrite length_app, length_replicate. nia.
Qed.

Lemma data_rows_concat : concat data_rows = slice ++ replicate pad_len 0.
Proof.
  pose proof frag_size_bounds.
  rewrite <- (concat_chunks _ _ _ padded_length). unfold data_rows.
  rewrite seqZ_seq, <- list_fmap_compose by lia. f_equal.
  apply list_fmap_ext. intros i x _. cbn. unfold sub_slice. f_equal. f_equal. nia.
Qed.

Lemma data_rows_length : length data_rows = Z.to_nat k.
Proof. unfold data_rows. by rewrite length_fmap, length_seqZ. Qed.

Lemma data_rows_fs : Forall (fun s => length s = Z.to_nat frag_size) data_rows.
Proof.
  apply Forall_fmap, Forall_forall. intros i Hi%elem_of_seqZ. cbn.
  pose proof frag_size_bounds. apply length_sub_slice; [nia|lia|].
  rewrite padded_length. nia.
Qed.

Lemma data_rows_bytes : Forall bytes data_rows.
Proof.
  apply Forall_fmap, Forall_forall. intros i _. apply bytes_sub_slice.
  apply Forall_app; split; [done|]. apply Forall_replicate. unfold byte. lia.
Qed.

(** Every fragment written is the corresponding row of the code. *)
Lemma EncodeSlice_ok :
  exists M, EncodeSlice slice k m ∅ = Some (true, M) /\
    forall i, M !! i = if decide (0 <= i < k + m)
                       then Some (frag (gf_mul := gf_mul) (k := k) (m := m) data_rows (Z.to_nat frag_size) i)
                       else None.
Proof.
  unfold EncodeSlice, kMaxK, kMaxM in *.
  destruct (Z.eqb_spec k 0), (Z.eqb_spec k 1), (Z.ltb_spec k 0), (Z.ltb_spec 16 k),
    (Z.ltb_spec m 0), (Z.ltb_spec 32 m); try lia. cbn [orb].
  eexists; split; [done|]. intros i. rewrite foldl_std_insert by (done || lia).
  case_decide as Hi; [|done]. f_equal. fold frag_size. fold pad_len. fold data_rows.
  pose proof frag_size_bounds as Hfs. destruct (Z.ltb_spec i k).
  - apply nth_lookup_Some. eapply frag_data; try done; unfold kMaxK; try lia.
    + apply data_rows_length.
    + apply data_rows_fs.
    + apply data_rows_bytes.
  - replace (m + k) with (k + m) by lia.
    rewrite <- (Z2Nat.id frag_size) at 1 by lia.
    rewrite (encode_ok _ _ _ HI); [|lia| |apply data_rows_length|apply data_rows_fs].
    + apply nth_lookup_Some. rewrite list_lookup_fmap, lookup_seqZ_lt by lia. cbn.
      f_equal. unfold frag. f_equal. unfold mat_row, sub_slice.
      rewrite drop_drop. f_equal. f_equal. nia.
    + rewrite length_drop, (cauchy_len _ _ _ HI). nia.
Qed.
End encode.

(** What one call of the encoder gives its clients: [rows] are the data
    fragments, all fragments have the size of a row, and any [k] of them decode. *)
Definition encoded {isal : IsaL} (k m : Z) (slice : Slice) (M : EncodingResults) (rows : list Slice) (fs pad : nat) : Prop :=
  (forall i, is_Some (M !! i) <-> 0 <= i < k + m) /\
  length rows = Z.to_nat k /\ Forall (fun r => length r = fs) rows /\
  (forall i, 0 <= i < k -> M !! i = rows !! Z.to_nat i) /\
  (forall i x, M !! i = Some x -> length x = fs) /\
  concat rows = slice ++ replicate pad 0 /\ Z.of_nat pad < k /\
  Z.of_nat fs = (slice_size slice + k - 1) / k /\
  forall F : EncodingResults, F ⊆ M -> k <= Z.of_nat (size F) ->
    DecodeSlice F k m = Some (Some (slice ++ replicate pad 0)).

(** With one data fragment every fragment is the slice. *)
Lemma EncodeSlice_one {isal : IsaL} (m : Z) (slice : Slice) : 0 <= m ->
  exists M, EncodeSlice slice 1 m ∅ = Some (true, M) /\ encoded 1 m slice M [slice] (length slice) 0.
Proof.
  intros Hm. unfold EncodeSlice. cbn [Z.eqb].
  assert (forall i, foldl (fun r i => std_insert i slice r) ∅ (seqZ 0 (1 + m)) !! i =
            if decide (0 <= i < 1 + m) then Some slice else None) as Hlk.
  { intros i. rewrite (foldl_std_insert (fun _ => slice)) by (done || lia). done. }
  eexists. split; [done|]. split_and!.
  - intros i. rewrite Hlk. case_decide; [by eauto|]. split; [by intros [? [=]]|lia].
  - done.
  - by repeat constructor.
  - intros i Hi. rewrite Hlk, decide_True by lia. by replace i with 0 by lia.
  - intros i x. rewrite Hlk. case_decide; congruence.
  - done.
  - done.
  - unfold slice_size. zdm. lia.
  - intros F HF Hsz. rewrite app_nil_r. unfold DecodeSlice.
    rewrite (map_iter_fun F (fun _ => slice)).
    2: { intros i a Ha. eapply lookup_weaken in Ha; [|exact HF]. rewrite Hlk in Ha.
         case_decide; congruence. }
    pose proof (length_sorted_keys F) as Hl. destruct (sorted_keys F) as [|i ks]; [|done].
    rewrite <- Hl in Hsz. cbn in Hsz. lia.
Qed.

Lemma EncodeSlice_many {isal : IsaL} (gf_mul : Z -> Z -> Z) (k m : Z) (slice : Slice) :
  IsaL_spec gf_mul k (k + m) -> 1 < k <= kMaxK -> 0 <= m <= kMaxM -> bytes slice ->
  exists M rows (fs pad : nat), EncodeSlice slice k m ∅ = Some (true, M) /\ encoded k m slice M rows fs pad.
Proof.
  intros HI Hk1 Hm Hb. assert (k <> 1) as Hne by lia. assert (1 <= k <= kMaxK) as Hk by lia.
  destruct (EncodeSlice_ok HI ltac:(lia) Hm slice Hb) as (M & HM & Hlk).
  pose proof (frag_size_bounds (k := k) ltac:(lia) slice) as Hfs.
  assert (Forall (fun r => length r = Z.to_nat (frag_size (k := k) slice)) (data_rows (k := k) slice)) as Hrows
    by (by apply data_rows_fs; lia).
  exists M, (data_rows (k := k) slice), (Z.to_nat (frag_size (k := k) slice)), (pad_len (k := k) slice).
  split; [done|]. split_and!.
  - intros i. rewrite Hlk. case_decide; [by eauto|]. split; [by intros [? [=]]|lia].
  - apply data_rows_length.
  - done.
  - intros i Hi. rewrite Hlk, decide_True by lia. symmetry.
    eapply frag_data; try done; [apply data_rows_length|by apply data_rows_bytes].
  - intros i x. rewrite Hlk. case_decide; [|done]. intros [= <-]. apply length_frag.
  - by apply data_rows_concat; lia.
  - unfold pad_len. lia.
  - rewrite Z2Nat.id by lia. done.
  - intros F HF Hsz.
    assert (DecodeSliceHelper F k m =
            Some (Some (slice ++ replicate (pad_len (k := k) slice) 0))) as Hd.
    { rewrite <- data_rows_concat by lia.
      eapply (DecodeSliceHelper_ok HI Hk Hm); [apply data_rows_length|done
        |by apply data_rows_bytes| |done].
      intros i s Hs. eapply lookup_weaken in Hs; [|exact HF]. rewrite Hlk in Hs.
      case_decide; [|done]. by injection Hs as <-. }
    unfold DecodeSlice. destruct (map_iter F) as [|[j s] l] eqn:Hmi.
    * unfold DecodeSliceHelper in Hd. rewrite Hmi in Hd. repeat case_match; congruence.
    * destruct (Z.eqb_spec k 1); [lia|done].
Qed.

Lemma EncodeSlice_code {isal : IsaL} (gf_mul : Z -> Z -> Z) (k m : Z) (slice : Slice) :
  IsaL_spec gf_mul k (k + m) -> 1 <= k <= kMaxK -> 0 <= m <= kMaxM -> bytes slice ->
  exists M rows (fs pad : nat), EncodeSlice slice k m ∅ = Some (true, M) /\ encoded k m slice M rows fs pad.
Proof.
  intros HI Hk Hm Hb. destruct (decide (k = 1)) as [->|Hne].
  - destruct (EncodeSlice_one m slice ltac:(lia)) as (M & HM & He). by exists M, [slice], (length slice), 0%nat.
  - apply (EncodeSlice_many gf_mul); [done|lia|done|done].
Qed.

(** [C11] Any [k] of the [k + m] fragments suffice: [EncodeSlice] succeeds and
    writes exactly the fragments [0, k + m), and [DecodeSlice] on any subset of
    at least [k] of them returns the original bytes followed by fewer than [k]
    zero padding bytes. *)
Theorem encode_decode_roundtrip {isal : IsaL} (gf_mul : Z -> Z -> Z) (k m : Z) (slice : Slice)
    (HI : IsaL_spec gf_mul k (k + m)) (Hk : 1 <= k <= kMaxK) (Hm : 0 <= m <= kMaxM)
    (Hb : bytes slice) :
  exists M, EncodeSlice slice k m ∅ = Some (true, M) /\
    (forall i, is_Some (M !! i) <-> 0 <= i < k + m) /\
    forall F : EncodingResults, F ⊆ M -> k <= Z.of_nat (size F) ->
      exists pad : nat, Z.of_nat pad < k /\
        DecodeSlice F k m = Some (Some (slice ++ replicate pad 0)).
Proof.
  destruct (EncodeSlice_code gf_mul k m slice HI Hk Hm Hb)
    as (M & rows & fs & pad & HM & Hdom & _ & _ & _ & _ & _ & Hpad & _ & Hdec).
  exists M. split_and!; [done|done|]. eauto.
Qed.

Lemma EncodeSlice_one_values {isal : IsaL} (m : Z) (slice : Slice) (M : EncodingResults) i x :
  0 <= m -> EncodeSlice slice 1 m ∅ = Some (true, M) -> M !! i = Some x -> 0 <= i /\ x = slice.
Proof.
  intros Hm. unfold EncodeSlice. cbn [Z.eqb]. intros [= <-].
  rewrite (foldl_std_insert (fun _ => slice)) by (done || lia). case_decide; [|done]. intros [= <-]. split; [lia|done].
Qed.

(** [DecodeSliceHelper] copies the first of these fragments, when it is there. *)
Lemma DecodeSliceHelper_first {isal : IsaL} (F : EncodingResults) (m : Z) (slice : Slice) :
  0 <= m <= kMaxM -> (forall i x, F !! i = Some x -> 0 <= i /\ x = slice) -> is_Some (F !! 0) ->
  DecodeSliceHelper F 1 m = Some (Some slice).
Proof.
  intros Hm HF H0. unfold kMaxM in Hm. set (D := fun _ : Z => slice).
  pose proof (map_iter_function D F HF) as Hmi. pose proof (length_sorted_keys F) as Hkl.
  assert (0 ∈ sorted_keys F) as Hin by by apply elem_of_sorted_keys.
  unfold DecodeSliceHelper, kMaxK, kMaxM. change (1 <=? 0) with false. change (16 <? 1) with false.
  rewrite (proj2 (Z.ltb_ge _ _)) by lia. cbn [orb]. rewrite Hmi.
  destruct (sorted_keys F) as [|i0 ks] eqn:Hks; [by apply not_elem_of_nil in Hin|]. cbn [fmap list_fmap].
  rewrite (proj2 (Z.ltb_ge _ _)) by (rewrite <- Hkl; cbn; lia).
  replace (Z.to_nat (slice_size (D i0) * 1)) with (1 * length slice)%nat by (unfold D, slice_size; lia).
  rewrite (replicate_rows 1 (length slice)).
  destruct (copy_data_function D (length slice) 1 F HF ltac:(done) (replicate 1 (replicate (length slice) 0)))
    as (R & HR & HRl & _ & HRi); [done|by repeat constructor; rewrite length_replicate|].
  change (slice_size (D i0)) with (Z.of_nat (length slice)). change (concat (replicate 1 (replicate (length slice) 0)))
    with (concat (replicate (Z.to_nat 1) (replicate (length slice) 0))) in *. rewrite HR. rewrite bool_decide_true.
  - do 2 f_equal. destruct R as [|r [|]]; try done. specialize (HRi 0 ltac:(lia)). rewrite Hks in HRi.
    specialize (HRi Hin). injection HRi as ->. cbn. by rewrite app_nil_r.
  - apply elem_of_nil_inv. intros i Hi. apply (elem_of_missing D 1 F HF) in Hi as [Hi Hn].
    apply Hn. rewrite Hks. by replace i with 0 by lia.
Qed.

(** Decoding from one fragment that is not the first: [v] is the inverse of its
    coefficient. *)
Lemma DecodeSliceHelper_single {isal : IsaL} (gf_mul : Z -> Z -> Z) (m i v : Z) :
  IsaL_spec gf_mul 1 (1 + m) -> 0 <= m <= kMaxM -> 1 <= i <= m ->
  gf_invert_matrix (row ← [i]; sub_slice (gf_gen_cauchy1_matrix (1 + m) 1) (row * 1) 1) 1 = [v] ->
  DecodeSliceHelper {[i := [1]]} 1 m = Some (Some [gf_mul v 1]).
Proof.
  intros HI Hm Hi Hinv. unfold DecodeSliceHelper. unfold kMaxK, kMaxM in *.
  destruct (Z.ltb_spec (16 * (16 + 32)) ((1 + m) * 1)); [lia|]. cbn [orb Z.leb Z.ltb Z.compare].
  rewrite map_size_singleton. cbn [Z.of_nat Z.ltb].
  assert (sorted_keys ({[i := [1]]} : gmap Z Slice) = [i]) as Hsk.
  { unfold sorted_keys. rewrite dom_singleton_L, elements_singleton. done. }
  assert (map_iter ({[i := [1]]} : gmap Z Slice) = [(i, [1])]) as Hmi.
  { unfold map_iter. rewrite Hsk. cbn. by rewrite lookup_singleton_eq. }
  unfold missing_rows, copy_data_rows. rewrite Hmi, Hsk. cbn [foldl fst snd].
  destruct (Z.ltb_spec i 1); [lia|].
  rewrite bool_decide_eq_false_2 by done.
  change (seqZ 0 1) with [0]. change (take (Z.to_nat 1) [i]) with [i]. rewrite Hinv.
  change (row ← [0]; sub_slice [v] (row * 1) 1) with [v].
  change (snd <$> take (Z.to_nat 1) [(i, [1])]) with [[1]].
  change (slice_size [1]) with (Z.of_nat 1). change (Z.of_nat (length [0])) with 1.
  rewrite (encode_ok _ _ _ HI); try done; [|rewrite length_app; cbn; lia|by repeat constructor].
  change (Some (Some [Z.lxor (gf_mul v 1) 0]) = Some (Some [gf_mul v 1])).
  by rewrite Z.lxor_0_r.
Qed.

(** For [k = 1] the two halves of the encoder disagree: [EncodeSlice]
    stores the slice verbatim under every fragment id, while [DecodeSliceHelper]
    (which [RaftState::DecodingRaftEntry] calls directly) treats fragment [i] as
    row [i] of the Cauchy matrix. Decoding from a single fragment [i >= 1] whose
    coefficient is not 1 therefore returns bytes that differ from the input. *)
Theorem DecodeSliceHelper_k1_corrupts {isal : IsaL} (gf_mul : Z -> Z -> Z) (m i : Z)
    (HI : IsaL_spec gf_mul 1 (1 + m)) (Hm : 0 <= m <= kMaxM) (Hi : 1 <= i <= m)
    (Hcoef : mat_row (gf_gen_cauchy1_matrix (1 + m) 1) 1 i <> [1]) :
  exists M d, EncodeSlice [1] 1 m ∅ = Some (true, M) /\ M !! i = Some [1] /\
    DecodeSliceHelper {[i := [1]]} 1 m = Some (Some d) /\ length d = 1%nat /\ d <> [1].
Proof.
  pose proof (length_mat_row HI ltac:(unfold kMaxK; lia) Hm i ltac:(lia)) as Hrl.
  pose proof (bytes_sub_slice _ (i * 1) 1 (cauchy_byte _ _ _ HI)) as Hrb.
  change (sub_slice _ (i * 1) 1) with (mat_row (gf_gen_cauchy1_matrix (1 + m) 1) 1 i) in Hrb.
  destruct (invert_ok _ _ _ HI [i]) as (Hil & Hib & Hid).
  { apply NoDup_singleton. }
  { done. }
  { intros v ->%list_elem_of_singleton. lia. }
  cbn [mbind list_bind app] in Hil, Hib, Hid. rewrite app_nil_r in Hil, Hib, Hid.
  destruct (mat_row (gf_gen_cauchy1_matrix (1 + m) 1) 1 i) as [|c [|]] eqn:Hrow; try done.
  destruct (gf_invert_matrix [c] 1) as [|v [|]] eqn:Hinv; try done.
  specialize (Hid 0 0 ltac:(lia) ltac:(lia)).
  cbn [fmap list_fmap] in Hid. rewrite Hrow in Hid. change (Z.lxor (gf_mul v c) 0 = 1) in Hid. rewrite Z.lxor_0_r in Hid.
  rewrite Forall_singleton in Hrb, Hib.
  exists (foldl (fun r i => std_insert i [1] r) ∅ (seqZ 0 (1 + m))), [gf_mul v 1].
  split_and!; [done| |  |done|].
  - rewrite (foldl_std_insert (fun _ => [1])) by (done || lia). by rewrite decide_True by lia.
  - apply DecodeSliceHelper_single; [done..|]. rewrite <- Hinv, <- Hrow. f_equal. cbn [mbind list_bind]. by rewrite app_nil_r.
  - intros [= Heq]. destruct Hcoef.
    assert (gf_mul (gf_mul v 1) c = 1) as H1.
    { assert (byte 1) by (unfold byte; lia).
      by rewrite <- (gf_assoc _ _ _ HI), (gf_1_l _ _ _ HI) by done. }
    rewrite Heq, (gf_1_l _ _ _ HI) in H1 by done. by rewrite H1.
Qed.

(** ** A concrete GF(2^8), polynomial 0x11d, used to instantiate [IsaL]. *)
Module Gf256.
Definition xtime (a : Z) : Z :=
  if Z.testbit a 7 then Z.lxor (Z.shiftl a 1) 285 else Z.shiftl a 1.

Definition term (a b : Z) (i : nat) : Z :=
  if Z.testbit b (Z.of_nat i) then Nat.iter i xtime a else 0.

Definition mul (a b : Z) : Z := xor_sum (term a b <$> seq 0 8).

Definition inv (a : Z) : Z :=
  match filter (fun x => mul a x = 1) (seqZ 1 255) with x :: _ => x | [] => 0 end.

(** Identity on top, [1 / (i xor j)] below. *)
Definition cauchy (n k : Z) : list Z :=
  i ← seqZ 0 n; j ← seqZ 0 k;
  [if i <? k then b2z (bool_decide (i = j)) else inv (Z.lxor i j)].

(** Gauss-Jordan elimination on the rows of [A | I]. *)
Definition eliminate (c : nat) (rows : list (list Z)) : list (list Z) :=
  match filter (fun i => nth c (nth i rows []) 0 <> 0) (seq c (length rows - c)) with
  | [] => rows
  | p :: _ =>
      let rp := nth p rows [] in
      let rows := <[p := nth c rows []]> rows in
      let s := inv (nth c rp 0) in
      let rp := mul s <$> rp in
      let rows := <[c := rp]> rows in
      imap (fun i r => if bool_decide (i = c) then r
                       else zip_with Z.lxor r (mul (nth c r 0) <$> rp)) rows
  end.

Definition invert (a : list Z) (k : Z) : list Z :=
  let rows := (fun i => sub_slice a (i * k) k ++
                        ((fun j => b2z (bool_decide (i = j))) <$> seqZ 0 k)) <$> seqZ 0 k in
  let rows := foldl (fun rs c => eliminate c rs) rows (seq 0 (Z.to_nat k)) in
  r ← rows; drop (Z.to_nat k) r.

#[global] Instance isal : IsaL := {|
  gf_gen_cauchy1_matrix := cauchy;
  gf_invert_matrix := invert;
  gf_tables := list Z;
  ec_init_tables := fun _ _ a => a;
  ec_encode_data := fun len k rows a srcs =>
    (fun l => enc_row mul (mat_row a k l) srcs (Z.to_nat len)) <$> seqZ 0 rows
|}.

Definition all_bytes : list Z := seqZ 0 256.

Lemma forallb_bytes (P : Z -> bool) : forallb P all_bytes = true -> forall a, byte a -> P a = true.
Proof.
  intros H a Ha. rewrite forallb_forall in H. apply H.
  apply list_elem_of_In, elem_of_seqZ. unfold byte in Ha. lia.
Qed.

Lemma xor_sum_zip (f g : nat -> Z) l :
  xor_sum ((fun i => Z.lxor (f i) (g i)) <$> l) = Z.lxor (xor_sum (f <$> l)) (xor_sum (g <$> l)).
Proof.
  induction l as [|i l IH]; [done|]. cbn. change (foldr Z.lxor 0) with xor_sum. rewrite IH.
  rewrite !Z.lxor_assoc. f_equal. rewrite <- !Z.lxor_assoc. f_equal. apply Z.lxor_comm.
Qed.

Lemma xtime_lxor a b : xtime (Z.lxor a b) = Z.lxor (xtime a) (xtime b).
Proof.
  unfold xtime. rewrite Z.lxor_spec, Z.shiftl_lxor.
  apply Z.bits_inj'. intros i _.
  destruct (Z.testbit a 7), (Z.testbit b 7); cbn [xorb]; rewrite !Z.lxor_spec;
    destruct (Z.testbit (Z.shiftl a 1) i), (Z.testbit (Z.shiftl b 1) i), (Z.testbit 285 i); done.
Qed.

Lemma mul_lxor_l a b c : mul (Z.lxor a b) c = Z.lxor (mul a c) (mul b c).
Proof.
  unfold mul. rewrite <- xor_sum_zip. f_equal. apply list_fmap_ext. intros _ i _.
  unfold term. destruct (Z.testbit c (Z.of_nat i)); [|done].
  induction i as [|i IH]; [done|]. rewrite !Nat.iter_succ, IH. apply xtime_lxor.
Qed.

Lemma mul_lxor_r a b c : mul a (Z.lxor b c) = Z.lxor (mul a b) (mul a c).
Proof.
  unfold mul. rewrite <- xor_sum_zip. f_equal. apply list_fmap_ext. intros _ i _.
  unfold term. rewrite Z.lxor_spec.
  destruct (Z.testbit b (Z.of_nat i)), (Z.testbit c (Z.of_nat i)); cbn [xorb];
    by rewrite ?Z.lxor_nilpotent, ?Z.lxor_0_r, ?Z.lxor_0_l.
Qed.

Lemma mul_0_l z : mul 0 z = 0.
Proof. rewrite <- (Z.lxor_nilpotent 1), mul_lxor_l. apply Z.lxor_nilpotent. Qed.

Lemma mul_0_r z : mul z 0 = 0.
Proof. done. Qed.

(** Bytes are generated by the powers of two. *)
Lemma byte_ind (P : Z -> Prop) :
  P 0 -> (forall a b, P a -> P b -> P (Z.lxor a b)) -> (forall i, 0 <= i < 8 -> P (2 ^ i)) ->
  forall a, byte a -> P a.
Proof.
  intros H0 Hx Hp a Ha.
  assert (a = xor_sum ((fun i => if Z.testbit a i then 2 ^ i else 0) <$> seqZ 0 8)) as ->.
  { apply Z.eqb_eq. revert a Ha.
    apply (forallb_bytes (fun a => a =? xor_sum ((fun i => if Z.testbit a i then 2 ^ i else 0) <$> seqZ 0 8))).
    vm_compute. reflexivity. }
  assert (forall l, (forall i, i ∈ l -> 0 <= i < 8) ->
    P (xor_sum ((fun i => if Z.testbit a i then 2 ^ i else 0) <$> l))) as Hl.
  { induction l as [|i l IH]; intros Hi; [done|]. cbn. apply Hx.
    - destruct (Z.testbit a i); [apply Hp, Hi; by left|done].
    - apply IH. intros j Hj. apply Hi. by right. }
  apply Hl. intros i. rewrite elem_of_seqZ. lia.
Qed.

Lemma mul_assoc a b c : byte a -> byte b -> byte c -> mul a (mul b c) = mul (mul a b) c.
Proof.
  intros Ha Hb Hc. revert a Ha.
  refine (byte_ind _ _ _ _).
  { by rewrite !mul_0_l. }
  { intros x y Hx Hy. by rewrite !mul_lxor_l, Hx, Hy. }
  intros i Hi. revert b Hb. refine (byte_ind _ _ _ _).
  { by rewrite mul_0_r, !mul_0_l, mul_0_r. }
  { intros x y Hx Hy. by rewrite !mul_lxor_l, !mul_lxor_r, mul_lxor_l, Hx, Hy. }
  intros j Hj. revert c Hc. refine (byte_ind _ _ _ _).
  { by rewrite !mul_0_r. }
  { intros x y Hx Hy. by rewrite !mul_lxor_r, Hx, Hy. }
  intros l Hl.
  assert (forallb (fun i => forallb (fun j => forallb (fun l =>
    mul (2 ^ i) (mul (2 ^ j) (2 ^ l)) =? mul (mul (2 ^ i) (2 ^ j)) (2 ^ l))
    (seqZ 0 8)) (seqZ 0 8)) (seqZ 0 8) = true) as Hall by (vm_compute; reflexivity).
  rewrite forallb_forall in Hall.
  specialize (Hall i ltac:(apply list_elem_of_In, elem_of_seqZ; lia)).
  rewrite forallb_forall in Hall.
  specialize (Hall j ltac:(apply list_elem_of_In, elem_of_seqZ; lia)).
  rewrite forallb_forall in Hall.
  specialize (Hall l ltac:(apply list_elem_of_In, elem_of_seqZ; lia)).
  by apply Z.eqb_eq.
Qed.

Lemma mul_byte a b : byte a -> byte b -> byte (mul a b).
Proof.
  intros Ha Hb. revert a Ha. refine (byte_ind _ _ _ _).
  - by rewrite mul_0_l.
  - intros x y Hx Hy. rewrite mul_lxor_l. by apply byte_lxor.
  - intros i Hi. revert b Hb. refine (byte_ind _ _ _ _).
    + done.
    + intros x y Hx Hy. rewrite mul_lxor_r. by apply byte_lxor.
    + intros j Hj.
      assert (forallb (fun i => forallb (fun j =>
        (0 <=? mul (2 ^ i) (2 ^ j)) && (mul (2 ^ i) (2 ^ j) <? 256)) (seqZ 0 8)) (seqZ 0 8) = true)
        as Hall by (vm_compute; reflexivity).
      rewrite forallb_forall in Hall.
      specialize (Hall i ltac:(apply list_elem_of_In, elem_of_seqZ; lia)).
      rewrite forallb_forall in Hall.
      specialize (Hall j ltac:(apply list_elem_of_In, elem_of_seqZ; lia)).
      unfold byte. lia.
Qed.

(** A boolean check of the Cauchy matrix and of the inversion of any [k] of
    its rows, which decides [IsaL_spec] for one [k] and [n]. *)
Fixpoint tuples (n : Z) (l : nat) : list (list Z) :=
  match l with
  | O => [[]]
  | S l => x ← seqZ 0 n; t ← tuples n l; [x :: t]
  end.

Lemma elem_of_tuples n vs :
  (forall v, v ∈ vs -> 0 <= v < n) -> vs ∈ tuples n (length vs).
Proof.
  induction vs as [|v vs IH]; intros Hv; cbn; [by apply list_elem_of_singleton|].
  apply list_elem_of_bind. exists v. split.
  - apply list_elem_of_bind. exists vs. split; [by apply list_elem_of_singleton|].
    apply IH. intros w Hw. apply Hv. by right.
  - apply elem_of_seqZ. specialize (Hv v ltac:(by left)). lia.
Qed.

Definition byteb (z : Z) : bool := (0 <=? z) && (z <? 256).

Definition check_inv (C : list Z) (k : Z) (vs : list Z) : bool :=
  let inv := invert (v ← vs; mat_row C k v) k in
  bool_decide (length inv = Z.to_nat (k * k)) && forallb byteb inv &&
  forallb (fun r => forallb (fun c =>
    gf_dot mul (mat_row inv k r) ((fun v => nth (Z.to_nat c) (mat_row C k v) 0) <$> vs) =?
    b2z (bool_decide (r = c))) (seqZ 0 k)) (seqZ 0 k).

Definition check (k n : Z) : bool :=
  let C := cauchy n k in
  bool_decide (length C = Z.to_nat (n * k)) && forallb byteb C &&
  forallb (fun i => bool_decide (mat_row C k i =
                      ((fun j => b2z (bool_decide (i = j))) <$> seqZ 0 k))) (seqZ 0 k) &&
  forallb (fun vs => if bool_decide (NoDup vs) then check_inv C k vs else true)
    (tuples n (Z.to_nat k)).

Lemma forallb_byteb l : forallb byteb l = true -> bytes l.
Proof.
  rewrite forallb_forall. intros H. apply Forall_forall. intros z Hz.
  apply list_elem_of_In, H in Hz. unfold byteb, byte in *. lia.
Qed.

Lemma forallb_seqZ (P : Z -> bool) n :
  forallb P (seqZ 0 n) = true -> forall i, 0 <= i < n -> P i = true.
Proof.
  rewrite forallb_forall. intros H i Hi. apply H, list_elem_of_In, elem_of_seqZ. lia.
Qed.

Lemma spec_of_check k n : check k n = true -> IsaL_spec mul k n.
Proof.
  intros Hc. unfold check in Hc.
  apply andb_prop in Hc as [Hc Hinv]. apply andb_prop in Hc as [Hc Hid].
  apply andb_prop in Hc as [Hlen Hb].
  split.
  - apply mul_byte.
  - intros. apply mul_0_l.
  - intros. apply mul_0_r.
  - intros b Hbb. apply Z.eqb_eq. revert b Hbb. apply forallb_bytes.
    vm_compute. reflexivity.
  - intros. apply mul_lxor_l.
  - intros. apply mul_lxor_r.
  - apply mul_assoc.
  - by apply bool_decide_eq_true in Hlen.
  - by apply forallb_byteb.
  - intros i Hi. eapply forallb_seqZ in Hid; [|exact Hi]. by apply bool_decide_eq_true in Hid.
  - intros a rows len srcs _ _ _ _. cbn. by rewrite Nat2Z.id.
  - intros vs Hnd Hl Hr. rewrite forallb_forall in Hinv.
    specialize (Hinv vs). rewrite <- Hl, bool_decide_eq_true_2 in Hinv by done.
    specialize (Hinv ltac:(by apply list_elem_of_In, elem_of_tuples)).
    unfold check_inv in Hinv.
    apply andb_prop in Hinv as [Hinv Hrc]. apply andb_prop in Hinv as [Hil Hib].
    cbn. split_and!.
    + by apply bool_decide_eq_true in Hil.
    + by apply forallb_byteb.
    + intros r c Hrr Hcc. eapply forallb_seqZ in Hrc; [|exact Hrr].
      eapply forallb_seqZ in Hrc; [|exact Hcc]. by apply Z.eqb_eq.
Qed.
End Gf256.

(** RS(2, 1) and RS(1, 2) over GF(2^8). *)
Lemma gf256_spec_2_3 : IsaL_spec Gf256.mul 2 3.
Proof. apply Gf256.spec_of_check. vm_compute. reflexivity. Qed.

Lemma gf256_spec_1_3 : IsaL_spec Gf256.mul 1 3.
Proof. apply Gf256.spec_of_check. vm_compute. reflexivity. Qed.

Definition bytes_123 : bytes [1; 2; 3].
Proof. repeat constructor; unfold byte; lia. Defined.

Lemma encode_decode_roundtrip_witness :
  exists M, EncodeSlice [1; 2; 3] 2 1 ∅ = Some (true, M) /\
    (forall i, is_Some (M !! i) <-> 0 <= i < 2 + 1) /\
    forall F : EncodingResults, F ⊆ M -> 2 <= Z.of_nat (size F) ->
      exists pad : nat, Z.of_nat pad < 2 /\
        DecodeSlice F 2 1 = Some (Some ([1; 2; 3] ++ replicate pad 0)).
Proof.
  apply (encode_decode_roundtrip Gf256.mul 2 1 [1; 2; 3]).
  - exact gf256_spec_2_3.
  - unfold kMaxK; lia.
  - unfold kMaxM; lia.
  - exact bytes_123.
Defined.

Lemma DecodeSliceHelper_k1_corrupts_witness :
  exists M d, EncodeSlice [1] 1 2 ∅ = Some (true, M) /\ M !! 2 = Some [1] /\
    DecodeSliceHelper {[2 := [1]]} 1 2 = Some (Some d) /\ length d = 1%nat /\ d <> [1].
Proof.
  apply (DecodeSliceHelper_k1_corrupts Gf256.mul 2 2).
  - exact gf256_spec_1_3.
  - unfold kMaxM; lia.
  - lia.
  - vm_compute. discriminate.
Defined.
