(* ===== verification/Lrc.v ===== *)
(** Locally repairable codes: src/multi-raft/lrc_encoder.h (parameters and the
    two-level encoder) and src/multi-raft/lrc_placement.h (fragment placement).

    C++ exceptions ([std::invalid_argument], [std::runtime_error], [map::at]) and
    failed asserts are [None]. Fragment buffers are byte lists; the copies the
    encoder makes between its private buffers are the identity on them. *)

From S2P Require Import Prelude Types Encoder.

(** ** LrcParams *)
Record LrcParams := mkLrcParams { lrc_k : Z; lrc_l : Z; lrc_r : Z }.

Definition local_k (p : LrcParams) : Z := cdiv (lrc_k p) (lrc_l p).
Definition total_shards (p : LrcParams) : Z := lrc_k p + lrc_l p + lrc_r p.

(** [NormalClusterSize]: the largest [l] in [2, F] that divides [k], else 1. *)
Definition NormalClusterSize (N : Z) : option LrcParams :=
  if N <? 3 then None else
  let F := cdiv N 2 in
  let k := F + 1 in
  let cands := filter (fun cand => crem k cand = 0) (reverse (seqZ 2 (F - 1))) in
  let l := match cands with cand :: _ => cand | [] => 1 end in
  Some (mkLrcParams k l (F - l)).

Definition FromBandwidth (N : Z) : option LrcParams :=
  if N <? 5 then None else
  let F := cdiv N 2 in
  let k := F + 1 in
  let l := 2 in
  if negb (crem k l =? 0) then None else
  let r := (3 * F + 1) - k - l in
  if r <? 0 then None else Some (mkLrcParams k l r).

Definition FromCapacity (N l : Z) : option LrcParams :=
  if N <? 5 then None else
  if l <? 1 then None else
  let F := cdiv N 2 in
  let k := F + 1 in
  if negb (crem k l =? 0) then None else
  let r := 2 * N - k - l in
  if r <? 0 then None else Some (mkLrcParams k l r).

(** ** LrcEncoder *)
Record LrcStripe := mkLrcStripe {
  data_shards : list Slice;
  local_parities : list Slice;
  global_parities : list Slice;
  original_size : Z;
  lrc_frag_size : Z
}.

Definition total_frags (s : LrcStripe) : Z :=
  Z.of_nat (length (data_shards s) + length (local_parities s) + length (global_parities s)).

(** All fragments in fragment-id order. *)
Definition all_frags (s : LrcStripe) : list Slice :=
  data_shards s ++ local_parities s ++ global_parities s.

Record LocalEncodeResult := mkLocalEncodeResult {
  ler_data_shards : list Slice;
  ler_local_parity : Slice;
  ler_original_size : Z
}.

Section lrc.
Context {isal : IsaL}.
Implicit Types (p : LrcParams).

(** [LrcEncoder(p)]: the constructor's asserts. *)
Definition LrcEncoder_ok p : bool :=
  (0 <? lrc_k p) && (0 <? lrc_l p) && (0 <=? lrc_r p) && (crem (lrc_k p) (lrc_l p) =? 0).

Definition GlobalEncode p (slice : Slice) : option (bool * EncodingResults) :=
  EncodeSlice slice (lrc_k p) (lrc_r p) ∅.

Definition LocalEncode p (group_data : Slice) : option (bool * LocalEncodeResult) :=
  let lk := local_k p in
  r ← EncodeSlice group_data lk 1 ∅;
  let '(ok, results) := r in
  if negb ok then Some (false, mkLocalEncodeResult [] [] 0) else
  shards ← mapM (fun i => results !! i) (seqZ 0 lk);
  parity ← results !! lk;
  Some (true, mkLocalEncodeResult shards parity (slice_size group_data)).

(** The [lk] shards of group [g], copied [frag_size] bytes each. *)
Definition group_buffer p (shards : list Slice) (frag_size g : Z) : option Slice :=
  let lk := local_k p in
  parts ← mapM (fun i => arr_get shards (g * lk + i)) (seqZ 0 lk);
  Some (concat ((fun s => take (Z.to_nat frag_size) s) <$> parts)).

(** One round of the local-parity loop. *)
Definition local_parity_of p (shards : list Slice) (frag_size g : Z) : option Slice :=
  buf ← group_buffer p shards frag_size g;
  r ← LocalEncode p buf;
  Some (ler_local_parity (snd r)).

Definition EncodeStripe p (data : Slice) : option (bool * LrcStripe) :=
  if negb (LrcEncoder_ok p) then None else
  let k := lrc_k p in let l := lrc_l p in let r := lrc_r p in
  res ← EncodeSlice data k r ∅;
  let '(ok, global_result) := res in
  if negb ok || negb (Z.of_nat (size global_result) =? k + r)
  then Some (false, mkLrcStripe [] [] [] (slice_size data) 0) else
  first ← head (map_iter global_result);
  let frag_size := slice_size (snd first) in
  shards ← mapM (fun i => global_result !! i) (seqZ 0 k);
  globals ← mapM (fun i => global_result !! (k + i)) (seqZ 0 r);
  locals ← mapM (fun g => local_parity_of p shards frag_size g) (seqZ 0 l);
  Some (true, mkLrcStripe shards locals globals (slice_size data) frag_size).

(** [ExtractGroupDataFrags]: the group's fragments in one buffer. *)
Definition ExtractGroupDataFrags p (global_result : EncodingResults) (group_id : Z) : option Slice :=
  let lk := local_k p in
  let begin_ := group_id * lk in
  parts ← mapM (fun i => global_result !! (begin_ + i)) (seqZ 0 lk);
  first ← global_result !! begin_;
  Some (concat ((fun s => take (length first) s) <$> parts)).

Definition ExtractGlobalParities p (global_result : EncodingResults) : option EncodingResults :=
  foldl (fun acc fid => m ← acc; s ← global_result !! fid; Some (<[fid := s]> m))
    (Some ∅) (seqZ (lrc_k p) (lrc_r p)).

Definition LocalRepair p (available_frags : EncodingResults) : option (option Slice) :=
  DecodeSlice available_frags (local_k p) 1.

Definition GlobalRepair p (available_frags : EncodingResults) : option (option Slice) :=
  DecodeSlice available_frags (lrc_k p) (lrc_r p).

Definition GlobalFragToGroup p (global_frag_id : Z) : option Z :=
  if (0 <=? global_frag_id) && (global_frag_id <? lrc_k p)
  then Some (cdiv global_frag_id (local_k p)) else None.

Definition GlobalFragToLocalId p (global_frag_id : Z) : Z := crem global_frag_id (local_k p).
End lrc.

(** ** Placement *)
Record LocalGroup := mkLocalGroup { group_id : Z; member_nodes : list Z; is_large : bool }.

(** [std::shuffle] with a seeded [mt19937] is some permutation of its input. *)
Class Shuffle := shuffle : Z -> list Z -> list Z.
Definition shuffle_spec (sh : Shuffle) : Prop := forall seed l, shuffle seed l ≡ₚ l.

Definition BuildTwoComplementaryPartitions {sh : Shuffle} (N seed : Z) : option (list LocalGroup) :=
  if N <? 2 then None else
  let pool := shuffle (if seed =? 0 then 1 else u32 seed) (seqZ 0 N) in
  let small_size := Z.to_nat (cdiv N 2) in
  Some [mkLocalGroup 0 (take small_size pool) false; mkLocalGroup 1 (drop small_size pool) true].

Record RsRandomPlacement := mkRsRandomPlacement { rs_frag_id : Z; rs_node_id : Z }.

Definition BuildRsRandomPlacement {sh : Shuffle} (N total_frags seed : Z)
    : option (list RsRandomPlacement) :=
  if negb (total_frags =? 2 * N) then None else
  let pool := shuffle (if seed =? 0 then 1 else u32 seed) (seqZ 0 total_frags) in
  Some (imap (fun i f => mkRsRandomPlacement f (cdiv (Z.of_nat i) 2)) pool).

(** [OrthogonalPlacer]: the constructor's checks. *)
Definition OrthogonalPlacer_ok (p : LrcParams) (partitions : list LocalGroup) : bool :=
  (Z.of_nat (length partitions) =? lrc_l p) &&
  forallb (fun g => negb (bool_decide (member_nodes g = []))) partitions.

(** State of the placement loops: the round-robin cursors, the remaining
    capacities and the placements made so far. *)
Record PlaceState := mkPlaceState {
  cursor : list Z;
  partition_capacity : list Z;
  placed : list FragmentPlacement
}.

(** The [assign_one] step; [Place] does not use the capacities. *)
Definition assign_one (partitions : list LocalGroup) (g frag_id : Z) (kd : PlacementKind)
    (st : PlaceState) : option PlaceState :=
  part ← arr_get partitions g;
  c ← arr_get (cursor st) g;
  cap ← arr_get (partition_capacity st) g;
  node ← arr_get (member_nodes part) (c mod Z.of_nat (length (member_nodes part)));
  cursor' ← arr_set (cursor st) g (c + 1);
  cap' ← arr_set (partition_capacity st) g (cap - 1);
  Some (mkPlaceState cursor' cap' (placed st ++ [mkFragmentPlacement frag_id g node kd])).

Definition foldM {X S} (f : X -> S -> option S) (l : list X) (s : S) : option S :=
  foldl (fun acc x => s ← acc; f x s) (Some s) l.

(** The data and local-parity rounds shared by [Place] and [Place2N]. *)
Definition place_local (p : LrcParams) (partitions : list LocalGroup) (st : PlaceState)
    : option PlaceState :=
  let lk := local_k p in
  st ← foldM (fun g st => foldM (fun i => assign_one partitions g (g * lk + i) kData) (seqZ 0 lk) st)
         (seqZ 0 (lrc_l p)) st;
  foldM (fun g => assign_one partitions g (lrc_k p + g) kLocalParity) (seqZ 0 (lrc_l p)) st.

Definition place_init (p : LrcParams) (partitions : list LocalGroup) : PlaceState :=
  mkPlaceState (replicate (Z.to_nat (lrc_l p)) 0)
    ((fun g => 2 * Z.of_nat (length (member_nodes g))) <$> partitions) [].

Definition Place (p : LrcParams) (partitions : list LocalGroup) : option (list FragmentPlacement) :=
  if negb (OrthogonalPlacer_ok p partitions) then None else
  st ← place_local p partitions (place_init p partitions);
  st ← foldM (fun i => assign_one partitions (i mod lrc_l p) (lrc_k p + lrc_l p + i) kGlobalParity)
         (seqZ 0 (lrc_r p)) st;
  Some (placed st).

(** The partition with the largest remaining capacity, the first on a tie. *)
Definition best_partition (caps : list Z) : Z * Z :=
  foldl (fun best gc => if bool_decide (snd gc > snd best) then gc else best) (-1, -1)
    (imap (fun g c => (Z.of_nat g, c)) caps).

Definition Place2N (p : LrcParams) (partitions : list LocalGroup) : option (list FragmentPlacement) :=
  if negb (OrthogonalPlacer_ok p partitions) then None else
  let total := lrc_k p + lrc_l p + lrc_r p in
  let N := foldl (fun n part => n + Z.of_nat (length (member_nodes part))) 0 partitions in
  if negb (total =? 2 * N) then None else
  st ← place_local p partitions (place_init p partitions);
  st ← foldM (fun i st =>
         let '(best_g, best_remain) := best_partition (partition_capacity st) in
         if (best_g <? 0) || (best_remain <=? 0) then None
         else assign_one partitions best_g (lrc_k p + lrc_l p + i) kGlobalParity st)
         (seqZ 0 (lrc_r p)) st;
  Some (placed st).

(** ** Encoding: lemmas *)
Lemma mapM_fun {A B} (f : A -> option B) (g : A -> B) (l : list A) :
  (forall x, x ∈ l -> f x = Some (g x)) -> mapM f l = Some (g <$> l).
Proof.
  induction l as [|x l IH]; intros H; [done|]. cbn. rewrite H by (by left). cbn.
  rewrite IH; [done|]. intros y Hy. apply H. by right.
Qed.

(** Reading consecutive cells of a list is a sublist. *)
Lemma fmap_seqZ_nth (l : list Slice) (off n : Z) :
  0 <= off -> 0 <= n -> off + n <= Z.of_nat (length l) ->
  (fun i => nth (Z.to_nat (off + i)) l []) <$> seqZ 0 n = take (Z.to_nat n) (drop (Z.to_nat off) l).
Proof.
  intros Ho Hn Hl. apply list_eq. intros i. rewrite list_lookup_fmap.
  destruct (decide (Z.of_nat i < n)).
  - rewrite lookup_seqZ_lt, lookup_take_lt, lookup_drop by lia. cbn.
    destruct (lookup_lt_is_Some_2 l (Z.to_nat off + i)) as [s Hs]; [lia|].
    rewrite Hs. f_equal. apply nth_lookup_Some. rewrite <- Hs. f_equal. lia.
  - rewrite lookup_seqZ_ge, lookup_take_ge by lia. done.
Qed.

Lemma arr_get_nth (l : list Slice) i :
  0 <= i < Z.of_nat (length l) -> arr_get l i = Some (nth (Z.to_nat i) l []).
Proof.
  intros Hi. unfold arr_get. rewrite decide_True by lia.
  apply lookup_nth_lt. lia.
Qed.

Section lrc_encode.
Context {isal : IsaL} {gf_mul : Z -> Z -> Z} (p : LrcParams).
Local Abbreviation k := (lrc_k p).
Local Abbreviation l := (lrc_l p).
Local Abbreviation r := (lrc_r p).
Local Abbreviation lk := (local_k p).
Context (Hp : LrcEncoder_ok p = true) (Hk : k <= kMaxK) (Hr : r <= kMaxM)
  (HIg : IsaL_spec gf_mul k (k + r)) (HIl : IsaL_spec gf_mul lk (lk + 1)).

Lemma lrc_params_facts : 0 < k /\ 0 < l /\ 0 <= r /\ k = l * lk /\ 0 < lk.
Proof using Hp.
  clear -Hp. unfold LrcEncoder_ok, local_k, cdiv, crem in *. zdm. nia.
Qed.

(** The rows of group [g]. *)
Definition group_rows (rows : list Slice) (g : Z) : list Slice :=
  take (Z.to_nat lk) (drop (Z.to_nat (g * lk)) rows).

Section rows.
Context (rows : list Slice) (fs : nat) (Hlen : length rows = Z.to_nat k)
  (Hfs : Forall (fun x => length x = fs) rows) (Hb : Forall bytes rows).

Lemma group_rows_length g : 0 <= g < l -> length (group_rows rows g) = Z.to_nat lk.
Proof.
  intros Hg. pose proof lrc_params_facts. unfold group_rows.
  rewrite length_take, length_drop. nia.
Qed.

Lemma group_buffer_ok g :
  0 <= g < l ->
  group_buffer p rows (Z.of_nat fs) g = Some (concat (group_rows rows g)).
Proof.
  intros Hg. pose proof lrc_params_facts. unfold group_buffer.
  rewrite (mapM_fun _ (fun i => nth (Z.to_nat (g * lk + i)) rows [])).
  2: { intros i Hi%elem_of_seqZ. apply arr_get_nth. nia. }
  rewrite fmap_seqZ_nth by nia. cbn. do 2 f_equal.
  transitivity (id <$> group_rows rows g); [|apply list_fmap_id].
  apply list_fmap_ext. intros i x Hx.
  assert (x ∈ rows) as Hin.
  { apply list_elem_of_lookup_2 in Hx. eapply subseteq_drop, subseteq_take, Hx. }
  rewrite Forall_forall in Hfs. rewrite Nat2Z.id, take_ge; [done|].
  by rewrite (Hfs x Hin).
Qed.

(** The local parity of group [g] completes its rows to an RS([lk], 1) code word. *)
Lemma local_parity_ok g :
  0 <= g < l ->
  exists parity, local_parity_of p rows (Z.of_nat fs) g = Some parity /\ length parity = fs /\
    forall F : EncodingResults,
      (forall i x, F !! i = Some x ->
         (0 <= i < lk /\ group_rows rows g !! Z.to_nat i = Some x) \/ (i = lk /\ x = parity)) ->
      lk <= Z.of_nat (size F) ->
      LocalRepair p F = Some (Some (concat (group_rows rows g))).
Proof.
  intros Hg. pose proof lrc_params_facts as Hpf. unfold local_parity_of.
  rewrite group_buffer_ok by done. cbn [mbind option_bind].
  set (R := group_rows rows g).
  assert (Forall (fun x => length x = fs) R) as HRfs by (by apply Forall_take, Forall_drop).
  assert (bytes (concat R)) as HRb.
  { apply Forall_concat. by apply Forall_take, Forall_drop. }
  assert (length R = Z.to_nat lk) as HRl by (by apply group_rows_length).
  destruct (EncodeSlice_code gf_mul lk 1 (concat R) HIl) as
    (M & rows' & fs' & pad & HM & Hdom & Hl' & Hfs' & Hrow & Hfl & Hc & Hpad & Hfse & Hdec);
    [nia|unfold kMaxM; lia|done|].
  unfold LocalEncode. rewrite HM. cbn [mbind option_bind negb].
  pose proof (concat_length_uniform R fs HRfs) as HcR.
  pose proof (f_equal length Hc) as HcL.
  rewrite length_app, length_replicate, (concat_length_uniform rows' fs' Hfs'), HcR in HcL.
  assert (fs' = fs /\ pad = 0%nat) as [-> ->].
  { unfold slice_size in Hfse. rewrite HcR, HRl in Hfse. rewrite HRl, Hl' in HcL.
    assert (fs' = fs); [|nia].
    replace (Z.of_nat (Z.to_nat lk * fs) + lk - 1) with (Z.of_nat fs * lk + (lk - 1)) in Hfse by nia.
    rewrite Z.div_add_l, (Z.div_small (lk - 1)) in Hfse by lia. lia. }
  rewrite app_nil_r in Hc. apply (concat_uniform_inj rows' R fs) in Hc as ->;
    [|done|done|congruence].
  rewrite (mapM_fun _ (fun i => nth (Z.to_nat (0 + i)) R [])).
  2: { intros i Hi%elem_of_seqZ. rewrite Hrow by lia. apply lookup_nth_lt. lia. }
  destruct (proj2 (Hdom lk)) as [parity Hpar]; [lia|]. rewrite Hpar. cbn.
  exists parity. split; [done|]. split; [by eapply Hfl|]. intros F HF Hsz. unfold LocalRepair.
  rewrite Hdec; [by rewrite app_nil_r| |done].
  apply map_subseteq_spec. intros i x Hx. destruct (HF i x Hx) as [[Hi Hrx]|[-> ->]]; [|done].
  by rewrite Hrow.
Qed.
End rows.

Section encoded_rows.
Context (data : Slice) (M : EncodingResults) (rows : list Slice) (fs pad : nat).
Context (He : encoded k r data M rows fs pad) (Hb : bytes data).

Lemma encoded_bytes : Forall bytes rows.
Proof using He Hb.
  destruct He as (_ & _ & _ & _ & _ & Hc & _). assert (bytes (concat rows)) as Hcb.
  { rewrite Hc. apply Forall_app; split; [done|]. apply Forall_replicate. unfold byte; lia. }
  by apply Forall_concat in Hcb.
Qed.

Lemma encoded_size : Z.of_nat (size M) = k + r.
Proof using He Hp.
  destruct He as (Hdom & _). pose proof lrc_params_facts.
  rewrite <- size_dom. assert (dom M = list_to_set (seqZ 0 (k + r)) :> gset Z) as ->.
  { apply set_eq. intros i. rewrite elem_of_dom, Hdom, elem_of_list_to_set, elem_of_seqZ. lia. }
  rewrite size_list_to_set, length_seqZ by apply NoDup_seqZ. lia.
Qed.

Lemma encoded_first : exists j x rest, map_iter M = (j, x) :: rest /\ M !! j = Some x.
Proof using He Hp.
  pose proof encoded_size. pose proof lrc_params_facts. unfold map_iter. pose proof (length_sorted_keys M) as Hkl.
  assert (forall i, i ∈ sorted_keys M -> is_Some (M !! i)) as Hin by (intros i; apply elem_of_sorted_keys).
  destruct (sorted_keys M) as [|j ks]; [cbn in Hkl; lia|].
  destruct (Hin j) as [x Hx]; [by left|]. cbn. rewrite Hx. cbn. eauto.
Qed.

Definition parity_rows : list Slice := (fun i => default [] (M !! (k + i))) <$> seqZ 0 r.
Definition group_parities : list Slice := (fun g => default [] (local_parity_of p rows (Z.of_nat fs) g)) <$> seqZ 0 l.

Lemma EncodeStripe_rows : EncodeSlice data k r ∅ = Some (true, M) ->
  EncodeStripe p data = Some (true, mkLrcStripe rows group_parities parity_rows (slice_size data) (Z.of_nat fs)).
Proof using All.
  intros HM. pose proof encoded_size as Hsz. pose proof encoded_bytes as Hrb. pose proof lrc_params_facts as Hpf.
  destruct encoded_first as (j & x0 & rest & Hmi & Hj). destruct He as (Hdom & Hl & Hfs & Hrow & Hfl & _).
  unfold EncodeStripe. rewrite Hp, HM. cbn [mbind option_bind negb orb]. rewrite Hsz, Z.eqb_refl. cbn [negb].
  rewrite Hmi. cbn [head mbind option_bind snd]. change (slice_size x0) with (Z.of_nat (length x0)). rewrite (Hfl j x0 Hj).
  rewrite (mapM_fun (fun i => M !! i) (fun i => nth (Z.to_nat (0 + i)) rows [])).
  2: { intros i Hi%elem_of_seqZ. rewrite Hrow by lia. apply lookup_nth_lt. lia. }
  rewrite fmap_seqZ_nth by lia. change (Z.to_nat 0) with 0%nat. rewrite drop_0, (take_ge rows) by lia.
  rewrite (mapM_fun _ (fun i => default [] (M !! (k + i)))).
  2: { intros i Hi%elem_of_seqZ. destruct (proj2 (Hdom (k + i))) as [x Hx]; [lia|]. by rewrite Hx. }
  cbn [mbind option_bind].
  rewrite (mapM_fun _ (fun g => default [] (local_parity_of p rows (Z.of_nat fs) g))); [done|].
  intros g Hg%elem_of_seqZ. destruct (local_parity_ok rows fs Hl Hfs Hrb g) as (q & -> & _ & _); [lia|done].
Qed.

Lemma stripe_frag_sizes : Forall (fun x => length x = fs) (rows ++ group_parities ++ parity_rows).
Proof using All.
  pose proof lrc_params_facts. pose proof encoded_bytes as Hrb. destruct He as (Hdom & Hl & Hfs & _ & Hfl & _).
  unfold group_parities, parity_rows. rewrite !Forall_app, !Forall_fmap. split_and!; [done| |]; apply Forall_forall.
  - intros g Hg%elem_of_seqZ. destruct (local_parity_ok rows fs Hl Hfs Hrb g) as (q & Hq & Hlq & _); [lia|].
    cbn. by rewrite Hq.
  - intros i Hi%elem_of_seqZ. destruct (proj2 (Hdom (k + i))) as [x Hx]; [lia|]. cbn. rewrite Hx. by eapply Hfl.
Qed.

Lemma stripe_frags (F : EncodingResults) :
  (forall i x, F !! i = Some x -> (0 <= i < k /\ rows !! Z.to_nat i = Some x) \/
     (k <= i < k + r /\ parity_rows !! Z.to_nat (i - k) = Some x)) -> F ⊆ M.
Proof using He Hp.
  intros HF. pose proof lrc_params_facts. destruct He as (Hdom & _ & _ & Hrow & _). apply map_subseteq_spec. intros i x Hx.
  destruct (HF i x Hx) as [[Hi Hrx]|[Hi Hgx]]; [by rewrite Hrow|].
  unfold parity_rows in Hgx. rewrite list_lookup_fmap, lookup_seqZ_lt in Hgx by lia. cbn in Hgx.
  replace (k + (0 + Z.of_nat (Z.to_nat (i - k)))) with i in Hgx by lia.
  destruct (proj2 (Hdom i)) as [y Hy]; [lia|]. rewrite Hy in Hgx |- *. by injection Hgx as ->.
Qed.

Lemma stripe_local g (F : EncodingResults) : 0 <= g < l ->
  (forall i x, F !! i = Some x -> (0 <= i < lk /\ group_rows rows g !! Z.to_nat i = Some x) \/
     (i = lk /\ group_parities !! Z.to_nat g = Some x)) ->
  lk <= Z.of_nat (size F) -> LocalRepair p F = Some (Some (concat (group_rows rows g))).
Proof using All.
  intros Hg HF Hsz. pose proof encoded_bytes as Hrb. destruct He as (_ & Hl & Hfs & _).
  destruct (local_parity_ok rows fs Hl Hfs Hrb g Hg) as (q & Hq & _ & Hrep).
  apply Hrep; [|done]. intros i x Hx. destruct (HF i x Hx) as [?|[-> Hlx]]; [by left|]. right.
  split; [done|]. unfold group_parities in Hlx. rewrite list_lookup_fmap, lookup_seqZ_lt in Hlx by lia. cbn in Hlx.
  rewrite Z2Nat.id, Z.add_0_l, Hq in Hlx by lia. by injection Hlx.
Qed.
End encoded_rows.

(** The shape of an encoded stripe and both ways of repairing it. *)
Lemma EncodeStripe_ok (data : Slice) :
  bytes data ->
  exists s, EncodeStripe p data = Some (true, s) /\
    length (data_shards s) = Z.to_nat k /\ length (local_parities s) = Z.to_nat l /\
    length (global_parities s) = Z.to_nat r /\
    (exists fs pad : nat, concat (data_shards s) = data ++ replicate pad 0 /\ Z.of_nat pad < k /\
       Z.of_nat fs = (slice_size data + k - 1) / k /\ Forall (fun x => length x = fs) (all_frags s)) /\
    (forall F : EncodingResults,
       (forall i x, F !! i = Some x ->
          (0 <= i < k /\ data_shards s !! Z.to_nat i = Some x) \/
          (k <= i < k + r /\ global_parities s !! Z.to_nat (i - k) = Some x)) ->
       k <= Z.of_nat (size F) ->
       exists pad : nat, Z.of_nat pad < k /\
         GlobalRepair p F = Some (Some (data ++ replicate pad 0))) /\
    (forall g (F : EncodingResults), 0 <= g < l ->
       (forall i x, F !! i = Some x ->
          (0 <= i < lk /\ group_rows (data_shards s) g !! Z.to_nat i = Some x) \/
          (i = lk /\ local_parities s !! Z.to_nat g = Some x)) ->
       lk <= Z.of_nat (size F) ->
       LocalRepair p F = Some (Some (concat (group_rows (data_shards s) g)))).
Proof.
  intros Hb. pose proof lrc_params_facts as Hpf.
  destruct (EncodeSlice_code gf_mul k r data HIg) as (M & rows & fs & pad & HM & He); [lia|lia|done|].
  eexists. split; [by apply (EncodeStripe_rows data M rows fs pad)|]. cbn [data_shards local_parities global_parities].
  pose proof (stripe_frag_sizes data M rows fs pad He Hb) as Hsizes. pose proof (stripe_frags data M rows fs pad He) as HF.
  pose proof (stripe_local data M rows fs pad He Hb) as Hloc. destruct He as (_ & Hl & _ & _ & _ & Hc & Hpad & Hfse & Hdec).
  split_and!; [done| | |by exists fs, pad| |exact Hloc].
  - unfold group_parities. by rewrite length_fmap, length_seqZ.
  - unfold parity_rows. by rewrite length_fmap, length_seqZ.
  - intros F HFi Hsz. exists pad. split; [done|]. apply Hdec; [by apply HF|done].
Qed.
End lrc_encode.

(** [C20] LRC stripes are repairable both ways: for admissible parameters
    [EncodeStripe] succeeds with exactly [k] data shards, [l] local and [r] global
    parities, each filed in its class; any [k] data or global fragments rebuild the whole input
    ([GlobalRepair]); and inside a local group any [k / l] of its [k / l + 1]
    fragments rebuild the group's data without contacting other groups
    ([LocalRepair]). *)
Theorem EncodeStripe_repairable {isal : IsaL} (gf_mul : Z -> Z -> Z) (p : LrcParams) (data : Slice)
    (Hp : LrcEncoder_ok p = true) (Hk : lrc_k p <= kMaxK) (Hr : lrc_r p <= kMaxM)
    (HIg : IsaL_spec gf_mul (lrc_k p) (lrc_k p + lrc_r p))
    (HIl : IsaL_spec gf_mul (local_k p) (local_k p + 1)) (Hb : bytes data) :
  exists s, EncodeStripe p data = Some (true, s) /\
    Z.of_nat (length (data_shards s)) = lrc_k p /\
    Z.of_nat (length (local_parities s)) = lrc_l p /\
    Z.of_nat (length (global_parities s)) = lrc_r p /\
    (forall F : EncodingResults,
       (forall i x, F !! i = Some x ->
          (0 <= i < lrc_k p /\ data_shards s !! Z.to_nat i = Some x) \/
          (lrc_k p <= i < lrc_k p + lrc_r p /\
             global_parities s !! Z.to_nat (i - lrc_k p) = Some x)) ->
       lrc_k p <= Z.of_nat (size F) ->
       exists pad : nat, Z.of_nat pad < lrc_k p /\
         GlobalRepair p F = Some (Some (data ++ replicate pad 0))) /\
    (forall g (F : EncodingResults), 0 <= g < lrc_l p ->
       (forall i x, F !! i = Some x ->
          (0 <= i < local_k p /\ group_rows p (data_shards s) g !! Z.to_nat i = Some x) \/
          (i = local_k p /\ local_parities s !! Z.to_nat g = Some x)) ->
       local_k p <= Z.of_nat (size F) ->
       LocalRepair p F = Some (Some (concat (group_rows p (data_shards s) g)))).
Proof.
  destruct (EncodeStripe_ok p Hp Hk Hr HIg HIl data Hb) as (s & Hs & H1 & H2 & H3 & _ & H4 & H5).
  exists s. pose proof (lrc_params_facts p Hp). split_and!; try done; lia.
Qed.

Lemma gf256_spec_4_6 : IsaL_spec Gf256.mul 4 6.
Proof. apply Gf256.spec_of_check. vm_compute. reflexivity. Qed.

(** LRC(4, 2, 2). *)
Definition lrc422 : LrcParams := mkLrcParams 4 2 2.

Lemma EncodeStripe_repairable_witness :
  exists s, EncodeStripe lrc422 [1; 2; 3] = Some (true, s) /\
    length (data_shards s) = 4%nat /\ length (local_parities s) = 2%nat /\ length (global_parities s) = 2%nat.
Proof.
  destruct (EncodeStripe_repairable Gf256.mul lrc422 [1; 2; 3]) as (s & H1 & H2 & H3 & H4 & _).
  - reflexivity.
  - vm_compute. discriminate.
  - vm_compute. discriminate.
  - exact gf256_spec_4_6.
  - exact gf256_spec_2_3.
  - exact bytes_123.
  - exists s. split_and!; [exact H1|apply Nat2Z.inj; exact H2|apply Nat2Z.inj; exact H3|apply Nat2Z.inj; exact H4].
Defined.

(** ** Folding a fallible step *)
Lemma foldM_cons {X S} (f : X -> S -> option S) x l s :
  foldM f (x :: l) s = (f x s ≫= foldM f l).
Proof.
  unfold foldM. cbn. destruct (f x s) as [s'|]; [done|]. cbn.
  induction l as [|y l IH]; [done|]. cbn. exact IH.
Qed.

Lemma foldM_app {X S} (f : X -> S -> option S) l1 l2 s :
  foldM f (l1 ++ l2) s = (foldM f l1 s ≫= foldM f l2).
Proof.
  revert s. induction l1 as [|x l1 IH]; intros s; [done|].
  cbn [app]. rewrite !foldM_cons. destruct (f x s) as [s'|]; cbn; [apply IH|done].
Qed.

(** An invariant indexed by the iteration count carries through a counted loop. *)
Lemma foldM_seqZ {S} (f : Z -> S -> option S) (P : Z -> S -> Prop) (n : Z) (s : S) :
  0 <= n -> P 0 s ->
  (forall i s, 0 <= i < n -> P i s -> exists s', f i s = Some s' /\ P (i + 1) s') ->
  exists s', foldM f (seqZ 0 n) s = Some s' /\ P n s'.
Proof.
  intros Hn H0 Hstep.
  assert (forall m : nat, Z.of_nat m <= n ->
    exists s', foldM f (seqZ 0 (Z.of_nat m)) s = Some s' /\ P (Z.of_nat m) s') as Hm.
  { induction m as [|m IH]; intros Hle; [by exists s|].
    destruct IH as (s1 & H1 & HP1); [lia|].
    rewrite Nat2Z.inj_succ, <- Z.add_1_r, seqZ_snoc, foldM_app, H1 by lia. cbn [mbind option_bind].
    destruct (Hstep (Z.of_nat m) s1) as (s2 & H2 & HP2); [lia|done|].
    exists s2. rewrite foldM_cons, H2. done. }
  destruct (Hm (Z.to_nat n)) as (s' & H & HP); [lia|]. rewrite Z2Nat.id in * by lia. eauto.
Qed.

(** ** Parameters and random placement *)

(** The capacity parameters used by the grouper: whenever [FromCapacity N 2]
    does not throw, [k = N/2 + 1] is a majority, the stripe has exactly two
    fragments per node, the encoder's constructor accepts the parameters, and they
    fit the encoder's pointer arrays exactly for clusters of up to 23 nodes. *)
Theorem FromCapacity_bounds (N : Z) (p : LrcParams) (Hp : FromCapacity N 2 = Some p) :
  lrc_k p = N / 2 + 1 /\ total_shards p = 2 * N /\ lrc_k p = lrc_l p * local_k p /\
  LrcEncoder_ok p = true /\
  (lrc_k p <= kMaxK /\ lrc_r p <= kMaxM <-> N <= 23).
Proof.
  unfold FromCapacity, cdiv, crem in Hp.
  destruct (Z.ltb_spec N 5); [done|]. cbn [Z.ltb Z.compare] in Hp.
  destruct (Z.eqb_spec (Z.rem (Z.quot N 2 + 1) 2) 0) as [He|]; [|done]. cbn [negb] in Hp.
  destruct (Z.ltb_spec (2 * N - (Z.quot N 2 + 1) - 2) 0); [done|]. injection Hp as <-.
  unfold total_shards, LrcEncoder_ok, local_k, kMaxK, kMaxM, cdiv, crem. cbn [lrc_k lrc_l lrc_r].
  rewrite He. split_and!; zdm; lia.
Qed.

Lemma FromCapacity_bounds_witness :
  exists p, FromCapacity 7 2 = Some p /\ total_shards p = 14.
Proof.
  exists (mkLrcParams 4 2 8). split; [reflexivity|].
  exact (proj1 (proj2 (FromCapacity_bounds 7 (mkLrcParams 4 2 8) eq_refl))).
Defined.

Lemma fragments_of_node (M n : nat) :
  (n < M)%nat ->
  length (filter (fun i => cdiv (Z.of_nat i) 2 = Z.of_nat n) (seq 0 (2 * M))) = 2%nat.
Proof.
  assert (forall m, (m <= M)%nat ->
    length (filter (fun i => cdiv (Z.of_nat i) 2 = Z.of_nat n) (seq 0 (2 * m))) =
    if decide (n < m)%nat then 2%nat else 0%nat) as Hm; [|intros; by rewrite Hm, decide_True by lia].
  induction m as [|m IH]; intros Hle; [done|].
  replace (2 * S m)%nat with (2 * m + 2)%nat by lia.
  rewrite seq_app, filter_app, length_app, IH by lia. cbn [seq]. unfold cdiv.
  rewrite !filter_cons, filter_nil.
  destruct (decide (n = m)) as [->|].
  - rewrite (decide_False (P := (m < m)%nat)), (decide_True (P := (m < S m)%nat)) by lia.
    rewrite !decide_True; [done| |]; zdm; lia.
  - rewrite !(decide_False (P := Z.quot _ _ = _)) by (zdm; lia). cbn. repeat case_decide; lia.
Qed.

(** Random placement for RS_3F: for any permutation the shuffle produces,
    every fragment of the [2 N] is placed exactly once and every node gets exactly
    two of them. *)
Theorem BuildRsRandomPlacement_two_each (sh : Shuffle) (N seed : Z)
    (Hsh : shuffle_spec sh) (HN : 0 <= N) :
  exists pl, BuildRsRandomPlacement N (2 * N) seed = Some pl /\
    (rs_frag_id <$> pl) ≡ₚ seqZ 0 (2 * N) /\
    forall n, 0 <= n < N -> length (filter (fun rp => rs_node_id rp = n) pl) = 2%nat.
Proof.
  unfold BuildRsRandomPlacement. rewrite Z.eqb_refl. cbn [negb].
  set (pool := shuffle _ _). pose proof (Hsh (if seed =? 0 then 1 else u32 seed) (seqZ 0 (2 * N))) as Hp.
  fold pool in Hp. eexists. split; [done|]. split.
  - rewrite fmap_imap, <- Hp. unfold compose. cbn.
    assert (imap (fun _ (x : Z) => x) pool = pool) as ->; [|done].
    generalize pool. clear. induction pool as [|x l IH]; [done|]. cbn. f_equal. exact IH.
  - intros n Hn.
    assert (length pool = (2 * Z.to_nat N)%nat) as Hlen.
    { rewrite Hp, length_seqZ. lia. }
    rewrite <- (fragments_of_node (Z.to_nat N) (Z.to_nat n)), <- Hlen by lia.
    rewrite Z2Nat.id by lia. clear.
    assert (forall off, length (filter (fun rp => rs_node_id rp = n)
        (imap (fun i f => mkRsRandomPlacement f (cdiv (Z.of_nat (off + i)) 2)) pool)) =
      length (filter (fun i => cdiv (Z.of_nat i) 2 = n) (seq off (length pool)))) as Hoff.
    { induction pool as [|x l IH]; intros off; [done|]. cbn [imap length seq].
      rewrite !filter_cons. cbn [rs_node_id]. rewrite Nat.add_0_r.
      specialize (IH (S off)).
      assert (imap ((fun i f => mkRsRandomPlacement f (cdiv (Z.of_nat (off + i)) 2)) ∘ S) l =
        imap (fun i f => mkRsRandomPlacement f (cdiv (Z.of_nat (S off + i)) 2)) l) as ->.
      { apply imap_ext. intros i y _. cbn. do 2 f_equal. lia. }
      case_decide; cbn [length]; by rewrite IH. }
    apply (Hoff 0%nat).
Qed.

Lemma BuildRsRandomPlacement_two_each_witness :
  exists pl, BuildRsRandomPlacement (sh := fun _ l => reverse l) 3 6 1 = Some pl /\
    (rs_frag_id <$> pl) ≡ₚ seqZ 0 6.
Proof.
  destruct (BuildRsRandomPlacement_two_each (fun _ l => reverse l) 3 1) as (pl & H1 & H2 & _).
  - intros s l. apply reverse_Permutation.
  - lia.
  - exists pl. split; [exact H1 | exact H2].
Defined.
