(* ===== verification/Latency.v ===== *)
(** The latencies between the nodes (src/multi-raft/latency_matrix.h).

    A symmetric matrix of milliseconds, and for each node its peers ordered by their
    latency. The averages and scores are C++ [float]s: the binary32 numbers of the
    Standard Library's [SpecFloat] (24 bits of precision, exponents up to 128), with its
    rounding to nearest, ties to even. *)

From Stdlib Require Import Floats.SpecFloat.
From S2P Require Import Prelude Lrc.

(** ** [float] *)
Definition of_int (z : Z) : spec_float := binary_normalize 24 128 z 0 false.
Definition fdiv (x y : spec_float) : spec_float := SFdiv 24 128 x y.
Definition fadd (x y : spec_float) : spec_float := SFadd 24 128 x y.
Definition fsub (x y : spec_float) : spec_float := SFsub 24 128 x y.
Definition flt (x y : spec_float) : bool := SFltb x y.

(** [0.001f]: the nearest binary32 number, 8589935 * 2^-33. *)
Definition f0_001 : spec_float := S754_finite false 8589935 (-33).

(** ** The matrix *)
Record LatencyMatrix := mkLatencyMatrix {
  lat_N : Z;
  matrix_ : list (list Z);
  sorted_peers_ : list (list (Z * spec_float))
}.

(** A source of latencies, the [n]-th number drawn with this seed, in the given bounds;
    and [std::sort] by the second member, which does not keep the order of equals. *)
Class LatencySource := {
  drawn_latency : Z -> Z -> Z -> nat -> Z;
  sort_by_second : list (Z * spec_float) -> list (Z * spec_float);
  drawn_in_bounds seed lo hi n : lo <= hi -> lo <= drawn_latency seed lo hi n <= hi;
  sort_permutes l : sort_by_second l ≡ₚ l;
  sort_sorted (l : list (Z * Z)) :
    Sorted (fun a b => flt b.2 a.2 = false) (sort_by_second ((fun p => (p.1, of_int p.2)) <$> l))
}.

Definition LatencyMatrix_ctor (N : Z) : option LatencyMatrix :=
  if N <? 2 then None else
  Some (mkLatencyMatrix N (replicate (Z.to_nat N) (replicate (Z.to_nat N) 0)) (replicate (Z.to_nat N) [])).

Definition in_matrix (m : LatencyMatrix) (i : Z) : bool := (0 <=? i) && (i <? lat_N m).

Definition GetLatency (m : LatencyMatrix) (src dst : Z) : option Z :=
  if negb (in_matrix m src) then None else
  if negb (in_matrix m dst) then None else
  row ← arr_get (matrix_ m) src; arr_get row dst.

(** The latencies of a row to the other nodes, with their numbers. *)
Definition other_latencies (m : LatencyMatrix) (i : Z) : option (list (Z * Z)) :=
  row ← arr_get (matrix_ m) i;
  mapM (fun j => x ← arr_get row j; Some (j, x)) (filter (fun j => j <> i) (seqZ 0 (lat_N m))).

Definition GetAvgLatency (m : LatencyMatrix) (node_id : Z) : option spec_float :=
  if negb (in_matrix m node_id) then None else
  others ← other_latencies m node_id;
  Some (fdiv (of_int (foldl (fun sum p => sum + p.2) 0 others)) (of_int (lat_N m - 1))).

Definition GetSortedPeersByLatency (m : LatencyMatrix) (node_id : Z) : option (list (Z * spec_float)) :=
  if negb (in_matrix m node_id) then None else arr_get (sorted_peers_ m) node_id.

Definition GetLatencyScore (m : LatencyMatrix) (src dst : Z) : option spec_float :=
  x ← GetLatency m src dst; Some (fdiv (of_int 1) (fadd (of_int 1) (of_int x))).

Definition GetLatencyRatio (m : LatencyMatrix) (src dst : Z) : option spec_float :=
  avg ← GetAvgLatency m src;
  if flt avg f0_001 then Some (of_int 0) else
  x ← GetLatency m src dst; Some (fsub (fdiv (of_int x) avg) (of_int 1)).

Definition GetN (m : LatencyMatrix) : Z := lat_N m.
Definition IsInitialized (m : LatencyMatrix) : bool := 0 <? lat_N m.

(** ** Filling it *)
Definition set_cell (i j x : Z) (m : list (list Z)) : option (list (list Z)) :=
  row ← arr_get m i; row ← arr_set row j x; arr_set m i row.
(** One pair of nodes, both ways. *)
Definition set_latency (x i j : Z) (m : list (list Z)) : option (list (list Z)) :=
  m ← set_cell i j x m; set_cell j i x m.

Section fill.
Context {ls : LatencySource}.

Definition sorted_row (m : LatencyMatrix) (i : Z) : option (list (Z * spec_float)) :=
  others ← other_latencies m i; Some (sort_by_second ((fun p => (p.1, of_int p.2)) <$> others)).

Definition UpdateSortedPeers (m : LatencyMatrix) : option LatencyMatrix :=
  sorted ← foldM (fun i sorted => row ← sorted_row m i; arr_set sorted i row) (seqZ 0 (lat_N m)) (sorted_peers_ m);
  Some (mkLatencyMatrix (lat_N m) (matrix_ m) sorted).

(** The pairs of a loop [for i < N, for j = i + 1 .. N - 1]. *)
Definition pairs (N : Z) : list (Z * Z) := i ← seqZ 0 N; j ← seqZ (i + 1) (N - (i + 1)); [(i, j)].

Definition GenerateRandomMatrix (min_ms max_ms seed : Z) (m : LatencyMatrix) : option LatencyMatrix :=
  let N := Z.of_nat (length (matrix_ m)) in
  rows ← foldM (fun i rows => set_cell i i 0 rows) (seqZ 0 N) (matrix_ m);
  rows ← foldM (fun p rows => set_latency (drawn_latency seed min_ms max_ms p.1) p.2.1 p.2.2 rows)
           (imap (fun n ij => (n, ij)) (pairs N)) rows;
  UpdateSortedPeers (mkLatencyMatrix N rows (sorted_peers_ m)).
End fill.

(** ** What it holds afterwards *)
Definition cell (m : list (list Z)) (i j : Z) : option Z := row ← arr_get m i; arr_get row j.

Record square (N : Z) (m : list (list Z)) : Prop := {
  sq_rows : Z.of_nat (length m) = N;
  sq_cols : forall i row, arr_get m i = Some row -> Z.of_nat (length row) = N
}.

Lemma foldM_each {X S} (f : X -> S -> option S) (P : list X -> S -> Prop) (l : list X) (s : S) : P [] s ->
  (forall before x s, x ∈ l -> P before s -> exists s', f x s = Some s' /\ P (before ++ [x]) s') ->
  exists s', foldM f l s = Some s' /\ P l s'.
Proof.
  intros H0 Hstep. change (P l) with (P ([] ++ l)). revert H0. generalize (@nil X) as before. revert s.
  induction l as [|x l IH]; intros s before H0.
  - exists s. by rewrite app_nil_r.
  - rewrite foldM_cons. destruct (Hstep before x s) as (s1 & -> & H1); [by left|done|].
    destruct (IH ltac:(intros ? ? ? ?; apply Hstep; by right) s1 (before ++ [x]) H1) as (s' & Hf & Hp).
    exists s'. split; [done|]. by rewrite <- app_assoc in Hp.
Qed.

Lemma cell_in N m i j : square N m -> 0 <= i < N -> 0 <= j < N -> is_Some (cell m i j).
Proof.
  intros [Hr Hc] Hi Hj. unfold cell. destruct (arr_get_is_Some m i) as [row Hrow]; [lia|]. rewrite Hrow. cbn.
  apply arr_get_is_Some. rewrite (Hc _ _ Hrow). lia.
Qed.

Lemma set_cell_spec N m i j x : square N m -> 0 <= i < N -> 0 <= j < N ->
  exists m', set_cell i j x m = Some m' /\ square N m' /\
    forall a b, cell m' a b = if bool_decide (a = i /\ b = j) then Some x else cell m a b.
Proof.
  intros [Hr Hc] Hi Hj. unfold set_cell. destruct (arr_get_is_Some m i) as [row Hrow]; [lia|].
  pose proof (Hc _ _ Hrow) as Hl. rewrite Hrow. cbn. rewrite arr_set_in by lia. cbn.
  set (row' := <[Z.to_nat j := x]> row). assert (arr_set row j x = Some row') as Hj' by (apply arr_set_in; lia).
  destruct (arr_set m i row') as [m'|] eqn:Em; [|by rewrite arr_set_in in Em by lia]. exists m'. split; [done|].
  assert (forall a, arr_get m' a = if bool_decide (a = i) then Some row' else arr_get m a) as Hget.
  { intros a. case_bool_decide as Ha; [subst a; by apply (arr_get_set_eq _ _ _ _ Em)|by apply (arr_get_set_ne _ _ _ _ _ (not_eq_sym Ha) Em)]. }
  split.
  - split; [by rewrite (arr_set_length _ _ _ _ Em)|]. intros a ra. rewrite Hget. case_bool_decide; [|by apply Hc].
    intros [= <-]. by rewrite (arr_set_length _ _ _ _ Hj').
  - intros a b. unfold cell. rewrite Hget. case_bool_decide as Ea; cbn.
    + subst a. rewrite Hrow. cbn. case_bool_decide as Eb; [destruct Eb as [_ ->]; by apply (arr_get_set_eq _ _ _ _ Hj')|].
      apply (arr_get_set_ne _ _ _ _ _ (fun E => Eb (conj eq_refl (eq_sym E))) Hj').
    + by rewrite bool_decide_eq_false_2 by lia.
Qed.

Lemma elem_of_pairs N i j : (i, j) ∈ pairs N <-> 0 <= i < j /\ j < N.
Proof.
  unfold pairs. rewrite list_elem_of_bind. setoid_rewrite elem_of_seqZ. split.
  - intros (i' & Hij & Hi'). apply list_elem_of_bind in Hij as (j' & [= <- <-]%list_elem_of_singleton & Hj'%elem_of_seqZ). lia.
  - intros [Hij Hj]. exists i. split; [|lia]. apply list_elem_of_bind. exists j.
    split; [by apply list_elem_of_singleton|apply elem_of_seqZ; lia].
Qed.

Lemma elem_of_imap_pair {X} (l : list X) n x : (n, x) ∈ imap (fun n x => (n, x)) l -> x ∈ l.
Proof. intros (i & Hi)%list_elem_of_lookup. rewrite list_lookup_imap in Hi. apply fmap_Some in Hi as (y & Hy & [= _ ->]).
  by apply list_elem_of_lookup_2 with i. Qed.

Section spec.
Context {ls : LatencySource}.
Implicit Types (N : Z) (rows : list (list Z)) (m : LatencyMatrix).

(** Symmetric, zero on the diagonal. *)
Definition symmetric N rows : Prop := forall i j, 0 <= i < N -> 0 <= j < N ->
  cell rows i j = cell rows j i /\ cell rows i i = Some 0.

Lemma clear_diagonal N rows : square N rows -> 0 <= N ->
  exists rows', foldM (fun i rows => set_cell i i 0 rows) (seqZ 0 N) rows = Some rows' /\ square N rows' /\
    (forall i, 0 <= i < N -> cell rows' i i = Some 0) /\ forall i j, i <> j -> cell rows' i j = cell rows i j.
Proof.
  intros Hsq HN. destruct (foldM_each (fun i rows => set_cell i i 0 rows)
    (fun before rows' => square N rows' /\ (forall i, i ∈ before -> cell rows' i i = Some 0) /\
       forall i j, i <> j -> cell rows' i j = cell rows i j) (seqZ 0 N) rows) as (rows' & Hf & Hs & Hd & Ho).
  - split_and!; [done|by intros i ?%elem_of_nil|done].
  - intros before x s Hx (Hs & Hd & Ho). apply elem_of_seqZ in Hx.
    destruct (set_cell_spec N s x x 0 Hs) as (s' & -> & Hs' & Hc); [lia|lia|]. exists s'. split_and!; [done|done| |].
    + intros i Hi. rewrite Hc. case_bool_decide as Ei; [done|]. apply elem_of_app in Hi as [Hi|Hi%list_elem_of_singleton]; [by apply Hd|].
      by destruct Ei.
    + intros i j Hij. rewrite Hc, bool_decide_eq_false_2 by lia. by apply Ho.
  - exists rows'. split_and!; [done|done| |done]. intros i Hi. apply Hd, elem_of_seqZ. lia.
Qed.

Lemma set_latency_spec N rows i j x : square N rows -> 0 <= i < N -> 0 <= j < N ->
  exists rows', set_latency x i j rows = Some rows' /\ square N rows' /\
    forall a b, cell rows' a b = if bool_decide ((a = i /\ b = j) \/ (a = j /\ b = i)) then Some x else cell rows a b.
Proof.
  intros Hsq Hi Hj. unfold set_latency. destruct (set_cell_spec N rows i j x Hsq Hi Hj) as (r1 & -> & H1 & C1). cbn.
  destruct (set_cell_spec N r1 j i x H1 Hj Hi) as (r2 & -> & H2 & C2). exists r2. split_and!; [done|done|].
  intros a b. rewrite C2, C1. repeat case_bool_decide; first [done|exfalso; lia].
Qed.

Lemma draw_latencies N lo hi seed rows : square N rows -> lo <= hi ->
  (forall i, 0 <= i < N -> cell rows i i = Some 0) -> (forall i j, 0 <= i < N -> 0 <= j < N -> cell rows i j = cell rows j i) ->
  exists rows', foldM (fun p rows => set_latency (drawn_latency seed lo hi p.1) p.2.1 p.2.2 rows)
                  (imap (fun n ij => (n, ij)) (pairs N)) rows = Some rows' /\ square N rows' /\ symmetric N rows' /\
    forall i j, 0 <= i < j -> j < N -> exists x, cell rows' i j = Some x /\ lo <= x <= hi.
Proof.
  intros Hsq Hlo Hd Hsym. set (l := imap _ (pairs N)).
  destruct (foldM_each (fun p rows => set_latency (drawn_latency seed lo hi p.1) p.2.1 p.2.2 rows)
    (fun before rows' => square N rows' /\ symmetric N rows' /\
       forall i j, (i, j) ∈ before.*2 -> exists x, cell rows' i j = Some x /\ lo <= x <= hi) l rows) as (rows' & Hf & Hs & Hy & Hb).
  - split_and!; [done|intros i j Hi Hj; by split; [apply Hsym|apply Hd]|by intros i j ?%elem_of_nil].
  - intros before [n [i j]] s Hx%elem_of_imap_pair (Hs & Hy & Hb). apply elem_of_pairs in Hx. cbn [fst snd].
    destruct (set_latency_spec N s i j (drawn_latency seed lo hi n) Hs) as (s' & -> & Hs' & Hc); [lia|lia|].
    exists s'. split_and!; [done|done| |].
    + intros a b Ha Hb'. destruct (Hy a b Ha Hb') as [Hab Haa]. rewrite !Hc, Hab.
      split; repeat case_bool_decide; first [done|exfalso; lia].
    + intros a b Hab. rewrite Hc. case_bool_decide as E; [eexists; split; [done|by apply drawn_in_bounds]|].
      rewrite fmap_app, elem_of_app in Hab. destruct Hab as [Hab|Hab]; [by apply Hb|].
      apply list_elem_of_singleton in Hab as [= -> ->]. destruct E. by left.
  - exists rows'. split_and!; [done..|]. intros i j Hi Hj. apply Hb.
    assert ((i, j) ∈ pairs N) as (n & Hn)%list_elem_of_lookup by (apply elem_of_pairs; lia).
    apply list_elem_of_lookup. exists n. unfold l. rewrite list_lookup_fmap, list_lookup_imap, Hn. done.
Qed.

(** The peers of a node in its list: every other node once, by its latency. *)
Definition peers_by_latency m (i : Z) (row : list (Z * spec_float)) : Prop :=
  row.*1 ≡ₚ filter (fun j => j <> i) (seqZ 0 (lat_N m)) /\
  (forall j f, (j, f) ∈ row -> exists x, GetLatency m i j = Some x /\ f = of_int x) /\
  Sorted (fun a b => flt b.2 a.2 = false) row.

Lemma GetLatency_cell m i j : 0 <= i < lat_N m -> 0 <= j < lat_N m -> GetLatency m i j = cell (matrix_ m) i j.
Proof. intros Hi Hj. unfold GetLatency, in_matrix, cell. by rewrite !(proj2 (Z.leb_le _ _)), !(proj2 (Z.ltb_lt _ _)) by lia. Qed.

Lemma sorted_row_spec m i : square (lat_N m) (matrix_ m) -> 0 <= i < lat_N m ->
  exists row, sorted_row m i = Some row /\ peers_by_latency m i row.
Proof.
  intros Hsq Hi. destruct (arr_get_is_Some (matrix_ m) i) as [row Hrow]; [rewrite (sq_rows _ _ Hsq); lia|].
  unfold sorted_row, other_latencies. rewrite Hrow. cbn. set (js := filter _ _).
  assert (exists others, mapM (fun j => x ← arr_get row j; Some (j, x)) js = Some others /\ others.*1 = js /\
    forall j x, (j, x) ∈ others -> j ∈ js /\ arr_get row j = Some x) as (others & -> & Hj & Ho).
  { assert (forall j, j ∈ js -> is_Some (arr_get row j)) as Hs.
    { intros j [_ Hj%elem_of_seqZ]%list_elem_of_filter. apply arr_get_is_Some. rewrite (sq_cols _ _ Hsq i row Hrow). lia. }
    clearbody js. induction js as [|j js IH]; [exists []; split_and!; [done..|by intros ? ? ?%elem_of_nil]|]. destruct (Hs j) as [x Hx]; [by left|].
    destruct IH as (others & Hm & Hj & Ho); [intros; apply Hs; by right|]. exists ((j, x) :: others). cbn. rewrite Hx. cbn.
    rewrite Hm. cbn. split_and!; [done|by rewrite Hj|]. intros j' x' [[= -> ->]|Hin]%elem_of_cons; [by split; [left|]|].
    destruct (Ho _ _ Hin). by split; [right|]. }
  cbn. eexists. split; [done|]. pose proof (sort_permutes ((fun p => (p.1, of_int p.2)) <$> others)) as Hperm. split; [|split; [|apply sort_sorted]].
  - rewrite (fmap_Permutation fst _ _ Hperm), <- list_fmap_compose. fold js. by rewrite <- Hj.
  - intros j f. rewrite Hperm. intros ([j' x] & [= -> ->] & Hin)%list_elem_of_fmap. destruct (Ho _ _ Hin) as [Hjs Hx].
    apply list_elem_of_filter in Hjs as [_ Hjs%elem_of_seqZ]. exists x. split; [|done].
    rewrite GetLatency_cell by lia. unfold cell. cbn. by rewrite Hrow.
Qed.

Lemma UpdateSortedPeers_spec m : square (lat_N m) (matrix_ m) -> Z.of_nat (length (sorted_peers_ m)) = lat_N m ->
  exists m', UpdateSortedPeers m = Some m' /\ lat_N m' = lat_N m /\ matrix_ m' = matrix_ m /\
    forall i, 0 <= i < lat_N m -> exists row, GetSortedPeersByLatency m' i = Some row /\ peers_by_latency m i row.
Proof.
  intros Hsq Hl. unfold UpdateSortedPeers.
  destruct (foldM_each (fun i sorted => row ← sorted_row m i; arr_set sorted i row)
    (fun before sorted => Z.of_nat (length sorted) = lat_N m /\
       forall i, i ∈ before -> exists row, arr_get sorted i = Some row /\ peers_by_latency m i row)
    (seqZ 0 (lat_N m)) (sorted_peers_ m)) as (sorted & -> & _ & Hs); [by split; [|intros i ?%elem_of_nil]| |].
  - intros before x sorted Hx%elem_of_seqZ [Hlen Hb]. destruct (sorted_row_spec m x Hsq) as (row & -> & Hp); [lia|]. cbn.
    destruct (arr_set sorted x row) as [sorted'|] eqn:E; [|by rewrite arr_set_in in E by lia]. exists sorted'. split; [done|].
    split; [by rewrite (arr_set_length _ _ _ _ E)|]. intros i Hi. destruct (decide (i = x)) as [->|Hne].
    + exists row. split; [by apply (arr_get_set_eq _ _ _ _ E)|done].
    + rewrite (arr_get_set_ne _ _ _ _ _ (not_eq_sym Hne) E). apply elem_of_app in Hi as [Hi|Hi%list_elem_of_singleton]; [by apply Hb|done].
  - cbn. eexists. split_and!; [done..|]. intros i Hi. unfold GetSortedPeersByLatency, in_matrix. cbn.
    rewrite (proj2 (Z.leb_le _ _)), (proj2 (Z.ltb_lt _ _)) by lia. apply Hs, elem_of_seqZ. lia.
Qed.

(** A new matrix that is filled is symmetric and zero on its diagonal, every other
    latency is within the bounds, and every node has its peers in order. *)
Theorem GenerateRandomMatrix_spec (N lo hi seed : Z) (HN : 2 <= N) (Hlo : lo <= hi) :
  exists m0 m, LatencyMatrix_ctor N = Some m0 /\ GenerateRandomMatrix lo hi seed m0 = Some m /\ lat_N m = N /\
    (forall i, 0 <= i < N -> GetLatency m i i = Some 0) /\
    (forall i j, 0 <= i < N -> 0 <= j < N -> i <> j ->
       exists x, GetLatency m i j = Some x /\ GetLatency m j i = Some x /\ lo <= x <= hi) /\
    forall i, 0 <= i < N -> exists row, GetSortedPeersByLatency m i = Some row /\ peers_by_latency m i row.
Proof.
  unfold LatencyMatrix_ctor. rewrite (proj2 (Z.ltb_ge _ _)) by lia. set (z := replicate (Z.to_nat N) (replicate (Z.to_nat N) 0)).
  assert (square N z) as Hz.
  { split; [unfold z; rewrite length_replicate; lia|]. intros i row. unfold arr_get. case_decide as Hi; [|done].
    intros [-> _]%lookup_replicate_1. rewrite length_replicate. lia. }
  assert (forall i j, 0 <= i < N -> 0 <= j < N -> cell z i j = Some 0) as Hc.
  { intros i j Hi Hj. unfold cell, arr_get, z. rewrite !decide_True by lia. rewrite lookup_replicate_2 by lia. cbn.
    by rewrite decide_True, lookup_replicate_2 by lia. }
  exists (mkLatencyMatrix N z (replicate (Z.to_nat N) [])). unfold GenerateRandomMatrix. cbn [matrix_ sorted_peers_]. rewrite (sq_rows _ _ Hz).
  destruct (clear_diagonal N z Hz) as (r1 & -> & H1 & D1 & O1); [lia|]. cbn.
  destruct (draw_latencies N lo hi seed r1 H1 Hlo D1) as (r2 & -> & H2 & Hy & Hb).
  { intros i j Hi Hj. destruct (decide (i = j)) as [->|]; [done|]. by rewrite !O1, !Hc by lia. }
  cbn. set (m1 := mkLatencyMatrix N r2 _).
  destruct (UpdateSortedPeers_spec m1) as (m & Hm & HNm & Hmat & Hp); [done|unfold m1; cbn; rewrite length_replicate; lia|].
  exists m. split; [done|]. split; [done|]. cbn in HNm, Hmat, Hp.
  assert (forall i j, 0 <= i < N -> 0 <= j < N -> GetLatency m i j = cell r2 i j) as Hg.
  { intros i j Hi Hj. rewrite GetLatency_cell by lia. by rewrite Hmat. }
  split_and!; [done| | |].
  - intros i Hi. rewrite Hg by done. by apply (Hy i i).
  - intros i j Hi Hj Hne. rewrite !Hg by done. rewrite (proj1 (Hy j i Hj Hi)).
    destruct (decide (i < j)); [destruct (Hb i j) as (x & Hx & Hr); [lia..|]|destruct (Hb j i) as (x & Hx & Hr); [lia..|]; rewrite (proj1 (Hy i j Hi Hj))];
      exists x; by rewrite Hx.
  - intros i Hi. destruct (Hp i Hi) as (row & Hrow & Hpr & Hl & Hs). exists row. split; [done|]. split; [by rewrite HNm|].
    split; [|done]. intros j f Hin. destruct (Hl j f Hin) as (x & Hx & Hf). exists x. split; [|done].
    revert Hx. unfold GetLatency, in_matrix. by rewrite HNm, Hmat.
Qed.
End spec.

(** A sort that keeps the contract, and the latencies of three nodes. *)
Lemma flt_asym (x y : spec_float) : flt x y = true -> flt y x = false.
Proof.
  unfold flt, SFltb, SFcompare.
  destruct x as [sx|sx| |sx mx ex], y as [sy|sy| |sy my ey]; try destruct sx; try destruct sy; try done.
  all: rewrite (Z.compare_antisym ex ey).
  all: assert (Pos.compare_cont Eq my mx = CompOpp (Pos.compare_cont Eq mx my)) as -> by (by rewrite Pos.compare_cont_antisym).
  all: destruct (Z.compare ex ey); cbn; try done; by destruct (Pos.compare_cont Eq mx my).
Qed.

Definition not_after (a b : Z * spec_float) : Prop := flt b.2 a.2 = false.
#[export] Instance not_after_dec a b : Decision (not_after a b).
Proof. unfold not_after. apply _. Defined.
#[export] Instance not_after_total : Total not_after.
Proof. intros a b. unfold not_after. destruct (flt b.2 a.2) eqn:E; [right; by apply flt_asym|by left]. Qed.

Definition by_latency (l : list (Z * spec_float)) : list (Z * spec_float) := merge_sort not_after l.
Lemma by_latency_permutes l : by_latency l ≡ₚ l.
Proof. apply merge_sort_Permutation. Qed.
Lemma by_latency_sorted (l : list (Z * Z)) :
  Sorted (fun a b => flt b.2 a.2 = false) (by_latency ((fun p => (p.1, of_int p.2)) <$> l)).
Proof. apply (Sorted_merge_sort not_after). Qed.

Section example.
Lemma demo_drawn_in_bounds (seed lo hi : Z) (n : nat) : lo <= hi -> lo <= Z.max lo (hi - 100 * Z.of_nat n) <= hi.
Proof. lia. Qed.
#[local] Instance demo_source : LatencySource :=
  {| drawn_latency seed lo hi n := Z.max lo (hi - 100 * Z.of_nat n); sort_by_second := by_latency;
     drawn_in_bounds := demo_drawn_in_bounds; sort_permutes := by_latency_permutes; sort_sorted := by_latency_sorted |}.

Example three_nodes : exists m, (m0 ← LatencyMatrix_ctor 3; GenerateRandomMatrix 30 300 7 m0) = Some m /\
  matrix_ m = [[0; 300; 200]; [300; 0; 100]; [200; 100; 0]] /\
  GetSortedPeersByLatency m 0 = Some [(2, of_int 200); (1, of_int 300)] /\ GetAvgLatency m 1 = Some (of_int 200) /\
  GetLatencyRatio m 1 0 = Some (S754_finite false 8388608 (-24)) /\ GetLatencyScore m 1 1 = Some (of_int 1).
Proof. eexists. split; [vm_compute; reflexivity|]. split_and!; vm_compute; reflexivity. Qed.
End example.
