(* ===== verification/Grouper.v ===== *)
(** The latency-aware complementary grouper,
    src/multi-raft/lrc_complementary_grouper.h.

    The object under construction is passed explicitly. A failed assert, an
    out-of-range [vector] access or a division by zero is [None]; the two
    unbounded loops (the swap rounds of phase 3 and the last fill loop of the
    mapping) run on fuel, and running out of it is [None] as well. *)

From S2P Require Import Prelude Types Encoder Lrc Latency.

Record NodePlacementInfo := mkNodePlacementInfo {
  npi_node_id : Z;
  npi_frag_ids : list Z;
  npi_lrc_group_id : Z
}.

Record LrcComplementaryGrouper := mkGrouper {
  N_ : Z;
  lrc_params_ : LrcParams;
  groups_ : list LocalGroup;
  node_to_frags_ : list (list Z);
  node_placement_ : gmap Z NodePlacementInfo
}.

(** [LrcComplementaryGrouper(N)]: [l] is always 2. *)
Definition LrcComplementaryGrouper_ctor (N : Z) : option LrcComplementaryGrouper :=
  p ← FromCapacity N 2; Some (mkGrouper N p [] [] ∅).

(** ** Queries *)
Definition GetFragmentsForNode (node_id : Z) (gr : LrcComplementaryGrouper) : option (list Z) :=
  if (node_id <? 0) || (N_ gr <=? node_id) then Some [] else arr_get (node_to_frags_ gr) node_id.

Definition GetNodePlacement (node_id : Z) (gr : LrcComplementaryGrouper) : option NodePlacementInfo :=
  if (node_id <? 0) || (N_ gr <=? node_id) then None else node_placement_ gr !! node_id.

Definition GetLrcGroupIdForNode (node_id : Z) (gr : LrcComplementaryGrouper) : Z :=
  match GetNodePlacement node_id gr with
  | None => -1
  | Some info => npi_lrc_group_id info
  end.

(** [group_nodes[i % (group_size - 1)]]. *)
Definition data_node (nodes : list Z) (i : Z) : option Z :=
  let group_size := Z.of_nat (length nodes) in
  if group_size - 1 =? 0 then None else arr_get nodes (crem i (group_size - 1)).

(** The three phases of [GetNodePlacementsVector]. *)
Definition data_placements (p : LrcParams) (groups : list LocalGroup) (g : Z)
    : option (list FragmentPlacement) :=
  grp ← arr_get groups g;
  mapM (fun i => node ← data_node (member_nodes grp) i;
                 Some (mkFragmentPlacement (g * local_k p + i) g node kData))
    (seqZ 0 (local_k p)).

Definition local_placement (p : LrcParams) (groups : list LocalGroup) (g : Z)
    : option FragmentPlacement :=
  grp ← arr_get groups g;
  node ← last (member_nodes grp);
  Some (mkFragmentPlacement (lrc_k p + g) g node kLocalParity).

Definition global_placements (p : LrcParams) (node_to_frags : list (list Z)) (node : Z)
    : option (list FragmentPlacement) :=
  frags ← arr_get node_to_frags node;
  Some ((fun f => mkFragmentPlacement f (-1) node kGlobalParity) <$>
          filter (fun f => lrc_k p + lrc_l p <= f) (frags : list Z)).

Definition GetNodePlacementsVector (gr : LrcComplementaryGrouper) : option (list FragmentPlacement) :=
  let p := lrc_params_ gr in
  datas ← mapM (data_placements p (groups_ gr)) (seqZ 0 (lrc_l p));
  locals ← mapM (local_placement p (groups_ gr)) (seqZ 0 (lrc_l p));
  globals ← mapM (global_placements p (node_to_frags_ gr)) (seqZ 0 (N_ gr));
  Some (concat datas ++ locals ++ concat globals).

(** ** Phase 1: anchors *)

(** [best_node]/[best_min_dist] scan. *)
Definition argmax_dist (min_dist : list Z) : Z * Z :=
  foldl (fun best vd => if bool_decide (snd vd > snd best) then vd else best) (-1, -1)
    (imap (fun v d => (Z.of_nat v, d)) min_dist).

Fixpoint select_anchors (fuel : nat) (m : LatencyMatrix) (N l : Z) (anchors min_dist : list Z)
    : option (list Z) :=
  if Z.of_nat (length anchors) <? l then
    match fuel with
    | O => None
    | S fuel =>
        let '(best_node, _) := argmax_dist min_dist in
        if best_node =? -1 then Some anchors else
        min_dist ← arr_set min_dist best_node (-1);
        min_dist ← mapM (fun v =>
                       d ← arr_get min_dist v;
                       if 0 <=? d
                       then dist ← GetLatency m v best_node; Some (Z.min d dist)
                       else Some d) (seqZ 0 N);
        select_anchors fuel m N l (anchors ++ [best_node]) min_dist
    end
  else Some anchors.

Definition Phase1_SelectOrthogonalAnchors (m : LatencyMatrix) (gr : LrcComplementaryGrouper)
    : option (list Z) :=
  let N := N_ gr in
  best ← foldM (fun ij best =>
             lat ← GetLatency m (fst ij) (snd ij);
             let '(max_lat, _, _) := best in
             Some (if bool_decide (lat > max_lat) then (lat, fst ij, snd ij) else best))
           (pairs N) (-1, -1, -1);
  let '(_, anchor_a, anchor_b) := best in
  min_dist ← mapM (fun v => da ← GetLatency m v anchor_a; db ← GetLatency m v anchor_b;
                            Some (Z.min da db)) (seqZ 0 N);
  min_dist ← arr_set min_dist anchor_a (-1);
  min_dist ← arr_set min_dist anchor_b (-1);
  select_anchors (Z.to_nat (lrc_l (lrc_params_ gr))) m N (lrc_l (lrc_params_ gr))
    [anchor_a; anchor_b] min_dist.

(** ** Phase 2: round-robin assignment *)
Definition sum_latency (m : LatencyMatrix) (v : Z) (nodes : list Z) : option Z :=
  foldM (fun u sum => lat ← GetLatency m v u; Some (sum + lat)) nodes 0.

(** The unassigned node with the lowest average latency to the group. *)
Definition nearest (m : LatencyMatrix) (nodes unassigned : list Z) : option (Z * Z) :=
  foldM (fun v best =>
      sum_lat ← sum_latency m v nodes;
      let avg := if bool_decide (nodes = []) then 0 else cdiv sum_lat (Z.of_nat (length nodes)) in
      Some (if bool_decide (avg < snd best) then (v, avg) else best))
    unassigned (-1, 2 ^ 63 - 1).

(** Skips full groups; [None] in the result means that all groups are full. *)
Fixpoint next_open_group (attempts : nat) (groups : list (list Z)) (targets : list Z) (l idx : Z)
    : option (option Z) :=
  nodes ← arr_get groups idx;
  target ← arr_get targets idx;
  if bool_decide (Z.of_nat (length nodes) >= target) then
    match attempts with
    | O => Some None
    | S O => Some None
    | S attempts => next_open_group attempts groups targets l ((idx + 1) mod l)
    end
  else Some (Some idx).

Fixpoint assign_loop (fuel : nat) (m : LatencyMatrix) (l : Z) (targets : list Z)
    (groups : list (list Z)) (unassigned : list Z) (idx : Z) : option (list (list Z)) :=
  match unassigned with
  | [] => Some groups
  | _ =>
      match fuel with
      | O => None
      | S fuel =>
          open ← next_open_group (Z.to_nat l) groups targets l idx;
          match open with
          | None => Some groups
          | Some idx =>
              nodes ← arr_get groups idx;
              best ← nearest m nodes unassigned;
              let '(best_node, _) := best in
              if best_node =? -1 then assign_loop fuel m l targets groups unassigned ((idx + 1) mod l)
              else
                groups ← arr_set groups idx (nodes ++ [best_node]);
                assign_loop fuel m l targets groups
                  (filter (fun v => v <> best_node) unassigned) ((idx + 1) mod l)
          end
      end
  end.

Definition Phase2_RoundRobinAssignment (m : LatencyMatrix) (anchors : list Z)
    (gr : LrcComplementaryGrouper) : option (list (list Z)) :=
  let N := N_ gr in let l := lrc_l (lrc_params_ gr) in
  groups ← mapM (fun g => a ← arr_get anchors g; Some [a]) (seqZ 0 l);
  let unassigned := filter (fun i => ~ (i ∈ anchors)) (seqZ 0 N) in
  if l =? 0 then None else
  let targets := (fun i => cdiv N l + b2z (i <? crem N l)) <$> seqZ 0 l in
  assign_loop (Z.to_nat N) m l targets groups unassigned 0.

(** ** Phase 3: swap optimisation *)
Record SwapState := mkSwapState {
  sw_groups : list (list Z);
  node_to_group_sum : list (list Z);
  group_latency_sum : list Z;
  improvements : Z
}.

Definition get2 (m : list (list Z)) (i j : Z) : option Z := row ← arr_get m i; arr_get row j.
Definition set2 (m : list (list Z)) (i j x : Z) : option (list (list Z)) :=
  row ← arr_get m i; row' ← arr_set row j x; arr_set m i row'.

(** The body of the innermost loop; [node_u] was read before the [j] loop. *)
Definition try_swap (gid_a gid_b i node_u j : Z) (st : SwapState) : option SwapState :=
  let ngs := node_to_group_sum st in
  node_v ← get2 (sw_groups st) gid_b j;
  va ← get2 ngs node_v gid_a;
  ub ← get2 ngs node_u gid_b;
  ua ← get2 ngs node_u gid_a;
  vb ← get2 ngs node_v gid_b;
  let delta := va + ub - ua - vb in
  if delta <? 0 then
    groups ← set2 (sw_groups st) gid_a i node_v;
    groups ← set2 groups gid_b j node_u;
    ngs ← set2 ngs node_u gid_a va;
    ub' ← get2 ngs node_u gid_b;
    ngs ← set2 ngs node_v gid_b ub';
    la ← arr_get (group_latency_sum st) gid_a;
    gls ← arr_set (group_latency_sum st) gid_a (la + delta);
    lb ← arr_get gls gid_b;
    gls ← arr_set gls gid_b (lb - delta);
    Some (mkSwapState groups ngs gls (improvements st + 1))
  else Some st.

Definition swap_row (gid_a gid_b i : Z) (st : SwapState) : option SwapState :=
  node_u ← get2 (sw_groups st) gid_a i;
  grp_b ← arr_get (sw_groups st) gid_b;
  foldM (fun j => try_swap gid_a gid_b i node_u j) (seqZ 0 (Z.of_nat (length grp_b))) st.

(** One round over all pairs of groups. *)
Definition swap_round (l : Z) (st : SwapState) : option SwapState :=
  foldM (fun ab st =>
      grp_a ← arr_get (sw_groups st) (fst ab);
      foldM (fun i => swap_row (fst ab) (snd ab) i) (seqZ 0 (Z.of_nat (length grp_a))) st)
    (pairs l) st.

Fixpoint swap_rounds (fuel : nat) (l no_improve_count : Z) (st : SwapState) : option SwapState :=
  if no_improve_count <? 10 then
    match fuel with
    | O => None
    | S fuel =>
        st ← swap_round l (mkSwapState (sw_groups st) (node_to_group_sum st) (group_latency_sum st) 0);
        swap_rounds fuel l (if improvements st =? 0 then no_improve_count + 1 else 0) st
    end
  else Some st.

Definition intra_latency (m : LatencyMatrix) (nodes : list Z) : option Z :=
  foldM (fun ij sum =>
      u ← arr_get nodes (fst ij); v ← arr_get nodes (snd ij);
      lat ← GetLatency m u v; Some (sum + lat))
    (pairs (Z.of_nat (length nodes))) 0.

Definition Phase3_SwapOptimization (fuel : nat) (m : LatencyMatrix) (N l : Z)
    (groups : list (list Z)) : option (list (list Z)) :=
  ngs ← mapM (fun node => mapM (fun gid => nodes ← arr_get groups gid; sum_latency m node nodes)
                            (seqZ 0 l)) (seqZ 0 N);
  gls ← mapM (fun gid => nodes ← arr_get groups gid; intra_latency m nodes) (seqZ 0 l);
  st ← swap_rounds fuel l 0 (mkSwapState groups ngs gls 0);
  Some (sw_groups st).

(** ** Fragments of each node *)
Definition push_frag (node frag : Z) (ntf : list (list Z)) : option (list (list Z)) :=
  fs ← arr_get ntf node; arr_set ntf node (fs ++ [frag]).

(** Steps 1 and 2: data and local parity fragments. *)
Definition map_data (p : LrcParams) (groups : list LocalGroup) (ntf : list (list Z))
    : option (list (list Z) * Z) :=
  foldM (fun g st =>
      grp ← arr_get groups g;
      foldM (fun i (st : list (list Z) * Z) =>
          if snd st <? lrc_k p then
            node ← data_node (member_nodes grp) i;
            ntf ← push_frag node (snd st) (fst st);
            Some (ntf, snd st + 1)
          else Some st) (seqZ 0 (local_k p)) st)
    (seqZ 0 (lrc_l p)) (ntf, 0).

Definition map_locals (p : LrcParams) (groups : list LocalGroup) (ntf : list (list Z))
    : option (list (list Z)) :=
  foldM (fun g ntf =>
      grp ← arr_get groups g;
      node ← last (member_nodes grp);
      push_frag node (lrc_k p + g) ntf) (seqZ 0 (lrc_l p)) ntf.

(** Gives [node] the next global parity when it holds fewer than two fragments. *)
Definition fill_node (node : Z) (st : list (list Z) * Z) : option (list (list Z) * Z) :=
  fs ← arr_get (fst st) node;
  if Z.of_nat (length fs) <? 2 then
    ntf ← push_frag node (snd st) (fst st);
    Some (ntf, snd st + 1)
  else Some st.

Definition fill_groups (p : LrcParams) (groups : list LocalGroup) (st : list (list Z) * Z)
    : option (list (list Z) * Z) :=
  foldM (fun g st => grp ← arr_get groups g; foldM fill_node (member_nodes grp) st)
    (seqZ 0 (lrc_l p)) st.

Definition fill_pass (N limit : Z) (st : list (list Z) * Z) : option (list (list Z) * Z) :=
  foldM (fun n st => if snd st <? limit then fill_node n st else Some st) (seqZ 0 N) st.

Fixpoint fill_loop (fuel : nat) (N limit : Z) (st : list (list Z) * Z) : option (list (list Z)) :=
  if snd st <? limit then
    match fuel with
    | O => None
    | S fuel => st ← fill_pass N limit st; fill_loop fuel N limit st
    end
  else Some (fst st).

(** The LRC group recorded for a node. *)
Definition placement_group (p : LrcParams) (groups : list LocalGroup) (n : Z) (frags : list Z) : Z :=
  let fix scan (fs : list Z) (acc : Z) :=
    match fs with
    | [] => acc
    | fid :: fs =>
        if fid <? lrc_k p then cdiv fid (local_k p)
        else if (fid <? lrc_k p + lrc_l p) && (acc <? 0) then scan fs (fid - lrc_k p)
        else scan fs acc
    end in
  let gid := scan frags (-1) in
  if gid <? 0 then
    match list_find (fun grp => n ∈ member_nodes grp) groups with
    | Some (g, _) => Z.of_nat g
    | None => gid
    end
  else gid.

Definition BuildNodeToFragmentsMapping (fuel : nat) (gr : LrcComplementaryGrouper)
    : option LrcComplementaryGrouper :=
  let p := lrc_params_ gr in let N := N_ gr in
  let limit := lrc_k p + lrc_l p + lrc_r p in
  d ← map_data p (groups_ gr) (replicate (Z.to_nat N) []);
  ntf ← map_locals p (groups_ gr) (fst d);
  st ← fill_groups p (groups_ gr) (ntf, lrc_k p + lrc_l p);
  ntf ← fill_loop fuel N limit st;
  let info n fs := mkNodePlacementInfo n fs (placement_group p (groups_ gr) n fs) in
  Some (mkGrouper N p (groups_ gr) ntf
          (list_to_map (imap (fun n fs => (Z.of_nat n, info (Z.of_nat n) fs)) ntf))).

(** [BuildComplementaryGroups]. *)
Definition BuildComplementaryGroups (fuel : nat) (m : LatencyMatrix) (gr : LrcComplementaryGrouper)
    : option LrcComplementaryGrouper :=
  anchors ← Phase1_SelectOrthogonalAnchors m gr;
  groups ← Phase2_RoundRobinAssignment m anchors gr;
  groups ← Phase3_SwapOptimization fuel m (N_ gr) (lrc_l (lrc_params_ gr)) groups;
  let lgs := imap (fun g nodes => mkLocalGroup (Z.of_nat g) nodes false) groups in
  BuildNodeToFragmentsMapping fuel (mkGrouper (N_ gr) (lrc_params_ gr) lgs [] ∅).

(** The three constraints of [ValidatePlacementConstraints], for one node or group. *)
Definition check_count (gr : LrcComplementaryGrouper) (n : Z) : option bool :=
  fs ← arr_get (node_to_frags_ gr) n; Some (Z.of_nat (length fs) =? 2).

Definition check_parity (gr : LrcComplementaryGrouper) (g : Z) : option bool :=
  let lk := local_k (lrc_params_ gr) in
  grp ← arr_get (groups_ gr) g;
  parity_node ← last (member_nodes grp);
  fs ← arr_get (node_to_frags_ gr) parity_node;
  Some (forallb (fun i => negb (bool_decide (g * lk + i ∈ fs))) (seqZ 0 lk)).

Definition check_size (gr : LrcComplementaryGrouper) (g : Z) : option bool :=
  grp ← arr_get (groups_ gr) g;
  Some (local_k (lrc_params_ gr) + 1 <=? Z.of_nat (length (member_nodes grp))).

Definition ValidatePlacementConstraints (gr : LrcComplementaryGrouper) : option bool :=
  counts ← mapM (check_count gr) (seqZ 0 (N_ gr));
  parity ← mapM (check_parity gr) (seqZ 0 (lrc_l (lrc_params_ gr)));
  sizes ← mapM (check_size gr) (seqZ 0 (lrc_l (lrc_params_ gr)));
  Some (forallb id counts && forallb id parity && forallb id sizes).

(** ** The mapping as a sequence of pushes *)

(** The fragments of a node in a table. *)
Definition frags_of (ntf : list (list Z)) (n : Z) : list Z := default [] (arr_get ntf n).

(** [pushed N L ntf]: the table of [N] nodes after the pushes [L] of (node, fragment). *)
Definition pushed (N : Z) (L : list (Z * Z)) (ntf : list (list Z)) : Prop :=
  length ntf = Z.to_nat N /\ Forall (fun nf => 0 <= fst nf < N) L /\
  forall n, 0 <= n < N -> arr_get ntf n = Some (snd <$> filter (fun nf => fst nf = n) L).

Section pushes.
Context (N : Z).
Implicit Types (L : list (Z * Z)) (ns : list Z).

Lemma pushed_nil : pushed N [] (replicate (Z.to_nat N) []).
Proof.
  split; [apply length_replicate|]. split; [done|]. intros n Hn. unfold arr_get.
  rewrite decide_True by lia. apply lookup_replicate. split; [done|lia].
Qed.

Lemma pushed_push L ntf n f :
  pushed N L ntf -> 0 <= n < N ->
  exists ntf', push_frag n f ntf = Some ntf' /\ pushed N (L ++ [(n, f)]) ntf'.
Proof.
  intros (Hlen & Hrange & Hget) Hn. unfold push_frag. rewrite Hget by done. cbn [mbind option_bind].
  unfold arr_set. rewrite decide_True by lia. eexists; split; [done|]. split.
  { by rewrite length_insert. }
  split; [by apply Forall_app; split; [|by constructor]|]. intros m Hm. unfold arr_get. rewrite decide_True by lia. rewrite filter_app, fmap_app.
  specialize (Hget m Hm) as Hg. unfold arr_get in Hg. rewrite decide_True in Hg by lia.
  destruct (decide (m = n)) as [->|Hne].
  - rewrite list_lookup_insert_eq by lia. rewrite (filter_cons_True _ (n, f)) by done. done.
  - rewrite list_lookup_insert_ne, Hg by lia. rewrite (filter_cons_False _ (n, f)) by done.
    by rewrite app_nil_r.
Qed.

(** How often a node was pushed to. *)
Definition load ns (n : Z) : nat := count_occ Z.eq_dec ns n.

Lemma load_filter L n : length (filter (fun nf => fst nf = n) L) = load L.*1 n.
Proof.
  induction L as [|[m f] L IH]; [done|]. rewrite filter_cons. cbn.
  destruct (Z.eq_dec m n); [rewrite decide_True by done|rewrite decide_False by done];
    cbn; by rewrite IH.
Qed.

Lemma load_app ns1 ns2 n : load (ns1 ++ ns2) n = (load ns1 n + load ns2 n)%nat.
Proof. apply count_occ_app. Qed.

Lemma load_NoDup ns n : NoDup ns -> load ns n = if decide (n ∈ ns) then 1%nat else 0%nat.
Proof.
  intros Hn. unfold load. case_decide as Hin.
  - apply NoDup_count_occ'; [by apply NoDup_ListNoDup|by apply list_elem_of_In].
  - apply count_occ_not_In. by rewrite <- list_elem_of_In.
Qed.

Lemma filter_ext_in (P Q : Z -> Prop) `{!forall x, Decision (P x)} `{!forall x, Decision (Q x)} ns :
  (forall x, x ∈ ns -> P x <-> Q x) -> filter P ns = filter Q ns.
Proof.
  induction ns as [|x ns IH]; intros Hpq; [done|]. rewrite !filter_cons, IH.
  - specialize (Hpq x ltac:(by left)). repeat case_decide; tauto || done.
  - intros y Hy. apply Hpq. by right.
Qed.

Lemma filter_all (P : Z -> Prop) `{!forall x, Decision (P x)} ns :
  (forall x, x ∈ ns -> P x) -> filter P ns = ns.
Proof.
  induction ns as [|x ns IH]; intros Hp; [done|].
  rewrite filter_cons_True by (apply Hp; by left). f_equal. apply IH.
  intros y Hy. apply Hp. by right.
Qed.

Lemma zip_fst ns a : (zip ns (seqZ a (Z.of_nat (length ns)))).*1 = ns.
Proof. apply fst_zip. rewrite length_seqZ. lia. Qed.

Lemma zip_snd ns a : (zip ns (seqZ a (Z.of_nat (length ns)))).*2 = seqZ a (Z.of_nat (length ns)).
Proof. apply snd_zip. rewrite length_seqZ. lia. Qed.

(** A pass over distinct nodes fills exactly those with fewer than two
    fragments, as long as the guard lets it. *)
Lemma fill_pass_ok (ok : Z -> bool) ns L ntf next :
  pushed N L ntf -> NoDup ns -> (forall n, n ∈ ns -> 0 <= n < N) ->
  let ns1 := filter (fun n => (load L.*1 n < 2)%nat) ns in
  (forall x, next <= x < next + Z.of_nat (length ns1) -> ok x = true) ->
  exists ntf', foldM (fun n st => if ok (snd st) then fill_node n st else Some st) ns (ntf, next) =
    Some (ntf', next + Z.of_nat (length ns1)) /\
    pushed N (L ++ zip ns1 (seqZ next (Z.of_nat (length ns1)))) ntf'.
Proof.
  revert L ntf next. induction ns as [|n ns IH]; intros L ntf next HL Hnd Hr; cbv zeta.
  { intros _. exists ntf. rewrite Z.add_0_r, app_nil_r. done. }
  apply NoDup_cons in Hnd as [Hnin Hnd]. rewrite foldM_cons. rewrite filter_cons.
  assert (0 <= n < N) as Hn by (apply Hr; by left).
  assert (forall m, m ∈ ns -> 0 <= m < N) as Hr' by (intros m Hm; apply Hr; by right).
  assert (fill_node n (ntf, next) =
    if decide (load L.*1 n < 2)%nat
    then ntf ← push_frag n next ntf; Some (ntf, next + 1) else Some (ntf, next)) as Hfill.
  { unfold fill_node. cbn [fst snd]. rewrite (proj2 (proj2 HL) n Hn). cbn [mbind option_bind].
    rewrite length_fmap, load_filter. case_decide; destruct (Z.ltb_spec (Z.of_nat (load L.*1 n)) 2);
      done || lia. }
  destruct (decide (load L.*1 n < 2)%nat) as [Hl|Hl].
  - intros Hok. cbn [length] in *. cbn [snd]. rewrite Hok, Hfill by lia.
    destruct (pushed_push L ntf n next HL Hn) as (ntf1 & Hp & HL1). rewrite Hp. cbn [mbind option_bind].
    assert (filter (fun m => (load (L ++ [(n, next)]).*1 m < 2)%nat) ns =
            filter (fun m => (load L.*1 m < 2)%nat) ns) as Heq.
    { apply filter_ext_in. intros m Hm. rewrite fmap_app, load_app. cbn.
      destruct (Z.eq_dec n m) as [->|]; [done|]. by rewrite Nat.add_0_r. }
    destruct (IH (L ++ [(n, next)]) ntf1 (next + 1) HL1 Hnd Hr') as (ntf' & Hf & HL').
    { rewrite Heq. intros x Hx. apply Hok. lia. }
    rewrite Heq in Hf, HL'. exists ntf'. rewrite Hf. split; [do 2 f_equal; lia|].
    rewrite <- app_assoc in HL'. rewrite Nat2Z.inj_succ.
    rewrite <- Z.add_1_l, seqZ_app by lia. done.
  - intros Hok. cbn [snd]. rewrite Hfill.
    assert ((if ok next then Some (ntf, next) else Some (ntf, next)) = Some (ntf, next)) as ->
      by by destruct (ok next).
    cbn [mbind option_bind]. by apply IH.
Qed.
End pushes.

(** Groups that partition the nodes and are large enough for their data shards. *)
Record groups_ok (gr : LrcComplementaryGrouper) : Prop := {
  go_l : Z.of_nat (length (groups_ gr)) = lrc_l (lrc_params_ gr);
  go_k : lrc_k (lrc_params_ gr) = lrc_l (lrc_params_ gr) * local_k (lrc_params_ gr);
  go_lk : 0 < local_k (lrc_params_ gr);
  go_r : lrc_r (lrc_params_ gr) = 2 * N_ gr - lrc_k (lrc_params_ gr) - lrc_l (lrc_params_ gr);
  go_N : 0 <= N_ gr;
  go_cover : concat (member_nodes <$> groups_ gr) ≡ₚ seqZ 0 (N_ gr);
  go_size : Forall (fun grp => local_k (lrc_params_ gr) + 1 <= Z.of_nat (length (member_nodes grp)))
              (groups_ gr)
}.

Lemma foldM_groups {S} (f : Z -> S -> option S) (gs : list LocalGroup) (s : S) :
  foldM (fun g s => grp ← arr_get gs g; foldM f (member_nodes grp) s)
    (seqZ 0 (Z.of_nat (length gs))) s = foldM f (concat (member_nodes <$> gs)) s.
Proof.
  assert (forall n, (n <= length gs)%nat ->
    foldM (fun g s => grp ← arr_get gs g; foldM f (member_nodes grp) s) (seqZ 0 (Z.of_nat n)) s =
    foldM f (concat (member_nodes <$> take n gs)) s) as Hn.
  { induction n as [|n IH]; intros Hle; [done|].
    rewrite Nat2Z.inj_succ, <- Z.add_1_r, seqZ_snoc, foldM_app, IH by lia.
    destruct (lookup_lt_is_Some_2 gs n) as [grp Hg]; [lia|].
    erewrite take_S_r by exact Hg. rewrite fmap_app, concat_app, foldM_app.
    destruct (foldM f _ s) as [s1|]; [|done]. cbn [mbind option_bind fmap list_fmap concat].
    rewrite foldM_cons, app_nil_r. unfold arr_get. rewrite decide_True, Nat2Z.id, Hg by lia.
    cbn [mbind option_bind]. by destruct (foldM f (member_nodes grp) s1). }
  specialize (Hn (length gs) ltac:(lia)). by rewrite firstn_all in Hn.
Qed.

(** Distinct elements inside a duplicate-free list: the rest has the complement's size. *)
Lemma length_filter_notin (A B : list Z) :
  NoDup A -> NoDup B -> A ⊆ B ->
  length (filter (fun x => ~ (x ∈ A)) B) = (length B - length A)%nat.
Proof.
  intros HA HB Hs.
  assert (A ++ filter (fun x => ~ (x ∈ A)) B ≡ₚ B) as Hp.
  { apply NoDup_Permutation; [| done |].
    - apply NoDup_app. split_and!; [done| |by apply NoDup_filter].
      intros x Hx [Hn _]%list_elem_of_filter. done.
    - intros x. rewrite elem_of_app, list_elem_of_filter. split.
      + intros [Hx|[_ Hx]]; [by apply Hs|done].
      + intros Hx. destruct (decide (x ∈ A)); [by left|by right]. }
  apply Permutation_length in Hp. rewrite length_app in Hp. lia.
Qed.

Section mapping.
Context (gr : LrcComplementaryGrouper) (Hok : groups_ok gr).
Local Abbreviation p := (lrc_params_ gr).
Local Abbreviation gs := (groups_ gr).
Local Abbreviation N := (N_ gr).
Local Abbreviation k := (lrc_k p).
Local Abbreviation l := (lrc_l p).
Local Abbreviation lk := (local_k p).

Definition nodes_of (g : Z) : list Z := default [] (member_nodes <$> arr_get gs g).
Definition parity_node (g : Z) : Z := default 0 (last (nodes_of g)).

(** The pushes of the data and of the local parity fragments. *)
Definition data_pushes (n : Z) : list (Z * Z) :=
  g ← seqZ 0 n; zip (take (Z.to_nat lk) (nodes_of g)) (seqZ (g * lk) lk).
Definition local_pushes (n : Z) : list (Z * Z) :=
  (fun g => (parity_node g, k + g)) <$> seqZ 0 n.

Lemma group_at g : 0 <= g < l ->
  exists grp, arr_get gs g = Some grp /\ nodes_of g = member_nodes grp /\ grp ∈ gs /\
    lk + 1 <= Z.of_nat (length (member_nodes grp)).
Proof.
  intros Hg. pose proof (go_l _ Hok) as Hl.
  destruct (arr_get_is_Some gs g) as [grp Hgrp]; [lia|]. exists grp.
  assert (grp ∈ gs) as Hin.
  { unfold arr_get in Hgrp. case_decide; [|done]. by eapply list_elem_of_lookup_2. }
  split_and!; try done.
  - unfold nodes_of. by rewrite Hgrp.
  - pose proof (go_size _ Hok) as Hs. rewrite Forall_forall in Hs. by apply Hs.
Qed.

Lemma member_range g n : 0 <= g < l -> n ∈ nodes_of g -> 0 <= n < N.
Proof.
  intros Hg Hn. destruct (group_at g Hg) as (grp & _ & Hno & Hin & _). rewrite Hno in Hn.
  assert (n ∈ concat (member_nodes <$> gs)) as Hc.
  { apply list_elem_of_In, in_concat. exists (member_nodes grp).
    split; apply list_elem_of_In; [|done]. by apply list_elem_of_fmap_2. }
  rewrite (go_cover _ Hok), elem_of_seqZ in Hc. lia.
Qed.

Lemma parity_node_last g : 0 <= g < l -> last (nodes_of g) = Some (parity_node g).
Proof.
  intros Hg. destruct (group_at g Hg) as (grp & _ & Hno & _ & Hs).
  unfold parity_node. destruct (last (nodes_of g)) eqn:E; [done|].
  apply last_None in E. rewrite <- Hno, E in Hs. cbn in Hs. pose proof (go_lk _ Hok). lia.
Qed.

(** One iteration of the loop that places the data fragments of a group. *)
Local Abbreviation data_step grp := (fun i (st : list (list Z) * Z) =>
  if snd st <? k then
    node ← data_node (member_nodes grp) i;
    ntf ← push_frag node (snd st) (fst st);
    Some (ntf, snd st + 1)
  else Some st).

Lemma data_pushes_succ g : 0 <= g ->
  data_pushes (g + 1) = data_pushes g ++ zip (take (Z.to_nat lk) (nodes_of g)) (seqZ (g * lk) lk).
Proof. intros Hg. unfold data_pushes. rewrite seqZ_snoc, bind_app by lia. cbn [mbind list_bind]. by rewrite app_nil_r. Qed.

Lemma data_node_small nodes i : 0 <= i < Z.of_nat (length nodes) - 1 -> data_node nodes i = arr_get nodes i.
Proof.
  intros Hi. unfold data_node, crem. destruct (Z.eqb_spec (Z.of_nat (length nodes) - 1) 0); [lia|].
  by rewrite Z.rem_small by lia.
Qed.

Lemma group_data_ok g grp ntf : 0 <= g < l -> arr_get gs g = Some grp -> pushed N (data_pushes g) ntf ->
  exists ntf', foldM (data_step grp) (seqZ 0 lk) (ntf, g * lk) = Some (ntf', (g + 1) * lk) /\
    pushed N (data_pushes (g + 1)) ntf'.
Proof.
  intros Hg Hgrp Hpu. pose proof (go_k _ Hok) as Hk. pose proof (go_lk _ Hok) as Hlk.
  destruct (group_at g Hg) as (grp' & Hgrp' & Hno & _ & Hs). assert (grp' = grp) as -> by congruence.
  destruct (foldM_seqZ (data_step grp)
      (fun i st => snd st = g * lk + i /\
         pushed N (data_pushes g ++ zip (take (Z.to_nat i) (nodes_of g)) (seqZ (g * lk) i)) (fst st))
      lk (ntf, g * lk)) as ([ntf' next'] & Heq & Hnx & Hp).
  - lia.
  - split; [cbn; lia|]. cbn. by rewrite app_nil_r.
  - intros i [ntf1 nx] Hi [Hnx1 Hp1]. cbn [fst snd] in *. subst nx.
    rewrite (proj2 (Z.ltb_lt (g * lk + i) k)) by nia.
    destruct (arr_get_is_Some (member_nodes grp) i) as [node Hnode]; [lia|].
    rewrite data_node_small, Hnode by lia. cbn [mbind option_bind].
    unfold arr_get in Hnode. rewrite decide_True in Hnode by lia.
    destruct (pushed_push N _ ntf1 node (g * lk + i) Hp1) as (ntf2 & Hpush & Hp2).
    { apply (member_range g); [done|]. rewrite Hno. by eapply list_elem_of_lookup_2. }
    rewrite Hpush. cbn [mbind option_bind]. eexists; split; [done|]. cbn [fst snd]. split; [lia|].
    rewrite Z2Nat.inj_add, Nat.add_1_r, Hno by lia. erewrite take_S_r by exact Hnode.
    rewrite seqZ_app, zip_with_app by (rewrite ?length_take, ?length_seqZ; lia).
    rewrite Hno in Hp2. by rewrite app_assoc.
  - cbn [fst snd] in *. exists ntf'. split; [rewrite Heq; do 2 f_equal; lia|]. by rewrite data_pushes_succ by lia.
Qed.

Lemma map_data_ok :
  exists ntf, map_data p gs (replicate (Z.to_nat N) []) = Some (ntf, k) /\
    pushed N (data_pushes l) ntf.
Proof.
  pose proof (go_k _ Hok) as Hk. pose proof (go_l _ Hok) as Hl.
  destruct (foldM_seqZ (fun g st => grp ← arr_get gs g; foldM (data_step grp) (seqZ 0 lk) st)
    (fun n st => snd st = n * lk /\ pushed N (data_pushes n) (fst st))
    l (replicate (Z.to_nat N) [], 0)) as ([ntf next] & Heq & Hnext & Hp).
  - lia.
  - split; [done|]. apply pushed_nil.
  - intros g [ntf next] Hg [Hnx Hpu]. cbn [fst snd] in *. subst next.
    destruct (group_at g Hg) as (grp & Hgrp & _). rewrite Hgrp. cbn [mbind option_bind].
    destruct (group_data_ok g grp ntf Hg Hgrp Hpu) as (ntf' & Heq & Hp). by exists (ntf', (g + 1) * lk).
  - cbn [fst snd] in *. exists ntf. split; [|done]. unfold map_data. rewrite Heq.
    do 2 f_equal. lia.
Qed.

Lemma map_locals_ok ntf L :
  pushed N L ntf ->
  exists ntf', map_locals p gs ntf = Some ntf' /\ pushed N (L ++ local_pushes l) ntf'.
Proof.
  intros HL. pose proof (go_l _ Hok) as Hl.
  destruct (foldM_seqZ (fun g ntf => grp ← arr_get gs g; node ← last (member_nodes grp);
                          push_frag node (k + g) ntf)
    (fun n st => pushed N (L ++ local_pushes n) st) l ntf) as (ntf' & Heq & Hp); [lia| | |eauto].
  - cbn. by rewrite app_nil_r.
  - intros g ntf1 Hg Hp. destruct (group_at g Hg) as (grp & Hgrp & Hno & _ & _).
    rewrite Hgrp. cbn [mbind option_bind]. rewrite <- Hno, parity_node_last by done.
    cbn [mbind option_bind].
    destruct (pushed_push N _ ntf1 (parity_node g) (k + g) Hp) as (ntf2 & Hpush & Hp2).
    { apply (member_range g); [done|]. apply last_Some_elem_of. by apply parity_node_last. }
    exists ntf2. split; [done|]. unfold local_pushes. rewrite seqZ_snoc, fmap_app by lia.
    by rewrite app_assoc.
Qed.

Lemma data_pushes_frags n : 0 <= n <= l -> (data_pushes n).*2 = seqZ 0 (n * lk).
Proof.
  intros Hn. pose proof (go_lk _ Hok) as Hlk. assert (0 <= n) as H0 by lia. revert Hn. pattern n.
  apply natlike_ind; [done| |done]. intros g Hg IH Hle.
  unfold data_pushes in *. rewrite <- Z.add_1_r, seqZ_snoc by lia.
  rewrite bind_app, fmap_app, IH by lia. cbn [mbind list_bind]. rewrite app_nil_r.
  destruct (group_at g ltac:(lia)) as (grp & _ & Hno & _ & Hs).
  rewrite snd_zip by (rewrite length_take, length_seqZ, Hno; lia).
  replace ((g + 1) * lk) with (g * lk + lk) by lia. by rewrite seqZ_app by nia.
Qed.

(** The nodes that received a data or local parity fragment. *)
Definition first_nodes : list Z := (data_pushes l ++ local_pushes l).*1.

Lemma first_nodes_perm :
  exists rest, first_nodes ++ rest ≡ₚ seqZ 0 N.
Proof.
  pose proof (go_lk _ Hok) as Hlk. pose proof (go_l _ Hok) as Hl.
  assert (forall n, 0 <= n <= l ->
    exists rest, (data_pushes n ++ local_pushes n).*1 ++ rest ≡ₚ
      concat (member_nodes <$> take (Z.to_nat n) gs)) as Hn.
  { intros n Hn. assert (0 <= n) as H0 by lia. revert Hn. pattern n.
    apply natlike_ind; [by exists []| |done].
    intros g Hg IH Hle. destruct IH as [rest IH]; [lia|].
    destruct (group_at g ltac:(lia)) as (grp & Hgrp & Hno & _ & Hs).
    unfold arr_get in Hgrp. rewrite decide_True in Hgrp by lia.
    rewrite Z2Nat.inj_succ by lia. erewrite take_S_r by exact Hgrp.
    rewrite (fmap_app member_nodes), concat_app. cbn [fmap list_fmap concat]. rewrite app_nil_r.
    pose proof (parity_node_last g ltac:(lia)) as Hlast. rewrite Hno in Hlast.
    apply last_Some in Hlast as [init Hinit].
    exists (rest ++ drop (Z.to_nat lk) init).
    assert (data_pushes (Z.succ g) = data_pushes g ++ zip (take (Z.to_nat lk) init) (seqZ (g * lk) lk)) as ->.
    { unfold data_pushes. rewrite <- Z.add_1_r, seqZ_snoc, bind_app by lia.
      cbn [mbind list_bind]. rewrite app_nil_r, Hno, Hinit. f_equal. f_equal.
      rewrite take_app_le; [done|]. rewrite Hinit, length_app in Hs. cbn in Hs. lia. }
    assert (local_pushes (Z.succ g) = local_pushes g ++ [(parity_node g, k + g)]) as ->.
    { unfold local_pushes. by rewrite <- Z.add_1_r, seqZ_snoc, fmap_app by lia. }
    rewrite <- IH, Hinit. rewrite !fmap_app. cbn [fmap list_fmap fst].
    rewrite fst_zip by (rewrite length_take, length_seqZ; lia).
    rewrite <- (take_drop (Z.to_nat lk) init) at 3. solve_Permutation. }
  destruct (Hn l) as [rest Hr]; [lia|]. exists rest. unfold first_nodes. rewrite Hr.
  rewrite <- Hl, Nat2Z.id, firstn_all. apply (go_cover _ Hok).
Qed.

Lemma first_nodes_NoDup : NoDup first_nodes /\ first_nodes ⊆ seqZ 0 N.
Proof.
  destruct first_nodes_perm as [rest Hr]. split.
  - assert (NoDup (first_nodes ++ rest)) as Hn by (rewrite Hr; apply NoDup_seqZ).
    by apply NoDup_app in Hn as [? _].
  - intros n Hn. rewrite <- Hr. apply elem_of_app. by left.
Qed.

Lemma first_pushes_frags : (data_pushes l ++ local_pushes l).*2 = seqZ 0 (k + l).
Proof.
  pose proof (go_l _ Hok). pose proof (go_k _ Hok) as Hk. pose proof (go_lk _ Hok).
  rewrite fmap_app, data_pushes_frags by lia. rewrite <- Hk, seqZ_app by nia. f_equal.
  unfold local_pushes. rewrite <- list_fmap_compose. unfold compose. cbn [snd].
  apply list_eq. intros i. rewrite list_lookup_fmap.
  destruct (decide (Z.of_nat i < l)).
  - rewrite !lookup_seqZ_lt by lia. done.
  - by rewrite !lookup_seqZ_ge by lia.
Qed.

Lemma length_first_nodes : Z.of_nat (length first_nodes) = k + l.
Proof.
  pose proof (go_l _ Hok). pose proof (go_k _ Hok). pose proof (go_lk _ Hok).
  unfold first_nodes. rewrite length_fmap.
  rewrite <- (length_fmap snd), first_pushes_frags, length_seqZ. nia.
Qed.

Local Abbreviation members := (concat (member_nodes <$> gs)).
Local Abbreviation pushes1 := (data_pushes l ++ local_pushes l).
Local Abbreviation pushes2 := (pushes1 ++ zip members (seqZ (k + l) N)).

Lemma members_facts : NoDup members /\ (forall n, n ∈ members <-> 0 <= n < N) /\ Z.of_nat (length members) = N.
Proof.
  pose proof (go_N _ Hok). rewrite (go_cover _ Hok). split_and!; [apply NoDup_seqZ| |rewrite length_seqZ; lia].
  intros n. rewrite (go_cover _ Hok), elem_of_seqZ. lia.
Qed.

Lemma load_first n : load pushes1.*1 n = if decide (n ∈ first_nodes) then 1%nat else 0%nat.
Proof. apply load_NoDup, first_nodes_NoDup. Qed.

(** Every node gets a global parity. *)
Lemma first_round ntf1 : pushed N pushes1 ntf1 ->
  exists ntf2, fill_groups p gs (ntf1, k + l) = Some (ntf2, k + l + N) /\ pushed N pushes2 ntf2.
Proof.
  intros Hp1. destruct members_facts as (Hmn & Hmr & Hmlen).
  destruct (fill_pass_ok N (fun _ => true) members _ ntf1 (k + l) Hp1 Hmn) as (ntf2 & Hf2 & Hp2).
  { intros n Hn. by apply Hmr. }
  { done. }
  rewrite filter_all in Hf2, Hp2 by (intros n _; rewrite load_first; case_decide; lia).
  exists ntf2. unfold fill_groups. rewrite <- (go_l _ Hok), foldM_groups, (go_l _ Hok). rewrite Hmlen in *. by split.
Qed.

Lemma load_second n : 0 <= n < N -> load pushes2.*1 n = S (load pushes1.*1 n).
Proof.
  intros Hn. destruct members_facts as (Hmn & Hmr & Hmlen).
  assert ((zip members (seqZ (k + l) N)).*1 = members) as Hz by (rewrite <- Hmlen; apply zip_fst).
  rewrite (fmap_app fst pushes1), load_app, Hz, (load_NoDup members), decide_True by (done || by apply Hmr). lia.
Qed.

(** The nodes that still have one fragment then. *)
Definition lacking : list Z := filter (fun n => ~ (n ∈ first_nodes)) (seqZ 0 N).

Lemma lacking_length : Z.of_nat (length lacking) = N - (k + l) /\ k + l <= N.
Proof.
  destruct first_nodes_NoDup as [Hfn Hfs]. pose proof length_first_nodes as Hfl. pose proof (go_N _ Hok).
  pose proof (NoDup_incl_le _ _ Hfn Hfs) as Hle. rewrite length_seqZ in Hle. unfold lacking.
  rewrite length_filter_notin, length_seqZ by (done || apply NoDup_seqZ). lia.
Qed.

Lemma lacking_filter : filter (fun n => (load pushes2.*1 n < 2)%nat) (seqZ 0 N) = lacking.
Proof.
  apply filter_ext_in. intros n Hn%elem_of_seqZ. rewrite load_second, load_first by lia.
  case_decide; split; intros; try done; lia.
Qed.

Lemma pushed_unique L ntf ntf' : pushed N L ntf -> pushed N L ntf' -> ntf = ntf'.
Proof.
  intros (Hl & _ & Hg) (Hl' & _ & Hg'). apply list_eq. intros i. destruct (decide (Z.of_nat i < N)).
  - specialize (Hg (Z.of_nat i) ltac:(lia)). specialize (Hg' (Z.of_nat i) ltac:(lia)).
    unfold arr_get in Hg, Hg'. rewrite decide_True, Nat2Z.id in Hg, Hg' by lia. congruence.
  - by rewrite !lookup_ge_None_2 by lia.
Qed.

(** One more global parity for each of them; a second pass finds nothing to do. *)
Lemma second_round fuel ntf2 : pushed N pushes2 ntf2 ->
  exists ntf3, fill_loop (S fuel) N (k + l + lrc_r p) (ntf2, k + l + N) = Some ntf3 /\
    pushed N (pushes2 ++ zip lacking (seqZ (k + l + N) (Z.of_nat (length lacking)))) ntf3.
Proof.
  intros Hp2. destruct lacking_length as [Hlen Hle]. pose proof (go_r _ Hok) as Hr.
  destruct (fill_pass_ok N (fun x => x <? k + l + lrc_r p) (seqZ 0 N) _ ntf2 (k + l + N) Hp2)
    as (ntf3 & Hf3 & Hp3).
  { apply NoDup_seqZ. }
  { intros n Hn%elem_of_seqZ. lia. }
  { rewrite lacking_filter. intros x Hx. apply Z.ltb_lt. lia. }
  rewrite lacking_filter in Hf3, Hp3. exists ntf3. split; [|exact Hp3]. cbn [fill_loop snd].
  destruct (Z.ltb_spec (k + l + N) (k + l + lrc_r p)) as [Hlt|Hge].
  - unfold fill_pass. rewrite Hf3. cbn [mbind option_bind].
    destruct fuel as [|fuel]; cbn [fill_loop snd];
      (destruct (Z.ltb_spec (k + l + N + Z.of_nat (length lacking)) (k + l + lrc_r p)); [lia|done]).
  - assert (lacking = []) as Hnil by (apply nil_length_inv; lia).
    rewrite Hnil in Hp3. cbn [zip zip_with] in Hp3. rewrite app_nil_r in Hp3. f_equal. by eapply pushed_unique.
Qed.

(** What the mapping does: the data and local parity pushes, then one global
    parity for every node, then one more for every node still at one. *)
Lemma mapping_ok (fuel : nat) :
  exists gr' rest, BuildNodeToFragmentsMapping (S fuel) gr = Some gr' /\
    N_ gr' = N /\ lrc_params_ gr' = p /\ groups_ gr' = gs /\
    pushed N (data_pushes l ++ local_pushes l ++ rest) (node_to_frags_ gr') /\
    rest.*2 = seqZ (k + l) (2 * N - (k + l)) /\
    (forall n, 0 <= n < N -> load (data_pushes l ++ local_pushes l ++ rest).*1 n = 2%nat).
Proof.
  unfold BuildNodeToFragmentsMapping.
  destruct map_data_ok as (ntf0 & Hmd & Hp0). rewrite Hmd. cbn [mbind option_bind fst].
  destruct (map_locals_ok ntf0 _ Hp0) as (ntf1 & Hml & Hp1). rewrite Hml. cbn [mbind option_bind].
  destruct (first_round ntf1 Hp1) as (ntf2 & Hf2 & Hp2). rewrite Hf2. cbn [mbind option_bind].
  destruct (second_round fuel ntf2 Hp2) as (ntf3 & Hf3 & Hp3). rewrite Hf3. cbn [mbind option_bind].
  destruct lacking_length as [Hlen Hle]. destruct members_facts as (_ & _ & Hmlen). pose proof (go_N _ Hok) as HN.
  eexists _, (zip members (seqZ (k + l) N) ++ zip lacking (seqZ (k + l + N) (Z.of_nat (length lacking)))).
  split; [reflexivity|]. cbn [N_ lrc_params_ groups_ node_to_frags_].
  assert (data_pushes l ++ local_pushes l ++ zip members (seqZ (k + l) N) ++ zip lacking (seqZ (k + l + N) (Z.of_nat (length lacking)))
    = pushes2 ++ zip lacking (seqZ (k + l + N) (Z.of_nat (length lacking)))) as -> by (by rewrite <- !app_assoc).
  split_and!; try done.
  - assert ((zip members (seqZ (k + l) N)).*2 = seqZ (k + l) N) as Hz2 by (rewrite <- Hmlen at 1; rewrite zip_snd; by rewrite Hmlen).
    rewrite fmap_app, Hz2, zip_snd, Hlen, <- seqZ_app by lia. f_equal. lia.
  - intros n Hn. rewrite (fmap_app fst pushes2), load_app, zip_fst, load_second, load_first by done.
    rewrite (load_NoDup lacking) by (apply NoDup_filter, NoDup_seqZ). unfold lacking.
    destruct (decide (n ∈ first_nodes)) as [Hin|Hnin].
    + rewrite decide_False; [done|]. rewrite list_elem_of_filter. tauto.
    + rewrite decide_True; [done|]. rewrite list_elem_of_filter, elem_of_seqZ. split; [done|lia].
Qed.
End mapping.

Lemma NoDup_fmap_elem {A B} (f : A -> B) (l : list A) x y :
  NoDup (f <$> l) -> x ∈ l -> y ∈ l -> f x = f y -> x = y.
Proof.
  intros Hn [i Hx]%list_elem_of_lookup [j Hy]%list_elem_of_lookup Hf.
  assert (i = j) as ->.
  { eapply NoDup_lookup; [exact Hn| |]; rewrite list_lookup_fmap; [by rewrite Hx|].
    by rewrite Hy, Hf. }
  congruence.
Qed.

Lemma pushed_elem N L ntf n f fs :
  pushed N L ntf -> 0 <= n < N -> arr_get ntf n = Some fs -> f ∈ fs <-> (n, f) ∈ L.
Proof.
  intros (_ & _ & Hg) Hn Ha. rewrite Hg in Ha by done. injection Ha as <-.
  rewrite list_elem_of_fmap. setoid_rewrite list_elem_of_filter. split.
  - intros ([m g] & -> & Hm & Hin). cbn in *. by subst.
  - intros Hin. exists (n, f). done.
Qed.

Lemma elem_of_concat_fmap {A} (f : Z -> list A) (l : list Z) (x : A) :
  x ∈ concat (f <$> l) <-> exists i, i ∈ l /\ x ∈ f i.
Proof.
  rewrite list_elem_of_In, in_concat. split.
  - intros (y & Hy%list_elem_of_In & Hx%list_elem_of_In).
    apply list_elem_of_fmap in Hy as (i & -> & Hi). eauto.
  - intros (i & Hi & Hx). exists (f i). split; apply list_elem_of_In; [|done].
    by apply list_elem_of_fmap_2.
Qed.

Lemma fmap_concat {A B} (f : A -> B) (ls : list (list A)) :
  (f <$> concat ls : list B) = concat ((fun l : list A => f <$> l) <$> ls).
Proof. induction ls as [|x ls IH]; [done|]. cbn. by rewrite fmap_app, IH. Qed.

(** Consecutive blocks of [w] numbers. *)
Lemma concat_blocks (n w : Z) : 0 <= n -> 0 <= w ->
  concat ((fun g => (fun i => g * w + i) <$> seqZ 0 w) <$> seqZ 0 n) = seqZ 0 (n * w).
Proof.
  intros Hn Hw. revert n Hn. apply natlike_ind; [done|]. intros n Hn IH.
  rewrite <- Z.add_1_r, seqZ_snoc, fmap_app, concat_app, IH by lia. cbn [fmap list_fmap concat].
  rewrite app_nil_r, Z.mul_add_distr_r, Z.mul_1_l, (seqZ_app 0 (n * w) w) by nia. f_equal.
  apply list_eq. intros i. rewrite list_lookup_fmap.
  destruct (decide (Z.of_nat i < w)); [rewrite !lookup_seqZ_lt by lia|by rewrite !lookup_seqZ_ge by lia].
  done.
Qed.

Section mapping_result.
Context (gr gr' : LrcComplementaryGrouper) (Hok : groups_ok gr) (rest : list (Z * Z)).
Local Abbreviation p := (lrc_params_ gr).
Local Abbreviation N := (N_ gr).
Local Abbreviation k := (lrc_k p).
Local Abbreviation l := (lrc_l p).
Local Abbreviation lk := (local_k p).
Local Abbreviation L := (data_pushes gr l ++ local_pushes gr l ++ rest).
Context (HN : N_ gr' = N) (Hp : lrc_params_ gr' = p) (Hgs : groups_ gr' = groups_ gr)
  (HL : pushed N L (node_to_frags_ gr'))
  (Hrest : rest.*2 = seqZ (k + l) (2 * N - (k + l)))
  (Htwo : forall n, 0 <= n < N -> load L.*1 n = 2%nat).

Lemma pushes_frags : L.*2 = seqZ 0 (2 * N).
Proof.
  rewrite app_assoc, fmap_app, (first_pushes_frags gr Hok), Hrest. pose proof (go_N _ Hok).
  pose proof (length_first_nodes gr Hok) as Hfl.
  destruct (first_nodes_NoDup gr Hok) as [Hfn Hfs].
  pose proof (NoDup_incl_le _ _ Hfn Hfs) as Hle. rewrite length_seqZ in Hle.
  replace (seqZ 0 (2 * N)) with (seqZ 0 ((k + l) + (2 * N - (k + l)))) by (f_equal; lia).
  by rewrite (seqZ_app 0 (k + l)) by lia.
Qed.

Lemma frags_at n : 0 <= n < N ->
  exists fs, arr_get (node_to_frags_ gr') n = Some fs /\ length fs = 2%nat /\
    forall f, f ∈ fs <-> (n, f) ∈ L.
Proof.
  intros Hn. pose proof (proj2 (proj2 HL) n Hn) as Hg. eexists. split; [exact Hg|]. split.
  - rewrite length_fmap, load_filter. by apply Htwo.
  - intros f. by eapply pushed_elem.
Qed.

Lemma push_unique a b f : (a, f) ∈ L -> (b, f) ∈ L -> a = b.
Proof.
  intros Ha Hb. assert ((a, f) = (b, f)) as [=]; [|done].
  eapply (NoDup_fmap_elem snd L); try done. rewrite pushes_frags. apply NoDup_seqZ.
Qed.

Lemma push_node f : 0 <= f < 2 * N -> exists n, 0 <= n < N /\ (n, f) ∈ L.
Proof.
  intros Hf. assert (f ∈ L.*2) as Hin by (rewrite pushes_frags, elem_of_seqZ; lia).
  apply list_elem_of_fmap in Hin as ([n f'] & -> & Hin). exists n. split; [|done].
  destruct HL as (_ & Hr & _). rewrite Forall_forall in Hr. by apply (Hr (n, f')).
Qed.

Lemma elem_of_data_pushes g i : 0 <= g < l -> 0 <= i < lk ->
  exists node, nodes_of gr g !! Z.to_nat i = Some node /\ (node, g * lk + i) ∈ data_pushes gr l.
Proof.
  intros Hg Hi. destruct (group_at gr Hok g Hg) as (grp & _ & Hno & _ & Hs).
  destruct (lookup_lt_is_Some_2 (nodes_of gr g) (Z.to_nat i)) as [node Hnode].
  { rewrite Hno. lia. }
  exists node. split; [done|]. apply list_elem_of_bind. exists g. split.
  - apply list_elem_of_lookup. exists (Z.to_nat i). rewrite lookup_zip_with.
    rewrite lookup_take_lt, Hnode, lookup_seqZ_lt by lia. cbn. do 2 f_equal. lia.
  - apply elem_of_seqZ. lia.
Qed.

Lemma elem_of_local_pushes g : 0 <= g < l -> (parity_node gr g, k + g) ∈ local_pushes gr l.
Proof.
  intros Hg. apply list_elem_of_fmap. exists g. split; [done|]. apply elem_of_seqZ. lia.
Qed.

(** The local parity of a group never sits with one of the group's data shards. *)
Lemma parity_alone g i : 0 <= g < l -> 0 <= i < lk -> ~ ((parity_node gr g, g * lk + i) ∈ L).
Proof.
  intros Hg Hi Hin. destruct (elem_of_data_pushes g i Hg Hi) as (node & _ & Hd).
  assert (node = parity_node gr g) as ->.
  { eapply push_unique; [|exact Hin]. apply elem_of_app. by left. }
  destruct (first_nodes_NoDup gr Hok) as [Hfn _]. unfold first_nodes in Hfn.
  assert ((parity_node gr g, g * lk + i) = (parity_node gr g, k + g)) as [= He].
  { eapply (NoDup_fmap_elem fst); [exact Hfn| | |done]; apply elem_of_app.
    - by left.
    - right. by apply elem_of_local_pushes. }
  pose proof (go_k _ Hok). nia.
Qed.

(** The vector of [GetNodePlacementsVector]: the data shards group by group, the
    local parities, and the remaining fragments of every node. *)
Definition data_fp (g i : Z) : FragmentPlacement :=
  mkFragmentPlacement (g * lk + i) g (nth (Z.to_nat i) (nodes_of gr g) 0) kData.
Definition local_fp (g : Z) : FragmentPlacement := mkFragmentPlacement (k + g) g (parity_node gr g) kLocalParity.
Definition global_fps (n : Z) : list FragmentPlacement :=
  (fun f => mkFragmentPlacement f (-1) n kGlobalParity) <$>
    filter (fun f => k + l <= f) (frags_of (node_to_frags_ gr') n).
Definition placement_vector : list FragmentPlacement :=
  concat ((fun g => data_fp g <$> seqZ 0 lk) <$> seqZ 0 l) ++ (local_fp <$> seqZ 0 l) ++ concat (global_fps <$> seqZ 0 N).

Lemma placement_vector_ok : GetNodePlacementsVector gr' = Some placement_vector.
Proof.
  pose proof (group_at gr Hok) as Hga. unfold GetNodePlacementsVector. rewrite Hp, HN, Hgs.
  rewrite (mapM_fun (data_placements p (groups_ gr)) (fun g => data_fp g <$> seqZ 0 lk)),
    (mapM_fun (local_placement p (groups_ gr)) local_fp), (mapM_fun (global_placements p _) global_fps); [done|..].
  - intros n Hn%elem_of_seqZ. destruct (frags_at n ltac:(lia)) as (fs & Hfs & _).
    unfold global_placements, global_fps, frags_of. by rewrite Hfs.
  - intros g Hg%elem_of_seqZ. destruct (Hga g ltac:(lia)) as (grp & Hgrp & Hno & _).
    unfold local_placement. rewrite Hgrp. cbn [mbind option_bind].
    by rewrite <- Hno, (parity_node_last gr Hok) by lia.
  - intros g Hg%elem_of_seqZ. destruct (Hga g ltac:(lia)) as (grp & Hgrp & Hno & _ & Hs).
    unfold data_placements. rewrite Hgrp. cbn [mbind option_bind].
    apply mapM_fun. intros i Hi%elem_of_seqZ.
    assert (data_node (member_nodes grp) i = Some (nth (Z.to_nat i) (nodes_of gr g) 0)) as ->; [|done].
    unfold data_node, crem.
    destruct (Z.eqb_spec (Z.of_nat (length (member_nodes grp)) - 1) 0); [lia|].
    rewrite Z.rem_small, Hno by lia. unfold arr_get. rewrite decide_True by lia.
    apply lookup_nth_lt. lia.
Qed.

Lemma data_fp_pushed g i : 0 <= g < l -> 0 <= i < lk -> (node_id (data_fp g i), g * lk + i) ∈ L.
Proof.
  intros Hg Hi. destruct (elem_of_data_pushes g i Hg Hi) as (node & Hnode & Hin). cbn.
  rewrite (nth_lookup_Some _ _ 0 _ Hnode). apply elem_of_app. by left.
Qed.

Lemma local_fp_pushed g : 0 <= g < l -> (parity_node gr g, k + g) ∈ L.
Proof. intros Hg. apply elem_of_app. right. apply elem_of_app. left. by apply elem_of_local_pushes. Qed.

(** Every record of the vector is a push ... *)
Lemma placement_pushed fp : fp ∈ placement_vector -> (node_id fp, frag_id fp) ∈ L.
Proof.
  intros Hin. unfold placement_vector in Hin. rewrite !elem_of_app, !elem_of_concat_fmap in Hin.
  destruct Hin as [(g & Hg%elem_of_seqZ & Hfp)|[Hfp|(m & Hm%elem_of_seqZ & Hfp)]].
  - apply list_elem_of_fmap in Hfp as (i & -> & Hi%elem_of_seqZ). apply data_fp_pushed; lia.
  - apply list_elem_of_fmap in Hfp as (g & -> & Hg%elem_of_seqZ). apply local_fp_pushed. lia.
  - apply list_elem_of_fmap in Hfp as (x & -> & Hx%list_elem_of_filter). cbn.
    destruct (frags_at m ltac:(lia)) as (fs & Hfs & _ & Hel). unfold frags_of in Hx. rewrite Hfs in Hx. apply Hel, Hx.
Qed.

(** ... and every push has its record. *)
Lemma pushed_placement n f : 0 <= n < N -> (n, f) ∈ L ->
  exists fp, fp ∈ placement_vector /\ node_id fp = n /\ frag_id fp = f.
Proof.
  intros Hn Hin. pose proof (go_k _ Hok). pose proof (go_lk _ Hok).
  assert (0 <= f < 2 * N) as Hf.
  { apply (list_elem_of_fmap_2 snd) in Hin. rewrite pushes_frags, elem_of_seqZ in Hin. cbn in Hin. lia. }
  unfold placement_vector. setoid_rewrite elem_of_app. setoid_rewrite elem_of_app. setoid_rewrite elem_of_concat_fmap.
  destruct (decide (f < k)) as [Hfk|]; [|destruct (decide (f < k + l))].
  - assert (exists g i, f = g * lk + i /\ 0 <= i < lk /\ 0 <= g < l) as (g & i & -> & Hi & Hg).
    { exists (f / lk), (f mod lk). zdm. nia. }
    exists (data_fp g i). split_and!; [|by eapply push_unique; [|exact Hin]; apply data_fp_pushed|done].
    left. exists g. split; [apply elem_of_seqZ; lia|]. apply list_elem_of_fmap. exists i.
    split; [done|]. apply elem_of_seqZ. lia.
  - exists (local_fp (f - k)). cbn. split_and!; [| |lia].
    + right. left. apply list_elem_of_fmap. eexists; split; [done|]. apply elem_of_seqZ. lia.
    + replace f with (k + (f - k)) in Hin by lia. eapply push_unique; [|exact Hin]. apply local_fp_pushed. lia.
  - exists (mkFragmentPlacement f (-1) n kGlobalParity). cbn. split_and!; try done.
    right. right. exists n. split; [apply elem_of_seqZ; lia|]. apply list_elem_of_fmap.
    exists f. split; [done|]. apply list_elem_of_filter.
    destruct (frags_at n Hn) as (fs & Hfs & _ & Hel). unfold frags_of. rewrite Hfs. split; [lia|by apply Hel].
Qed.

Lemma GetFragments_at n : 0 <= n < N -> GetFragmentsForNode n gr' = arr_get (node_to_frags_ gr') n.
Proof.
  intros Hn. unfold GetFragmentsForNode. rewrite HN. destruct (Z.ltb_spec n 0), (Z.leb_spec N n); done || lia.
Qed.

(** The data shards come first, in the order of their ids. *)
Lemma placement_prefix : exists datas others, placement_vector = datas ++ others /\
  frag_id <$> datas = seqZ 0 k /\ Forall (fun fp => kind fp = kData) datas /\
  Forall (fun fp => kind fp <> kData) others.
Proof.
  pose proof (go_k _ Hok) as Hk. pose proof (go_lk _ Hok). pose proof (go_l _ Hok).
  eexists _, _. split; [done|]. split_and!.
  - rewrite Hk, <- concat_blocks by lia. rewrite fmap_concat, <- list_fmap_compose. f_equal. apply list_fmap_ext. intros i g _. cbn.
    by rewrite <- list_fmap_compose.
  - apply Forall_concat, Forall_fmap, Forall_true. intros g. apply Forall_fmap, Forall_true. done.
  - apply Forall_app. split; [by apply Forall_fmap, Forall_true|].
    apply Forall_concat, Forall_fmap, Forall_true. intros n. apply Forall_fmap, Forall_true. done.
Qed.

Lemma placement_vector_group fp : fp ∈ placement_vector -> -1 <= local_group fp < l \/ local_group fp = -1.
Proof.
  intros Hin. unfold placement_vector in Hin. rewrite !elem_of_app, !elem_of_concat_fmap in Hin.
  destruct Hin as [(g & Hg%elem_of_seqZ & Hfp)|[Hfp|(m & Hm%elem_of_seqZ & Hfp)]].
  - apply list_elem_of_fmap in Hfp as (i & -> & _). cbn. lia.
  - apply list_elem_of_fmap in Hfp as (g & -> & Hg%elem_of_seqZ). cbn. lia.
  - apply list_elem_of_fmap in Hfp as (x & -> & _). by right.
Qed.

Lemma length_concat_fmap {A} (f : Z -> list A) (ns : list Z) (c : nat) :
  (forall n, n ∈ ns -> length (f n) <= c)%nat -> (length (concat (f <$> ns)) <= length ns * c)%nat.
Proof.
  induction ns as [|n ns IH]; intros Hc; cbn; [done|]. rewrite length_app.
  specialize (IH ltac:(intros; apply Hc; by right)). specialize (Hc n ltac:(left)). lia.
Qed.

Lemma placement_vector_length : (length placement_vector <= Z.to_nat l * Z.to_nat lk + (Z.to_nat l + Z.to_nat N * 2))%nat.
Proof.
  unfold placement_vector. rewrite !length_app, length_fmap, length_seqZ.
  pose proof (length_concat_fmap (fun g => data_fp g <$> seqZ 0 lk) (seqZ 0 l) (Z.to_nat lk)) as H1.
  pose proof (length_concat_fmap global_fps (seqZ 0 N) 2) as H2. rewrite length_seqZ in H1, H2.
  apply Nat.add_le_mono; [apply H1|apply Nat.add_le_mono_l, H2].
  - intros g _. by rewrite length_fmap, length_seqZ.
  - intros n Hn%elem_of_seqZ. unfold global_fps. rewrite length_fmap.
    destruct (frags_at n ltac:(lia)) as (fs & Hfs & Hl & _). unfold frags_of. rewrite Hfs. cbn. rewrite <- Hl.
    apply length_filter.
Qed.

(** The LRC group recorded for a node. *)
Lemma placement_group_range n fs : 0 <= n < N -> (forall f, f ∈ fs -> 0 <= f) ->
  0 <= placement_group p (groups_ gr) n fs < k + l.
Proof.
  intros Hn Hfs. pose proof (go_k _ Hok) as Hk. pose proof (go_lk _ Hok) as Hlk. pose proof (go_l _ Hok) as Hl.
  unfold placement_group. set (scan := fix scan fs acc := match fs with [] => acc | _ => _ end).
  assert (forall fs acc, (forall f, f ∈ fs -> 0 <= f) -> -1 <= acc < k + l -> -1 <= scan fs acc < k + l) as Hscan.
  { clear fs Hfs. induction fs as [|f fs IH]; intros acc Hf Ha; [done|]. cbn [scan].
    pose proof (Hf f ltac:(left)). assert (forall f, f ∈ fs -> 0 <= f) as Hf' by (intros x Hx; apply Hf; by right).
    destruct (Z.ltb_spec f k).
    - unfold cdiv. rewrite Z.quot_div_nonneg by lia. pose proof (Z.div_le_upper_bound f lk f Hlk ltac:(nia)).
      pose proof (Z.div_pos f lk). lia.
    - destruct (_ && _) eqn:Ho; apply IH; try done. apply andb_prop in Ho as [Ho _]. lia. }
  assert (0 <= l) by (rewrite <- Hl; lia). assert (0 <= k) by (rewrite Hk; nia).
  destruct (Hscan fs (-1) Hfs) as [Hlo Hhi]; [lia|]. cbv zeta.
  destruct (Z.ltb_spec (scan fs (-1)) 0); [|lia].
  destruct (list_find _ _) as [[g grp]|] eqn:Hfind.
  - apply list_find_Some in Hfind as (Hg & _). apply lookup_lt_Some in Hg. lia.
  - apply list_find_None in Hfind. rewrite Forall_forall in Hfind.
    assert (n ∈ concat (member_nodes <$> groups_ gr)) as Hin by (rewrite (go_cover _ Hok), elem_of_seqZ; lia).
    rewrite list_elem_of_In, in_concat in Hin. destruct Hin as (ms & Hms & Hn').
    apply list_elem_of_In, list_elem_of_fmap in Hms as (grp & -> & Hgrp). apply list_elem_of_In in Hn'. by destruct (Hfind _ Hgrp).
Qed.
End mapping_result.

(** The mapping as its users see it: a placement vector whose data shards come first,
    in order, and which gives every node the fragments [GetFragmentsForNode] gives it. *)
Record placement_spec (N k : Z) (gr : LrcComplementaryGrouper) (pl : list FragmentPlacement) : Prop := {
  ps_vector : GetNodePlacementsVector gr = Some pl;
  ps_data : exists datas others, pl = datas ++ others /\ frag_id <$> datas = seqZ 0 k /\
    Forall (fun fp => kind fp = kData) datas /\ Forall (fun fp => kind fp <> kData) others;
  ps_range : forall fp, fp ∈ pl -> 0 <= node_id fp < N /\ 0 <= frag_id fp < 2 * N /\ -1 <= local_group fp < 2 * N;
  ps_length : Z.of_nat (length pl) <= 4 * N;
  ps_node : forall n, 0 <= n < N -> exists fs, GetFragmentsForNode n gr = Some fs /\ length fs = 2%nat /\
    (forall f, f ∈ fs -> 0 <= f < 2 * N) /\ forall fp, fp ∈ pl -> node_id fp = n -> frag_id fp ∈ fs;
  ps_group : forall n, 0 <= n < N -> 0 <= GetLrcGroupIdForNode n gr < 2 * N
}.

Lemma mapping_infos fuel gr gr' : BuildNodeToFragmentsMapping fuel gr = Some gr' ->
  forall n fs, arr_get (node_to_frags_ gr') n = Some fs ->
  node_placement_ gr' !! n = Some (mkNodePlacementInfo n fs (placement_group (lrc_params_ gr) (groups_ gr) n fs)).
Proof.
  unfold BuildNodeToFragmentsMapping. intros Hb.
  apply option.bind_Some in Hb as (d & _ & Hb). apply option.bind_Some in Hb as (ntf0 & _ & Hb).
  apply option.bind_Some in Hb as (st & _ & Hb). apply option.bind_Some in Hb as (ntf & _ & Hb). injection Hb as <-.
  cbn. intros n fs. unfold arr_get. case_decide as Hn; [|done]. intros Hfs.
  apply elem_of_list_to_map_1.
  - match goal with |- NoDup ?l => assert (l = Z.of_nat <$> seq 0 (length ntf)) as -> end.
    { clear. apply list_eq. intros i. rewrite !list_lookup_fmap, list_lookup_imap.
      destruct (decide (i < length ntf)%nat).
      - rewrite lookup_seq_lt by done. by destruct (lookup_lt_is_Some_2 ntf i) as [x ->].
      - rewrite lookup_seq_ge, lookup_ge_None_2 by lia. done. }
    apply NoDup_fmap_2, NoDup_seq. intros ? ? ?. lia.
  - apply list_elem_of_lookup. exists (Z.to_nat n). rewrite list_lookup_imap, Hfs. cbn. by rewrite Z2Nat.id.
Qed.

Lemma mapping_placement (gr : LrcComplementaryGrouper) (fuel : nat) : groups_ok gr ->
  exists gr' pl, BuildNodeToFragmentsMapping (S fuel) gr = Some gr' /\ N_ gr' = N_ gr /\
    lrc_params_ gr' = lrc_params_ gr /\ placement_spec (N_ gr) (lrc_k (lrc_params_ gr)) gr' pl.
Proof.
  intros Hok. destruct (mapping_ok gr Hok fuel) as (gr' & rest & Hb & HN & Hp & Hgs & HL & Hrest & Htwo).
  pose proof (pushes_frags gr Hok rest Hrest) as Hfr.
  pose proof (frags_at gr gr' rest HL Htwo) as Hat.
  pose proof (placement_pushed gr gr' Hok rest HL Htwo) as Hpush.
  assert (forall a b, (a, b) ∈ data_pushes gr (lrc_l (lrc_params_ gr)) ++ local_pushes gr (lrc_l (lrc_params_ gr)) ++ rest ->
    0 <= a < N_ gr /\ 0 <= b < 2 * N_ gr) as Hrg.
  { intros a b Hin. split.
    - destruct HL as (_ & Hr & _). rewrite Forall_forall in Hr. apply (Hr _ Hin).
    - apply (list_elem_of_fmap_2 snd) in Hin. rewrite Hfr, elem_of_seqZ in Hin. cbn in Hin. lia. }
  pose proof (first_nodes_NoDup gr Hok) as [Hnd Hsub]. pose proof (length_first_nodes gr Hok) as Hfl.
  pose proof (NoDup_incl_le _ _ Hnd Hsub) as Hle. rewrite length_seqZ in Hle.
  pose proof (go_l _ Hok) as Hl. pose proof (go_k _ Hok) as Hk. pose proof (go_lk _ Hok) as Hlk.
  assert (0 <= lrc_k (lrc_params_ gr)) as Hk0 by nia. pose proof (go_N _ Hok) as HN0.
  exists gr', (placement_vector gr gr'). split_and!; try done. split.
  - by apply (placement_vector_ok gr gr' Hok rest).
  - apply placement_prefix; done.
  - intros fp Hin. pose proof (placement_vector_group gr gr' fp Hin). pose proof (Hrg _ _ (Hpush _ Hin)). lia.
  - pose proof (placement_vector_length gr gr' rest HL Htwo). nia.
  - intros n Hn. destruct (Hat n Hn) as (fs & Hfs & Hl2 & Hel). exists fs.
    rewrite (GetFragments_at gr gr' HN) by done. split_and!; [done|done|..].
    + intros f Hf%Hel. by eapply Hrg.
    + intros fp Hin <-. by apply Hel, Hpush.
  - intros n Hn. destruct (Hat n Hn) as (fs & Hfs & _ & Hel). unfold GetLrcGroupIdForNode, GetNodePlacement.
    rewrite HN. destruct (Z.ltb_spec n 0), (Z.leb_spec (N_ gr) n); try lia. cbn [orb].
    rewrite (mapping_infos _ _ _ Hb _ _ Hfs). cbn.
    destruct (placement_group_range gr Hok n fs Hn) as [? ?]; [|lia].
    intros f Hf%Hel%Hrg. lia.
Qed.

(** [C22] Fragment placement: when the groups partition the nodes and each has at
    least [k / l + 1] members, the mapping loop terminates (one pass of its fill
    loop suffices), every node stores exactly two fragments, every one of the
    [2 N] fragments is stored on exactly one node, and the code's own validator
    accepts the result (data shards and local parity of a group are separated). *)
Theorem mapping_two_per_node (gr : LrcComplementaryGrouper) (fuel : nat) (Hok : groups_ok gr) :
  exists gr', BuildNodeToFragmentsMapping (S fuel) gr = Some gr' /\
    (forall n, 0 <= n < N_ gr -> exists f1 f2, GetFragmentsForNode n gr' = Some [f1; f2]) /\
    (forall f, 0 <= f < 2 * N_ gr ->
       exists n fs, 0 <= n < N_ gr /\ GetFragmentsForNode n gr' = Some fs /\ f ∈ fs /\
         forall n' fs', 0 <= n' < N_ gr -> GetFragmentsForNode n' gr' = Some fs' -> f ∈ fs' -> n' = n) /\
    ValidatePlacementConstraints gr' = Some true.
Proof.
  destruct (mapping_ok gr Hok fuel) as (gr' & rest & Hb & HN & Hp & Hgs & HL & Hrest & Htwo).
  pose proof (frags_at gr gr' rest HL Htwo) as Hat.
  assert (forall n, 0 <= n < N_ gr -> GetFragmentsForNode n gr' = arr_get (node_to_frags_ gr') n) as Hget.
  { intros n Hn. unfold GetFragmentsForNode. rewrite HN.
    destruct (Z.ltb_spec n 0), (Z.leb_spec (N_ gr) n); done || lia. }
  exists gr'. split_and!; [done| | |].
  - intros n Hn. rewrite Hget by done. destruct (Hat n Hn) as ([|f1 [|f2 [|]]] & -> & Hlen & _); try done.
    eauto.
  - intros f Hf. destruct (push_node gr gr' Hok rest HL Hrest f Hf) as (n & Hn & Hin).
    destruct (Hat n Hn) as (fs & Hfs & _ & Hel). exists n, fs. rewrite Hget by done.
    split; [done|]. split; [done|]. split; [by apply Hel|].
    intros n' fs' Hn' Hg' Hin'. rewrite Hget in Hg' by done.
    destruct (Hat n' Hn') as (fs1 & Hfs1 & _ & Hel1). assert (fs' = fs1) as -> by congruence.
    eapply (push_unique gr); try done. by apply Hel1.
  - unfold ValidatePlacementConstraints. rewrite Hp, HN.
    rewrite (mapM_fun (check_count gr') (fun _ => true)), (mapM_fun (check_parity gr') (fun _ => true)),
      (mapM_fun (check_size gr') (fun _ => true)).
    + cbn. f_equal.
      assert (forall m : list Z, forallb id ((fun _ : Z => true) <$> m) = true) as Hall
        by (induction m; done).
      by rewrite !Hall.
    + intros g Hg%elem_of_seqZ. destruct (group_at gr Hok g ltac:(lia)) as (grp & Hgrp & _ & _ & Hs).
      unfold check_size. rewrite Hgs, Hp, Hgrp. cbn. f_equal. by apply Z.leb_le.
    + intros g Hg%elem_of_seqZ. unfold check_parity. rewrite Hgs, Hp.
      destruct (group_at gr Hok g ltac:(lia)) as (grp & Hgrp & Hno & _ & _).
      rewrite Hgrp. cbn [mbind option_bind].
      rewrite <- Hno, (parity_node_last gr Hok) by lia. cbn [mbind option_bind].
      destruct (Hat (parity_node gr g)) as (fs & -> & _ & Hel).
      { apply (member_range gr Hok g); [lia|]. apply last_Some_elem_of.
        apply (parity_node_last gr Hok). lia. }
      cbn. f_equal. apply forallb_forall. intros i Hi%list_elem_of_In%elem_of_seqZ.
      rewrite bool_decide_eq_false_2; [done|]. rewrite Hel.
      eapply parity_alone; try done; lia.
    + intros n Hn%elem_of_seqZ. destruct (Hat n ltac:(lia)) as (fs & Hfs & Hlen & _).
      unfold check_count. rewrite Hfs. cbn. by rewrite Hlen.
Qed.

(** [C24] The two descriptions of the placement agree: the vector that [Propose]
    stores in a log entry ([GetNodePlacementsVector]) places fragment [f] on node
    [n] exactly when the table used for replication ([GetFragmentsForNode]) lists
    [f] for [n]. *)
Theorem placements_agree (gr : LrcComplementaryGrouper) (fuel : nat) (Hok : groups_ok gr) :
  exists gr' pl, BuildNodeToFragmentsMapping (S fuel) gr = Some gr' /\
    GetNodePlacementsVector gr' = Some pl /\
    forall n f, 0 <= n < N_ gr ->
      (exists fp, fp ∈ pl /\ node_id fp = n /\ frag_id fp = f) <->
      (exists fs, GetFragmentsForNode n gr' = Some fs /\ f ∈ fs).
Proof.
  destruct (mapping_ok gr Hok fuel) as (gr' & rest & Hb & HN & Hp & Hgs & HL & Hrest & Htwo).
  exists gr', (placement_vector gr gr'). split; [done|].
  split; [by eapply placement_vector_ok|]. intros n f Hn.
  destruct (frags_at gr gr' rest HL Htwo n Hn) as (fs & Hfs & _ & Hel).
  rewrite (GetFragments_at gr gr' HN n Hn), Hfs. split.
  - intros (fp & Hin & <- & <-). exists fs. split; [done|]. apply Hel. by eapply placement_pushed.
  - intros (? & [= <-] & Hin%Hel). by eapply pushed_placement.
Qed.

(** Seven nodes in groups {0,1,2,3} and {4,5,6}, LRC(4, 2, 8). *)
Definition grouper7 : LrcComplementaryGrouper :=
  mkGrouper 7 (mkLrcParams 4 2 8)
    [mkLocalGroup 0 [0; 1; 2; 3] false; mkLocalGroup 1 [4; 5; 6] false] [] ∅.

Definition grouper7_ok : groups_ok grouper7.
Proof.
  split; try (vm_compute; reflexivity || discriminate).
  repeat constructor; vm_compute; discriminate.
Defined.

Lemma mapping_two_per_node_witness :
  exists gr', BuildNodeToFragmentsMapping 1 grouper7 = Some gr' /\
    (forall n, 0 <= n < 7 -> exists f1 f2, GetFragmentsForNode n gr' = Some [f1; f2]).
Proof.
  destruct (mapping_two_per_node grouper7 0 grouper7_ok) as (gr' & H1 & H2 & _).
  exists gr'. split; [exact H1 | exact H2].
Defined.

Lemma placements_agree_witness :
  exists gr' pl, BuildNodeToFragmentsMapping 1 grouper7 = Some gr' /\
    GetNodePlacementsVector gr' = Some pl.
Proof.
  destruct (placements_agree grouper7 0 grouper7_ok) as (gr' & pl & H1 & H2 & _).
  exists gr', pl. split; [exact H1 | exact H2].
Defined.

(** ** The swap optimisation can break the partition *)

(** A symmetric latency matrix with entries in [30, 300], zero on the diagonal. *)
Definition lat7 : LatencyMatrix := mkLatencyMatrix 7
  [[0; 165; 107; 186; 114; 239; 141];
   [165; 0; 57; 285; 56; 67; 142];
   [107; 57; 0; 283; 104; 252; 299];
   [186; 285; 283; 0; 270; 98; 297];
   [114; 56; 104; 270; 0; 71; 295];
   [239; 67; 252; 98; 71; 0; 149];
   [141; 142; 299; 297; 295; 149; 0]] [].

Definition lat7_start : LrcComplementaryGrouper := mkGrouper 7 (mkLrcParams 4 2 8) [] [] ∅.

(** The grouper the code builds from [lat7]. *)
Definition lat7_result : LrcComplementaryGrouper :=
  Eval vm_compute in default lat7_start (BuildComplementaryGroups 50 lat7 lat7_start).

(** Phase 3 swaps [node_u] after it has already been moved in the same [j]
    loop, so the groups it leaves need not partition the nodes. On a symmetric
    7-node matrix with latencies in the generator's range the result puts node 1
    twice into group 1 and node 3 into none: node 3 has no LRC group, the node
    that holds local parity 5 also holds data shard 3 of the same group, and the
    code's validator rejects the placement it has just installed. *)
Theorem Phase3_breaks_partition :
  exists gr gr', LrcComplementaryGrouper_ctor 7 = Some gr /\
    BuildComplementaryGroups 50 lat7 gr = Some gr' /\
    (forall grp, grp ∈ groups_ gr' -> ~ (3 ∈ member_nodes grp)) /\
    GetLrcGroupIdForNode 3 gr' = -1 /\
    GetFragmentsForNode 1 gr' = Some [3; 5] /\
    ValidatePlacementConstraints gr' = Some false.
Proof.
  exists lat7_start, lat7_result. split_and!; try (vm_compute; reflexivity).
  intros grp Hin. cbn in Hin.
  repeat (apply elem_of_cons in Hin as [->|Hin]; [cbn; rewrite !elem_of_cons, elem_of_nil; lia|]).
  by apply elem_of_nil in Hin.
Qed.
