(* ===== verification/Memory.v ===== *)
(** The memory of slices and log entries (src/raft/log_entry.h, log_entry.cc).

    Everywhere else a slice is its bytes. Here it is what the class has: a pointer, a
    size and the flag that says whether the slice frees the buffer. The heap maps the
    address of every allocated buffer to its bytes; a read outside a buffer, a
    [delete[]] of an address that is not allocated and a read after it are undefined
    ([None]). The constructors, assignments, setters and the destructor of [Slice] and
    [LogEntry] are computations on this heap, and [entries_refine_values] shows that
    they behave as the values of Types.v do: every entry owns its buffers, no two
    entries share one, and none is leaked. An entry that is destroyed is gone here;
    the deleter of the log, which destroys an entry inside an array that goes on using
    it, and the storage of the vectors, are in LogManager.v. *)

From stdpp Require Import gmap.
From iris.proofmode Require Import proofmode.
From S2P Require Import Prelude Types Encoder Separation.

(** The address [new char[n]] answers, which may be one that was freed before. *)
Class Malloc := new_addr : Heap -> nat -> Z.
Class MallocOk `{Malloc} : Prop := malloc_fresh : forall h n, h !! new_addr h n = None.

Record Pointer := mkPointer { block : Z; offset : Z }.

Section memory.
Context `{Malloc}.
Abbreviation C := (M Heap).

(** ** Buffers *)
Definition new_block (bs : list Z) : C Z :=
  h <- get ;; let a := new_addr h (length bs) in modify <[a := bs]> ;;; ret a.

(** [memcpy] out of the buffer [p] points into. *)
Definition load (p : option Pointer) (n : Z) : C (list Z) :=
  h <- get ;;
  lift (p ← p; bs ← h !! block p;
        if (0 <=? offset p) && (offset p + n <=? slice_size bs) then Some (sub_slice bs (offset p) n) else None).

(** [delete[] p]. *)
Definition delete_array (p : option Pointer) : C unit :=
  match p with
  | None => ret tt
  | Some p =>
      h <- get ;;
      assertM ((offset p =? 0) && bool_decide (is_Some (h !! block p))) ;;;
      modify (delete (block p))
  end.

(** [new char[n]] followed by [memcpy(data, p, n)]. *)
Definition new_copy (p : option Pointer) (n : Z) : C (option Pointer) :=
  bs <- load p n ;; a <- new_block bs ;; ret (Some (mkPointer a 0)).

(** ** Slice *)
Record HSlice := mkHSlice { data_ : option Pointer; size_ : Z; owned_ : bool }.

Definition null_slice : HSlice := mkHSlice None 0 false.
Definition is_null (s : HSlice) : bool := match data_ s with None => true | Some _ => false end.
Definition hvalid (s : HSlice) : bool := negb (is_null s) && (0 <? size_ s).

Definition Take (data : option Pointer) (size : Z) : HSlice := mkHSlice data size true.
Definition View (data : option Pointer) (size : Z) : HSlice := mkHSlice data size false.

Definition Slice_copy_of (s : HSlice) : C HSlice :=
  if 0 <? size_ s then p <- new_copy (data_ s) (size_ s) ;; ret (Take p (size_ s)) else ret null_slice.

(** [Slice(const std::string &)]. *)
Definition Slice_of_string (bs : list Z) : C HSlice :=
  a <- new_block bs ;; ret (Take (Some (mkPointer a 0)) (slice_size bs)).

(** [if (owned_ && data_ != nullptr) delete[] data_]. *)
Definition release_owned (s : HSlice) : C unit := when (owned_ s && negb (is_null s)) (delete_array (data_ s)).

Definition Slice_dtor (s : HSlice) : C unit := release_owned s.

Definition Slice_copy_ctor (other : HSlice) : C HSlice :=
  if owned_ other && (0 <? size_ other) then
    p <- new_copy (data_ other) (size_ other) ;; ret (Take p (size_ other))
  else if negb (is_null other) then ret (View (data_ other) (size_ other))
  else ret null_slice.

(** [*this = other] for two objects. *)
Definition Slice_assign (this other : HSlice) : C HSlice := release_owned this ;;; Slice_copy_ctor other.

(** [*this = std::move(other)]; the other slice is null afterwards. *)
Definition Slice_move_assign (this other : HSlice) : C HSlice := release_owned this ;;; ret other.

(** [std::string(data_, size_)]. *)
Definition toString (s : HSlice) : C (list Z) := if size_ s =? 0 then ret [] else load (data_ s) (size_ s).

(** [if (s.valid() && s.owned()) { delete[] s.data(); s.ResetOwned(); }]. *)
Definition release_member (s : HSlice) : C HSlice :=
  if hvalid s && owned_ s then delete_array (data_ s) ;;; ret null_slice else ret s.

(** [if (other.valid()) { copy; member = Slice::Take(copy) }]. *)
Definition copy_member (this other : HSlice) : C HSlice :=
  if hvalid other then p <- new_copy (data_ other) (size_ other) ;; Slice_move_assign this (Take p (size_ other))
  else ret this.

(** The setters of the three members: the buffer is freed, and the slice is assigned. *)
Definition set_member (this slice : HSlice) : C HSlice :=
  when (hvalid this && owned_ this) (delete_array (data_ this)) ;;;
  if hvalid slice then p <- new_copy (data_ slice) (size_ slice) ;; Slice_move_assign this (Take p (size_ slice))
  else Slice_move_assign this null_slice.

(** [emplace_back(copy of frag)] or [emplace_back()]. *)
Definition copy_fragment (frag : HSlice) : C HSlice := copy_member null_slice frag.

Fixpoint mapC {X Y} (f : X -> C Y) (l : list X) : C (list Y) :=
  match l with
  | [] => ret []
  | x :: l => y <- f x ;; ys <- mapC f l ;; ret (y :: ys)
  end.

(** [fragments_] is emptied: every fragment is released and then destroyed. *)
Definition clear_fragments (frags : list HSlice) : C unit :=
  frags <- mapC release_member frags ;; _ <- mapC Slice_dtor frags ;; ret tt.

(** ** LogEntry *)
Record HEntry := mkHEntry {
  h_term : Z;
  h_index : Z;
  h_type : raft_entry_type;
  h_chunk_info : ChunkInfo;
  h_start_fragment_offset : Z;
  h_command_size_ : Z;
  h_command_data_ : HSlice;
  h_not_encoded_slice_ : HSlice;
  h_fragment_slice_ : HSlice;
  h_fragments_ : list HSlice;
  h_frag_ids_ : list Z;
  h_placement_ : list FragmentPlacement
}.

Definition HEntry_eta (e : HEntry) : HEntry :=
  mkHEntry (h_term e) (h_index e) (h_type e) (h_chunk_info e) (h_start_fragment_offset e) (h_command_size_ e)
    (h_command_data_ e) (h_not_encoded_slice_ e) (h_fragment_slice_ e) (h_fragments_ e) (h_frag_ids_ e)
    (h_placement_ e).

(** [LogEntry()]; the scalar members, left uninitialised, are 0 as in Types.v. *)
Definition HEntry_default : HEntry :=
  mkHEntry 0 0 kNormal (ChunkInfo_init 0 0) 0 0 null_slice null_slice null_slice [] [] [].

Definition h_SetIndex : Z -> HEntry -> HEntry := ltac:(setter_of HEntry_eta h_index).
Definition h_SetTerm : Z -> HEntry -> HEntry := ltac:(setter_of HEntry_eta h_term).
Definition h_SetType : raft_entry_type -> HEntry -> HEntry := ltac:(setter_of HEntry_eta h_type).
Definition h_SetChunkInfo : ChunkInfo -> HEntry -> HEntry := ltac:(setter_of HEntry_eta h_chunk_info).
Definition h_SetStartOffset : Z -> HEntry -> HEntry := ltac:(setter_of HEntry_eta h_start_fragment_offset).
Definition h_SetCommandLength : Z -> HEntry -> HEntry := ltac:(setter_of HEntry_eta h_command_size_).
Definition h_SetPlacement : list FragmentPlacement -> HEntry -> HEntry := ltac:(setter_of HEntry_eta h_placement_).
Definition h_SetFragIds : list Z -> HEntry -> HEntry := ltac:(setter_of HEntry_eta h_frag_ids_).
Definition set_h_command_data_ : HSlice -> HEntry -> HEntry := ltac:(setter_of HEntry_eta h_command_data_).
Definition set_h_not_encoded_ : HSlice -> HEntry -> HEntry := ltac:(setter_of HEntry_eta h_not_encoded_slice_).
Definition set_h_fragment_ : HSlice -> HEntry -> HEntry := ltac:(setter_of HEntry_eta h_fragment_slice_).
Definition set_h_fragments_ : list HSlice -> HEntry -> HEntry := ltac:(setter_of HEntry_eta h_fragments_).

(** The body of the destructor, then the destructors of the members. *)
Definition LogEntry_dtor (e : HEntry) : C unit :=
  clear_fragments (h_fragments_ e) ;;;
  c <- release_member (h_command_data_ e) ;;
  n <- release_member (h_not_encoded_slice_ e) ;;
  f <- release_member (h_fragment_slice_ e) ;;
  Slice_dtor f ;;; Slice_dtor n ;;; Slice_dtor c.

Definition LogEntry_copy_ctor (other : HEntry) : C HEntry :=
  c <- copy_member null_slice (h_command_data_ other) ;;
  n <- copy_member null_slice (h_not_encoded_slice_ other) ;;
  f <- copy_member null_slice (h_fragment_slice_ other) ;;
  frags <- mapC copy_fragment (h_fragments_ other) ;;
  ret (mkHEntry (h_term other) (h_index other) (h_type other) (h_chunk_info other)
         (h_start_fragment_offset other) (h_command_size_ other) c n f frags (h_frag_ids_ other) (h_placement_ other)).

(** [*this = other] for two objects; an entry assigned to itself stays as it is. *)
Definition LogEntry_assign (this other : HEntry) : C HEntry :=
  clear_fragments (h_fragments_ this) ;;;
  c <- release_member (h_command_data_ this) ;;
  n <- release_member (h_not_encoded_slice_ this) ;;
  f <- release_member (h_fragment_slice_ this) ;;
  c <- copy_member c (h_command_data_ other) ;;
  n <- copy_member n (h_not_encoded_slice_ other) ;;
  f <- copy_member f (h_fragment_slice_ other) ;;
  frags <- mapC copy_fragment (h_fragments_ other) ;;
  ret (mkHEntry (h_term other) (h_index other) (h_type other) (h_chunk_info other)
         (h_start_fragment_offset other) (h_command_size_ other) c n f frags (h_frag_ids_ other) (h_placement_ other)).

Definition h_SetCommandData (slice : HSlice) (e : HEntry) : C HEntry :=
  s <- set_member (h_command_data_ e) slice ;;
  ret (h_SetCommandLength (size_ slice) (set_h_command_data_ s e)).
Definition h_SetNotEncodedSlice (slice : HSlice) (e : HEntry) : C HEntry :=
  s <- set_member (h_not_encoded_slice_ e) slice ;; ret (set_h_not_encoded_ s e).
Definition h_SetFragmentSlice (slice : HSlice) (e : HEntry) : C HEntry :=
  s <- set_member (h_fragment_slice_ e) slice ;; ret (set_h_fragment_ s e).

(** One iteration of the loop of [SetFragments]. *)
Definition keep_fragment (i : nat) (frag : HSlice) : C (HSlice * Z) :=
  if hvalid frag && (size_ frag <? 1024 * 1024)
  then s <- copy_fragment frag ;; ret (s, Z.of_nat i) else ret (null_slice, -1).

Fixpoint keep_fragments (i : nat) (frags : list HSlice) : C (list (HSlice * Z)) :=
  match frags with
  | [] => ret []
  | f :: frags => p <- keep_fragment i f ;; ps <- keep_fragments (S i) frags ;; ret (p :: ps)
  end.

Definition h_SetFragments (frags : list HSlice) (e : HEntry) : C HEntry :=
  clear_fragments (h_fragments_ e) ;;;
  ps <- keep_fragments 0 (take kMaxFragments frags) ;;
  ret (h_SetFragIds ps.*2 (set_h_fragments_ ps.*1 e)).

Definition h_AddFragmentWithId (frag_id : Z) (frag : HSlice) (e : HEntry) : C HEntry :=
  if hvalid frag then
    s <- copy_fragment frag ;;
    ret (h_SetFragIds (h_frag_ids_ e ++ [frag_id]) (set_h_fragments_ (h_fragments_ e ++ [s]) e))
  else ret e.
Definition h_AddFragment (frag : HSlice) (e : HEntry) : C HEntry :=
  h_AddFragmentWithId (Z.of_nat (length (h_fragments_ e))) frag e.

(** The getters answer copies; the caller destroys them. *)
Definition h_CommandData (e : HEntry) : C HSlice :=
  match h_type e with kNormal => Slice_copy_ctor (h_command_data_ e) | _ => ret null_slice end.
Definition h_NotEncodedSlice (e : HEntry) : C HSlice :=
  match h_type e with kNormal => h_CommandData e | _ => Slice_copy_ctor (h_not_encoded_slice_ e) end.
Definition h_FragmentSlice (e : HEntry) : C HSlice :=
  match h_type e with kNormal => ret null_slice | _ => Slice_copy_ctor (h_fragment_slice_ e) end.

(** ** What a buffer costs *)
Context {HM : MallocOk}.
Implicit Types (bs : list Z).

Lemma wp_new_block bs (Φ : Z -> hprop) : (∀ a, a ↦ bs -∗ Φ a) ⊢ wp (new_block bs) Φ.
Proof.
  split. intros h HΦ hf Hd. set (a := new_addr (h ∪ hf) (length bs)).
  assert ((h ∪ hf) !! a = None) as [Hh Hf]%lookup_union_None by apply malloc_fresh.
  exists a, (h ∪ {[a := bs]}). split_and!.
  - unfold new_block. rw bind_get. cbv zeta. fold a. rw bind_modify.
    unfold ret. do 2 f_equal. rw (map_union_comm h {[a := bs]}); [|by apply map_disjoint_singleton_r].
    by rw -assoc_L insert_union_singleton_l.
  - apply map_disjoint_union_l. split; [done|]. by apply map_disjoint_singleton_l.
  - apply HΦ; [by apply map_disjoint_singleton_r|]. done.
Qed.

Lemma wp_load a bs o n (Φ : list Z -> hprop) :
  0 <= o -> o + n <= slice_size bs ->
  a ↦ bs ∗ (a ↦ bs -∗ Φ (sub_slice bs o n)) ⊢ wp (load (Some (mkPointer a o)) n) Φ.
Proof.
  intros Ho Hn. split. intros h (h1 & h2 & -> & Hd12 & H1 & H2) hf Hd. cbn in H1. subst h1.
  exists (sub_slice bs o n), ({[a := bs]} ∪ h2). split_and!; [|done|].
  - unfold load. rw bind_get. unfold lift. cbn.
    rw (lookup_union_Some_l _ _ a bs); [|by rw (lookup_union_Some_l _ _ a bs) // lookup_singleton_eq].
    cbn. by rw (proj2 (Z.leb_le _ _) Ho) (proj2 (Z.leb_le _ _) Hn).
  - rw map_union_comm; [|done]. apply H2; [done|]. done.
Qed.

Lemma wp_delete a bs (Φ : unit -> hprop) : a ↦ bs ∗ Φ tt ⊢ wp (delete_array (Some (mkPointer a 0))) Φ.
Proof.
  split. intros h (h1 & h2 & -> & Hd12 & H1 & H2) hf Hd. cbn in H1. subst h1.
  apply map_disjoint_union_l in Hd as [Hd1 Hd2]. apply map_disjoint_singleton_l in Hd1, Hd12.
  exists tt, h2. split_and!; [|done|done].
  unfold delete_array. rw bind_get. cbn [offset block].
  assert ((({[a := bs]} ∪ h2) ∪ hf) !! a = Some bs) as Hl.
  { apply lookup_union_Some_l. by rw (lookup_union_Some_l _ _ a bs) // lookup_singleton_eq. }
  rw bind_assert; [|by rw Hl bool_decide_true].
  unfold modify. do 2 f_equal. rw -assoc_L -insert_union_singleton_l delete_insert_id //.
  by apply lookup_union_None.
Qed.

(** ** Ownership of slices *)

(** The slice owns the buffer that holds [bs]. *)
Definition held (s : HSlice) bs : hprop :=
  ∃ a, <affine> ⌜s = Take (Some (mkPointer a 0)) (slice_size bs)⌝ ∗ a ↦ bs.

(** A member of an entry whose bytes are [bs]: null, or the owner of a buffer. *)
Definition slice_rep (s : HSlice) bs : hprop := (if valid bs then held s bs else <affine> ⌜s = null_slice⌝)%I.

Lemma held_hvalid s bs : held s bs ⊢ <affine> ⌜hvalid s = valid bs⌝ ∗ held s bs.
Proof.
  iIntros "(%a & -> & Ha)". iSplitR.
  - iPureIntro. unfold hvalid. cbn. unfold slice_size. by destruct bs.
  - iExists a. by iFrame.
Qed.

Lemma slice_rep_hvalid s bs : slice_rep s bs ⊢ <affine> ⌜hvalid s = valid bs⌝ ∗ slice_rep s bs.
Proof.
  unfold slice_rep. destruct (valid bs) eqn:Hb.
  - iIntros "Hs". iDestruct (held_hvalid with "Hs") as "[%Hv $]". by rw Hv.
  - iIntros "->". by iSplitR.
Qed.

Lemma wp_new_copy s bs (Φ : option Pointer -> hprop) :
  held s bs ∗ (∀ p, held s bs ∗ held (Take p (size_ s)) bs -∗ Φ p) ⊢ wp (new_copy (data_ s) (size_ s)) Φ.
Proof.
  iIntros "[(%a & -> & Ha) HΦ]". cbn. unfold new_copy. iApply wp_bind.
  iApply (wp_load a bs 0 (slice_size bs)); [done|done|]. iFrame "Ha". iIntros "Ha".
  iApply wp_bind. iApply wp_new_block. iIntros (a') "Ha'". iApply wp_ret. iApply "HΦ".
  iSplitL "Ha"; [iExists a; by iFrame|]. iExists a'. iSplitR; [done|].
  unfold sub_slice, slice_size. by rw Nat2Z.id drop_0 firstn_all.
Qed.

Lemma wp_release_owned s bs (Φ : unit -> hprop) : held s bs ∗ Φ tt ⊢ wp (release_owned s) Φ.
Proof. iIntros "[(%a & -> & Ha) HΦ]". iApply (wp_delete a bs). iFrame. Qed.

Lemma wp_Slice_of_string bs (Φ : HSlice -> hprop) : (∀ s, held s bs -∗ Φ s) ⊢ wp (Slice_of_string bs) Φ.
Proof.
  iIntros "HΦ". iApply wp_bind. iApply wp_new_block. iIntros (a) "Ha". iApply wp_ret. iApply "HΦ".
  iExists a. by iFrame.
Qed.

Lemma wp_toString s bs (Φ : list Z -> hprop) : held s bs ∗ (held s bs -∗ Φ bs) ⊢ wp (toString s) Φ.
Proof.
  iIntros "[(%a & -> & Ha) HΦ]". unfold toString. cbn. destruct bs as [|b bs]; cbn [slice_size length Z.of_nat Z.eqb].
  - iApply wp_ret. iApply "HΦ". iExists a. by iFrame.
  - iApply (wp_load a (b :: bs) 0); [done|done|]. iFrame "Ha". iIntros "Ha".
    unfold sub_slice, slice_size. rw Nat2Z.id drop_0 firstn_all. iApply "HΦ". iExists a. by iFrame.
Qed.

Lemma wp_Slice_dtor s bs (Φ : unit -> hprop) : slice_rep s bs ∗ Φ tt ⊢ wp (Slice_dtor s) Φ.
Proof.
  unfold slice_rep. destruct (valid bs); [apply wp_release_owned|]. iIntros "[-> HΦ]". by iApply wp_ret.
Qed.

Lemma wp_release_member s bs (Φ : HSlice -> hprop) : slice_rep s bs ∗ Φ null_slice ⊢ wp (release_member s) Φ.
Proof.
  iIntros "[Hs HΦ]". iDestruct (slice_rep_hvalid with "Hs") as "[%Hv Hs]". unfold release_member, slice_rep.
  rw Hv. destruct (valid bs); cbn.
  - iDestruct "Hs" as "(%a & -> & Ha)". cbn. iApply wp_bind. iApply (wp_delete a bs). iFrame. by iApply wp_ret.
  - iDestruct "Hs" as "->". by iApply wp_ret.
Qed.

Lemma wp_copy_member s bs (Φ : HSlice -> hprop) :
  slice_rep s bs ∗ (∀ s', slice_rep s bs ∗ slice_rep s' bs -∗ Φ s') ⊢ wp (copy_member null_slice s) Φ.
Proof.
  iIntros "[Hs HΦ]". iDestruct (slice_rep_hvalid with "Hs") as "[%Hv Hs]". unfold copy_member. rw Hv.
  unfold slice_rep. destruct (valid bs).
  - iApply wp_bind. iApply wp_new_copy. iFrame "Hs". iIntros (p) "Hs". iApply wp_bind. iApply wp_ret.
    iApply wp_ret. by iApply "HΦ".
  - iApply wp_ret. iApply "HΦ". by iFrame.
Qed.

(** A setter of a member that holds no buffer. *)
Lemma wp_set_member s bs (Φ : HSlice -> hprop) :
  held s bs ∗ (∀ s', held s bs ∗ slice_rep s' bs -∗ Φ s') ⊢ wp (set_member null_slice s) Φ.
Proof.
  iIntros "[Hs HΦ]". iDestruct (held_hvalid with "Hs") as "[%Hv Hs]". unfold set_member. cbn.
  iApply wp_bind. iApply wp_ret. rw Hv. unfold slice_rep. destruct (valid bs).
  - iApply wp_bind. iApply wp_new_copy. iFrame "Hs". iIntros (p) "Hs". iApply wp_bind. iApply wp_ret.
    iApply wp_ret. by iApply "HΦ".
  - iApply wp_bind. iApply wp_ret. iApply wp_ret. iApply "HΦ". by iFrame.
Qed.

(** A getter answers a copy. *)
Lemma wp_Slice_copy_ctor s bs (Φ : HSlice -> hprop) :
  slice_rep s bs ∗ (∀ s', slice_rep s bs ∗ slice_rep s' bs -∗ Φ s') ⊢ wp (Slice_copy_ctor s) Φ.
Proof.
  unfold slice_rep, Slice_copy_ctor. iIntros "[Hs HΦ]". destruct bs as [|b bs]; cbn [valid].
  - iDestruct "Hs" as "->". iApply wp_ret. iApply "HΦ". by iSplit.
  - iAssert (<affine> ⌜owned_ s && (0 <? size_ s) = true⌝ ∗ held s (b :: bs))%I with "[Hs]" as "[%Hs Hs]".
    { iDestruct "Hs" as "(%a & -> & Ha)". iSplitR; [done|]. iExists a. by iFrame. }
    rw Hs. iApply wp_bind. iApply wp_new_copy. iFrame "Hs". iIntros (p) "Hs". iApply wp_ret. by iApply "HΦ".
Qed.

(** ** Lists of fragments *)
Definition slices_rep (ss : list HSlice) (bss : list (list Z)) : hprop := ([∗ list] s;bs ∈ ss;bss, slice_rep s bs)%I.

Lemma wp_copy_fragments ss : forall bss (Φ : list HSlice -> hprop),
  slices_rep ss bss ∗ (∀ ss', slices_rep ss bss ∗ slices_rep ss' bss -∗ Φ ss') ⊢ wp (mapC copy_fragment ss) Φ.
Proof.
  unfold slices_rep. induction ss as [|s ss IH]; intros [|bs bss] Φ; cbn [mapC]; iIntros "[Hs HΦ]".
  - iApply wp_ret. iApply "HΦ". by iFrame.
  - iDestruct (big_sepL2_nil_inv_l with "Hs") as %[=].
  - iDestruct (big_sepL2_nil_inv_r with "Hs") as %[=].
  - iDestruct "Hs" as "[Hs Hss]". iApply wp_bind. iApply wp_copy_member. iFrame "Hs". iIntros (s') "[Hs Hs']".
    iApply wp_bind. iApply IH. iFrame "Hss". iIntros (ss') "[Hss Hss']". iApply wp_ret. iApply "HΦ". iFrame.
Qed.

Lemma wp_release_members ss : forall bss (Φ : list HSlice -> hprop),
  slices_rep ss bss ∗ Φ (const null_slice <$> ss) ⊢ wp (mapC release_member ss) Φ.
Proof.
  unfold slices_rep. induction ss as [|s ss IH]; intros [|bs bss] Φ; cbn [mapC]; iIntros "[Hs HΦ]".
  - by iApply wp_ret.
  - iDestruct (big_sepL2_nil_inv_l with "Hs") as %[=].
  - iDestruct (big_sepL2_nil_inv_r with "Hs") as %[=].
  - iDestruct "Hs" as "[Hs Hss]". iApply wp_bind. iApply wp_release_member. iFrame "Hs".
    iApply wp_bind. iApply IH. iFrame "Hss". by iApply wp_ret.
Qed.

Lemma wp_dtor_nulls (ss : list HSlice) : forall (Φ : list unit -> hprop),
  Φ (const tt <$> ss) ⊢ wp (mapC Slice_dtor (const null_slice <$> ss)) Φ.
Proof.
  induction ss as [|s ss IH]; intros Φ; cbn [mapC fmap list_fmap]; iIntros "HΦ"; [by iApply wp_ret|].
  iApply wp_bind. iApply wp_ret. iApply wp_bind. iApply IH. by iApply wp_ret.
Qed.

Lemma wp_clear_fragments ss bss (Φ : unit -> hprop) : slices_rep ss bss ∗ Φ tt ⊢ wp (clear_fragments ss) Φ.
Proof.
  iIntros "[Hs HΦ]". iApply wp_bind. iApply wp_release_members. iFrame "Hs".
  iApply wp_bind. iApply wp_dtor_nulls. by iApply wp_ret.
Qed.

(** Slices that were made of strings. *)
Definition helds (ss : list HSlice) (bss : list (list Z)) : hprop := ([∗ list] s;bs ∈ ss;bss, held s bs)%I.

Lemma helds_split ss bss (n : nat) : length ss = length bss ->
  helds ss bss ⊣⊢ helds (take n ss) (take n bss) ∗ helds (drop n ss) (drop n bss).
Proof.
  intros Hl. unfold helds. rw -big_sepL2_app_same_length; [by rw !take_drop|]. left. rw !length_take. lia.
Qed.

(** What [SetFragments] makes of a fragment, and the id it gets. *)
Definition kept bs : list Z := if valid bs && (slice_size bs <? 1024 * 1024) then bs else [].
Definition kept_id (i : nat) bs : Z := if valid bs && (slice_size bs <? 1024 * 1024) then Z.of_nat i else -1.

Lemma wp_keep_fragment i s bs (Φ : HSlice * Z -> hprop) :
  held s bs ∗ (∀ s', held s bs ∗ slice_rep s' (kept bs) -∗ Φ (s', kept_id i bs)) ⊢ wp (keep_fragment i s) Φ.
Proof.
  iIntros "[Hs HΦ]". iDestruct (held_hvalid with "Hs") as "[%Hv Hs]".
  iAssert (<affine> ⌜size_ s = slice_size bs⌝ ∗ held s bs)%I with "[Hs]" as "[%Hn Hs]".
  { iDestruct "Hs" as "(%a & -> & Ha)". iSplitR; [done|]. iExists a. by iFrame. }
  unfold keep_fragment, kept, kept_id. rw Hv Hn. destruct (valid bs && (slice_size bs <? 1024 * 1024)) eqn:Hk.
  - apply andb_prop in Hk as [Hvb _]. unfold copy_fragment, copy_member. rw Hv Hvb.
    iApply wp_bind. iApply wp_bind. iApply wp_new_copy. iFrame "Hs". iIntros (p) "[Hs Hs']". iApply wp_bind.
    iApply wp_ret. iApply wp_ret. iApply wp_ret. iApply "HΦ". iFrame "Hs". unfold slice_rep. by rw Hvb Hn.
  - iApply wp_ret. iApply "HΦ". by iFrame.
Qed.

Lemma wp_keep_fragments ss : forall bss i (Φ : list (HSlice * Z) -> hprop),
  helds ss bss ∗ (∀ ps, helds ss bss ∗ slices_rep ps.*1 (kept <$> bss) ∗
    <affine> ⌜ps.*2 = imap (fun j => kept_id (i + j)) bss⌝ -∗ Φ ps) ⊢ wp (keep_fragments i ss) Φ.
Proof.
  unfold helds, slices_rep. induction ss as [|s ss IH]; intros [|bs bss] i Φ; cbn [keep_fragments]; iIntros "[Hs HΦ]".
  - iApply wp_ret. iApply "HΦ". cbn. iFrame "Hs". by iSplit.
  - iDestruct (big_sepL2_nil_inv_l with "Hs") as %[=].
  - iDestruct (big_sepL2_nil_inv_r with "Hs") as %[=].
  - iDestruct "Hs" as "[Hs Hss]". iApply wp_bind. iApply wp_keep_fragment. iFrame "Hs". iIntros (s') "[Hs Hs']".
    iApply wp_bind. iApply IH. iFrame "Hss". iIntros (ps) "(Hss & Hps & %Hids)". iApply wp_ret. iApply "HΦ".
    cbn. iFrame. iPureIntro. f_equal; [by rw Nat.add_0_r|]. rw Hids. apply imap_ext. intros j f _. cbn.
    by rw Nat.add_succ_r.
Qed.

(** ** Ownership of entries *)
Record scalars_agree (e : HEntry) (v : LogEntry) : Prop := {
  sa_term : h_term e = Term v; sa_index : h_index e = Index v; sa_type : h_type e = Type_ v;
  sa_chunk : h_chunk_info e = GetChunkInfo v; sa_start : h_start_fragment_offset e = StartOffset v;
  sa_length : h_command_size_ e = CommandLength v; sa_ids : h_frag_ids_ e = FragIds v;
  sa_placement : h_placement_ e = Placement v
}.

(** The entry [e] holds the value [v] and owns every buffer it points to. *)
Definition entry_rep (e : HEntry) (v : LogEntry) : hprop :=
  (<affine> ⌜scalars_agree e v⌝ ∗ slice_rep (h_command_data_ e) (command_data_ v) ∗
   slice_rep (h_not_encoded_slice_ e) (not_encoded_slice_ v) ∗ slice_rep (h_fragment_slice_ e) (fragment_slice_ v) ∗
   slices_rep (h_fragments_ e) (Fragments v))%I.

Lemma entry_default : ⊢ entry_rep HEntry_default LogEntry_default.
Proof. unfold entry_rep, slices_rep, slice_rep. cbn. by iSplitR. Qed.

Lemma wp_LogEntry_dtor e v (Φ : unit -> hprop) : entry_rep e v ∗ Φ tt ⊢ wp (LogEntry_dtor e) Φ.
Proof.
  iIntros "[(_ & Hc & Hn & Hf & Hfs) HΦ]". unfold LogEntry_dtor.
  iApply wp_bind. iApply wp_clear_fragments. iFrame "Hfs".
  iApply wp_bind. iApply wp_release_member. iFrame "Hc".
  iApply wp_bind. iApply wp_release_member. iFrame "Hn".
  iApply wp_bind. iApply wp_release_member. iFrame "Hf".
  iApply wp_bind. iApply wp_ret. iApply wp_bind. iApply wp_ret. by iApply wp_ret.
Qed.

Lemma agree_copy e v c n f frags :
  scalars_agree e v ->
  scalars_agree (mkHEntry (h_term e) (h_index e) (h_type e) (h_chunk_info e) (h_start_fragment_offset e)
    (h_command_size_ e) c n f frags (h_frag_ids_ e) (h_placement_ e)) v.
Proof. by intros []. Qed.

(** The part that copying and assignment share. *)
Lemma wp_copy_members e v (k : HSlice -> HSlice -> HSlice -> list HSlice -> C HEntry) (Φ : HEntry -> hprop) :
  entry_rep e v ∗ (∀ c n f fs, entry_rep e v ∗
    entry_rep (mkHEntry (h_term e) (h_index e) (h_type e) (h_chunk_info e) (h_start_fragment_offset e)
      (h_command_size_ e) c n f fs (h_frag_ids_ e) (h_placement_ e)) v -∗ wp (k c n f fs) Φ) ⊢
  wp (c <- copy_member null_slice (h_command_data_ e) ;; n <- copy_member null_slice (h_not_encoded_slice_ e) ;;
      f <- copy_member null_slice (h_fragment_slice_ e) ;; frags <- mapC copy_fragment (h_fragments_ e) ;;
      k c n f frags) Φ.
Proof.
  iIntros "[(%Ha & Hc & Hn & Hf & Hfs) HΦ]".
  iApply wp_bind. iApply wp_copy_member. iFrame "Hc". iIntros (c) "[Hc Hc']".
  iApply wp_bind. iApply wp_copy_member. iFrame "Hn". iIntros (n) "[Hn Hn']".
  iApply wp_bind. iApply wp_copy_member. iFrame "Hf". iIntros (f) "[Hf Hf']".
  iApply wp_bind. iApply wp_copy_fragments. iFrame "Hfs". iIntros (fs) "[Hfs Hfs']".
  iApply "HΦ". unfold entry_rep. cbn. iFrame. iPureIntro. split; [done|by apply agree_copy].
Qed.

Lemma wp_LogEntry_copy_ctor e v (Φ : HEntry -> hprop) :
  entry_rep e v ∗ (∀ e', entry_rep e v ∗ entry_rep e' v -∗ Φ e') ⊢ wp (LogEntry_copy_ctor e) Φ.
Proof.
  iIntros "[He HΦ]". iApply wp_copy_members. iFrame "He". iIntros (c n f fs) "He". iApply wp_ret. by iApply "HΦ".
Qed.

Lemma wp_LogEntry_assign e1 v1 e v (Φ : HEntry -> hprop) :
  entry_rep e1 v1 ∗ entry_rep e v ∗ (∀ e', entry_rep e' v ∗ entry_rep e v -∗ Φ e') ⊢ wp (LogEntry_assign e1 e) Φ.
Proof.
  iIntros "((_ & Hc & Hn & Hf & Hfs) & He & HΦ)". unfold LogEntry_assign.
  iApply wp_bind. iApply wp_clear_fragments. iFrame "Hfs".
  iApply wp_bind. iApply wp_release_member. iFrame "Hc".
  iApply wp_bind. iApply wp_release_member. iFrame "Hn".
  iApply wp_bind. iApply wp_release_member. iFrame "Hf".
  iApply wp_copy_members. iFrame "He". iIntros (c n f fs) "[He He']". iApply wp_ret. iApply "HΦ". iFrame.
Qed.

Lemma wp_SetCommandData s bs e v (Φ : HEntry -> hprop) : command_data_ v = [] ->
  entry_rep e v ∗ held s bs ∗ (∀ e', entry_rep e' (SetCommandData bs v) ∗ held s bs -∗ Φ e') ⊢
  wp (h_SetCommandData s e) Φ.
Proof.
  iIntros (Hv) "((%Ha & Hc & Hn & Hf & Hfs) & Hs & HΦ)". rw Hv. unfold h_SetCommandData.
  iDestruct "Hc" as %->. iApply wp_bind. iApply wp_set_member. iFrame "Hs". iIntros (c) "[Hs Hc]". iApply wp_ret.
  iDestruct "Hs" as "(%a & %Hs & Ha)". iApply "HΦ". unfold entry_rep. cbn. iFrame. iSplit.
  - iPureIntro. destruct Ha. split; try done. by subst s.
  - by iPureIntro.
Qed.

Lemma wp_SetNotEncodedSlice s bs e v (Φ : HEntry -> hprop) : not_encoded_slice_ v = [] ->
  entry_rep e v ∗ held s bs ∗ (∀ e', entry_rep e' (SetNotEncodedSlice bs v) ∗ held s bs -∗ Φ e') ⊢
  wp (h_SetNotEncodedSlice s e) Φ.
Proof.
  iIntros (Hv) "((%Ha & Hc & Hn & Hf & Hfs) & Hs & HΦ)". rw Hv. unfold h_SetNotEncodedSlice.
  iDestruct "Hn" as %->. iApply wp_bind. iApply wp_set_member. iFrame "Hs". iIntros (n) "[Hs Hn]". iApply wp_ret.
  iApply "HΦ". unfold entry_rep. cbn. iFrame. iPureIntro. by destruct Ha.
Qed.

Lemma wp_SetFragmentSlice s bs e v (Φ : HEntry -> hprop) : fragment_slice_ v = [] ->
  entry_rep e v ∗ held s bs ∗ (∀ e', entry_rep e' (SetFragmentSlice bs v) ∗ held s bs -∗ Φ e') ⊢
  wp (h_SetFragmentSlice s e) Φ.
Proof.
  iIntros (Hv) "((%Ha & Hc & Hn & Hf & Hfs) & Hs & HΦ)". rw Hv. unfold h_SetFragmentSlice.
  iDestruct "Hf" as %->. iApply wp_bind. iApply wp_set_member. iFrame "Hs". iIntros (f) "[Hs Hf]". iApply wp_ret.
  iApply "HΦ". unfold entry_rep. cbn. iFrame. iPureIntro. by destruct Ha.
Qed.

Lemma wp_SetFragments ss bss e v (Φ : HEntry -> hprop) :
  entry_rep e v ∗ helds ss bss ∗
  (∀ e', entry_rep e' (SetFragments bss v) ∗ helds ss bss -∗ Φ e') ⊢
  wp (h_SetFragments ss e) Φ.
Proof.
  iIntros "((%Ha & Hc & Hn & Hf & Hfs) & Hss & HΦ)". unfold h_SetFragments.
  iApply wp_bind. iApply wp_clear_fragments. iFrame "Hfs".
  iDestruct (big_sepL2_length with "Hss") as %Hl.
  iDestruct (helds_split _ _ kMaxFragments Hl with "Hss") as "[Hss Hrest]".
  iApply wp_bind. iApply wp_keep_fragments. iFrame "Hss". iIntros (ps) "(Hss & Hps & %Hids)".
  iApply wp_ret. iApply "HΦ". iSplitR "Hss Hrest".
  - unfold entry_rep, SetFragments. cbn. iFrame. iPureIntro. destruct Ha. by split.
  - iApply (helds_split _ _ kMaxFragments Hl). iFrame.
Qed.

Lemma wp_AddFragmentWithId i s bs e v (Φ : HEntry -> hprop) :
  entry_rep e v ∗ held s bs ∗ (∀ e', entry_rep e' (AddFragmentWithId i bs v) ∗ held s bs -∗ Φ e') ⊢
  wp (h_AddFragmentWithId i s e) Φ.
Proof.
  iIntros "((%Ha & Hc & Hn & Hf & Hfs) & Hs & HΦ)". iDestruct (held_hvalid with "Hs") as "[%Hv Hs]".
  unfold h_AddFragmentWithId, AddFragmentWithId. rw Hv. destruct (valid bs) eqn:Hb.
  - unfold copy_fragment, copy_member. rw Hv. iApply wp_bind. iApply wp_bind. iApply wp_new_copy. iFrame "Hs".
    iIntros (p) "[Hs Hs']". iApply wp_bind. iApply wp_ret. iApply wp_ret. iApply wp_ret. iApply "HΦ". iFrame "Hs".
    unfold entry_rep, slices_rep. cbn. iFrame. iSplitR.
    + iPureIntro. destruct Ha. split; cbn; congruence.
    + iSplitL; [|done]. unfold slice_rep. by rw Hb.
  - iApply wp_ret. iApply "HΦ". unfold entry_rep. by iFrame.
Qed.

Lemma wp_AddFragment s bs e v (Φ : HEntry -> hprop) :
  entry_rep e v ∗ held s bs ∗ (∀ e', entry_rep e' (AddFragment bs v) ∗ held s bs -∗ Φ e') ⊢
  wp (h_AddFragment s e) Φ.
Proof.
  iIntros "(He & Hs & HΦ)". iAssert (<affine> ⌜length (h_fragments_ e) = length (Fragments v)⌝ ∗ entry_rep e v)%I
    with "[He]" as "[%Hl He]".
  { iDestruct "He" as "(%Ha & Hc & Hn & Hf & Hfs)". iDestruct (big_sepL2_length with "Hfs") as %Hl.
    iSplitR; [done|]. unfold entry_rep. by iFrame. }
  unfold h_AddFragment, AddFragment. rw Hl. iApply wp_AddFragmentWithId. iFrame.
Qed.

(** ** Programs over entries *)

(** The scalar setters. *)
Inductive Scalar :=
| ScIndex (i : Z) | ScTerm (t : Z) | ScType (t : raft_entry_type) | ScChunkInfo (c : ChunkInfo)
| ScStartOffset (i : Z) | ScCommandLength (i : Z) | ScPlacement (p : list FragmentPlacement) | ScFragIds (l : list Z).

Inductive Getter := GCommandData | GNotEncodedSlice | GFragmentSlice.

(** What client code does with entries. A slice handed over is made of a string that
    is destroyed after the call; [SRead] makes a string of the slice a getter answers
    and destroys the slice. *)
Inductive Stmt :=
| SNew (x : Z)
| SCopy (x y : Z)
| SAssign (x y : Z)
| SDestroy (x : Z)
| SScalar (x : Z) (c : Scalar)
| SCommandData (x : Z) (bs : list Z)
| SNotEncodedSlice (x : Z) (bs : list Z)
| SFragmentSlice (x : Z) (bs : list Z)
| SFragments (x : Z) (bss : list (list Z))
| SAddFragment (x : Z) (bs : list Z)
| SAddFragmentWithId (x i : Z) (bs : list Z)
| SRead (x : Z) (g : Getter).

Definition h_scalar (c : Scalar) : HEntry -> HEntry :=
  match c with
  | ScIndex i => h_SetIndex i | ScTerm t => h_SetTerm t | ScType t => h_SetType t
  | ScChunkInfo c => h_SetChunkInfo c | ScStartOffset i => h_SetStartOffset i
  | ScCommandLength i => h_SetCommandLength i | ScPlacement p => h_SetPlacement p | ScFragIds l => h_SetFragIds l
  end.
Definition v_scalar (c : Scalar) : LogEntry -> LogEntry :=
  match c with
  | ScIndex i => SetIndex i | ScTerm t => SetTerm t | ScType t => SetType t
  | ScChunkInfo c => SetChunkInfo c | ScStartOffset i => SetStartOffset i
  | ScCommandLength i => SetCommandLength i | ScPlacement p => SetPlacement p | ScFragIds l => set_FragIds l
  end.

Definition h_get (g : Getter) : HEntry -> C HSlice :=
  match g with GCommandData => h_CommandData | GNotEncodedSlice => h_NotEncodedSlice | GFragmentSlice => h_FragmentSlice end.
Definition v_get (g : Getter) : LogEntry -> list Z :=
  match g with GCommandData => CommandData | GNotEncodedSlice => NotEncodedSlice | GFragmentSlice => FragmentSlice end.

Definition with_string {A} (bs : list Z) (k : HSlice -> C A) : C A :=
  s <- Slice_of_string bs ;; a <- k s ;; Slice_dtor s ;;; ret a.
Definition with_strings {A} (bss : list (list Z)) (k : list HSlice -> C A) : C A :=
  ss <- mapC Slice_of_string bss ;; a <- k ss ;; _ <- mapC Slice_dtor ss ;; ret a.

Abbreviation Env := (gmap Z HEntry).
Abbreviation Values := (gmap Z LogEntry).

Definition update (x : Z) (f : HEntry -> C HEntry) (es : Env) : C (Env * list (list Z)) :=
  e <- lift (es !! x) ;; e <- f e ;; ret (<[x := e]> es, []).

Definition exec (st : Stmt) (es : Env) : C (Env * list (list Z)) :=
  match st with
  | SNew x => ret (<[x := HEntry_default]> es, [])
  | SCopy x y => e <- lift (es !! y) ;; e <- LogEntry_copy_ctor e ;; ret (<[x := e]> es, [])
  | SAssign x y =>
      if x =? y then ret (es, []) else
      e <- lift (es !! y) ;; update x (fun this => LogEntry_assign this e) es
  | SDestroy x => e <- lift (es !! x) ;; LogEntry_dtor e ;;; ret (delete x es, [])
  | SScalar x c => update x (fun e => ret (h_scalar c e)) es
  | SCommandData x bs => update x (fun e => with_string bs (fun s => h_SetCommandData s e)) es
  | SNotEncodedSlice x bs => update x (fun e => with_string bs (fun s => h_SetNotEncodedSlice s e)) es
  | SFragmentSlice x bs => update x (fun e => with_string bs (fun s => h_SetFragmentSlice s e)) es
  | SFragments x bss => update x (fun e => with_strings bss (fun ss => h_SetFragments ss e)) es
  | SAddFragment x bs => update x (fun e => with_string bs (fun s => h_AddFragment s e)) es
  | SAddFragmentWithId x i bs => update x (fun e => with_string bs (fun s => h_AddFragmentWithId i s e)) es
  | SRead x g =>
      e <- lift (es !! x) ;; s <- h_get g e ;; bs <- toString s ;; Slice_dtor s ;;; ret (es, [bs])
  end.

(** The same statement on values. It is refused when a variable does not exist (or
    exists already), and when a setter is called on a member that has bytes. *)
Definition v_update (x : Z) (f : LogEntry -> option LogEntry) (vs : Values) : option (Values * list (list Z)) :=
  v ← vs !! x; v ← f v; Some (<[x := v]> vs, []).

Definition eval (st : Stmt) (vs : Values) : option (Values * list (list Z)) :=
  match st with
  | SNew x => if decide (vs !! x = None) then Some (<[x := LogEntry_default]> vs, []) else None
  | SCopy x y => v ← vs !! y; if decide (vs !! x = None) then Some (<[x := v]> vs, []) else None
  | SAssign x y => if x =? y then Some (vs, []) else v ← vs !! y; v_update x (fun _ => Some v) vs
  | SDestroy x => _ ← vs !! x; Some (delete x vs, [])
  | SScalar x c => v_update x (fun v => Some (v_scalar c v)) vs
  | SCommandData x bs => v_update x (fun v => if valid (command_data_ v) then None else Some (SetCommandData bs v)) vs
  | SNotEncodedSlice x bs =>
      v_update x (fun v => if valid (not_encoded_slice_ v) then None else Some (SetNotEncodedSlice bs v)) vs
  | SFragmentSlice x bs =>
      v_update x (fun v => if valid (fragment_slice_ v) then None else Some (SetFragmentSlice bs v)) vs
  | SFragments x bss => v_update x (fun v => Some (SetFragments bss v)) vs
  | SAddFragment x bs => v_update x (fun v => Some (AddFragment bs v)) vs
  | SAddFragmentWithId x i bs => v_update x (fun v => Some (AddFragmentWithId i bs v)) vs
  | SRead x g => v ← vs !! x; Some (vs, [v_get g v])
  end.

Fixpoint exec_all (sts : list Stmt) (es : Env) : C (Env * list (list Z)) :=
  match sts with
  | [] => ret (es, [])
  | st :: sts => r <- exec st es ;; r' <- exec_all sts r.1 ;; ret (r'.1, r.2 ++ r'.2)
  end.

Fixpoint eval_all (sts : list Stmt) (vs : Values) : option (Values * list (list Z)) :=
  match sts with
  | [] => Some (vs, [])
  | st :: sts => r ← eval st vs; r' ← eval_all sts r.1; Some (r'.1, r.2 ++ r'.2)
  end.

(** ** Every statement keeps entries and values together *)
Definition env_rep (es : Env) (vs : Values) : hprop := ([∗ map] e;v ∈ es;vs, entry_rep e v)%I.

Lemma env_rep_lookup es vs x v : vs !! x = Some v ->
  env_rep es vs ⊢ ∃ e, <affine> ⌜es !! x = Some e⌝ ∗ entry_rep e v ∗
    (∀ e' v', entry_rep e' v' -∗ env_rep (<[x := e']> es) (<[x := v']> vs)).
Proof.
  iIntros (Hv) "Hes". iDestruct (big_sepM2_lookup_iff with "Hes") as %Hdom.
  destruct (proj2 (Hdom x) (ex_intro _ v Hv)) as [e He]. iExists e. iSplitR; [done|].
  by iApply (big_sepM2_insert_acc with "Hes").
Qed.

Lemma env_rep_same es vs x e v : es !! x = Some e -> vs !! x = Some v ->
  (∀ e' v', entry_rep e' v' -∗ env_rep (<[x := e']> es) (<[x := v']> vs)) ∗ entry_rep e v ⊢ env_rep es vs.
Proof.
  iIntros (He Hv) "[Hback Hx]". iSpecialize ("Hback" with "Hx"). by rw !insert_id.
Qed.

Lemma wp_lift {A} (o : option A) (y : A) (Φ : A -> hprop) : o = Some y -> Φ y ⊢ wp (lift o) Φ.
Proof. intros ->. apply wp_ret. Qed.

Lemma wp_update x f v v' es vs (Φ : Env * list (list Z) -> hprop) : vs !! x = Some v ->
  (forall e Ψ, entry_rep e v ∗ (∀ e', entry_rep e' v' -∗ Ψ e') ⊢ wp (f e) Ψ) ->
  env_rep es vs ∗ (∀ es', env_rep es' (<[x := v']> vs) -∗ Φ (es', [])) ⊢ wp (update x f es) Φ.
Proof.
  iIntros (Hv Hf) "[Hes HΦ]". iDestruct (env_rep_lookup with "Hes") as "(%e & %He & Hx & Hback)"; [done|].
  iApply wp_bind. iApply wp_lift; [done|]. iApply wp_bind. iApply Hf. iFrame "Hx". iIntros (e') "Hx".
  iApply wp_ret. iApply "HΦ". by iApply "Hback".
Qed.

(** A call that is handed a string, and one that is handed a list of them. *)
Lemma wp_with_string {A} bs (k : HSlice -> C A) (Φ : A -> hprop) :
  (∀ s, held s bs -∗ wp (k s) (fun a => held s bs ∗ Φ a)) ⊢ wp (with_string bs k) Φ.
Proof.
  iIntros "Hk". iApply wp_bind. iApply wp_Slice_of_string. iIntros (s) "Hs". iApply wp_bind.
  iApply wp_wand. iSplitL "Hk Hs"; [by iApply "Hk"|]. iIntros (a) "[Hs HΦ]".
  iApply wp_bind. iApply wp_release_owned. iFrame "Hs". by iApply wp_ret.
Qed.

Lemma wp_strings bss : forall (Φ : list HSlice -> hprop),
  (∀ ss, helds ss bss -∗ Φ ss) ⊢ wp (mapC Slice_of_string bss) Φ.
Proof.
  induction bss as [|bs bss IH]; intros Φ; cbn [mapC]; iIntros "HΦ".
  - iApply wp_ret. iApply "HΦ". by iApply big_sepL2_nil.
  - iApply wp_bind. iApply wp_Slice_of_string. iIntros (s) "Hs". iApply wp_bind. iApply IH. iIntros (ss) "Hss".
    iApply wp_ret. iApply "HΦ". iApply big_sepL2_cons. iFrame.
Qed.

Lemma wp_dtors ss : forall bss (Φ : list unit -> hprop),
  helds ss bss ∗ (∀ us, Φ us) ⊢ wp (mapC Slice_dtor ss) Φ.
Proof.
  unfold helds. induction ss as [|s ss IH]; intros [|bs bss] Φ; cbn [mapC]; iIntros "[Hs HΦ]".
  - by iApply wp_ret.
  - iDestruct (big_sepL2_nil_inv_l with "Hs") as %[=].
  - iDestruct (big_sepL2_nil_inv_r with "Hs") as %[=].
  - iDestruct "Hs" as "[Hs Hss]". iApply wp_bind. iApply wp_release_owned. iFrame "Hs". iApply wp_bind.
    iApply IH. iFrame "Hss". iIntros (us). by iApply wp_ret.
Qed.

Lemma wp_with_strings {A} bss (k : list HSlice -> C A) (Φ : A -> hprop) :
  (∀ ss, helds ss bss -∗ wp (k ss) (fun a => helds ss bss ∗ Φ a)) ⊢ wp (with_strings bss k) Φ.
Proof.
  iIntros "Hk". iApply wp_bind. iApply wp_strings. iIntros (ss) "Hss". iApply wp_bind.
  iApply wp_wand. iSplitL "Hk Hss"; [by iApply "Hk"|]. iIntros (a) "[Hss HΦ]".
  iApply wp_bind. iApply wp_dtors. iFrame "Hss". iIntros (_). by iApply wp_ret.
Qed.

Lemma wp_scalar c e v (Φ : HEntry -> hprop) :
  entry_rep e v ∗ (∀ e', entry_rep e' (v_scalar c v) -∗ Φ e') ⊢ wp (ret (h_scalar c e)) Φ.
Proof.
  iIntros "[(%Ha & Hc & Hn & Hf & Hfs) HΦ]". iApply wp_ret. iApply "HΦ".
  destruct Ha, c; unfold entry_rep; cbn; iFrame; iPureIntro; by split.
Qed.

Lemma wp_get g e v (Φ : HSlice -> hprop) :
  entry_rep e v ∗ (∀ s, entry_rep e v ∗ slice_rep s (v_get g v) -∗ Φ s) ⊢ wp (h_get g e) Φ.
Proof.
  iIntros "[(%Ha & Hc & Hn & Hf & Hfs) HΦ]". pose proof (sa_type _ _ Ha) as Ht. unfold entry_rep.
  destruct g; cbn; unfold h_CommandData, h_NotEncodedSlice, h_FragmentSlice, CommandData, NotEncodedSlice, FragmentSlice,
    is_kNormal; unfold h_CommandData, CommandData, is_kNormal; rw Ht; destruct (Type_ v); cbn.
  all: first [iApply wp_ret; iApply "HΦ"; iFrame; by iSplit | iApply wp_Slice_copy_ctor].
  all: first [iFrame "Hc"; iIntros (s) "[Hc Hs]" | iFrame "Hn"; iIntros (s) "[Hn Hs]" | iFrame "Hf"; iIntros (s) "[Hf Hs]"].
  all: iApply "HΦ"; by iFrame.
Qed.

Lemma wp_read_string s bs (Φ : list Z -> hprop) :
  slice_rep s bs ∗ (slice_rep s bs -∗ Φ bs) ⊢ wp (toString s) Φ.
Proof.
  unfold slice_rep. destruct bs as [|b bs]; cbn [valid]; [|apply wp_toString].
  iIntros "[-> HΦ]". iApply wp_ret. by iApply "HΦ".
Qed.

(** A variable that does not exist yet. *)
Lemma env_rep_declare es vs x e v : vs !! x = None ->
  env_rep es vs ∗ entry_rep e v ⊢ env_rep (<[x := e]> es) (<[x := v]> vs).
Proof.
  iIntros (Hx) "[Hes He]". iDestruct (big_sepM2_lookup_iff with "Hes") as %Hdom.
  assert (es !! x = None) as Hex.
  { apply eq_None_not_Some. intros [w Hw]%Hdom. congruence. }
  iApply big_sepM2_insert; [done|done|]. iFrame.
Qed.

(** A variable taken out of the others. *)
Lemma env_rep_take es vs x v : vs !! x = Some v ->
  env_rep es vs ⊢ ∃ e, <affine> ⌜es !! x = Some e⌝ ∗ entry_rep e v ∗ env_rep (delete x es) (delete x vs).
Proof.
  iIntros (Hv) "Hes". iDestruct (big_sepM2_lookup_iff with "Hes") as %Hdom.
  destruct (proj2 (Hdom x) (ex_intro _ v Hv)) as [e He]. iExists e. iSplitR; [done|].
  by iApply (big_sepM2_delete _ _ _ x with "Hes").
Qed.

Lemma wp_exec_copy x y es vs v (Φ : Env * list (list Z) -> hprop) : vs !! y = Some v -> vs !! x = None ->
  env_rep es vs ∗ (∀ es', env_rep es' (<[x := v]> vs) -∗ Φ (es', [])) ⊢ wp (exec (SCopy x y) es) Φ.
Proof.
  iIntros (Hv Hx) "[Hes HΦ]". iDestruct (env_rep_lookup with "Hes") as "(%e & %He & Hy & Hback)"; [done|].
  iApply wp_bind. iApply wp_lift; [done|]. iApply wp_bind. iApply wp_LogEntry_copy_ctor. iFrame "Hy".
  iIntros (e') "[Hy Hx]". iApply wp_ret. iApply "HΦ". iApply env_rep_declare; [done|]. iFrame "Hx".
  iApply env_rep_same; [done|done|]. iFrame.
Qed.

Lemma wp_exec_assign x y es vs v w (Φ : Env * list (list Z) -> hprop) :
  x <> y -> vs !! y = Some v -> vs !! x = Some w ->
  env_rep es vs ∗ (∀ es', env_rep es' (<[x := v]> vs) -∗ Φ (es', [])) ⊢ wp (exec (SAssign x y) es) Φ.
Proof.
  iIntros (Hne Hv Hw) "[Hes HΦ]". iDestruct (env_rep_take with "Hes") as "(%t & %Ht & Hx & Hes)"; [exact Hw|].
  iDestruct (env_rep_take _ _ y with "Hes") as "(%e & %He & Hy & Hes)"; [by rw lookup_delete_ne|].
  rw lookup_delete_ne in He; [|done]. cbn [exec]. rw (proj2 (Z.eqb_neq x y) Hne).
  iApply wp_bind. iApply wp_lift; [done|]. iApply wp_bind. iApply wp_lift; [done|]. iApply wp_bind.
  iApply wp_LogEntry_assign. iFrame "Hx Hy". iIntros (e') "[Hx Hy]". iApply wp_ret. iApply "HΦ".
  unfold env_rep. rw -(insert_delete_eq es) -(insert_delete_eq vs).
  iApply env_rep_declare; [by rw lookup_delete_eq|]. iFrame "Hx".
  iApply (big_sepM2_delete _ _ _ y); [by rw lookup_delete_ne|by rw lookup_delete_ne|]. iFrame.
Qed.

Lemma wp_exec_destroy x es vs v (Φ : Env * list (list Z) -> hprop) : vs !! x = Some v ->
  env_rep es vs ∗ (∀ es', env_rep es' (delete x vs) -∗ Φ (es', [])) ⊢ wp (exec (SDestroy x) es) Φ.
Proof.
  iIntros (Hv) "[Hes HΦ]". iDestruct (env_rep_take with "Hes") as "(%e & %He & Hx & Hes)"; [done|].
  iApply wp_bind. iApply wp_lift; [done|]. iApply wp_bind. iApply wp_LogEntry_dtor. iFrame "Hx".
  iApply wp_ret. by iApply "HΦ".
Qed.

Lemma wp_exec_read x g es vs v (Φ : Env * list (list Z) -> hprop) : vs !! x = Some v ->
  env_rep es vs ∗ (∀ es', env_rep es' vs -∗ Φ (es', [v_get g v])) ⊢ wp (exec (SRead x g) es) Φ.
Proof.
  iIntros (Hv) "[Hes HΦ]". iDestruct (env_rep_lookup with "Hes") as "(%e & %He & Hx & Hback)"; [done|].
  iApply wp_bind. iApply wp_lift; [done|]. iApply wp_bind. iApply wp_get. iFrame "Hx". iIntros (s) "[Hx Hs]".
  iApply wp_bind. iApply wp_read_string. iFrame "Hs". iIntros "Hs". iApply wp_bind. iApply wp_Slice_dtor.
  iFrame "Hs". iApply wp_ret. iApply "HΦ". iApply env_rep_same; [done|done|]. iFrame.
Qed.

(** The calls that are handed a string: the call and the value it leaves. *)
Lemma wp_hand_over bs e v v' (f : HSlice -> HEntry -> C HEntry) (Φ : HEntry -> hprop) :
  (forall s e Ψ, entry_rep e v ∗ held s bs ∗ (∀ e', entry_rep e' v' ∗ held s bs -∗ Ψ e') ⊢ wp (f s e) Ψ) ->
  entry_rep e v ∗ (∀ e', entry_rep e' v' -∗ Φ e') ⊢ wp (with_string bs (fun s => f s e)) Φ.
Proof.
  iIntros (Hf) "[Hx HΦ]". iApply wp_with_string. iIntros (s) "Hs". iApply Hf. iFrame "Hx Hs".
  iIntros (e') "[Hx $]". by iApply "HΦ".
Qed.

Lemma wp_exec st es vs vs' out (Φ : Env * list (list Z) -> hprop) : eval st vs = Some (vs', out) ->
  env_rep es vs ∗ (∀ es', env_rep es' vs' -∗ Φ (es', out)) ⊢ wp (exec st es) Φ.
Proof.
  destruct st as [x|x y|x y|x|x c|x bs|x bs|x bs|x bss|x bs|x i bs|x g]; cbn [eval];
    unfold v_update; intros He.
  5-11: apply option.bind_Some in He as (v & Hv & He).
  5-11: apply option.bind_Some in He as (v1 & Hf & [= <- <-]).
  5-11: apply wp_update with (v := v); [done|]; intros e Ψ.
  - case_decide as Hx; [|done]. injection He as <- <-. iIntros "[Hes HΦ]". iApply wp_ret. iApply "HΦ".
    iApply env_rep_declare; [done|]. iFrame "Hes". iApply entry_default.
  - apply option.bind_Some in He as (v & Hv & He). case_decide; [|done]. injection He as <- <-. by apply wp_exec_copy.
  - destruct (Z.eqb_spec x y) as [->|Hne].
    { injection He as <- <-. iIntros "[Hes HΦ]". cbn. rw Z.eqb_refl. iApply wp_ret. by iApply "HΦ". }
    apply option.bind_Some in He as (v & Hv & He). apply option.bind_Some in He as (w & Hw & [= <- <-]).
    by eapply wp_exec_assign.
  - apply option.bind_Some in He as (v & Hv & [= <- <-]). by eapply wp_exec_destroy.
  - injection Hf as <-. apply wp_scalar.
  - destruct (command_data_ v) eqn:Hc; [|done]. injection Hf as <-.
    apply wp_hand_over. intros s e' Ψ'. by apply wp_SetCommandData.
  - destruct (not_encoded_slice_ v) eqn:Hc; [|done]. injection Hf as <-.
    apply wp_hand_over. intros s e' Ψ'. by apply wp_SetNotEncodedSlice.
  - destruct (fragment_slice_ v) eqn:Hc; [|done]. injection Hf as <-.
    apply wp_hand_over. intros s e' Ψ'. by apply wp_SetFragmentSlice.
  - injection Hf as <-. iIntros "[Hx HΨ]". iApply wp_with_strings. iIntros (ss) "Hss".
    iApply wp_SetFragments. iFrame "Hx Hss". iIntros (e') "[Hx $]". by iApply "HΨ".
  - injection Hf as <-. apply wp_hand_over. intros s e' Ψ'. apply wp_AddFragment.
  - injection Hf as <-. apply wp_hand_over. intros s e' Ψ'. apply wp_AddFragmentWithId.
  - apply option.bind_Some in He as (v & Hv & [= <- <-]). by eapply wp_exec_read.
Qed.

Lemma env_rep_empty es : env_rep es ∅ ⊢ emp.
Proof. iIntros "Hes". iDestruct (big_sepM2_empty_l with "Hes") as %->. iStopProof. unfold env_rep. by rw big_sepM2_empty. Qed.

Lemma wp_exec_all sts : forall es vs vs' out (Φ : Env * list (list Z) -> hprop),
  eval_all sts vs = Some (vs', out) ->
  env_rep es vs ∗ (∀ es', env_rep es' vs' -∗ Φ (es', out)) ⊢ wp (exec_all sts es) Φ.
Proof.
  induction sts as [|st sts IH]; intros es vs vs' out Φ; cbn [eval_all exec_all].
  - intros [= <- <-]. iIntros "[Hes HΦ]". iApply wp_ret. by iApply "HΦ".
  - intros He. apply option.bind_Some in He as ([vs1 out1] & H1 & He).
    apply option.bind_Some in He as ([vs2 out2] & H2 & [= <- <-]). cbn in *.
    iIntros "[Hes HΦ]". iApply wp_bind. iApply wp_exec; [done|]. iFrame "Hes". iIntros (es1) "Hes".
    iApply wp_bind. cbn. iApply IH; [done|]. iFrame "Hes". iIntros (es2) "Hes". iApply wp_ret. by iApply "HΦ".
Qed.
End memory.

(** [C23] Log entries behave as values: whatever a program does with entries (create,
    copy, assign, destroy, set, append and read), as long as it does not call a slice
    setter on a member that already has bytes, it is defined on the heap, reads the
    bytes it would read if entries were values, and no two entries share a buffer;
    when every entry is destroyed, every buffer is freed. *)
Theorem entries_refine_values `{Malloc} {HM : MallocOk} (sts : list Stmt) (vs : gmap Z LogEntry)
    (out : list (list Z)) (Heval : eval_all sts ∅ = Some (vs, out)) :
  exists es h, exec_all sts ∅ ∅ = Some ((es, out), h) /\ holds (env_rep es vs) h /\ (vs = ∅ -> h = ∅).
Proof.
  destruct (wp_adequacy (exec_all sts ∅) (fun r => <affine> ⌜r.2 = out⌝ ∗ env_rep r.1 vs)%I) as ([es out'] & h & He & Hh).
  - iStartProof. iIntros "Hemp". iApply wp_exec_all; [exact Heval|]. iSplitL.
    + by iApply big_sepM2_empty.
    + iIntros (es') "Hes". by iFrame.
  - destruct Hh as (h1 & h2 & -> & _ & [H1 H2] & Hr). cbn in H1, H2, Hr. rw H1 left_id_L in He.
    exists es, h2. split_and!; [by rw He H2|done|].
    intros ->. by apply (in_entails _ _ (env_rep_empty es)).
Qed.

(** ** Comparison *)

(** The sign of [memcmp] on equally long ranges. *)
Fixpoint memcmp (a b : Slice) : Z :=
  match a, b with
  | x :: a, y :: b => if x =? y then memcmp a b else if x <? y then -1 else 1
  | _, _ => 0
  end.

(** [Slice::compare]; [None] is the failed assertion. *)
Definition compare (a b : Slice) : option Z :=
  if valid a && valid b then
    let cmp_len := Z.to_nat (Z.min (slice_size a) (slice_size b)) in
    let cmp_res := memcmp (take cmp_len a) (take cmp_len b) in
    Some (if negb (cmp_res =? 0) || (slice_size a =? slice_size b) then cmp_res
          else if slice_size b <? slice_size a then 1 else -1)
  else None.

(** The same step for each of the three slices. *)
Definition slices_equal (a b : Slice) : option bool :=
  if valid a && valid b then c ← compare a b; Some (c =? 0) else Some (negb (valid a) && negb (valid b)).

(** [operator==] of two entries. *)
Definition LogEntry_eqb (lhs rhs : LogEntry) : option bool :=
  let hdr_equal := (Index lhs =? Index rhs) && (Term lhs =? Term rhs) &&
                   bool_decide (Type_ lhs = Type_ rhs) && ChunkInfo_eqb (GetChunkInfo lhs) (GetChunkInfo rhs) in
  if negb hdr_equal then Some false else
  cmd_data_equal ← slices_equal (CommandData lhs) (CommandData rhs);
  if negb cmd_data_equal then Some false else
  full_data_equal ← slices_equal (NotEncodedSlice lhs) (NotEncodedSlice rhs);
  if negb full_data_equal then Some false else
  slices_equal (FragmentSlice lhs) (FragmentSlice rhs).

Lemma memcmp_eq a : forall b, length a = length b -> memcmp a b = 0 <-> a = b.
Proof.
  induction a as [|x a IH]; intros [|y b]; try done. cbn. intros [= Hl].
  destruct (Z.eqb_spec x y) as [->|Hne]; [rw IH //; naive_solver|].
  destruct (x <? y); split; first [lia | by intros [=]].
Qed.

Lemma slices_equal_spec a b : slices_equal a b = Some (bool_decide (a = b)).
Proof.
  unfold slices_equal, compare. destruct a as [|x a], b as [|y b]; try done. cbn [valid andb].
  set (u := x :: a). set (w := y :: b). cbn. unfold slice_size. f_equal.
  destruct (decide (length u = length w)) as [Hl|Hl].
  - rw Hl Z.min_id Nat2Z.id !take_ge; [|lia..]. rw Z.eqb_refl orb_true_r.
    case_bool_decide as He; [by apply Z.eqb_eq, memcmp_eq|]. apply Z.eqb_neq. by rw memcmp_eq.
  - rw (bool_decide_false (u = w)); [|congruence].
    rw (proj2 (Z.eqb_neq (Z.of_nat (length u)) (Z.of_nat (length w)))); [|lia]. rw orb_false_r.
    destruct (memcmp _ _ =? 0) eqn:Hc; cbn; [|done]. by destruct (_ <? _).
Qed.

(** [operator==] compares term, index, type, chunk info and the three slices; offsets,
    lengths, fragments, their ids and the placement do not count. *)
Lemma LogEntry_eqb_spec lhs rhs : LogEntry_eqb lhs rhs = Some (bool_decide (
  Index lhs = Index rhs /\ Term lhs = Term rhs /\ Type_ lhs = Type_ rhs /\ GetChunkInfo lhs = GetChunkInfo rhs /\
  CommandData lhs = CommandData rhs /\ NotEncodedSlice lhs = NotEncodedSlice rhs /\
  FragmentSlice lhs = FragmentSlice rhs)).
Proof.
  unfold LogEntry_eqb. rw !slices_equal_spec. cbn.
  destruct (_ && ChunkInfo_eqb _ _) eqn:Hh; cbn.
  - apply andb_prop in Hh as [Hh Hc%ChunkInfo_eqb_eq]. apply andb_prop in Hh as [Hh Ht%bool_decide_eq_true].
    apply andb_prop in Hh as [Hi%Z.eqb_eq Hm%Z.eqb_eq].
    repeat (case_bool_decide; cbn); naive_solver.
  - rw bool_decide_false //. intros (Hi & Hm & Ht & Hc & _). apply not_true_iff_false in Hh. apply Hh.
    rw Hi Hm Ht Hc !Z.eqb_refl bool_decide_true //. by apply ChunkInfo_eqb_eq.
Qed.

(** ** The setters are not for a member that has bytes *)

Lemma delete_array_run a h :
  delete_array (Some (mkPointer a 0)) h = if decide (is_Some (h !! a)) then Some (tt, delete a h) else None.
Proof. unfold delete_array, bind, get, assertM. cbn. by case_bool_decide; case_decide. Qed.

Lemma move_assign_run a n s h :
  Slice_move_assign (Take (Some (mkPointer a 0)) n) s h =
  if decide (is_Some (h !! a)) then Some (s, delete a h) else None.
Proof.
  unfold Slice_move_assign, release_owned, bind. cbn -[delete_array]. unfold when. rw delete_array_run. by case_decide.
Qed.

(** The setters of the three members free the buffer of the old slice and then assign
    the new one, and the assignment frees the old buffer again. On a member that has
    bytes this is undefined, unless the allocator answers the address that was freed
    a moment before: then it is the new buffer that is freed, and the member points to
    memory that is not allocated. *)
Theorem set_member_twice `{Malloc} {HM : MallocOk} (a n : Z) (bs : list Z) (s : HSlice) (h : Heap)
    (Hn : 0 < n) (Ha : h !! a = Some bs) :
  let old := Take (Some (mkPointer a 0)) n in
  set_member old s h = None \/
  exists m h', set_member old s h = Some (Take (Some (mkPointer a 0)) m, h') /\ h' !! a = None.
Proof.
  cbv zeta. set (h1 := delete a h). assert (h1 !! a = None) as H1 by apply lookup_delete_eq.
  set (old := Take _ n). assert (hvalid old && owned_ old = true) as Hold.
  { unfold hvalid. cbn. by rw (proj2 (Z.ltb_lt _ _) Hn). }
  unfold set_member. rw Hold.
  rw (bind_run _ _ h tt h1); [|by unfold when; rw delete_array_run decide_True // Ha].
  destruct (hvalid s); [|left; rw move_assign_run decide_False // H1; by intros []].
  unfold new_copy, new_block. destruct (load (data_ s) (size_ s) h1) as [[bs' h']|] eqn:El.
  - assert (h' = h1) as ->.
    { unfold load in El. rw bind_get in El. unfold lift in El. by destruct (_ ≫= _); simplify_eq. }
    set (b := new_addr h1 (length bs')). set (p := Some (mkPointer b 0)).
    rw (bind_run _ _ h1 p (<[b := bs']> h1)); [|by rw (bind_run _ _ _ _ _ El)].
    rw move_assign_run. destruct (decide (b = a)) as [->|Hne].
    + right. rw decide_True; [|by rw lookup_insert_eq]. eexists _, _. split; [done|]. apply lookup_delete_eq.
    + left. rw decide_False // lookup_insert_ne // H1. by intros [].
  - left. unfold bind at 1 2. by rw El.
Qed.

(** ** An entry is made, copied, read, assigned and destroyed *)
Section witness.
#[local] Instance demo_malloc : Malloc := fun h _ => fresh (dom h).
#[local] Instance demo_malloc_ok : MallocOk.
Proof. intros h n. apply not_elem_of_dom, is_fresh. Qed.

Definition demo_program : list Stmt :=
  [SNew 1; SCommandData 1 [1; 2]; SAddFragment 1 [7]; SCopy 2 1; SRead 2 GCommandData; SFragments 1 [[8]; []];
   SAssign 1 2; SRead 1 GNotEncodedSlice; SDestroy 1; SDestroy 2].

Lemma entries_refine_values_witness :
  exists es, exec_all demo_program ∅ ∅ = Some ((es, [[1; 2]; [1; 2]]), ∅).
Proof.
  destruct (entries_refine_values demo_program ∅ [[1; 2]; [1; 2]]) as (es & h & He & _ & Hh).
  - vm_compute. reflexivity.
  - exists es. rw He. by rw (Hh eq_refl).
Defined.
End witness.
