(* ===== verification/Storage.v ===== *)
(** Persistence: the [Storage] interface and its two implementations
    (src/raft/storage.h, src/raft/storage.cc).

    [Storage] is the abstract class: one member per virtual function; an
    operation answers [None] where the code hits a failed assert or leaves the
    file in a state the model does not describe. [DurableState] is what the Raft
    state relies on: the persisted term and vote survive every other operation.

    [FileStorage] is modelled at the level of log records: the file is its header
    and the sequence of records written, whose offsets follow from
    [getSerializeSize]; reading a record back gives [reload], the effect of
    [serialize_logentry_helper] followed by [deserialize_logentry_helper]. *)

From S2P Require Import Prelude Types LogManager.

Record PersistRaftState_t := mkPersistRaftState {
  prs_valid : bool;
  persisted_term : Z;
  persisted_vote_for : Z
}.

Class Storage (St : Type) := {
  LastIndex : St -> Z;
  PersistState : St -> PersistRaftState_t;
  SetPersistState : PersistRaftState_t -> St -> option St;
  LogEntries : St -> list LogEntry;
  PersistEntries : Z -> Z -> list LogEntry -> St -> option St;
  SetLastIndex : Z -> St -> option St;
  AppendEntry : LogEntry -> St -> option St;
  OverwriteEntry : Z -> LogEntry -> St -> option St;
  DeleteEntriesFrom : Z -> St -> option St;
  Sync : St -> option St
}.

(** What the Raft state relies on. [OnDisk] is the persisted term and vote as they
    would be found after the process stopped, [Reopen] opens the store again: a
    write takes effect on disk at once, no other operation changes the state or
    takes it back, and a reopened store answers what was on disk. *)
Class DurableState (St : Type) `{Storage St} := {
  OnDisk : St -> PersistRaftState_t;
  Reopen : St -> option St;
  state_kept (st st' : St) : Prop := PersistState st' = PersistState st /\
    (OnDisk st = PersistState st -> OnDisk st' = PersistState st');
  ds_write : forall st t v, exists st', SetPersistState (mkPersistRaftState true t v) st = Some st' /\
    PersistState st' = mkPersistRaftState true t v /\ OnDisk st' = mkPersistRaftState true t v;
  ds_persist_entries : forall lo hi b st st', PersistEntries lo hi b st = Some st' -> state_kept st st';
  ds_append : forall e st st', AppendEntry e st = Some st' -> state_kept st st';
  ds_overwrite : forall i e st st', OverwriteEntry i e st = Some st' -> state_kept st st';
  ds_delete : forall i st st', DeleteEntriesFrom i st = Some st' -> state_kept st st';
  ds_sync : forall st st', Sync st = Some st' -> state_kept st st';
  ds_reopen : forall st st', Reopen st = Some st' -> PersistState st' = OnDisk st
}.

Lemma state_kept_trans {St} `{DurableState St} (a b c : St) :
  state_kept a b -> state_kept b c -> state_kept a c.
Proof. intros [H1 H2] [H3 H4]. split; [congruence|auto]. Qed.

(** Writing the term and vote succeeds. *)
Class StateWrites (St : Type) `{Storage St} : Prop :=
  state_writes : forall st t v, is_Some (SetPersistState (mkPersistRaftState true t v) st).

#[export] Instance durable_writes {St} `{DurableState St} : StateWrites St.
Proof. intros st t v. destruct (ds_write st t v) as (st' & -> & _). eauto. Qed.

(** ** MemStorage: every mutator is a no-op *)
Record MemStorage := mkMemStorage {
  ms_persisted_term_ : Z;
  ms_persisted_vote_for_ : Z;
  ms_persisted_entries_ : list LogEntry
}.

#[export] Instance MemStorage_Storage : Storage MemStorage := {|
  LastIndex := fun st => match last (ms_persisted_entries_ st) with None => 0 | Some e => Index e end;
  PersistState := fun st => mkPersistRaftState true (ms_persisted_term_ st) (ms_persisted_vote_for_ st);
  SetPersistState := fun _ st => Some st;
  LogEntries := ms_persisted_entries_;
  PersistEntries := fun _ _ _ st => Some st;
  SetLastIndex := fun _ st => Some st;
  AppendEntry := fun _ st => Some st;
  OverwriteEntry := fun _ _ st => Some st;
  DeleteEntriesFrom := fun _ st => Some st;
  Sync := fun st => Some st
|}.

#[export] Instance MemStorage_writes : StateWrites MemStorage.
Proof. intros st t v. eauto. Qed.

(** ** Record sizes *)

(** [sizeof(LogEntry)] and [sizeof(Header)] on the target: any positive sizes. *)
Class Layout := { sizeof_LogEntry : Z; kHeaderSize : Z }.
Record layout_ok `{Layout} : Prop := {
  sizeof_LogEntry_pos : 0 < sizeof_LogEntry;
  kHeaderSize_pos : 0 < kHeaderSize
}.

(** [Serializer::getSerializeSize(const LogEntry &)]. *)
Definition getSerializeSize `{Layout} (e : LogEntry) : Z :=
  let ret := sizeof_LogEntry + slice_size (NotEncodedSlice e) + slice_size (FragmentSlice e) + 2 * 8 in
  let ret := ret + 4 + foldr (fun f acc => 4 + 8 + slice_size f + acc) 0 (Fragments e) in
  let ret := ret + 4 + Z.of_nat (length (Placement e)) * (4 * 3 + 4) in
  (ret - 1) / 4 * 4 + 4.

(** A record read back: the slices are restored from their length-prefixed
    copies, a normal entry takes its command (and its length) from the first one,
    the fragment ids are completed by position, and the counts and sizes are
    limited; a fragment of more than 16 MiB ends the reading of the record.
    Serializer.v proves that this is what [deserialize_logentry_helper] gives on
    the bytes of [serialize_logentry_helper], as far as the buffers whose stale
    addresses the record contains can be released harmlessly. *)
Definition reload (e : LogEntry) : LogEntry :=
  let e1 := mkLogEntry (Term e) (Index e) (Type_ e) (GetChunkInfo e) (StartOffset e)
              (CommandLength e) [] (NotEncodedSlice e) (FragmentSlice e) [] [] [] in
  let e2 := if is_kNormal e then SetCommandData (NotEncodedSlice e) e1 else e1 in
  let frags := take 1024 (Fragments e) in
  let ids := imap (fun i _ => default (Z.of_nat i) (FragIds e !! i)) frags in
  if existsb (fun f => 16 * 1024 * 1024 <? slice_size f) frags then e2 else
  SetPlacement (take 256 (Placement e)) (set_FragIds ids (SetFragments frags e2)).

(** ** FileStorage *)
Record EntryExtent := mkExtent { ext_offset : Z; ext_size : Z }.

Record Header := mkHeader {
  raft_state : PersistRaftState_t;
  lastLogIndex : Z;
  lastLogTerm : Z;
  last_off : Z
}.

(** [header_] is the in-memory header, [disk_header] its last written copy
    ([PersistHeader]); [records] are the log records in the file. *)
Record FileStorage := mkFileStorage {
  header_ : Header;
  disk_header : Header;
  records : list LogEntry;
  extents_ : gmap Z EntryExtent
}.

Section file_storage.
Context `{Layout}.

(** The offset at which the records [l] end. *)
Definition end_off (l : list LogEntry) : Z :=
  foldl (fun off e => off + getSerializeSize e) kHeaderSize l.

Definition PersistHeader (st : FileStorage) : FileStorage :=
  mkFileStorage (header_ st) (header_ st) (records st) (extents_ st).

(** [InitializeHeaderOnCreation] and the write of a new file's header. *)
Definition FileStorage_create : FileStorage :=
  let h := mkHeader (mkPersistRaftState false 0 0) 0 0 kHeaderSize in
  mkFileStorage h h [] ∅.

(** [Append] and [MaybeUpdateLastIndexAndTerm]. *)
Definition write_record (e : LogEntry) (st : FileStorage) : FileStorage :=
  let h := header_ st in
  let '(li, lt) := if lastLogIndex h <? Index e then (Index e, Term e)
                   else (lastLogIndex h, lastLogTerm h) in
  mkFileStorage (mkHeader (raft_state h) li lt (last_off h + getSerializeSize e))
    (disk_header st) (records st ++ [e]) (extents_ st).

(** [PersistEntries]: appends the batch; the extents are not updated. *)
Definition persist_one (acc : option (Z * FileStorage)) (e : LogEntry) : option (Z * FileStorage) :=
  match acc with
  | None => None
  | Some (check_raft_index, st) =>
      let st := write_record e st in
      if check_raft_index =? Index e then Some (u32 (check_raft_index + 1), st) else None
  end.

Definition fs_PersistEntries (lo hi : Z) (batch : list LogEntry) (st : FileStorage)
    : option FileStorage :=
  if hi <? lo then Some st else
  r ← foldl persist_one (Some (lo, st)) batch; Some (PersistHeader (snd r)).

(** [AppendEntry]: an entry that does not follow the last one is ignored; the
    header is not written. *)
Definition fs_AppendEntry (e : LogEntry) (st : FileStorage) : option FileStorage :=
  if negb (Index e =? u32 (lastLogIndex (header_ st) + 1)) then Some st else
  let extent := mkExtent (last_off (header_ st)) (getSerializeSize e) in
  let st := write_record e st in
  Some (mkFileStorage (header_ st) (disk_header st) (records st) (<[Index e := extent]> (extents_ st))).

(** [Truncate] at a record boundary; cutting a record is not modelled. *)
Definition truncate_at (off : Z) (l : list LogEntry) : option (list LogEntry) :=
  match list_find (fun n => end_off (take n l) = off) (seq 0 (S (length l))) with
  | Some (_, n) => Some (take n l)
  | None => None
  end.

Definition fs_DeleteEntriesFrom (raft_index : Z) (st : FileStorage) : option FileStorage :=
  let h := header_ st in
  if lastLogIndex h <? raft_index then Some st else
  match extents_ st !! raft_index with
  | None => Some st
  | Some extent =>
      recs ← truncate_at (ext_offset extent) (records st);
      Some (mkFileStorage
              (mkHeader (raft_state h) (u32 (raft_index - 1)) (lastLogTerm h) (ext_offset extent))
              (disk_header st) recs (extents_ st))
  end.

Definition fs_OverwriteEntry (raft_index : Z) (e : LogEntry) (st : FileStorage) : option FileStorage :=
  st ← fs_DeleteEntriesFrom raft_index st; fs_AppendEntry e st.

(** [LogEntries]: a vector of [last + 1] default entries, overwritten at each
    record's index; later records win. *)
Definition fs_LogEntries (st : FileStorage) : list LogEntry :=
  let last_index := lastLogIndex (header_ st) in
  foldl (fun v e => if Index e <=? last_index then <[Z.to_nat (Index e) := reload e]> v else v)
    (replicate (Z.to_nat (last_index + 1)) LogEntry_default) (records st).

(** [ConstructExtents], run by [Open] on an existing file. *)
Definition extent_step (acc : Z * gmap Z EntryExtent) (e : LogEntry) : Z * gmap Z EntryExtent :=
  let '(off, ext) := acc in
  (off + getSerializeSize (reload e), <[Index e := mkExtent off (getSerializeSize (reload e))]> ext).

Definition ConstructExtents (recs : list LogEntry) : gmap Z EntryExtent :=
  snd (foldl extent_step (kHeaderSize, ∅) recs).

(** [Open] after the process stopped: the header is the one last written and
    the records are those it covers. *)
Definition Open (st : FileStorage) : option FileStorage :=
  recs ← truncate_at (last_off (disk_header st)) (records st);
  Some (mkFileStorage (disk_header st) (disk_header st) recs (ConstructExtents recs)).

#[global] Instance FileStorage_Storage : Storage FileStorage := {|
  LastIndex := fun st => lastLogIndex (header_ st);
  PersistState := fun st => raft_state (header_ st);
  SetPersistState := fun s st =>
    if prs_valid s then
      let h := header_ st in
      Some (PersistHeader (mkFileStorage (mkHeader s (lastLogIndex h) (lastLogTerm h) (last_off h))
                             (disk_header st) (records st) (extents_ st)))
    else Some st;
  LogEntries := fs_LogEntries;
  PersistEntries := fs_PersistEntries;
  SetLastIndex := fun i st =>
    let h := header_ st in
    Some (PersistHeader (mkFileStorage (mkHeader (raft_state h) i (lastLogTerm h) (last_off h))
                           (disk_header st) (records st) (extents_ st)));
  AppendEntry := fs_AppendEntry;
  OverwriteEntry := fs_OverwriteEntry;
  DeleteEntriesFrom := fs_DeleteEntriesFrom;
  Sync := fun st => Some (PersistHeader st)
|}.

(** ** FileStorage keeps the persisted term and vote *)
Definition fs_kept (st st' : FileStorage) : Prop :=
  raft_state (header_ st') = raft_state (header_ st) /\
  (raft_state (disk_header st) = raft_state (header_ st) ->
   raft_state (disk_header st') = raft_state (header_ st')).

Lemma write_record_kept e st : fs_kept st (write_record e st).
Proof. unfold fs_kept, write_record. by destruct (lastLogIndex (header_ st) <? Index e). Qed.

Lemma fs_kept_trans a b c : fs_kept a b -> fs_kept b c -> fs_kept a c.
Proof. intros [H1 H2] [H3 H4]. split; [congruence|auto]. Qed.

Lemma fs_AppendEntry_kept e st st' : fs_AppendEntry e st = Some st' -> fs_kept st st'.
Proof.
  unfold fs_AppendEntry. destruct (negb _); intros [= <-]; [done|].
  apply (write_record_kept e st).
Qed.

Lemma fs_DeleteEntriesFrom_kept i st st' : fs_DeleteEntriesFrom i st = Some st' -> fs_kept st st'.
Proof.
  unfold fs_DeleteEntriesFrom. destruct (_ <? _); [by intros [= <-]|].
  destruct (extents_ st !! i); [|by intros [= <-]].
  destruct (truncate_at _ _); cbn; intros [= <-]. done.
Qed.

Lemma persist_one_None b : foldl persist_one None b = None.
Proof. by induction b. Qed.

Lemma fs_PersistEntries_kept lo hi b st st' : fs_PersistEntries lo hi b st = Some st' -> fs_kept st st'.
Proof.
  unfold fs_PersistEntries. destruct (hi <? lo); [by intros [= <-]|].
  destruct (foldl persist_one (Some (lo, st)) b) as [[c s]|] eqn:E; cbn; intros [= <-].
  apply (fs_kept_trans _ s); [|done].
  revert lo st E. induction b as [|e b IH]; intros lo st; cbn; [by intros [= <- <-]|].
  destruct (lo =? Index e); [|by rewrite persist_one_None].
  intros Hb. eapply fs_kept_trans; [apply write_record_kept|by eapply IH].
Qed.

#[global] Instance FileStorage_Durable : DurableState FileStorage.
Proof.
  refine {| OnDisk := fun st => raft_state (disk_header st); Reopen := Open |}.
  - intros st t v. cbn. eexists. done.
  - apply fs_PersistEntries_kept.
  - apply fs_AppendEntry_kept.
  - intros i e st st'. cbn. unfold fs_OverwriteEntry.
    destruct (fs_DeleteEntriesFrom i st) as [st1|] eqn:E; cbn; [|done]. intros Ha.
    eapply fs_kept_trans; [by eapply fs_DeleteEntriesFrom_kept|by eapply fs_AppendEntry_kept].
  - apply fs_DeleteEntriesFrom_kept.
  - cbn. by intros st st' [= <-].
  - cbn. unfold Open. intros st st'. destruct (truncate_at _ _); cbn; intros [= <-]. done.
Defined.

(** ** Invariant: the records are the entries 1, 2, ... of the log *)
Record fs_wf (st : FileStorage) : Prop := {
  fw_last : lastLogIndex (header_ st) = Z.of_nat (length (records st));
  fw_bound : lastLogIndex (header_ st) + 1 < 2 ^ 32;
  fw_off : last_off (header_ st) = end_off (records st);
  fw_index : forall i e, records st !! i = Some e -> Index e = Z.of_nat i + 1;
  fw_counts : forall e, e ∈ records st -> within_limits e;
  fw_extents : forall i, 1 <= i <= lastLogIndex (header_ st) ->
    exists sz, extents_ st !! i = Some (mkExtent (end_off (take (Z.to_nat (i - 1)) (records st))) sz)
}.

(** What a batch leaves in the file: the log grows by the batch and the header
    on disk covers it. *)
Lemma persist_fold batch : forall lo st,
  lo = lastLogIndex (header_ st) + 1 ->
  (forall i e, batch !! i = Some e -> Index e = lo + Z.of_nat i) ->
  0 <= lo -> lo + Z.of_nat (length batch) < 2 ^ 32 ->
  exists st', foldl persist_one (Some (lo, st)) batch = Some (lo + Z.of_nat (length batch), st') /\
    records st' = records st ++ batch /\
    lastLogIndex (header_ st') = lastLogIndex (header_ st) + Z.of_nat (length batch) /\
    raft_state (header_ st') = raft_state (header_ st).
Proof.
  induction batch as [|e b IH]; intros lo st Hlo Hix H0 Hb; cbn [foldl length].
  - exists st. rewrite app_nil_r, !Z.add_0_r. done.
  - assert (Index e = lo) as He by (rewrite (Hix 0%nat e eq_refl); lia).
    cbn [length] in Hb. cbn [persist_one]. rewrite He, Z.eqb_refl.
    rewrite u32_small by (unfold is_u32; lia).
    assert (lastLogIndex (header_ (write_record e st)) = lo) as Hw.
    { unfold write_record. rewrite He, (proj2 (Z.ltb_lt _ _)) by lia. done. }
    destruct (IH (lo + 1) (write_record e st)) as (st' & Hf & Hr & Hl & Hs).
    + lia.
    + intros i x Hx. rewrite (Hix (S i) x Hx). lia.
    + lia.
    + lia.
    + exists st'. rewrite Hf, Hl, Hr, Hs, Hw, (proj1 (write_record_kept e st)). split_and!; [f_equal; f_equal; lia| |lia|done].
      unfold write_record. destruct (lastLogIndex (header_ st) <? Index e); cbn; by rewrite <- app_assoc.
Qed.

Lemma PersistEntries_appends batch lo hi st :
  lo <= hi -> lo = lastLogIndex (header_ st) + 1 ->
  (forall i e, batch !! i = Some e -> Index e = lo + Z.of_nat i) ->
  0 <= lo -> lo + Z.of_nat (length batch) < 2 ^ 32 ->
  exists st', fs_PersistEntries lo hi batch st = Some st' /\
    records st' = records st ++ batch /\
    lastLogIndex (header_ st') = lastLogIndex (header_ st) + Z.of_nat (length batch) /\
    disk_header st' = header_ st' /\ raft_state (header_ st') = raft_state (header_ st).
Proof.
  intros Hh Hlo Hix H0 Hb. unfold fs_PersistEntries. rewrite (proj2 (Z.ltb_ge _ _)) by lia.
  destruct (persist_fold batch lo st Hlo Hix H0 Hb) as (st' & -> & Hr & Hl & Hs). cbn.
  eexists. split; [done|]. cbn. done.
Qed.

Context (HL : layout_ok).

Lemma getSerializeSize_pos e : 0 < getSerializeSize e.
Proof.
  unfold getSerializeSize, slice_size. pose proof (sizeof_LogEntry_pos HL).
  assert (0 <= foldr (fun f acc => 4 + 8 + Z.of_nat (length (f : Slice)) + acc) 0 (Fragments e)).
  { induction (Fragments e); cbn; lia. }
  zdm. lia.
Qed.

Lemma end_off_snoc l e : end_off (l ++ [e]) = end_off l + getSerializeSize e.
Proof. unfold end_off. by rewrite foldl_app. Qed.

Lemma end_off_take_lt l (n m : nat) :
  (n < m <= length l)%nat -> end_off (take n l) < end_off (take m l).
Proof.
  intros [Hnm Hm]. induction m as [|m IH]; [lia|].
  destruct (lookup_lt_is_Some_2 l m) as [e He]; [lia|].
  erewrite take_S_r by exact He. rewrite end_off_snoc.
  pose proof (getSerializeSize_pos e).
  destruct (decide (n = m)) as [->|]; [lia|]. specialize (IH ltac:(lia) ltac:(lia)). lia.
Qed.

Lemma truncate_at_take l (n : nat) :
  (n <= length l)%nat -> truncate_at (end_off (take n l)) l = Some (take n l).
Proof.
  intros Hn. unfold truncate_at.
  destruct (list_find _ (seq 0 (S (length l)))) as [[i m]|] eqn:E.
  - apply list_find_Some in E as (Hi & Heq & _). apply lookup_seq in Hi as [-> Hi].
    destruct (decide (n = 0 + i)%nat) as [->|Hne]; [done|].
    destruct (decide (n < 0 + i)%nat).
    + pose proof (end_off_take_lt l n (0 + i)). lia.
    + pose proof (end_off_take_lt l (0 + i) n). lia.
  - apply list_find_None in E. rewrite Forall_forall in E.
    destruct (E n); [|done]. apply elem_of_seq. lia.
Qed.

Lemma truncate_at_app l l' : truncate_at (end_off l) (l ++ l') = Some l.
Proof.
  pose proof (truncate_at_take (l ++ l') (length l)) as Ht.
  rewrite take_app_length in Ht. apply Ht. rewrite length_app. lia.
Qed.

(** ** Operations on a well-formed file *)
Lemma create_wf : fs_wf FileStorage_create.
Proof. split; cbn; try done; [by intros e ?%elem_of_nil|intros i Hi; lia]. Qed.

Lemma AppendEntry_wf st e :
  fs_wf st -> Index e = lastLogIndex (header_ st) + 1 -> lastLogIndex (header_ st) + 2 < 2 ^ 32 ->
  within_limits e ->
  exists st', fs_AppendEntry e st = Some st' /\ fs_wf st' /\ records st' = records st ++ [e] /\
    disk_header st' = disk_header st.
Proof.
  intros Hwf Hi Hb Hlim. unfold fs_AppendEntry. pose proof (fw_last _ Hwf) as Hl.
  rewrite u32_small, Hi, Z.eqb_refl by (unfold is_u32; lia). cbn [negb].
  unfold write_record. rewrite (proj2 (Z.ltb_lt _ _)) by lia. cbn.
  eexists. split; [done|]. split; [|done]. split; cbn.
  - rewrite length_app. cbn. lia.
  - lia.
  - rewrite end_off_snoc. by rewrite (fw_off _ Hwf).
  - intros i x Hx. apply lookup_app_Some in Hx as [Hx|[Hge Hx]].
    + by apply (fw_index _ Hwf).
    + apply list_lookup_singleton_Some in Hx as [Hi0 <-]. lia.
  - intros x [Hx|Hx]%elem_of_app; [by apply (fw_counts _ Hwf)|].
    by apply list_elem_of_singleton in Hx as ->.
  - intros i Hr. destruct (decide (i = lastLogIndex (header_ st) + 1)) as [->|Hne].
    + exists (getSerializeSize e). rewrite ?Hi, lookup_insert_eq, (fw_off _ Hwf).
      do 3 f_equal. rewrite take_app_le by lia. rewrite firstn_all2 by lia. done.
    + rewrite lookup_insert_ne by lia. destruct (fw_extents _ Hwf i) as [sz Hs]; [lia|].
      exists sz. rewrite Hs. do 3 f_equal. by rewrite take_app_le by lia.
Qed.

Lemma DeleteEntriesFrom_wf st i :
  fs_wf st -> 1 <= i <= lastLogIndex (header_ st) ->
  exists st', fs_DeleteEntriesFrom i st = Some st' /\ fs_wf st' /\
    records st' = take (Z.to_nat (i - 1)) (records st) /\ disk_header st' = disk_header st.
Proof.
  intros Hwf Hi. unfold fs_DeleteEntriesFrom. rewrite (proj2 (Z.ltb_ge _ _)) by lia.
  pose proof (fw_last _ Hwf) as Hl. pose proof (fw_bound _ Hwf) as Hb.
  destruct (fw_extents _ Hwf i Hi) as [sz Hs]. rewrite Hs. cbn [ext_offset].
  rewrite truncate_at_take by lia. cbn. eexists. split; [done|]. split; [|done].
  assert (Z.of_nat (length (take (Z.to_nat (i - 1)) (records st))) = i - 1) as Hlt.
  { rewrite length_take. lia. }
  split; cbn; rewrite ?u32_small by (unfold is_u32; lia).
  - lia.
  - lia.
  - done.
  - intros j e He. apply lookup_take_full in He as [He _]. by apply (fw_index _ Hwf).
  - intros e He. apply (fw_counts _ Hwf). apply elem_of_take in He as (j & He & _). by eapply list_elem_of_lookup_2.
  - intros j Hj. destruct (fw_extents _ Hwf j) as [sz' Hs']; [lia|]. exists sz'. rewrite Hs'.
    do 3 f_equal. rewrite take_take. f_equal. lia.
Qed.

Lemma insert_cons_S (x y : LogEntry) (i : nat) l : <[S i := x]> (y :: l) = y :: <[i := x]> l.
Proof. done. Qed.

(** Reading the log back. *)
Lemma LogEntries_wf st :
  fs_wf st -> fs_LogEntries st = LogEntry_default :: (reload <$> records st).
Proof.
  intros Hwf. unfold fs_LogEntries. pose proof (fw_last _ Hwf) as Hl. pose proof (fw_index _ Hwf) as Hix.
  set (n := lastLogIndex (header_ st)) in *.
  assert (forall l pre, records st = pre ++ l ->
    foldl (fun v e => if Index e <=? n then <[Z.to_nat (Index e) := reload e]> v else v)
      (LogEntry_default :: (reload <$> pre) ++ replicate (length l) LogEntry_default) l =
    LogEntry_default :: (reload <$> records st)) as Hg.
  { induction l as [|e l IH]; intros pre Hpre; cbn [foldl length replicate].
    - rewrite Hpre, !app_nil_r. done.
    - assert (Index e = Z.of_nat (length pre) + 1) as Hi.
      { apply Hix. rewrite Hpre. rewrite lookup_app_r, Nat.sub_diag by lia. done. }
      rewrite (proj2 (Z.leb_le _ _)) by (rewrite Hi, Hl, Hpre, length_app; cbn; lia).
      rewrite <- (IH (pre ++ [e])) by (by rewrite <- app_assoc).
      f_equal. rewrite Hi. replace (Z.to_nat (Z.of_nat (length pre) + 1)) with (S (length pre)) by lia.
      rewrite insert_cons_S.
      f_equal. rewrite insert_app_r_alt by (rewrite length_fmap; lia).
      rewrite length_fmap, Nat.sub_diag. cbn. rewrite fmap_app, <- app_assoc. done. }
  specialize (Hg (records st) [] eq_refl). rewrite <- Hg. f_equal.
  cbn. replace (Z.to_nat (n + 1)) with (S (length (records st))) by lia. done.
Qed.

(** Restart of a file whose header is written. *)
Lemma reload_Index e : Index (reload e) = Index e.
Proof. unfold reload. destruct (is_kNormal e), (existsb _ _); done. Qed.

Lemma within_limits_16M e :
  within_limits e -> existsb (fun f => 16 * 1024 * 1024 <? slice_size f) (take 1024 (Fragments e)) = false.
Proof.
  intros [_ Hs _]. apply not_true_iff_false. rewrite existsb_exists. intros (f & Hin & Hlt%Z.ltb_lt).
  apply list_elem_of_In, elem_of_take in Hin as (i & Hi & _).
  rewrite Forall_forall in Hs. specialize (Hs f (list_elem_of_lookup_2 _ _ _ Hi)). lia.
Qed.

Lemma reload_Fragments e : within_limits e -> Fragments (reload e) = Fragments e.
Proof.
  intros Hw. unfold reload. rewrite (within_limits_16M e Hw). destruct Hw as [Hn Hs _].
  unfold kMaxFragments in Hn. rewrite (firstn_all2 (n := 1024)) by lia.
  transitivity (Fragments (SetFragments (Fragments e) e)); [by destruct e, (is_kNormal _)|by apply SetFragments_small].
Qed.

Lemma reload_Placement e : within_limits e -> Placement (reload e) = Placement e.
Proof.
  intros Hw. unfold reload. rewrite (within_limits_16M e Hw). destruct Hw as [_ _ Hp].
  rewrite (firstn_all2 (n := 256)) by done. by destruct (is_kNormal e).
Qed.

Lemma getSerializeSize_reload e : within_limits e -> getSerializeSize (reload e) = getSerializeSize e.
Proof.
  intros Hw. unfold getSerializeSize. rewrite reload_Fragments, reload_Placement by done.
  assert (NotEncodedSlice (reload e) = NotEncodedSlice e /\ FragmentSlice (reload e) = FragmentSlice e)
    as [-> ->]; [|done].
  unfold reload. rewrite (within_limits_16M e Hw).
  destruct e as [t i ty ci so cl cd ns fs fr fi pl]; by destruct ty.
Qed.

Lemma extent_step_off l :
  (forall e, e ∈ l -> within_limits e) ->
  fst (foldl extent_step (kHeaderSize, ∅) l) = end_off l.
Proof.
  induction l as [|e l' IH] using rev_ind; [done|]. intros Hs.
  rewrite foldl_app, end_off_snoc. destruct (foldl extent_step _ l') as [o m] eqn:E. cbn.
  rewrite <- IH by (intros; apply Hs; apply elem_of_app; by left). cbn.
  rewrite getSerializeSize_reload; [done|]. apply Hs, elem_of_app. right. by apply list_elem_of_singleton.
Qed.

Lemma ConstructExtents_spec l :
  (forall e, e ∈ l -> within_limits e) ->
  (forall i e, l !! i = Some e -> Index e = Z.of_nat i + 1) ->
  forall i, 1 <= i <= Z.of_nat (length l) ->
  exists sz, ConstructExtents l !! i = Some (mkExtent (end_off (take (Z.to_nat (i - 1)) l)) sz).
Proof.
  unfold ConstructExtents.
  induction l as [|e l' IH] using rev_ind; [cbn; lia|]. intros Hs Hix i Hi.
  rewrite length_app in Hi. cbn in Hi. rewrite foldl_app.
  destruct (foldl extent_step _ l') as [o m] eqn:E. cbn.
  assert (Index e = Z.of_nat (length l') + 1) as He.
  { apply Hix. by rewrite lookup_app_r, Nat.sub_diag by lia. }
  assert (o = end_off l') as Ho.
  { rewrite <- extent_step_off by (intros; apply Hs; apply elem_of_app; by left). by rewrite E. }
  destruct (decide (i = Z.of_nat (length l') + 1)) as [->|Hne].
  - rewrite He, lookup_insert_eq, Ho, take_app_le by lia. rewrite firstn_all2 by lia. eauto.
  - rewrite lookup_insert_ne by lia. rewrite take_app_le by lia. apply IH.
    + intros; apply Hs; apply elem_of_app; by left.
    + intros j x Hx. apply Hix. by apply lookup_app_l_Some.
    + lia.
Qed.

Lemma Open_synced st :
  fs_wf st -> disk_header st = header_ st ->
  exists st', Open st = Some st' /\ header_ st' = header_ st /\ records st' = records st /\ fs_wf st'.
Proof.
  intros Hwf Hd. unfold Open. rewrite Hd, (fw_off _ Hwf).
  pose proof (truncate_at_take (records st) (length (records st)) ltac:(lia)) as Ht.
  rewrite firstn_all in Ht. rewrite Ht. cbn. eexists. split_and!; [done..|].
  destruct Hwf. split; cbn; try done. rewrite fw_last0. by apply ConstructExtents_spec.
Qed.
End file_storage.


Lemma reload_indices (l : list LogEntry) (i : nat) (e : LogEntry) :
  (forall (i : nat) e, l !! i = Some e -> Index e = Z.of_nat i + 1) ->
  (reload <$> l) !! i = Some e -> Index e = Z.of_nat i + 1.
Proof.
  intros Hix Hl. apply list_lookup_fmap_Some in Hl as (e0 & -> & He0).
  rewrite reload_Index. by apply Hix.
Qed.

(** Restart recovery across the storage and the log manager: from a file
    whose records are the entries 1..n and whose header was written, [Open]
    succeeds and [NewLogManager] on the reopened file rebuilds the whole log,
    entry by entry as deserialised, with the persisted term and vote. *)
Theorem restart_recovers_log {alloc : Allocator} `{Layout} (st : FileStorage)
    (Halloc : forall n, new_array_ok n = true) (HL : layout_ok)
    (Hwf : fs_wf st) (Hsync : disk_header st = header_ st)
    (Hlen : Z.of_nat (length (records st)) < 2 ^ 27) :
  exists st' lm, Open st = Some st' /\ PersistState st' = PersistState st /\
    NewLogManager (Some (LogEntries st', LastIndex st')) = Some lm /\
    wf lm /\ base_ lm = 1 /\ view lm = reload <$> records st.
Proof.
  destruct (Open_synced HL st Hwf Hsync) as (st' & Ho & Hh & Hr & Hwf').
  exists st'. cbn. rewrite (LogEntries_wf _ Hwf'), Hh, Hr, (fw_last _ Hwf).
  destruct (NewLogManager_recovers LogEntry_default (reload <$> records st) Halloc)
    as (lm & Hn & Hw & Hv & Hb).
  - intros i e. apply reload_indices, (fw_index _ Hwf).
  - by rewrite length_fmap.
  - rewrite length_fmap in Hn. exists lm. done.
Qed.

(** A concrete layout and a file with one synced entry. *)
#[local] Instance demo_layout : Layout := {| sizeof_LogEntry := 200; kHeaderSize := 32 |}.
#[local] Instance demo_alloc : Allocator := fun _ => true.
Definition demo_entry : LogEntry := SetCommandData [1; 2; 3] (SetIndex 1 (SetTerm 1 LogEntry_default)).
Definition demo_file : FileStorage :=
  default FileStorage_create (st ← AppendEntry demo_entry FileStorage_create; Sync st).

Lemma demo_layout_ok : layout_ok.
Proof. split; cbn; lia. Qed.

Lemma demo_file_wf : fs_wf demo_file.
Proof.
  destruct (AppendEntry_wf FileStorage_create demo_entry) as (st & Ha & Hw & _);
    [apply create_wf|done|done|by split; cbn; try lia|].
  unfold demo_file. cbn [AppendEntry FileStorage_Storage]. rewrite Ha. cbn. destruct Hw. by split.
Qed.

Lemma restart_recovers_log_witness :
  exists st' lm, Open demo_file = Some st' /\ PersistState st' = PersistState demo_file /\
    NewLogManager (Some (LogEntries st', LastIndex st')) = Some lm /\
    wf lm /\ base_ lm = 1 /\ view lm = reload <$> records demo_file.
Proof.
  apply restart_recovers_log; [done|apply demo_layout_ok|apply demo_file_wf|reflexivity|].
  vm_compute. reflexivity.
Defined.

(** An entry that [AppendEntry] accepted is not durable until the header is
    written: without a [Sync] a restart drops it although [LastIndex] counted it. *)
Theorem AppendEntry_lost_without_Sync `{Layout} (st : FileStorage) (e : LogEntry)
    (HL : layout_ok) (Hwf : fs_wf st) (Hsync : disk_header st = header_ st)
    (Hi : Index e = LastIndex st + 1) (Hb : LastIndex st + 2 < 2 ^ 32)
    (Hl : within_limits e) :
  exists st1 st2, AppendEntry e st = Some st1 /\ LastIndex st1 = LastIndex st + 1 /\
    Open st1 = Some st2 /\ LastIndex st2 = LastIndex st /\ records st2 = records st.
Proof.
  destruct (AppendEntry_wf st e Hwf Hi Hb Hl) as (st1 & Ha & Hw1 & Hr & Hd).
  exists st1. eexists. cbn. split; [done|]. split.
  { rewrite (fw_last _ Hw1), Hr, length_app, (fw_last _ Hwf). cbn. lia. }
  unfold Open. rewrite Hd, Hsync, (fw_off _ Hwf), Hr, (truncate_at_app HL). cbn. done.
Qed.

Lemma AppendEntry_lost_without_Sync_witness :
  exists st1 st2, AppendEntry (SetIndex 2 demo_entry) demo_file = Some st1 /\
    LastIndex st1 = LastIndex demo_file + 1 /\
    Open st1 = Some st2 /\ LastIndex st2 = LastIndex demo_file /\ records st2 = records demo_file.
Proof.
  apply AppendEntry_lost_without_Sync;
    [apply demo_layout_ok|apply demo_file_wf|reflexivity|reflexivity|reflexivity|split; cbn; [lia|constructor|lia]].
Defined.

(** [PersistEntries] does not record extents: an entry it wrote cannot be
    deleted any more ([DeleteEntriesFrom] leaves the file as it is), and its
    replacement by [OverwriteEntry] is ignored. *)
Theorem PersistEntries_not_overwritable `{Layout} (st : FileStorage) (e e' : LogEntry)
    (Hi : Index e = LastIndex st + 1) (Hi' : Index e' = Index e) (Hb : 0 <= LastIndex st < 2 ^ 32 - 2)
    (Hext : extents_ st !! Index e = None) :
  exists st1, PersistEntries (Index e) (Index e) [e] st = Some st1 /\ LastIndex st1 = Index e /\
    DeleteEntriesFrom (Index e) st1 = Some st1 /\ OverwriteEntry (Index e) e' st1 = Some st1.
Proof.
  cbn in *. unfold fs_PersistEntries, fs_OverwriteEntry, fs_DeleteEntriesFrom, fs_AppendEntry.
  rewrite Z.ltb_irrefl. cbn. rewrite Z.eqb_refl. cbn. eexists. split; [done|].
  unfold write_record. rewrite (proj2 (Z.ltb_lt _ _)) by lia. cbn.
  rewrite Z.ltb_irrefl, Hext. cbn. split_and!; [done..|].
  rewrite Hi', (proj2 (Z.eqb_neq _ _)); [done|].
  rewrite u32_small by (unfold is_u32; lia). lia.
Qed.

Lemma PersistEntries_not_overwritable_witness :
  exists st1, PersistEntries 1 1 [demo_entry] FileStorage_create = Some st1 /\ LastIndex st1 = 1 /\
    DeleteEntriesFrom 1 st1 = Some st1 /\ OverwriteEntry 1 (SetTerm 5 demo_entry) st1 = Some st1.
Proof. apply (PersistEntries_not_overwritable FileStorage_create demo_entry); done. Defined.
