(* ===== verification/Serializer.v ===== *)
(** The wire and file format of src/raft/serializer.{h,cc}.

    Structs are copied byte by byte, so their layout is part of the format; it is
    written out for x86-64: little-endian, no padding between 32-bit members,
    [sizeof(LogEntry) = 192]: the scalar members (48 bytes), three [Slice]s
    (pointer, size, owned flag) and three vectors (begin, end, capacity). What the
    bytes of pointers and padding are is a parameter ([Image]).

    [deserialize_logentry_withbound] reads the scalar members only.
    [deserialize_logentry_helper] copies the pointers of the writer as well; its
    setters then release or write through them. [foreign_free] says whether that
    is harmless; when it is not, the call is undefined. *)

From S2P Require Import Prelude Types Bytes Storage.

Class Image := {
  address : LogEntry -> nat -> Z;
  padding : LogEntry -> nat -> Slice;
  padding32 : Z;
  foreign_free : bool
}.

Record image_ok `{Image} : Prop := {
  im_address : forall e i, 0 < address e i < 2 ^ 63;
  im_padding : forall e i, length (padding e i) = 7%nat
}.

(** ** Fields *)
Definition raw32 (z : Z) : Slice := le 4 z.
Definition raw64 (z : Z) : Slice := le 8 z.
Arguments raw32 : simpl never.
Arguments raw64 : simpl never.

Definition type_to_Z (t : raft_entry_type) : Z := match t with kNormal => 0 | kFragments => 1 | kTypeMax => 2 end.
Definition type_of_Z (z : Z) : Reader raft_entry_type :=
  if z =? 0 then rret kNormal else if z =? 1 then rret kFragments
  else if z =? 2 then rret kTypeMax else rundef.

Definition PutPrefixLengthSlice (s : Slice) : Slice := raw64 (slice_size s) ++ s.

(** Reads of a caller that did not check the bound. *)
Definition get32 : Reader Z := read_le Undef 4.
Definition get32i : Reader Z := let? z := get32 in rret (i32 z).
Definition get_flag : Reader bool := let? z := get32 in rret (negb (z =? 0)).
Definition get64 : Reader Z := read_le Undef 8.
Definition ParsePrefixLengthSlice : Reader Slice := let? n := get64 in read_bytes Undef n.

(** [size + sizeof(size_t)] wraps around; a size close to 2^64 passes the check and
    the copy leaves the buffer. *)
Definition ParsePrefixLengthSliceWithBound : Reader Slice := fun p =>
  let len := slice_size p in
  if len <? 8 then Reject else
  let size := unle (take 8 p) in
  if len <? u64 (size + 8) then Reject else read_bytes Undef size (drop 8 p).

(** ** ChunkInfo *)
Definition chunk_bytes (c : ChunkInfo) : Slice :=
  raw32 (GetK c) ++ raw32 (GetRaftIndex c) ++ raw32 (GetL c) ++ raw32 (GetR c) ++
  raw32 (GetLrcGroupId c) ++ raw32 (GetKeySize c) ++ raw32 (GetTotalSize c).

Definition get_chunk : Reader ChunkInfo :=
  let? k := get32 in let? i := get32 in let? l := get32 in let? r := get32 in
  let? g := get32i in let? ks := get32 in let? ts := get32 in
  rret (mkChunkInfo k i l r g ks ts).

(** ** The memory image of a LogEntry *)
Section image.
Context `{Image}.

Definition scalar_bytes (e : LogEntry) : Slice :=
  raw32 (Term e) ++ raw32 (Index e) ++ raw32 (type_to_Z (Type_ e)) ++ chunk_bytes (GetChunkInfo e) ++
  raw32 (StartOffset e) ++ raw32 (CommandLength e).

(** A slice of an entry owns its bytes; an invalid one is null. *)
Definition slice_image (e : LogEntry) (i : nat) (s : Slice) : Slice :=
  raw64 (if valid s then address e i else 0) ++ raw64 (slice_size s) ++ [b2z (valid s)] ++ padding e i.

Definition vector_image (e : LogEntry) (i : nat) (elem_size : Z) (n : nat) : Slice :=
  let start := if (n =? 0)%nat then 0 else address e i in
  raw64 start ++ raw64 (start + Z.of_nat n * elem_size) ++ raw64 (start + Z.of_nat n * elem_size).

Definition members_bytes (e : LogEntry) : Slice :=
  slice_image e 0 (command_data_ e) ++ slice_image e 1 (not_encoded_slice_ e) ++
  slice_image e 2 (fragment_slice_ e) ++
  vector_image e 3 24 (length (Fragments e)) ++ vector_image e 4 4 (length (FragIds e)) ++
  vector_image e 5 16 (length (Placement e)).

Definition entry_image (e : LogEntry) : Slice := scalar_bytes e ++ members_bytes e.

(** ** Writing an entry *)
Definition frag_record (ids : list Z) (i : nat) (frag : Slice) : Slice :=
  raw32 (default (Z.of_nat i) (ids !! i)) ++ PutPrefixLengthSlice frag.

Definition placement_record (p : FragmentPlacement) : Slice :=
  raw32 (frag_id p) ++ raw32 (local_group p) ++ raw32 (node_id p) ++ raw32 (kind_to_Z (kind p)).

Definition serialize_logentry_helper (e : LogEntry) : Slice :=
  entry_image e ++ PutPrefixLengthSlice (NotEncodedSlice e) ++ PutPrefixLengthSlice (FragmentSlice e) ++
  raw32 (Z.of_nat (length (Fragments e))) ++ concat (imap (frag_record (FragIds e)) (Fragments e)) ++
  raw32 (Z.of_nat (length (Placement e))) ++ concat (placement_record <$> Placement e).

(** ** Reading an entry within a bound *)

(** The six scalar members, copied one by one; the sub-buffer is exactly the
    [sizeof(LogEntry)] bytes whose presence was checked. *)
Definition get_scalars : Reader LogEntry :=
  let? t := get32 in let? i := get32 in let? tyz := get32 in let? ty := type_of_Z tyz in
  let? c := get_chunk in let? so := get32i in let? cl := get32i in
  rret (mkLogEntry t i ty c so cl [] [] [] [] [] []).

Definition sizeof_entry : Z := 192.
Definition kMaxFragSize : Z := 16 * 1024 * 1024.

Definition read_frag_withbound : Reader (Z * Slice) :=
  let? _ := need 4 in let? id := get32i in
  let? _ := need 8 in let? size := get64 in
  if kMaxFragSize <? size then rfail else
  let? _ := need size in let? data := read_bytes Undef size in
  rret (id, data).

Definition read_placement_withbound : Reader FragmentPlacement :=
  let? _ := need 16 in
  let? f := get32i in let? g := get32i in let? n := get32i in
  let? kz := get32 in let? kd := kind_of_Z kz in
  rret (mkFragmentPlacement f g n kd).

Definition set_slices (ne frag : Slice) (e : LogEntry) : LogEntry :=
  let e := SetFragmentSlice frag (SetNotEncodedSlice ne e) in
  if is_kNormal e then SetCommandData ne e else e.

Definition set_frags (frags : list (Z * Slice)) (e : LogEntry) : LogEntry :=
  set_FragIds frags.*1 (SetFragments frags.*2 e).

(** The two counts are read without a check. *)
Definition deserialize_logentry_withbound : Reader LogEntry :=
  let? _ := need sizeof_entry in
  let? head := read_bytes Undef sizeof_entry in
  let? e := run_on get_scalars head in
  let? ne := ParsePrefixLengthSliceWithBound in
  let? frag := ParsePrefixLengthSliceWithBound in
  let? frag_count := get32 in
  let? frags := read_list (Z.to_nat frag_count) read_frag_withbound in
  let? placement_count := get32 in
  let? placement := read_list (Z.to_nat placement_count) read_placement_withbound in
  rret (SetPlacement placement (set_frags frags (set_slices ne frag e))).

(** ** Reading an entry without a bound *)

(** The pointers found in the image: is there a buffer the setters release? *)
Definition get_slice_image : Reader bool :=
  let? ptr := get64 in let? size := get64 in let? owned := read_le Undef 1 in
  let? _ := read_bytes Undef 7 in
  rret (negb (ptr =? 0) && (0 <? size) && negb (owned =? 0)).
Definition get_vector_image : Reader (Z * Z) :=
  let? start := get64 in let? stop := get64 in let? _ := get64 in rret (start, stop).

Definition harmless (stale : bool) : Reader unit := if stale && negb foreign_free then rundef else rret tt.

Definition read_frag_unbounded : Reader (Z * option Slice) :=
  let? id := get32i in let? size := get64 in
  if kMaxFragSize <? size then rret (id, None) else
  let? data := read_bytes Undef size in rret (id, Some data).

(** The fragment loop; [None] is the early [return nullptr]. *)
Fixpoint read_frags_unbounded (n : nat) : Reader (option (list (Z * Slice))) :=
  match n with
  | O => rret (Some [])
  | S n =>
      let? f := read_frag_unbounded in
      match snd f with
      | None => rret None
      | Some data =>
          let? l := read_frags_unbounded n in rret ((fun l => (fst f, data) :: l) <$> l)
      end
  end.

Definition read_placement_unbounded : Reader FragmentPlacement :=
  let? f := get32i in let? g := get32i in let? n := get32i in
  let? kz := get32 in let? kd := kind_of_Z kz in
  rret (mkFragmentPlacement f g n kd).

(** The vectors: their new contents are assigned over the buffers the image
    points to. Answers the entry and whether a position was returned. *)
Definition read_vectors (frags_at ids_at placement_at : Z) (e : LogEntry) : Reader (LogEntry * bool) :=
  let? frag_count := get32 in
  let? frags := read_frags_unbounded (Z.to_nat (Z.min frag_count 1024)) in
  match frags with
  | None => rret (e, false)
  | Some frags =>
      let? _ := harmless (negb (frags_at =? 0) && negb (bool_decide (frags = []))) in
      let? _ := harmless (negb (ids_at =? 0) && negb (bool_decide (frags = []))) in
      let e := set_frags frags e in
      let? placement_count := get32 in
      let? placement := read_list (Z.to_nat (Z.min placement_count 256)) read_placement_unbounded in
      let? _ := harmless (negb (placement_at =? 0) && negb (bool_decide (placement = []))) in
      rret (SetPlacement placement e, true)
  end.

Definition deserialize_logentry_helper : Reader (LogEntry * bool) :=
  let? e := get_scalars in
  let? stale_command := get_slice_image in
  let? stale_not_encoded := get_slice_image in
  let? stale_fragment := get_slice_image in
  let? frags_at := get_vector_image in
  let? ids_at := get_vector_image in
  let? placement_at := get_vector_image in
  let? _ := harmless (negb (fst frags_at =? snd frags_at)) in
  let? ne := ParsePrefixLengthSlice in
  let? frag := ParsePrefixLengthSlice in
  let? _ := harmless stale_not_encoded in
  let? _ := harmless stale_fragment in
  let? _ := harmless (is_kNormal e && stale_command) in
  read_vectors (fst frags_at) (fst ids_at) (fst placement_at) (set_slices ne frag e).

(** ** Messages.
    A serialization is the bytes written from the start of the buffer; the buffer
    has the size [getSerializeSize] answers, so other bytes follow. *)
Definition Serialize_RequestVoteArgs (a : RequestVoteArgs) : Slice :=
  raw32 (rva_term a) ++ raw32 (rva_candidate_id a) ++ raw32 (rva_last_log_index a) ++
  raw32 (rva_last_log_term a) ++ raw32 (rva_group_id a) ++ raw32 (rva_candidate_priority a).
Definition Deserialize_RequestVoteArgs : Reader RequestVoteArgs :=
  let? t := get32 in let? c := get32 in let? li := get32 in let? lt := get32 in
  let? g := get32 in let? p := get32i in rret (mkRequestVoteArgs t c li lt g p).

Definition Serialize_RequestVoteReply (r : RequestVoteReply) : Slice :=
  raw32 (rvr_term r) ++ raw32 (b2z (rvr_vote_granted r)) ++ raw32 (rvr_reply_id r) ++ raw32 (rvr_group_id r).
Definition Deserialize_RequestVoteReply : Reader RequestVoteReply :=
  let? t := get32 in let? g := get_flag in let? i := get32 in let? gr := get32 in
  rret (mkRequestVoteReply t g i gr).

Definition kAppendEntriesArgsHdrSize : Z := 40.

Definition append_header (a : AppendEntriesArgs) : Slice :=
  raw32 (aea_term a) ++ raw32 (aea_group_id a) ++ raw32 (aea_leader_id a) ++ raw32 (aea_prev_log_index a) ++
  raw32 (aea_prev_log_term a) ++ raw32 (aea_prev_k a) ++ raw32 (aea_leader_commit a) ++ raw32 padding32 ++
  raw64 (aea_entry_cnt a).

(** [None] is the failed assertion on the count. *)
Definition Serialize_AppendEntriesArgs (a : AppendEntriesArgs) : option Slice :=
  if aea_entry_cnt a =? Z.of_nat (length (aea_entries a))
  then Some (append_header a ++ concat (serialize_logentry_helper <$> aea_entries a)) else None.

Definition get_append_header : Reader (list LogEntry -> AppendEntriesArgs) :=
  let? t := get32 in let? g := get32 in let? l := get32 in let? pi := get32 in let? pt := get32 in
  let? pk := get32 in let? lc := get32 in let? _ := get32 in let? cnt := get64 in
  rret (mkAppendEntriesArgs t g l pi pt pk lc cnt).

(** The loop of [entry_cnt] entries; a refused entry ends it. *)
Fixpoint read_entries (n : nat) : Reader (list LogEntry) := fun p =>
  match n with
  | O => Ok ([], p)
  | S n =>
      match deserialize_logentry_withbound p with
      | Ok (e, p') => (let? l := read_entries n in rret (e :: l)) p'
      | Reject => Ok ([], p)
      | Undef => Undef
      end
  end.

(** A count with the sign bit set makes [reserve] throw. *)
Definition Deserialize_AppendEntriesArgs : Reader AppendEntriesArgs :=
  let? _ := need kAppendEntriesArgsHdrSize in
  let? header := get_append_header in
  let cnt := aea_entry_cnt (header []) in
  if 2 ^ 63 <=? cnt then rundef else
  let? entries := read_entries (Z.to_nat cnt) in
  rret (header entries).

Definition Serialize_AppendEntriesReply (r : AppendEntriesReply) : Slice :=
  raw32 (aer_term r) ++ raw32 (b2z (aer_success r)) ++ raw32 (aer_expect_index r) ++ raw32 (aer_reply_id r) ++
  raw32 (aer_group_id r) ++ raw32 padding32 ++ raw32 (aer_chunk_info_cnt r) ++
  concat (chunk_bytes <$> aer_chunk_infos r).
Definition Deserialize_AppendEntriesReply : Reader AppendEntriesReply :=
  let? t := get32 in let? s := get_flag in let? e := get32 in let? i := get32 in let? g := get32 in
  let? _ := get32 in let? cnt := get32i in
  let? infos := read_list (Z.to_nat cnt) get_chunk in
  rret (mkAppendEntriesReply t s e i g cnt infos).

Definition Serialize_RequestFragmentsArgs (a : RequestFragmentsArgs) : Slice :=
  raw32 (rfa_group_id a) ++ raw32 (rfa_term a) ++ raw32 (rfa_leader_id a) ++ raw32 (rfa_start_index a) ++
  raw32 (rfa_last_index a).
Definition Deserialize_RequestFragmentsArgs : Reader RequestFragmentsArgs :=
  let? g := get32 in let? t := get32 in let? l := get32 in let? s := get32 in let? la := get32 in
  rret (mkRequestFragmentsArgs g t l s la).

Definition Serialize_RequestFragmentsReply (r : RequestFragmentsReply) : option Slice :=
  if rfr_entry_cnt r =? Z.of_nat (length (rfr_fragments r))
  then Some (raw32 (rfr_reply_id r) ++ raw32 (rfr_term r) ++ raw32 (rfr_start_index r) ++
             raw32 (b2z (rfr_success r)) ++ raw32 (rfr_entry_cnt r) ++
             concat (serialize_logentry_helper <$> rfr_fragments r)) else None.

(** The position of a failed entry is null; reading on from it is undefined. *)
Fixpoint read_fragment_entries (n : nat) : Reader (list LogEntry) :=
  match n with
  | O => rret []
  | S n =>
      let? r := deserialize_logentry_helper in
      if snd r || (n =? 0)%nat then let? l := read_fragment_entries n in rret (fst r :: l) else rundef
  end.

Definition Deserialize_RequestFragmentsReply : Reader RequestFragmentsReply :=
  let? i := get32 in let? t := get32 in let? s := get32 in let? ok := get_flag in let? cnt := get32i in
  let? fragments := read_fragment_entries (Z.to_nat cnt) in
  rret (mkRequestFragmentsReply i t s ok cnt fragments).
End image.

(** ** Group notifications (raft_struct.h) *)
Record GroupMemberInfo := mkGroupMemberInfo {
  gmi_node_id : Z; raft_rpc_addr : Slice; kv_rpc_addr : Slice; raft_log_filename : Slice; kv_dbname : Slice
}.

Record GroupInfo := mkGroupInfo {
  gi_group_id : Z; initiator_id : Z; initiator_generated_index : Z; complementary_group_count : Z;
  complementary_group_indices : list Z; gi_members : list GroupMemberInfo
}.

Record GroupNotificationArgs := mkGroupNotificationArgs {
  source_node_id : Z; total_groups : Z; gna_groups : list GroupInfo
}.

Record GroupNotificationReply := mkGroupNotificationReply { gnr_success : Z; gnr_reply_node_id : Z }.

Definition put_string (s : Slice) : Slice := raw64 (slice_size s) ++ s.
Definition get_string : Reader Slice := let? n := get64 in read_bytes Undef n.
Definition string_size (s : Slice) : Z := 8 + slice_size s.

Definition put_member (m : GroupMemberInfo) : Slice :=
  raw32 (gmi_node_id m) ++ put_string (raft_rpc_addr m) ++ put_string (kv_rpc_addr m) ++
  put_string (raft_log_filename m) ++ put_string (kv_dbname m).
Definition get_member : Reader GroupMemberInfo :=
  let? n := get32 in let? a := get_string in let? k := get_string in let? f := get_string in
  let? d := get_string in rret (mkGroupMemberInfo n a k f d).

Definition put_group (g : GroupInfo) : Slice :=
  raw32 (gi_group_id g) ++ raw32 (initiator_id g) ++ raw32 (initiator_generated_index g) ++
  raw32 (complementary_group_count g) ++
  raw64 (Z.of_nat (length (complementary_group_indices g))) ++ concat (raw32 <$> complementary_group_indices g) ++
  raw64 (Z.of_nat (length (gi_members g))) ++ concat (put_member <$> gi_members g).
Definition get_group : Reader GroupInfo :=
  let? g := get32 in let? i := get32i in let? x := get32i in let? c := get32i in
  let? n := get64 in let? idx := read_list (Z.to_nat n) get32 in
  let? n := get64 in let? ms := read_list (Z.to_nat n) get_member in
  rret (mkGroupInfo g i x c idx ms).

Definition Serialize_GroupNotificationArgs (a : GroupNotificationArgs) : Slice :=
  raw32 (source_node_id a) ++ raw32 (total_groups a) ++
  raw64 (Z.of_nat (length (gna_groups a))) ++ concat (put_group <$> gna_groups a).
Definition Deserialize_GroupNotificationArgs : Reader GroupNotificationArgs :=
  let? s := get32 in let? t := get32i in
  let? n := get64 in let? gs := read_list (Z.to_nat n) get_group in
  rret (mkGroupNotificationArgs s t gs).

Definition Serialize_GroupNotificationReply (r : GroupNotificationReply) : Slice :=
  raw32 (gnr_success r) ++ raw32 (gnr_reply_node_id r).
Definition Deserialize_GroupNotificationReply : Reader GroupNotificationReply :=
  let? s := get32i in let? n := get32 in rret (mkGroupNotificationReply s n).

(** ** Buffer sizes *)
Definition sum_sizes {A} (f : A -> Z) (l : list A) : Z := foldr (fun a acc => f a + acc) 0 l.

Definition size_member (m : GroupMemberInfo) : Z :=
  4 + string_size (raft_rpc_addr m) + string_size (kv_rpc_addr m) + string_size (raft_log_filename m) +
  string_size (kv_dbname m).
Definition size_group (g : GroupInfo) : Z :=
  4 + 4 + 4 + 4 + 8 + Z.of_nat (length (complementary_group_indices g)) * 4 + 8 + sum_sizes size_member (gi_members g).
Definition size_GroupNotificationArgs (a : GroupNotificationArgs) : Z :=
  4 + 4 + 8 + sum_sizes size_group (gna_groups a).

(** [getSerializeSize] of the messages that carry entries. *)
#[local] Instance abi_layout : Layout := {| sizeof_LogEntry := 192; kHeaderSize := 32 |}.

Definition size_AppendEntriesArgs (a : AppendEntriesArgs) : Z :=
  let ret := kAppendEntriesArgsHdrSize + sum_sizes getSerializeSize (aea_entries a) in
  (ret - 1) / 4 * 4 + 4.
Definition size_AppendEntriesReply (r : AppendEntriesReply) : Z := 28 + aer_chunk_info_cnt r * 28.
Definition size_RequestFragmentsReply (r : RequestFragmentsReply) : Z :=
  20 + sum_sizes getSerializeSize (rfr_fragments r).

(** ** Reading fields back *)

Definition fits (s : Slice) : Prop := slice_size s < 2 ^ 63.

Lemma reads_32 v : is_u32 v -> reads get32 (raw32 v) v.
Proof. apply (reads_le Undef 4). Qed.

Lemma reads_32i v : is_int v -> reads get32i (raw32 v) v.
Proof.
  intros Hv. unfold get32i, raw32. rewrite <- (le_mod 4).
  eapply reads_bind_last; [apply (reads_le Undef 4), u32_range|].
  change (v mod 256 ^ Z.of_nat 4) with (u32 v). rewrite i32_u32 by exact Hv. apply reads_ret.
Qed.

Lemma reads_flag b : reads get_flag (raw32 (b2z b)) b.
Proof.
  unfold get_flag. eapply reads_bind_last; [apply reads_32; destruct b; unfold is_u32; cbn; lia|].
  destruct b; apply reads_ret.
Qed.

Lemma reads_64 v : 0 <= v < 2 ^ 64 -> reads get64 (raw64 v) v.
Proof. apply (reads_le Undef 8). Qed.

Lemma reads_count {A} (l : list A) : Z.of_nat (length l) < 2 ^ 63 -> reads get64 (raw64 (Z.of_nat (length l))) (Z.of_nat (length l)).
Proof. intros. apply reads_64. lia. Qed.

Lemma reads_prefixed short s : fits s ->
  reads (let? n := get64 in read_bytes short n) (raw64 (slice_size s) ++ s) s.
Proof.
  unfold fits. intros Hs. eapply reads_bind; [|by apply reads_bytes].
  apply reads_64. unfold slice_size in *. lia.
Qed.

Lemma reads_bound_slice s : fits s -> reads ParsePrefixLengthSliceWithBound (PutPrefixLengthSlice s) s.
Proof.
  unfold fits. intros Hs rest. unfold ParsePrefixLengthSliceWithBound, PutPrefixLengthSlice, raw64.
  rewrite !slice_size_app, slice_size_le, <- app_assoc, take_app_length', drop_app_length' by (by rewrite length_le).
  pose proof (slice_size_nonneg s). pose proof (slice_size_nonneg rest).
  rewrite (unle_le_small 8) by (cbn; lia). unfold u64. rewrite Z.mod_small by lia.
  rewrite !(proj2 (Z.ltb_ge _ _)) by lia. by apply reads_bytes.
Qed.

Lemma reads_type t : reads (let? z := get32 in type_of_Z z) (raw32 (type_to_Z t)) t.
Proof.
  eapply reads_bind_last; [apply reads_32; destruct t; unfold is_u32; cbn; lia|]. destruct t; apply reads_ret.
Qed.

Lemma reads_kind k : reads (let? z := get32 in kind_of_Z z) (raw32 (kind_to_Z k)) k.
Proof.
  eapply reads_bind_last; [apply reads_32; destruct k; unfold is_u32; cbn; lia|]. destruct k; apply reads_ret.
Qed.

(** [reads] for a reader whose first two steps form one field. *)
Lemma reads_field {A B C} (r : Reader A) (f : A -> Reader B) (k : B -> Reader C) bs c :
  reads (rbind (rbind r f) k) bs c -> reads (let? a := r in let? b := f a in k b) bs c.
Proof.
  intros H rest. rewrite <- H. unfold rbind. by destruct (r (bs ++ rest)) as [[a p]| |].
Qed.

Ltac raw_field := idtac;
  lazymatch goal with
  | |- reads get32 _ _ => apply reads_32; assumption
  | |- reads get32i _ _ => apply reads_32i; assumption
  | |- reads get_flag _ _ => apply reads_flag
  | |- reads get64 _ _ => first [apply reads_count | apply reads_64]; assumption
  | |- reads (rbind get32 type_of_Z) _ _ => apply reads_type
  | |- reads (rbind get32 kind_of_Z) _ _ => apply reads_kind
  | |- reads get_string _ _ => apply reads_prefixed; assumption
  | |- reads ParsePrefixLengthSlice _ _ => apply reads_prefixed; assumption
  | |- reads ParsePrefixLengthSliceWithBound _ _ => apply reads_bound_slice; assumption
  end.

Record chunk_ok (c : ChunkInfo) : Prop := {
  ck_k : is_u32 (GetK c); ck_index : is_u32 (GetRaftIndex c); ck_l : is_u32 (GetL c); ck_r : is_u32 (GetR c);
  ck_group : is_int (GetLrcGroupId c); ck_key : is_u32 (GetKeySize c); ck_total : is_u32 (GetTotalSize c)
}.

Lemma reads_chunk c : chunk_ok c -> reads get_chunk (chunk_bytes c) c.
Proof. intros []. unfold get_chunk, chunk_bytes. reads_steps raw_field. destruct c. apply reads_ret. Qed.

Record placement_fits (p : FragmentPlacement) : Prop := {
  pf_frag : is_int (frag_id p); pf_group : is_int (local_group p); pf_node : is_int (node_id p)
}.

Lemma slice_size_raw32 z : slice_size (raw32 z) = 4.
Proof. apply slice_size_le. Qed.
Lemma slice_size_raw64 z : slice_size (raw64 z) = 8.
Proof. apply slice_size_le. Qed.

Lemma slice_size_placement_record p : slice_size (placement_record p) = 16.
Proof. unfold placement_record. by rewrite !slice_size_app, !slice_size_raw32. Qed.

Lemma reads_placement_unbounded p : placement_fits p -> reads read_placement_unbounded (placement_record p) p.
Proof.
  intros []. unfold read_placement_unbounded, placement_record. reads_steps raw_field.
  apply reads_field. reads_steps raw_field. destruct p. apply reads_ret.
Qed.

Lemma reads_placement_withbound p : placement_fits p -> reads read_placement_withbound (placement_record p) p.
Proof.
  intros Hp. apply reads_need; [by rewrite slice_size_placement_record|by apply reads_placement_unbounded].
Qed.

Lemma reads_frag_withbound id frag :
  is_int id -> slice_size frag <= kMaxFragSize ->
  reads read_frag_withbound (raw32 id ++ PutPrefixLengthSlice frag) (id, frag).
Proof.
  intros Hid Hs. unfold read_frag_withbound, PutPrefixLengthSlice, kMaxFragSize in *.
  pose proof (slice_size_nonneg frag).
  apply reads_need; [rewrite !slice_size_app, slice_size_raw32, slice_size_raw64; lia|].
  eapply reads_bind; [by apply reads_32i|].
  apply reads_need; [rewrite !slice_size_app, slice_size_raw64; lia|].
  eapply reads_bind; [apply reads_64; lia|]. rewrite (proj2 (Z.ltb_ge _ _)) by lia.
  apply reads_need; [lia|]. eapply reads_bind_last; [by apply reads_bytes|apply reads_ret].
Qed.

(** ** What a reader makes of an entry *)

(** The entry at the receiver: a normal entry has its command as the not encoded
    slice too, and the length of the bytes received as its command length. *)
Definition received (e : LogEntry) : LogEntry :=
  mkLogEntry (Term e) (Index e) (Type_ e) (GetChunkInfo e) (StartOffset e)
    (if is_kNormal e then slice_size (CommandData e) else CommandLength e)
    (CommandData e) (NotEncodedSlice e) (FragmentSlice e) (Fragments e) (sent_ids e) (Placement e).

(** The entries the format can carry. *)
Record entry_ok (e : LogEntry) : Prop := {
  eo_term : is_u32 (Term e); eo_index : is_u32 (Index e); eo_chunk : chunk_ok (GetChunkInfo e);
  eo_start : is_int (StartOffset e); eo_length : is_int (CommandLength e);
  eo_not_encoded : fits (NotEncodedSlice e); eo_fragment : fits (FragmentSlice e);
  eo_frags : Forall (fun f => slice_size f <= kMaxFragSize) (Fragments e);
  eo_counts : is_u32 (Z.of_nat (length (Fragments e))) /\ is_u32 (Z.of_nat (length (Placement e)));
  eo_ids : Forall is_int (sent_ids e);
  eo_placement : Forall placement_fits (Placement e);
  eo_slices : fits (command_data_ e) /\ fits (not_encoded_slice_ e) /\ fits (fragment_slice_ e);
  eo_id_count : is_u32 (Z.of_nat (length (FragIds e)))
}.

Lemma imap_zip {A B} (G : Z -> A -> B) (l : list A) : forall (h : nat -> Z),
  imap (fun i x => G (h i) x) l = (fun p => G p.1 p.2) <$> zip (imap (fun i _ => h i) l) l.
Proof. induction l as [|x l IH]; intros h; [done|]. cbn. f_equal. apply (IH (fun i => h (S i))). Qed.

Lemma frag_records_zip e :
  imap (frag_record (FragIds e)) (Fragments e) =
  (fun p => raw32 p.1 ++ PutPrefixLengthSlice p.2) <$> zip (sent_ids e) (Fragments e).
Proof.
  apply (imap_zip (fun id f => raw32 id ++ PutPrefixLengthSlice f) (Fragments e)
    (fun i => default (Z.of_nat i) (FragIds e !! i))).
Qed.

Section entries.
Context `{Image} (HI : image_ok).

Lemma slice_size_chunk c : slice_size (chunk_bytes c) = 28.
Proof. unfold chunk_bytes. by rewrite !slice_size_app, !slice_size_raw32. Qed.

Lemma slice_size_scalars e : slice_size (scalar_bytes e) = 48.
Proof. unfold scalar_bytes. by rewrite !slice_size_app, !slice_size_raw32, slice_size_chunk. Qed.

Lemma slice_size_slice_image e i s : slice_size (slice_image e i s) = 24.
Proof.
  unfold slice_image. rewrite !slice_size_app, !slice_size_raw64. unfold slice_size.
  by rewrite (im_padding HI).
Qed.

Lemma slice_size_vector_image e i sz n : slice_size (vector_image e i sz n) = 24.
Proof. unfold vector_image. by rewrite !slice_size_app, !slice_size_raw64. Qed.

Lemma slice_size_entry_image e : slice_size (entry_image e) = sizeof_entry.
Proof.
  unfold entry_image, members_bytes.
  by rewrite !slice_size_app, slice_size_scalars, !slice_size_slice_image, !slice_size_vector_image.
Qed.

Definition scalars (e : LogEntry) : LogEntry :=
  mkLogEntry (Term e) (Index e) (Type_ e) (GetChunkInfo e) (StartOffset e) (CommandLength e) [] [] [] [] [] [].

Lemma reads_scalars e : entry_ok e -> reads get_scalars (scalar_bytes e) (scalars e).
Proof.
  intros [? ? Hc ? ? _ _ _ _ _ _ _ _]. unfold get_scalars, scalar_bytes. reads_steps raw_field.
  apply reads_field. eapply reads_bind; [apply reads_type|].
  eapply reads_bind; [by apply reads_chunk|]. reads_steps raw_field.
Qed.

Lemma received_parts e : within_limits e ->
  SetPlacement (Placement e) (set_frags (zip (sent_ids e) (Fragments e))
    (set_slices (NotEncodedSlice e) (FragmentSlice e) (scalars e))) = received e.
Proof.
  intros Hw. unfold set_frags. rewrite fst_zip, snd_zip by (rewrite length_sent_ids; done).
  destruct Hw as [Hn Hs _].
  set (x := set_slices _ _ _).
  assert (SetFragments (Fragments e) x = set_FragIds (FragIds (SetFragments (Fragments e) x)) (set_Fragments (Fragments e) x)) as ->.
  { rewrite <- (SetFragments_small (Fragments e) x Hn Hs) at 3. done. }
  subst x. unfold set_slices, received. destruct e as [t i ty c so cl cd ns fs fr fi pl]. by destruct ty.
Qed.

Lemma reads_placements {r : Reader FragmentPlacement} e :
  (forall p, placement_fits p -> reads r (placement_record p) p) -> Forall placement_fits (Placement e) ->
  reads (read_list (length (Placement e)) r) (concat (placement_record <$> Placement e)) (Placement e).
Proof.
  intros Hr Hp. apply reads_list; [done|]. rewrite Forall_forall in Hp. intros p Hin. by apply Hr, Hp.
Qed.

Lemma sent_frags_ok e p : entry_ok e -> p ∈ zip (sent_ids e) (Fragments e) -> is_int p.1 /\ slice_size p.2 <= kMaxFragSize.
Proof.
  intros He Hin. destruct p as [i f]. pose proof (eo_ids _ He) as Hi. pose proof (eo_frags _ He) as Hs.
  rewrite Forall_forall in Hi. rewrite Forall_forall in Hs.
  split; [apply Hi; by eapply elem_of_zip_l|apply Hs; by eapply elem_of_zip_r].
Qed.

(** The entry rebuilt, before the limits of [SetFragments] are taken into account. *)
Definition rebuilt (e : LogEntry) : LogEntry :=
  SetPlacement (Placement e) (set_frags (zip (sent_ids e) (Fragments e))
    (set_slices (NotEncodedSlice e) (FragmentSlice e) (scalars e))).

Lemma reads_logentry_withbound e :
  entry_ok e -> reads deserialize_logentry_withbound (serialize_logentry_helper e) (rebuilt e).
Proof.
  intros He. destruct (eo_counts _ He) as [Hcf Hcp].
  unfold deserialize_logentry_withbound, serialize_logentry_helper.
  apply reads_need; [rewrite <- (slice_size_entry_image e); apply slice_size_app_ge|].
  eapply reads_bind; [apply reads_bytes; by rewrite slice_size_entry_image|].
  eapply reads_bind_nil.
  { intros rest. unfold run_on, entry_image. by rewrite (reads_scalars e He). }
  eapply reads_bind; [apply reads_bound_slice, He|].
  eapply reads_bind; [apply reads_bound_slice, He|].
  eapply reads_bind; [by apply reads_32|]. rewrite Nat2Z.id.
  eapply reads_bind.
  { rewrite frag_records_zip. apply reads_list.
    - rewrite length_zip_with, length_sent_ids. lia.
    - intros [i f] Hin. destruct (sent_frags_ok e _ He Hin). by apply reads_frag_withbound. }
  eapply reads_bind; [by apply reads_32|]. rewrite Nat2Z.id.
  eapply reads_bind_last; [apply reads_placements, He; apply reads_placement_withbound|apply reads_ret].
Qed.

(** *** The unbounded reader *)

(** The entry's image holds a pointer that the reader releases or writes through. *)
Definition has_buffers (e : LogEntry) : bool :=
  negb (bool_decide (Fragments e = [])) || valid (not_encoded_slice_ e) || valid (fragment_slice_ e) ||
  (is_kNormal e && valid (command_data_ e)) || negb (bool_decide (Placement e = [])).

Lemma reads_slice_image e i s : fits s -> reads get_slice_image (slice_image e i s) (valid s).
Proof.
  unfold fits. intros Hs. pose proof (im_address HI e i) as Ha. pose proof (slice_size_nonneg s).
  unfold get_slice_image, slice_image.
  eapply reads_bind; [apply reads_64; destruct (valid s); lia|].
  eapply reads_bind; [apply reads_64; lia|].
  eapply reads_bind; [apply reads_byte; unfold byte; destruct (valid s); cbn; lia|].
  eapply reads_bind_last; [apply reads_bytes; unfold slice_size; by rewrite (im_padding HI)|].
  destruct s as [|b s]; cbn [valid b2z].
  - apply reads_ret.
  - rewrite (proj2 (Z.eqb_neq _ _)) by lia. rewrite (proj2 (Z.ltb_lt _ _)); [apply reads_ret|].
    unfold slice_size. cbn. lia.
Qed.

Definition vector_start (e : LogEntry) (i n : nat) : Z := if (n =? 0)%nat then 0 else address e i.

Lemma reads_vector_image e i sz n : 0 <= sz <= 24 -> is_u32 (Z.of_nat n) ->
  reads get_vector_image (vector_image e i sz n) (vector_start e i n, vector_start e i n + Z.of_nat n * sz).
Proof.
  unfold is_u32. intros Hsz Hn. pose proof (im_address HI e i). unfold get_vector_image, vector_image, vector_start.
  assert (Z.of_nat n * sz <= 2 ^ 32 * 24) by nia.
  eapply reads_bind; [apply reads_64; case_match; lia|].
  eapply reads_bind; [apply reads_64; case_match; lia|].
  eapply reads_bind_last; [apply reads_64; case_match; lia|apply reads_ret].
Qed.

Lemma read_frags_unbounded_ok (fs : list (Z * Slice)) :
  (forall p, p ∈ fs -> is_int p.1 /\ slice_size p.2 <= kMaxFragSize) ->
  reads (read_frags_unbounded (length fs)) (concat ((fun p => raw32 p.1 ++ PutPrefixLengthSlice p.2) <$> fs)) (Some fs).
Proof.
  induction fs as [|[i f] fs IH]; intros Hf; cbn [length read_frags_unbounded fmap list_fmap concat]; [apply reads_ret|].
  destruct (Hf (i, f)) as [Hi Hs]; [by left|]. cbn in Hi, Hs.
  eapply reads_bind with (a := (i, Some f)).
  - unfold read_frag_unbounded. cbn [fst snd]. eapply reads_bind; [by apply reads_32i|]. unfold PutPrefixLengthSlice.
    pose proof (slice_size_nonneg f).
    unfold kMaxFragSize in *.
    eapply reads_bind; [apply reads_64; lia|]. rewrite (proj2 (Z.ltb_ge _ _)) by lia.
    eapply reads_bind_last; [by apply reads_bytes|apply reads_ret].
  - cbn. eapply reads_bind_last; [apply IH; intros; apply Hf; by right|apply reads_ret].
Qed.

Lemma rbind_harmless {A} b (k : unit -> Reader A) p :
  rbind (harmless b) k p = if b && negb foreign_free then Undef else k tt p.
Proof. unfold harmless, rbind. by destruct (b && negb foreign_free). Qed.

Lemma vector_start_0 e i n : (vector_start e i n =? 0) = (n =? 0)%nat.
Proof.
  unfold vector_start. pose proof (im_address HI e i). destruct (n =? 0)%nat; [done|]. apply Z.eqb_neq. lia.
Qed.

Lemma vector_moved e :
  negb (vector_start e 3 (length (Fragments e)) =? vector_start e 3 (length (Fragments e)) + Z.of_nat (length (Fragments e)) * 24) =
  negb (bool_decide (Fragments e = [])).
Proof.
  f_equal. destruct (Fragments e) as [|f fs]; [done|]. rewrite bool_decide_false by done. apply Z.eqb_neq. cbn [length]. lia.
Qed.

Lemma length_0_nil {A} (l : list A) `{Decision (l = [])} : negb (length l =? 0)%nat = negb (bool_decide (l = [])).
Proof. destruct l; [by rewrite bool_decide_true|by rewrite bool_decide_false]. Qed.

Lemma stale_frags e x :
  negb (bool_decide (Fragments e = [])) && negb foreign_free = false ->
  (x && negb (bool_decide (zip (sent_ids e) (Fragments e) = []))) && negb foreign_free = false.
Proof.
  intros Hn. destruct (negb foreign_free); [|by rewrite andb_false_r]. rewrite andb_true_r in *.
  unfold sent_ids. destruct (Fragments e); [by rewrite andb_false_r|done].
Qed.

Lemma read_vectors_spec e rest : entry_ok e -> within_limits e ->
  negb (bool_decide (Fragments e = [])) && negb foreign_free = false ->
  read_vectors (vector_start e 3 (length (Fragments e))) (vector_start e 4 (length (FragIds e)))
    (vector_start e 5 (length (Placement e))) (set_slices (NotEncodedSlice e) (FragmentSlice e) (scalars e))
    (raw32 (Z.of_nat (length (Fragments e))) ++ concat (imap (frag_record (FragIds e)) (Fragments e)) ++
     raw32 (Z.of_nat (length (Placement e))) ++ concat (placement_record <$> Placement e) ++ rest) =
  if negb (bool_decide (Placement e = [])) && negb foreign_free then Undef else Ok ((received e, true), rest).
Proof.
  intros He Hw Hb1. destruct (eo_counts _ He) as [Hcf Hcp].
  unfold read_vectors. rewrite (rbind_reads _ _ _ _ _ (reads_32 _ Hcf)).
  rewrite Z.min_l by (destruct Hw as [Hn _ _]; unfold kMaxFragments in Hn; lia).
  rewrite Nat2Z.id, frag_records_zip.
  assert (length (Fragments e) = length (zip (sent_ids e) (Fragments e))) as Hlz
    by (rewrite length_zip_with, length_sent_ids; lia).
  rewrite Hlz at 1.
  rewrite (rbind_reads _ _ _ _ _ (read_frags_unbounded_ok _ (fun p => sent_frags_ok e p He))).
  rewrite !rbind_harmless, !(stale_frags e _ Hb1).
  rewrite (rbind_reads _ _ _ _ _ (reads_32 _ Hcp)).
  rewrite Z.min_l by (destruct Hw; lia). rewrite Nat2Z.id.
  rewrite (rbind_reads _ _ _ _ _ (reads_placements e reads_placement_unbounded (eo_placement _ He))).
  rewrite rbind_harmless, vector_start_0, (length_0_nil (Placement e)).
  by rewrite andb_diag, received_parts by done.
Qed.

(** The unbounded reader gives the entry back, unless it has to touch a pointer of
    the writer. *)
Lemma helper_spec e rest : entry_ok e -> within_limits e ->
  deserialize_logentry_helper (serialize_logentry_helper e ++ rest) =
  if has_buffers e && negb foreign_free then Undef else Ok ((received e, true), rest).
Proof.
  intros He Hw. destruct (eo_counts _ He) as [Hcf Hcp].
  destruct (eo_slices _ He) as (Hsc & Hsn & Hsf). pose proof (eo_id_count _ He) as Hci.
  unfold deserialize_logentry_helper, serialize_logentry_helper, entry_image, members_bytes.
  rewrite <- !app_assoc, (rbind_reads _ _ _ _ _ (reads_scalars e He)).
  rewrite (rbind_reads _ _ _ _ _ (reads_slice_image e 0 _ Hsc)), (rbind_reads _ _ _ _ _ (reads_slice_image e 1 _ Hsn)),
    (rbind_reads _ _ _ _ _ (reads_slice_image e 2 _ Hsf)).
  rewrite (rbind_reads _ _ _ _ _ (reads_vector_image e 3 24 (length (Fragments e)) ltac:(lia) Hcf)).
  rewrite (rbind_reads _ _ _ _ _ (reads_vector_image e 4 4 (length (FragIds e)) ltac:(lia) Hci)).
  rewrite (rbind_reads _ _ _ _ _ (reads_vector_image e 5 16 (length (Placement e)) ltac:(lia) Hcp)).
  cbn [fst snd]. rewrite vector_moved, rbind_harmless. unfold has_buffers. rewrite !andb_orb_distrib_l.
  destruct (negb (bool_decide (Fragments e = [])) && negb foreign_free) eqn:Hb1; [done|].
  rewrite (rbind_reads _ _ _ _ _ (reads_prefixed Undef _ (eo_not_encoded _ He))).
  rewrite (rbind_reads _ _ _ _ _ (reads_prefixed Undef _ (eo_fragment _ He))).
  rewrite !rbind_harmless. change (is_kNormal (scalars e)) with (is_kNormal e).
  destruct (valid (not_encoded_slice_ e) && negb foreign_free); [done|].
  destruct (valid (fragment_slice_ e) && negb foreign_free); [done|].
  destruct (is_kNormal e && valid (command_data_ e) && negb foreign_free); [done|].
  by apply read_vectors_spec.
Qed.
End entries.

(** ** Messages read back *)
Record vote_args_ok (a : RequestVoteArgs) : Prop := {
  va_term : is_u32 (rva_term a); va_cand : is_u32 (rva_candidate_id a); va_index : is_u32 (rva_last_log_index a);
  va_lterm : is_u32 (rva_last_log_term a); va_group : is_u32 (rva_group_id a); va_prio : is_int (rva_candidate_priority a)
}.
Record vote_reply_ok (r : RequestVoteReply) : Prop := {
  vr_term : is_u32 (rvr_term r); vr_id : is_u32 (rvr_reply_id r); vr_group : is_u32 (rvr_group_id r)
}.
Record append_args_ok (a : AppendEntriesArgs) : Prop := {
  aa_term : is_u32 (aea_term a); aa_group : is_u32 (aea_group_id a); aa_leader : is_u32 (aea_leader_id a);
  aa_pi : is_u32 (aea_prev_log_index a); aa_pt : is_u32 (aea_prev_log_term a); aa_pk : is_u32 (aea_prev_k a);
  aa_commit : is_u32 (aea_leader_commit a); aa_cnt : aea_entry_cnt a = Z.of_nat (length (aea_entries a));
  aa_len : Z.of_nat (length (aea_entries a)) < 2 ^ 63; aa_entries : Forall entry_ok (aea_entries a)
}.
Record append_reply_ok (r : AppendEntriesReply) : Prop := {
  ar_term : is_u32 (aer_term r); ar_expect : is_u32 (aer_expect_index r); ar_id : is_u32 (aer_reply_id r);
  ar_group : is_u32 (aer_group_id r); ar_cnt : aer_chunk_info_cnt r = Z.of_nat (length (aer_chunk_infos r));
  ar_len : is_int (aer_chunk_info_cnt r); ar_infos : Forall chunk_ok (aer_chunk_infos r)
}.
Record fragments_args_ok (a : RequestFragmentsArgs) : Prop := {
  fa_group : is_u32 (rfa_group_id a); fa_term : is_u32 (rfa_term a); fa_leader : is_u32 (rfa_leader_id a);
  fa_start : is_u32 (rfa_start_index a); fa_last : is_u32 (rfa_last_index a)
}.
Record fragments_reply_ok (r : RequestFragmentsReply) : Prop := {
  fr_id : is_u32 (rfr_reply_id r); fr_term : is_u32 (rfr_term r); fr_start : is_u32 (rfr_start_index r);
  fr_cnt : rfr_entry_cnt r = Z.of_nat (length (rfr_fragments r)); fr_len : is_int (rfr_entry_cnt r);
  fr_entries : Forall (fun e => entry_ok e /\ within_limits e) (rfr_fragments r)
}.
Record member_ok (m : GroupMemberInfo) : Prop := {
  mo_id : is_u32 (gmi_node_id m); mo_addr : fits (raft_rpc_addr m); mo_kv : fits (kv_rpc_addr m);
  mo_log : fits (raft_log_filename m); mo_db : fits (kv_dbname m)
}.
Record group_ok (g : GroupInfo) : Prop := {
  go_id : is_u32 (gi_group_id g); go_init : is_int (initiator_id g); go_gen : is_int (initiator_generated_index g);
  go_comp : is_int (complementary_group_count g); go_idx : Forall is_u32 (complementary_group_indices g);
  go_idxn : Z.of_nat (length (complementary_group_indices g)) < 2 ^ 63;
  go_memn : Z.of_nat (length (gi_members g)) < 2 ^ 63; go_mem : Forall member_ok (gi_members g)
}.
Record notification_ok (a : GroupNotificationArgs) : Prop := {
  na_source : is_u32 (source_node_id a); na_total : is_int (total_groups a);
  na_len : Z.of_nat (length (gna_groups a)) < 2 ^ 63; na_groups : Forall group_ok (gna_groups a)
}.

Lemma reads_Forall {A} (P : A -> Prop) (r : Reader A) (enc : A -> Slice) (l : list A) n :
  n = length l -> Forall P l -> (forall a, P a -> reads r (enc a) a) -> reads (read_list n r) (concat (enc <$> l)) l.
Proof. intros Hn HP Hr. apply reads_list; [done|]. rewrite Forall_forall in HP. intros a Ha. by apply Hr, HP. Qed.

Lemma reads_member m : member_ok m -> reads get_member (put_member m) m.
Proof.
  intros []. unfold get_member, put_member. reads_steps raw_field. destruct m. apply reads_ret.
Qed.

Lemma reads_group g : group_ok g -> reads get_group (put_group g) g.
Proof.
  intros [? ? ? ? Hi Hin Hmn Hm]. unfold get_group, put_group. reads_steps raw_field.
  rewrite Nat2Z.id. eapply reads_bind; [by apply (reads_Forall is_u32); [..|apply reads_32]|].
  reads_steps raw_field. rewrite Nat2Z.id.
  eapply reads_bind_last; [by apply (reads_Forall member_ok); [..|apply reads_member]|].
  destruct g. apply reads_ret.
Qed.

Lemma reads_notification a : notification_ok a ->
  reads Deserialize_GroupNotificationArgs (Serialize_GroupNotificationArgs a) a.
Proof.
  intros [? ? ? Hg]. unfold Deserialize_GroupNotificationArgs, Serialize_GroupNotificationArgs.
  reads_steps raw_field. rewrite Nat2Z.id.
  eapply reads_bind_last; [by apply (reads_Forall group_ok); [..|apply reads_group]|].
  destruct a. apply reads_ret.
Qed.

Lemma reads_vote_args a : vote_args_ok a -> reads Deserialize_RequestVoteArgs (Serialize_RequestVoteArgs a) a.
Proof.
  intros []. unfold Deserialize_RequestVoteArgs, Serialize_RequestVoteArgs. reads_steps raw_field.
  destruct a. apply reads_ret.
Qed.

Lemma reads_vote_reply r : vote_reply_ok r -> reads Deserialize_RequestVoteReply (Serialize_RequestVoteReply r) r.
Proof.
  intros []. unfold Deserialize_RequestVoteReply, Serialize_RequestVoteReply. reads_steps raw_field.
  destruct r. apply reads_ret.
Qed.

Lemma reads_fragments_args a :
  fragments_args_ok a -> reads Deserialize_RequestFragmentsArgs (Serialize_RequestFragmentsArgs a) a.
Proof.
  intros []. unfold Deserialize_RequestFragmentsArgs, Serialize_RequestFragmentsArgs. reads_steps raw_field.
  destruct a. apply reads_ret.
Qed.

Lemma reads_notification_reply r : is_int (gnr_success r) /\ is_u32 (gnr_reply_node_id r) ->
  reads Deserialize_GroupNotificationReply (Serialize_GroupNotificationReply r) r.
Proof.
  intros []. unfold Deserialize_GroupNotificationReply, Serialize_GroupNotificationReply. reads_steps raw_field.
  destruct r. apply reads_ret.
Qed.

Lemma rbind_32 {A} (k : Z -> Reader A) v rest : is_u32 v -> rbind get32 k (raw32 v ++ rest) = k v rest.
Proof. intros Hv. by rewrite (rbind_reads _ _ _ _ _ (reads_32 v Hv)). Qed.

Section messages.
Context `{Image} (HI : image_ok) (Hpad : is_u32 padding32).

Lemma reads_append_reply r :
  append_reply_ok r -> reads Deserialize_AppendEntriesReply (Serialize_AppendEntriesReply r) r.
Proof.
  intros [? ? ? ? Hc Hl Hi]. unfold Deserialize_AppendEntriesReply, Serialize_AppendEntriesReply.
  assert (is_u32 (aer_chunk_info_cnt r)) by (unfold is_u32, is_int in *; lia).
  reads_steps raw_field. rewrite Hc, Nat2Z.id.
  eapply reads_bind_last; [by apply (reads_Forall chunk_ok); [..|apply reads_chunk]|].
  rewrite <- Hc. destruct r. apply reads_ret.
Qed.

Lemma reads_entries es : Forall entry_ok es ->
  reads (read_entries (length es)) (concat (serialize_logentry_helper <$> es)) (rebuilt <$> es).
Proof.
  induction 1 as [|e es He _ IH]; intros rest; [done|]. cbn [length read_entries fmap list_fmap concat].
  rewrite <- app_assoc, (reads_logentry_withbound HI e He). unfold rbind. by rewrite (IH rest).
Qed.

Lemma Serialize_AppendEntriesArgs_run a : append_args_ok a ->
  Serialize_AppendEntriesArgs a = Some (append_header a ++ concat (serialize_logentry_helper <$> aea_entries a)).
Proof. intros Ha. unfold Serialize_AppendEntriesArgs. by rewrite (aa_cnt _ Ha), Z.eqb_refl. Qed.

Definition with_entries (es : list LogEntry) (a : AppendEntriesArgs) : AppendEntriesArgs :=
  mkAppendEntriesArgs (aea_term a) (aea_group_id a) (aea_leader_id a) (aea_prev_log_index a)
    (aea_prev_log_term a) (aea_prev_k a) (aea_leader_commit a) (aea_entry_cnt a) es.

Lemma slice_size_append_header a : slice_size (append_header a) = kAppendEntriesArgsHdrSize.
Proof. unfold append_header. by rewrite !slice_size_app, !slice_size_raw32, slice_size_raw64. Qed.

Lemma reads_append_header a : append_args_ok a ->
  reads get_append_header (append_header a) (fun es => with_entries es a).
Proof.
  intros [? ? ? ? ? ? ? Hc ? _]. assert (0 <= aea_entry_cnt a < 2 ^ 64) by lia.
  unfold get_append_header, append_header. reads_steps raw_field.
Qed.

Lemma reads_append_args a : append_args_ok a ->
  reads Deserialize_AppendEntriesArgs (append_header a ++ concat (serialize_logentry_helper <$> aea_entries a))
    (with_entries (rebuilt <$> aea_entries a) a).
Proof.
  intros Ha. unfold Deserialize_AppendEntriesArgs.
  apply reads_need; [rewrite <- (slice_size_append_header a); apply slice_size_app_ge|].
  eapply reads_bind; [by apply reads_append_header|]. cbv zeta. cbn [aea_entry_cnt with_entries].
  rewrite (aa_cnt _ Ha), (proj2 (Z.leb_gt _ _)), Nat2Z.id by apply Ha.
  eapply reads_bind_last; [apply reads_entries, Ha|apply reads_ret].
Qed.

Lemma read_fragment_entries_spec es : forall rest,
  Forall (fun e => entry_ok e /\ within_limits e) es ->
  read_fragment_entries (length es) (concat (serialize_logentry_helper <$> es) ++ rest) =
  if existsb has_buffers es && negb foreign_free then Undef else Ok (received <$> es, rest).
Proof.
  induction es as [|e es IH]; intros rest Hes; [done|]. apply Forall_cons in Hes as [[He Hw] Hes].
  cbn [length read_fragment_entries fmap list_fmap concat existsb]. rewrite <- app_assoc. unfold rbind at 1.
  rewrite (helper_spec HI e _ He Hw), andb_orb_distrib_l.
  destruct (has_buffers e && negb foreign_free); [done|]. cbn [snd fst orb].
  unfold rbind. rewrite (IH rest Hes). by destruct (existsb has_buffers es && negb foreign_free).
Qed.
End messages.

Lemma reload_received e : within_limits e -> reload e = received e.
Proof.
  intros Hw. rewrite <- (received_parts e Hw). unfold reload. rewrite (within_limits_16M e Hw).
  destruct Hw as [Hn Hs Hp]. unfold kMaxFragments in Hn.
  rewrite (firstn_all2 (n := 1024)), (firstn_all2 (n := 256)) by lia.
  unfold set_frags, set_slices. rewrite fst_zip, snd_zip by (rewrite length_sent_ids; done).
  destruct e as [t i ty c so cl cd ns fs fr fi pl]. by destruct ty.
Qed.

(** ** Buffer sizes *)
Lemma slice_size_concat {A} (f : A -> Slice) (l : list A) :
  slice_size (concat (f <$> l)) = sum_sizes (fun a => slice_size (f a)) l.
Proof. induction l as [|a l IH]; [done|]. cbn [fmap list_fmap concat sum_sizes foldr]. by rewrite slice_size_app, IH. Qed.

Lemma sum_sizes_const {A} (c : Z) (f : A -> Z) (l : list A) :
  (forall a, f a = c) -> sum_sizes f l = Z.of_nat (length l) * c.
Proof.
  intros Hf. unfold sum_sizes. induction l as [|a l IH]; [done|]. cbn [foldr length]. rewrite Hf, IH. lia.
Qed.

Lemma sum_sizes_le {A} (f g : A -> Z) (l : list A) :
  (forall a, f a <= g a) -> sum_sizes f l <= sum_sizes g l.
Proof.
  intros Hf. unfold sum_sizes. induction l as [|a l IH]; [done|]. cbn [foldr]. specialize (Hf a). lia.
Qed.

Lemma slice_size_prefixed s : slice_size (PutPrefixLengthSlice s) = 8 + slice_size s.
Proof. unfold PutPrefixLengthSlice. by rewrite slice_size_app, slice_size_raw64. Qed.

Lemma frags_size e :
  slice_size (concat (imap (frag_record (FragIds e)) (Fragments e))) =
  foldr (fun f acc => 4 + 8 + slice_size f + acc) 0 (Fragments e).
Proof.
  rewrite frag_records_zip, slice_size_concat. unfold sent_ids. generalize (FragIds e). intros ids.
  assert (forall (h : nat -> Z) fs, sum_sizes (fun p => slice_size (raw32 p.1 ++ PutPrefixLengthSlice p.2))
    (zip (imap (fun i _ => h i) fs) fs) = foldr (fun f acc => 4 + 8 + slice_size f + acc) 0 fs) as Hg; [|apply Hg].
  intros h fs. revert h. induction fs as [|f fs IH]; intros h; [done|]. cbn [imap zip zip_with sum_sizes foldr fst snd].
  change (foldr _ 0 (zip_with pair _ fs)) with (sum_sizes (fun p => slice_size (raw32 p.1 ++ PutPrefixLengthSlice p.2))
    (zip (imap (fun i _ => h (S i)) fs) fs)).
  rewrite IH, slice_size_app, slice_size_raw32, slice_size_prefixed. lia.
Qed.

(** An entry fills its buffer up to the rounding to four bytes. *)
Lemma entry_size `{Image} (HI : image_ok) e :
  slice_size (serialize_logentry_helper e) <= getSerializeSize e < slice_size (serialize_logentry_helper e) + 4.
Proof.
  assert (slice_size (serialize_logentry_helper e) =
    192 + slice_size (NotEncodedSlice e) + slice_size (FragmentSlice e) + 2 * 8 +
    (4 + foldr (fun f acc => 4 + 8 + slice_size f + acc) 0 (Fragments e)) +
    (4 + Z.of_nat (length (Placement e)) * (4 * 3 + 4))) as ->.
  { unfold serialize_logentry_helper.
    rewrite !slice_size_app, !slice_size_prefixed, !slice_size_raw32, (slice_size_entry_image HI), frags_size,
      slice_size_concat, (sum_sizes_const 16 _ _ slice_size_placement_record).
    unfold sizeof_entry. lia. }
  unfold getSerializeSize. cbn [sizeof_LogEntry abi_layout].
  generalize (foldr (fun f acc => 4 + 8 + slice_size f + acc) 0 (Fragments e)). intros y. zdm. lia.
Qed.

Lemma append_size `{Image} (HI : image_ok) a :
  kAppendEntriesArgsHdrSize + slice_size (concat (serialize_logentry_helper <$> aea_entries a)) <=
  size_AppendEntriesArgs a.
Proof.
  unfold size_AppendEntriesArgs. set (t := sum_sizes _ _).
  assert (slice_size (concat (serialize_logentry_helper <$> aea_entries a)) <= t).
  { rewrite slice_size_concat. by apply sum_sizes_le, (entry_size HI). }
  zdm. lia.
Qed.

Lemma read_append_received `{Image} (HI : image_ok) (Hpad : is_u32 padding32) a rest :
  append_args_ok a -> Forall within_limits (aea_entries a) ->
  Deserialize_AppendEntriesArgs ((append_header a ++ concat (serialize_logentry_helper <$> aea_entries a)) ++ rest) =
  Ok (with_entries (received <$> aea_entries a) a, rest).
Proof.
  intros Ha Hw. rewrite (reads_append_args HI Hpad a Ha rest). do 3 f_equal. apply list_fmap_ext.
  intros i e Hi. apply received_parts. rewrite Forall_forall in Hw. apply Hw. by eapply list_elem_of_lookup_2.
Qed.

Lemma read_fragments_reply `{Image} (HI : image_ok) r rest : fragments_reply_ok r ->
  exists bs, Serialize_RequestFragmentsReply r = Some bs /\
    Deserialize_RequestFragmentsReply (bs ++ rest) =
      if existsb has_buffers (rfr_fragments r) && negb foreign_free then Undef
      else Ok (mkRequestFragmentsReply (rfr_reply_id r) (rfr_term r) (rfr_start_index r) (rfr_success r)
                 (rfr_entry_cnt r) (received <$> rfr_fragments r), rest).
Proof.
  intros Hr.
  destruct Hr as [? ? ? Hc Hl He]. unfold Serialize_RequestFragmentsReply. rewrite Hc, Z.eqb_refl, <- Hc.
  eexists. split; [done|]. unfold Deserialize_RequestFragmentsReply.
  rewrite <- !app_assoc, !rbind_32 by done. rewrite (rbind_reads _ _ _ _ _ (reads_flag _)),
    (rbind_reads _ _ _ _ _ (reads_32i _ Hl)), Hc, Nat2Z.id. unfold rbind at 1.
  rewrite (read_fragment_entries_spec HI _ _ He). by destruct (existsb _ _ && _).
Qed.

(** The fragments that survive [SetFragments] at the receiver: the first 256, and of
    those the ones of 1 MiB or more are replaced by empty ones. *)
Definition kept_fragments (frags : list Slice) : list Slice :=
  (fun f => if slice_size f <? 1024 * 1024 then f else []) <$> take kMaxFragments frags.

(** The entry at the receiver, whatever the sizes: their ids and placement arrive even
    when the fragments do not. *)
Definition arrived (e : LogEntry) : LogEntry := set_Fragments (kept_fragments (Fragments e)) (received e).

Lemma rebuilt_arrived e : rebuilt e = arrived e.
Proof.
  assert (Fragments (SetFragments (zip (sent_ids e) (Fragments e)).*2
    (set_slices (NotEncodedSlice e) (FragmentSlice e) (scalars e))) = kept_fragments (Fragments e)) as Hf.
  { rewrite snd_zip by (rewrite length_sent_ids; done). unfold SetFragments, kept_fragments. cbv zeta.
    change (Fragments (set_FragIds ?ids (set_Fragments ?fs ?x))) with fs. apply list_fmap_ext. intros k f _.
    destruct f as [|b f]; [done|]. cbn [valid andb]. done. }
  unfold rebuilt, arrived, set_frags. rewrite fst_zip by (rewrite length_sent_ids; done).
  rewrite <- Hf. unfold set_slices, received. by destruct e as [t n [] c so cl cd ns fs fr fi pl].
Qed.

Lemma arrived_within e : within_limits e -> arrived e = received e.
Proof. intros Hw. rewrite <- rebuilt_arrived. by apply received_parts. Qed.

Lemma read_append_arrived `{Image} (HI : image_ok) (Hpad : is_u32 padding32) a rest : append_args_ok a ->
  Deserialize_AppendEntriesArgs ((append_header a ++ concat (serialize_logentry_helper <$> aea_entries a)) ++ rest) =
  Ok (with_entries (arrived <$> aea_entries a) a, rest).
Proof.
  intros Ha. rewrite (reads_append_args HI Hpad a Ha rest). do 3 f_equal. apply list_fmap_ext. intros k e _. apply rebuilt_arrived.
Qed.

(** [C12] The bytes of an AppendEntries request, followed by anything (the buffer is
    rounded up to four bytes), give the receiver the same header and the entries as
    [arrived] states: every member is preserved except that a normal entry has its
    command length recomputed, fragments behind the first 256 are lost and those of
    1 MiB or more are empty. When every entry is within those limits, all fragments
    arrive. Requests whose fields fit their widths and whose fragments are at most
    16 MiB are meant ([append_args_ok]). What is written fits in the buffer allocated
    for it. *)
Theorem append_entries_roundtrip `{Image} (a : AppendEntriesArgs) (rest : Slice)
    (HI : image_ok) (Hpad : is_u32 padding32) (Ha : append_args_ok a) :
  exists bs, Serialize_AppendEntriesArgs a = Some bs /\
    Deserialize_AppendEntriesArgs (bs ++ rest) = Ok (with_entries (arrived <$> aea_entries a) a, rest) /\
    (Forall within_limits (aea_entries a) -> arrived <$> aea_entries a = received <$> aea_entries a) /\
    slice_size bs <= size_AppendEntriesArgs a.
Proof.
  eexists. split; [by apply Serialize_AppendEntriesArgs_run|]. split_and!.
  - by apply read_append_arrived.
  - intros Hw. apply list_fmap_ext. intros k e He. apply arrived_within. rewrite Forall_forall in Hw. apply Hw.
    by eapply list_elem_of_lookup_2.
  - rewrite slice_size_app, slice_size_append_header. by apply append_size.
Qed.

(** The other messages arrive as they were sent, whatever bytes follow: votes and
    their replies, replies to AppendEntries, fragment requests, group notifications
    and their replies. *)
Theorem messages_roundtrip `{Image} (va : RequestVoteArgs) (vr : RequestVoteReply) (ar : AppendEntriesReply)
    (fa : RequestFragmentsArgs) (gn : GroupNotificationArgs) (gr : GroupNotificationReply) (rest : Slice)
    (Hpad : is_u32 padding32) (Hva : vote_args_ok va) (Hvr : vote_reply_ok vr) (Har : append_reply_ok ar)
    (Hfa : fragments_args_ok fa) (Hgn : notification_ok gn)
    (Hgr : is_int (gnr_success gr) /\ is_u32 (gnr_reply_node_id gr)) :
  Deserialize_RequestVoteArgs (Serialize_RequestVoteArgs va ++ rest) = Ok (va, rest) /\
  Deserialize_RequestVoteReply (Serialize_RequestVoteReply vr ++ rest) = Ok (vr, rest) /\
  Deserialize_AppendEntriesReply (Serialize_AppendEntriesReply ar ++ rest) = Ok (ar, rest) /\
  Deserialize_RequestFragmentsArgs (Serialize_RequestFragmentsArgs fa ++ rest) = Ok (fa, rest) /\
  Deserialize_GroupNotificationArgs (Serialize_GroupNotificationArgs gn ++ rest) = Ok (gn, rest) /\
  Deserialize_GroupNotificationReply (Serialize_GroupNotificationReply gr ++ rest) = Ok (gr, rest).
Proof.
  split_and!; [by apply reads_vote_args|by apply reads_vote_reply|by apply reads_append_reply
    |by apply reads_fragments_args|by apply reads_notification|by apply reads_notification_reply].
Qed.

(** A RequestFragments reply is read back, entry by entry, exactly when no entry
    brings a pointer of the sender with it: reading an entry that has a command, a
    slice, fragments or a placement releases that pointer. *)
Theorem fragments_reply_reading `{Image} (r : RequestFragmentsReply) (rest : Slice)
    (HI : image_ok) (Hr : fragments_reply_ok r) :
  exists bs, Serialize_RequestFragmentsReply r = Some bs /\
    Deserialize_RequestFragmentsReply (bs ++ rest) =
      if existsb has_buffers (rfr_fragments r) && negb foreign_free then Undef
      else Ok (mkRequestFragmentsReply (rfr_reply_id r) (rfr_term r) (rfr_start_index r) (rfr_success r)
                 (rfr_entry_cnt r) (received <$> rfr_fragments r), rest).
Proof.
  by apply read_fragments_reply.
Qed.

(** A machine on which the sender's pointers are not the receiver's; a normal entry
    and an entry with two fragments. *)
Section witness.
Definition demo_image : Image :=
  {| address _ _ := 4096; padding _ _ := [0; 0; 0; 0; 0; 0; 0]; padding32 := 7; foreign_free := false |}.

Definition demo_normal : LogEntry := SetCommandData [5; 6; 7] (SetIndex 4 (SetTerm 2 LogEntry_default)).
Definition demo_coded : LogEntry :=
  SetPlacement [mkFragmentPlacement 3 (-1) 6 kGlobalParity]
    (AddFragmentWithId 3 [8; 9] (SetType kFragments (SetIndex 5 (SetTerm 2 LogEntry_default)))).
Definition demo_append : AppendEntriesArgs := mkAppendEntriesArgs 2 1 0 3 2 4 3 2 [demo_normal; demo_coded].

Lemma demo_image_ok : @image_ok demo_image.
Proof. split; intros; cbn [address demo_image]; [lia|done]. Qed.

Ltac concrete := cbn; unfold is_u32, is_int, fits, kMaxFragSize, kMaxFragments, slice_size; cbn; lia.
Ltac concrete_list tac := cbn; repeat (apply Forall_cons; split; [solve [tac]|]); by apply Forall_nil.
Ltac concrete_fields := split; first [concrete | split_and!; concrete | concrete_list concrete
  | concrete_list ltac:(split; concrete) | split; concrete].

Lemma demo_entries_ok : Forall entry_ok [demo_normal; demo_coded].
Proof.
  concrete_list concrete_fields.
Qed.

Lemma demo_within : Forall within_limits [demo_normal; demo_coded].
Proof.
  concrete_list concrete_fields.
Qed.

Lemma demo_append_ok : append_args_ok demo_append.
Proof. split; try concrete. apply demo_entries_ok. Qed.

Lemma append_entries_roundtrip_witness :
  exists bs, @Serialize_AppendEntriesArgs demo_image demo_append = Some bs /\
    Deserialize_AppendEntriesArgs (bs ++ [0; 0]) = Ok (with_entries (received <$> [demo_normal; demo_coded]) demo_append, [0; 0]) /\
    slice_size bs <= 508.
Proof.
  destruct (@append_entries_roundtrip demo_image demo_append [0; 0]) as (bs & Hs & Hd & Hw & Hn).
  - exact demo_image_ok.
  - cbn. unfold is_u32. lia.
  - exact demo_append_ok.
  - exists bs. split; [exact Hs|]. split; [|exact Hn]. rewrite (Hw demo_within) in Hd. exact Hd.
Defined.

Lemma messages_roundtrip_witness :
  Deserialize_AppendEntriesReply (@Serialize_AppendEntriesReply demo_image
    (mkAppendEntriesReply 2 true 5 1 1 1 [ChunkInfo_init 2 5]) ++ [0]) =
  Ok (mkAppendEntriesReply 2 true 5 1 1 1 [ChunkInfo_init 2 5], [0]).
Proof.
  eapply (@messages_roundtrip demo_image (mkRequestVoteArgs 2 1 5 2 1 (-1)) (mkRequestVoteReply 2 true 1 1) _
    (mkRequestFragmentsArgs 1 2 0 3 5)
    (mkGroupNotificationArgs 0 1 [mkGroupInfo 1 0 0 2 [4; 5] [mkGroupMemberInfo 2 [49] [50] [] [51]]])
    (mkGroupNotificationReply 1 2)).
  - cbn. unfold is_u32. lia.
  - split; concrete.
  - split; concrete.
  - concrete_fields.
  - split; concrete.
  - split; try concrete. apply Forall_cons. split; [|by apply Forall_nil].
    concrete_fields.
  - split; concrete.
Defined.

Lemma fragments_reply_reading_witness :
  exists bs, @Serialize_RequestFragmentsReply demo_image (mkRequestFragmentsReply 1 2 4 true 2 [demo_normal; demo_coded]) = Some bs /\
    @Deserialize_RequestFragmentsReply demo_image (bs ++ []) = Undef.
Proof.
  destruct (@fragments_reply_reading demo_image (mkRequestFragmentsReply 1 2 4 true 2 [demo_normal; demo_coded]) [])
    as (bs & Hs & Hd).
  - exact demo_image_ok.
  - split; try concrete. pose proof demo_entries_ok as He. pose proof demo_within as Hw.
    apply Forall_and. split; assumption.
  - exists bs. split; [exact Hs|exact Hd].
Defined.
End witness.
