(* ===== verification/LogFile.v ===== *)
(** The log file as bytes (src/raft/storage.h, storage.cc).

    Storage.v models [FileStorage] as a header and a sequence of records. Here the file
    is its bytes, the operations are the calls of [lseek], [read], [write] and
    [ftruncate] the code makes, the buffer between the file and the serializer is part
    of the state, and an entry is what the serializer writes and reads. [related] ties
    the two together: every operation on records is the same operation on bytes, and
    [log_file_refines_list] follows: the file implements the log, and a restart finds it
    there, unless reading an entry back has to free the pointers that its image
    contains. [unsynced_delete_leaves_phantoms] is what a crash after a deletion leaves.

    [SetLastIndex], which nothing calls, is not one of the operations of the theorem: it
    lets the last index and the number of records differ. *)

From S2P Require Import Prelude Types Bytes LogManager Storage Serializer.

#[local] Existing Instance abi_layout.

(** ** The system *)

(** [write_takes off n]: how many of [n] bytes a [write] at [off] takes. The padding of
    the header is not determined, nor is the part of the buffer no one wrote. *)
Class Disk := {
  write_takes : Z -> Z -> Z;
  header_padding : nat -> Slice;
  stale_bytes : Z -> nat -> Slice
}.

(** A write takes at least a byte and the few bytes of a header at once. *)
Record disk_ok `{Disk} : Prop := {
  dk_write : forall off n, 0 < n -> 0 < write_takes off n <= n;
  dk_header : write_takes 0 32 = 32;
  dk_padding : length (header_padding 0) = 3%nat /\ length (header_padding 1) = 4%nat;
  dk_stale : forall off n, length (stale_bytes off n) = n
}.

(** [write] of [data] at [off], and [ftruncate]; a gap is filled with zeros. *)
Definition write_at (off : Z) (data file : Slice) : Slice :=
  let o := Z.to_nat off in
  take o (file ++ replicate (o - length file) 0) ++ data ++ drop (o + length data) file.
Definition ftruncate (size : Z) (file : Slice) : Slice :=
  let n := Z.to_nat size in take n (file ++ replicate (n - length file) 0).

Section log_file.
Context `{Disk} `{Image}.

(** ** The header on disk: [memcpy] of the struct *)
Definition header_bytes (h : Header) : Slice :=
  [b2z (prs_valid (raft_state h))] ++ header_padding 0 ++
  raw32 (persisted_term (raft_state h)) ++ raw32 (persisted_vote_for (raft_state h)) ++
  raw32 (lastLogIndex h) ++ raw32 (lastLogTerm h) ++ header_padding 1 ++ raw64 (last_off h).

(** A [bool] is 0 or 1. *)
Definition get_bool : Reader bool :=
  let? b := read_le Undef 1 in
  if b =? 0 then rret false else if b =? 1 then rret true else rundef.

Definition get_header : Reader Header :=
  let? v := get_bool in let? _ := read_bytes Undef 3 in
  let? t := get32 in let? vote := get32 in let? li := get32 in let? lt := get32 in
  let? _ := read_bytes Undef 4 in let? off := get64 in
  rret (mkHeader (mkPersistRaftState v t vote) li lt off).

(** ** FileStorage *)
Definition kInitBufSize : Z := 16 * 1024 * 1024.

(** [bf_buf] is the start of the buffer, as far as it was ever written. *)
Record ByteFile := mkByteFile {
  bf_header : Header;
  bf_file : Slice;
  bf_buf : Slice;
  bf_buf_size : Z;
  bf_extents : gmap Z EntryExtent
}.

Definition set_bf_header (h : Header) (bf : ByteFile) : ByteFile :=
  mkByteFile h (bf_file bf) (bf_buf bf) (bf_buf_size bf) (bf_extents bf).

Definition bf_PersistHeader (bf : ByteFile) : ByteFile :=
  let data := take (Z.to_nat (write_takes 0 (slice_size (header_bytes (bf_header bf))))) (header_bytes (bf_header bf)) in
  mkByteFile (bf_header bf) (write_at 0 data (bf_file bf)) (bf_buf bf) (bf_buf_size bf) (bf_extents bf).

(** The loop of [Append]: answers the new offset and file. A [write] that fails or
    takes nothing has no defined continuation. Every round takes at least a byte, so
    the number of bytes is fuel enough. *)
Fixpoint append_loop (fuel : nat) (off : Z) (data file : Slice) : option (Z * Slice) :=
  match data, fuel with
  | [], _ => Some (off, file)
  | _, O => None
  | _, S fuel =>
      let write_size := write_takes off (slice_size data) in
      if (write_size <=? 0) || (slice_size data <? write_size) then None else
      append_loop fuel (off + write_size) (drop (Z.to_nat write_size) data)
        (write_at off (take (Z.to_nat write_size) data) file)
  end.

Definition Append (data : Slice) (bf : ByteFile) : option ByteFile :=
  let h := bf_header bf in
  r ← append_loop (length data) (last_off h) data (bf_file bf);
  Some (mkByteFile (mkHeader (raft_state h) (lastLogIndex h) (lastLogTerm h) (fst r)) (snd r)
          (bf_buf bf) (bf_buf_size bf) (bf_extents bf)).

Definition MaybeUpdateLastIndexAndTerm (i t : Z) (bf : ByteFile) : ByteFile :=
  let h := bf_header bf in
  if lastLogIndex h <? i then set_bf_header (mkHeader (raft_state h) i t (last_off h)) bf else bf.

(** Bytes copied to the start of a buffer. *)
Definition overlay (data buf : Slice) : Slice := data ++ drop (length data) buf.

(** [AllocateNewInternalBuffer], when the entry does not fit. *)
Definition ensure_buffer (write_size : Z) (bf : ByteFile) : ByteFile :=
  if bf_buf_size bf <? write_size then mkByteFile (bf_header bf) (bf_file bf) [] write_size (bf_extents bf) else bf.

(** What is written of the buffer: the entry, then what it held before, up to the size
    rounded to four bytes; [stale_bytes] is what no one wrote. *)
Definition record_bytes (off : Z) (e : LogEntry) (buf : Slice) : Slice :=
  let n := Z.to_nat (getSerializeSize e) in
  take n (overlay (serialize_logentry_helper e) buf ++ stale_bytes off n).

(** The part [PersistEntries] and [AppendEntry] share. *)
Definition write_entry (e : LogEntry) (bf : ByteFile) : option ByteFile :=
  let bf := ensure_buffer (getSerializeSize e) bf in
  let data := record_bytes (last_off (bf_header bf)) e (bf_buf bf) in
  let bf := mkByteFile (bf_header bf) (bf_file bf) (overlay (serialize_logentry_helper e) (bf_buf bf)) (bf_buf_size bf) (bf_extents bf) in
  bf ← Append data bf;
  Some (MaybeUpdateLastIndexAndTerm (Index e) (Term e) bf).

Definition bf_persist_one (acc : option (Z * ByteFile)) (e : LogEntry) : option (Z * ByteFile) :=
  match acc with
  | None => None
  | Some (check_raft_index, bf) =>
      bf ← write_entry e bf;
      if check_raft_index =? Index e then Some (u32 (check_raft_index + 1), bf) else None
  end.

Definition bf_PersistEntries (lo hi : Z) (batch : list LogEntry) (bf : ByteFile) : option ByteFile :=
  if hi <? lo then Some bf else
  r ← foldl bf_persist_one (Some (lo, bf)) batch; Some (bf_PersistHeader (snd r)).

Definition UpdateExtents (i : Z) (x : EntryExtent) (bf : ByteFile) : ByteFile :=
  mkByteFile (bf_header bf) (bf_file bf) (bf_buf bf) (bf_buf_size bf) (<[i := x]> (bf_extents bf)).

Definition bf_AppendEntry (e : LogEntry) (bf : ByteFile) : option ByteFile :=
  if negb (Index e =? u32 (lastLogIndex (bf_header bf) + 1)) then Some bf else
  let extent := mkExtent (last_off (bf_header bf)) (getSerializeSize e) in
  bf ← write_entry e bf; Some (UpdateExtents (Index e) extent bf).

Definition bf_DeleteEntriesFrom (raft_index : Z) (bf : ByteFile) : ByteFile :=
  let h := bf_header bf in
  if lastLogIndex h <? raft_index then bf else
  match bf_extents bf !! raft_index with
  | None => bf
  | Some extent =>
      mkByteFile (mkHeader (raft_state h) (u32 (raft_index - 1)) (lastLogTerm h) (ext_offset extent))
        (ftruncate (ext_offset extent) (bf_file bf)) (bf_buf bf) (bf_buf_size bf) (bf_extents bf)
  end.

Definition bf_OverwriteEntry (raft_index : Z) (e : LogEntry) (bf : ByteFile) : option ByteFile :=
  bf_AppendEntry e (bf_DeleteEntriesFrom raft_index bf).

Definition bf_PersistState (s : PersistRaftState_t) (bf : ByteFile) : ByteFile :=
  if prs_valid s then
    let h := bf_header bf in
    bf_PersistHeader (set_bf_header (mkHeader s (lastLogIndex h) (lastLogTerm h) (last_off h)) bf)
  else bf.

Definition bf_SetLastIndex (i : Z) (bf : ByteFile) : ByteFile :=
  let h := bf_header bf in
  bf_PersistHeader (set_bf_header (mkHeader (raft_state h) i (lastLogTerm h) (last_off h)) bf).

Definition bf_Sync (bf : ByteFile) : ByteFile := bf_PersistHeader bf.

(** [read] of at most a buffer at [off], over what the buffer held; the entry the reader
    makes of it, and the buffer. *)
Definition read_record (buf_size off : Z) (file buf : Slice) : option (LogEntry * Slice) :=
  let buf := overlay (take (Z.to_nat buf_size) (drop (Z.to_nat off) file)) buf in
  match deserialize_logentry_helper buf with
  | Ok ((e, _), _) => Some (e, buf)
  | _ => None
  end.

(** The loop of [LogEntries] and [ConstructExtents]: the entries with their offsets,
    and the buffer. Every round moves on by at least a byte. *)
Fixpoint scan (fuel : nat) (buf_size last_off read_off : Z) (file buf : Slice) : option (list (Z * LogEntry) * Slice) :=
  if last_off <? read_off + sizeof_entry then Some ([], buf) else
  match fuel with
  | O => None
  | S fuel =>
      r ← read_record buf_size read_off file buf;
      l ← scan fuel buf_size last_off (read_off + getSerializeSize (fst r)) file (snd r);
      Some ((read_off, fst r) :: fst l, snd l)
  end.

Definition scan_file (bf : ByteFile) : option (list (Z * LogEntry) * Slice) :=
  let last_off := last_off (bf_header bf) in
  scan (Z.to_nat last_off) (bf_buf_size bf) last_off 32 (bf_file bf) (bf_buf bf).

Definition bf_LogEntries (bf : ByteFile) : option (list LogEntry * ByteFile) :=
  let last_index := lastLogIndex (bf_header bf) in
  l ← scan_file bf;
  Some (foldl (fun v e => if Index e <=? last_index then <[Z.to_nat (Index e) := e]> v else v)
          (replicate (Z.to_nat (last_index + 1)) LogEntry_default) (fst l).*2,
        mkByteFile (bf_header bf) (bf_file bf) (snd l) (bf_buf_size bf) (bf_extents bf)).

Definition bf_ConstructExtents (bf : ByteFile) : option ByteFile :=
  l ← scan_file bf;
  Some (mkByteFile (bf_header bf) (bf_file bf) (snd l) (bf_buf_size bf)
    (foldl (fun m p => <[Index p.2 := mkExtent p.1 (getSerializeSize p.2)]> m) ∅ (fst l))).

(** [Open] of a file with these bytes; a file that is too short gets a new header. *)
Definition OpenFile (file : Slice) : option ByteFile :=
  if slice_size file <? 32 then
    bf_ConstructExtents (bf_PersistHeader
      (mkByteFile (mkHeader (mkPersistRaftState false 0 0) 0 0 32) file [] kInitBufSize ∅))
  else
    match get_header file with
    | Ok (h, _) => bf_ConstructExtents (mkByteFile h file [] kInitBufSize ∅)
    | _ => None
    end.
End log_file.

(** ** Writing *)
Section proofs.
Context `{Disk} `{Image} (HD : disk_ok) (HI : image_ok).
Implicit Types (pre tail data : Slice) (fs : FileStorage) (bf : ByteFile).

Lemma write_at_app pre tail data off : off = slice_size pre ->
  write_at off data (pre ++ tail) = pre ++ data ++ drop (length data) tail.
Proof.
  intros ->. unfold write_at, slice_size. rewrite Nat2Z.id, <- app_assoc, take_app_length.
  by rewrite drop_app_ge, Nat.add_comm, Nat.add_sub by lia.
Qed.

Lemma append_loop_run fuel : forall data pre tail, (length data <= fuel)%nat ->
  append_loop fuel (slice_size pre) data (pre ++ tail) =
  Some (slice_size pre + slice_size data, pre ++ data ++ drop (length data) tail).
Proof.
  induction fuel as [|fuel IH]; intros [|x data] pre tail Hl; cbn [append_loop length] in *;
    try (by rewrite Z.add_0_r); [lia|].
  set (d := x :: data) in *. assert (0 < slice_size d) as Hd by (unfold slice_size; cbn; lia).
  destruct (dk_write HD (slice_size pre) (slice_size d) Hd) as [Hw1 Hw2].
  set (w := write_takes _ _) in *. rewrite (proj2 (Z.leb_gt _ _)), (proj2 (Z.ltb_ge _ _)) by lia. cbn [orb].
  rewrite (write_at_app pre tail) by done. set (n := Z.to_nat w).
  assert (n <= length d)%nat as Hn by (unfold n, slice_size in *; lia).
  assert (slice_size (pre ++ take n d) = slice_size pre + w) as Hs.
  { rewrite slice_size_app. unfold slice_size. rewrite length_take. lia. }
  rewrite app_assoc, <- Hs, IH by (rewrite length_drop; unfold d in *; cbn [length] in *; unfold n in *; lia).
  rewrite Hs. f_equal. f_equal; [unfold slice_size; rewrite length_drop; unfold slice_size in *; lia|].
  rewrite <- app_assoc. f_equal. rewrite length_take, length_drop, drop_drop, Nat.min_l by done.
  rewrite app_assoc, take_drop. f_equal. f_equal. change (S (length data)) with (length d). lia.
Qed.

Lemma length_header h : length (header_bytes h) = 32%nat.
Proof.
  destruct (dk_padding HD) as [Hp0 Hp1]. unfold header_bytes, raw32, raw64. rewrite !length_app, Hp0, Hp1, !length_le. done.
Qed.

Lemma write_header h old rest : length old = 32%nat ->
  write_at 0 (take (Z.to_nat (write_takes 0 (slice_size (header_bytes h)))) (header_bytes h)) (old ++ rest) =
  header_bytes h ++ rest.
Proof.
  intros Ho. unfold slice_size. rewrite length_header. change (Z.of_nat 32) with 32.
  rewrite (dk_header HD), firstn_all2 by (by rewrite length_header).
  rewrite (write_at_app [] (old ++ rest)) by done. cbn [app]. by rewrite length_header, <- Ho, drop_app_length.
Qed.

(** ** Reading the header *)
Record header_ok (h : Header) : Prop := {
  ho_term : is_u32 (persisted_term (raft_state h)); ho_vote : is_u32 (persisted_vote_for (raft_state h));
  ho_index : is_u32 (lastLogIndex h); ho_lterm : is_u32 (lastLogTerm h); ho_off : 0 <= last_off h < 2 ^ 64
}.

Lemma reads_bool b : reads get_bool [b2z b] b.
Proof.
  unfold get_bool. eapply reads_bind_last; [apply reads_byte; unfold byte; destruct b; cbn; lia|].
  destruct b; apply reads_ret.
Qed.

Lemma reads_file_header h : header_ok h -> reads get_header (header_bytes h) h.
Proof.
  intros []. destruct (dk_padding HD) as [Hp0 Hp1]. unfold get_header, header_bytes.
  eapply reads_bind; [apply reads_bool|].
  eapply reads_bind; [apply reads_bytes; unfold slice_size; by rewrite Hp0|].
  eapply reads_bind; [by apply reads_32|]. eapply reads_bind; [by apply reads_32|].
  eapply reads_bind; [by apply reads_32|]. eapply reads_bind; [by apply reads_32|].
  eapply reads_bind; [apply reads_bytes; unfold slice_size; by rewrite Hp1|].
  eapply reads_bind_last; [by apply reads_64|]. destruct h as [[] ? ? ?]. apply reads_ret.
Qed.

(** ** Records *)

(** The entries the file can carry: they fit in the buffer a file is opened with. *)
Record storable (e : LogEntry) : Prop := {
  so_ok : entry_ok e; so_limits : within_limits e; so_size : getSerializeSize e <= kInitBufSize
}.

Definition is_record (e : LogEntry) (c : Slice) : Prop :=
  slice_size c = getSerializeSize e /\ exists slack, c = serialize_logentry_helper e ++ slack.

Lemma record_is_record off e buf : is_record e (record_bytes off e buf).
Proof.
  pose proof (entry_size HI e) as Hs. unfold record_bytes, overlay. set (n := Z.to_nat _). rewrite <- app_assoc. split.
  - unfold slice_size. rewrite length_take, !length_app, (dk_stale HD). unfold slice_size in Hs. lia.
  - eexists. rewrite take_app_ge; [done|]. unfold slice_size in Hs. lia.
Qed.

Lemma records_end recs chunks : Forall2 is_record recs chunks -> end_off recs = 32 + slice_size (concat chunks).
Proof.
  unfold end_off. change kHeaderSize with 32. generalize 32 as o. intros o Hr. revert o.
  induction Hr as [|e c recs chunks [Hs _] _ IH]; intros o; cbn [foldl concat]; [unfold slice_size; cbn; lia|].
  rewrite IH, slice_size_app, Hs. lia.
Qed.

(** The records the reader can take: it would release the pointers of an entry that
    carries buffers. *)
Definition readable (l : list LogEntry) : bool := negb (existsb has_buffers l && negb foreign_free).

(** The buffer holds [e], as a [read] of its record left it. *)
Definition holds (e : LogEntry) (buf : Slice) : Prop := exists slack, buf = serialize_logentry_helper e ++ slack.

Lemma deserialize_held e buf : holds e buf -> storable e ->
  deserialize_logentry_helper buf = if readable [e] then Ok ((received e, true), drop (length (serialize_logentry_helper e)) buf) else Undef.
Proof.
  intros (slack & ->) [He Hw _]. rewrite (helper_spec HI e _ He Hw), drop_app_length. unfold readable. cbn. rewrite orb_false_r.
  by destruct (has_buffers e && negb foreign_free).
Qed.

Lemma read_record_ok buf_size pre e c rest buf : is_record e c -> storable e -> kInitBufSize <= buf_size ->
  exists buf', holds e buf' /\
    read_record buf_size (slice_size pre) (pre ++ c ++ rest) buf = if readable [e] then Some (received e, buf') else None.
Proof.
  intros [Hs (slack & ->)] He Hb. unfold read_record, slice_size. rewrite Nat2Z.id, drop_app_length, <- app_assoc. cbn zeta.
  set (buf' := overlay _ buf). assert (holds e buf') as Hh.
  { unfold buf', overlay. rewrite take_app_ge, <- app_assoc; [by eexists|].
    pose proof (entry_size HI e). pose proof (so_size e He). unfold slice_size in *. lia. }
  exists buf'. split; [done|]. rewrite (deserialize_held e buf' Hh He). by destruct (readable [e]).
Qed.

(** The offsets at which the records start. *)
Fixpoint offsets (off : Z) (recs : list LogEntry) : list Z :=
  match recs with [] => [] | e :: recs => off :: offsets (off + getSerializeSize e) recs end.

Lemma getSerializeSize_received e : within_limits e -> getSerializeSize (received e) = getSerializeSize e.
Proof. intros Hw. rewrite <- reload_received by done. by apply getSerializeSize_reload. Qed.

Lemma record_large e : sizeof_entry < getSerializeSize e.
Proof.
  pose proof (entry_size HI e) as Hs. unfold serialize_logentry_helper in Hs.
  rewrite !slice_size_app, (slice_size_entry_image HI), !slice_size_prefixed in Hs.
  pose proof (slice_size_nonneg (NotEncodedSlice e)). pose proof (slice_size_nonneg (FragmentSlice e)).
  pose proof (slice_size_nonneg (raw32 (Z.of_nat (length (Fragments e))))).
  pose proof (slice_size_nonneg (concat (imap (frag_record (FragIds e)) (Fragments e)))).
  pose proof (slice_size_nonneg (raw32 (Z.of_nat (length (Placement e))))).
  pose proof (slice_size_nonneg (concat (placement_record <$> Placement e))). lia.
Qed.

Lemma readable_cons e l : readable (e :: l) = readable [e] && readable l.
Proof. unfold readable. cbn. by destruct (has_buffers e), (existsb has_buffers l), foreign_free. Qed.

Lemma scan_records recs chunks : Forall2 is_record recs chunks -> Forall storable recs ->
  forall fuel buf_size pre tail buf, (length recs <= fuel)%nat -> kInitBufSize <= buf_size ->
  fst <$> scan fuel buf_size (slice_size pre + slice_size (concat chunks)) (slice_size pre) (pre ++ concat chunks ++ tail) buf =
  if readable recs then Some (zip (offsets (slice_size pre) recs) (received <$> recs)) else None.
Proof.
  induction 1 as [|e c recs chunks Hr Hrs IH]; intros Hst fuel buf_size pre tail buf Hf Hb.
  - assert ((slice_size pre + slice_size [] <? slice_size pre + sizeof_entry) = true) as Hend.
    { apply Z.ltb_lt. unfold slice_size at 2, sizeof_entry. cbn. lia. }
    destruct fuel; cbn [scan concat]; by rewrite Hend.
  - apply Forall_cons in Hst as [Hse Hst]. destruct fuel as [|fuel]; [cbn in Hf; lia|].
    cbn [scan concat]. pose proof (record_large e). pose proof (slice_size_nonneg (concat chunks)).
    rewrite slice_size_app, (proj1 Hr), (proj2 (Z.ltb_ge _ _)) by lia.
    rewrite <- app_assoc. destruct (read_record_ok buf_size pre e c (concat chunks ++ tail) buf Hr Hse Hb) as (buf' & _ & ->).
    rewrite (readable_cons e recs). destruct (readable [e]); [|done]. cbn [mbind option_bind fst snd andb].
    rewrite (getSerializeSize_received e) by apply Hse.
    assert (slice_size pre + getSerializeSize e = slice_size (pre ++ c)) as Hpc by (by rewrite slice_size_app, (proj1 Hr)).
    rewrite Z.add_assoc, Hpc, (app_assoc pre c). specialize (IH Hst fuel buf_size (pre ++ c) tail buf' ltac:(cbn in Hf; lia) Hb).
    destruct (scan _ _ _ _ _ _) as [[l b]|]; destruct (readable recs); cbn in IH |- *; try done. injection IH as ->. by rewrite Hpc.
Qed.

(** ** The file and its records *)
Record related bf fs : Prop := {
  rl_header : bf_header bf = header_ fs;
  rl_extents : bf_extents bf = extents_ fs;
  rl_buffer : kInitBufSize <= bf_buf_size bf;
  rl_off : last_off (header_ fs) = end_off (records fs);
  rl_file : exists old chunks tail, bf_file bf = old ++ concat chunks ++ tail /\
    length old = 32%nat /\ old = header_bytes (disk_header fs) /\ Forall2 is_record (records fs) chunks
}.

Lemma related_PersistHeader bf fs : related bf fs -> related (bf_PersistHeader bf) (PersistHeader fs).
Proof.
  intros [Hh Hx Hb Ho (old & chunks & tail & Hf & Hl & _ & Hr)]. split; try done.
  exists (header_bytes (header_ fs)), chunks, tail. split_and!; [|apply length_header|done|done].
  unfold bf_PersistHeader. cbn [bf_file]. by rewrite Hf, Hh, write_header.
Qed.

(** A change of the header in memory that leaves the offset. *)
Lemma related_header bf fs h : related bf fs -> last_off h = last_off (header_ fs) ->
  related (set_bf_header h bf) (mkFileStorage h (disk_header fs) (records fs) (extents_ fs)).
Proof. intros [Hh Hx Hb Ho Hf] He. split; try done. cbn. by rewrite He. Qed.

Lemma related_write e bf fs : related bf fs ->
  exists bf', write_entry e bf = Some bf' /\ related bf' (write_record e fs).
Proof.
  intros Hrel. assert (related (ensure_buffer (getSerializeSize e) bf) fs /\ bf_header (ensure_buffer (getSerializeSize e) bf) = header_ fs)
    as [[Hh Hx Hb Ho (old & chunks & tail & Hf & Hl & Hold & Hr)] _].
  { destruct Hrel. unfold ensure_buffer. destruct (bf_buf_size bf <? _) eqn:E; [|by split]. apply Z.ltb_lt in E. split; [|done]. by split; cbn; [..|lia| |]. }
  unfold write_entry, Append. set (bf1 := ensure_buffer _ bf) in *. cbn. rewrite Hh, Hf, Ho, (records_end _ _ Hr).
  assert (32 + slice_size (concat chunks) = slice_size (old ++ concat chunks)) as Hoff.
  { rewrite slice_size_app. unfold slice_size at 2. by rewrite Hl. }
  set (c := record_bytes _ e _). assert (is_record e c) as Hc by apply record_is_record.
  rewrite Hoff, app_assoc, append_loop_run by done. cbn [mbind option_bind fst snd]. eexists. split; [done|].
  assert (end_off (records fs ++ [e]) = slice_size (old ++ concat chunks) + slice_size c) as Hend.
  { by rewrite end_off_snoc, (records_end _ _ Hr), Hoff, (proj1 Hc). }
  assert (exists old' chunks' tail', (old ++ concat chunks) ++ c ++ drop (length c) tail = old' ++ concat chunks' ++ tail' /\
    length old' = 32%nat /\ old' = header_bytes (disk_header fs) /\ Forall2 is_record (records fs ++ [e]) chunks') as Hfile.
  { exists old, (chunks ++ [c]), (drop (length c) tail). split_and!; try done.
    - rewrite concat_app. cbn [concat]. by rewrite app_nil_r, <- !app_assoc.
    - apply Forall2_app; [done|by constructor]. }
  rewrite (records_end _ _ Hr), Hoff in Ho.
  unfold MaybeUpdateLastIndexAndTerm, write_record. cbn [bf_header lastLogIndex].
  destruct (lastLogIndex (header_ fs) <? Index e); split; cbn -[kInitBufSize end_off]; rewrite ?Ho, ?Hend, ?(proj1 Hc); try done; lia.
Qed.

Lemma related_Append e bf fs fs' : related bf fs -> fs_AppendEntry e fs = Some fs' ->
  exists bf', bf_AppendEntry e bf = Some bf' /\ related bf' fs'.
Proof.
  intros Hrel. unfold fs_AppendEntry, bf_AppendEntry. rewrite (rl_header _ _ Hrel).
  destruct (negb _); [intros [= <-]; eauto|]. intros [= <-].
  destruct (related_write e bf fs Hrel) as (bf' & -> & [Hh Hx Hb Ho Hf]). cbn. eexists. split; [done|].
  split; try done. cbn. by rewrite Hx.
Qed.

Lemma truncate_at_Some off l l' : truncate_at off l = Some l' -> exists n, l' = take n l /\ end_off l' = off.
Proof.
  unfold truncate_at. destruct (list_find _ _) as [[i n]|] eqn:E; [|done]. intros [= <-].
  apply list_find_Some in E as (_ & He & _). by exists n.
Qed.

Lemma ftruncate_app (pre tail : Slice) : ftruncate (slice_size pre) (pre ++ tail) = pre.
Proof. unfold ftruncate, slice_size. by rewrite Nat2Z.id, <- app_assoc, take_app_length. Qed.

Lemma related_Delete i bf fs fs' : related bf fs -> fs_DeleteEntriesFrom i fs = Some fs' ->
  related (bf_DeleteEntriesFrom i bf) fs'.
Proof.
  intros Hrel. pose proof Hrel as [Hh Hx Hb Ho (old & chunks & tail & Hf & Hl & Hold & Hr)].
  unfold fs_DeleteEntriesFrom, bf_DeleteEntriesFrom. rewrite Hh, Hx.
  destruct (_ <? i); [by intros [= <-]|]. destruct (extents_ fs !! i) as [[off sz]|]; [|by intros [= <-]].
  cbn. intros Ht. apply option.bind_Some in Ht as (recs & Ht & [= <-]).
  destruct (truncate_at_Some _ _ _ Ht) as (n & -> & Hoff).
  assert (Forall2 is_record (take n (records fs)) (take n chunks)) as Hr' by (by apply Forall2_take).
  split; cbn; try done. exists old, (take n chunks), []. split_and!; try done.
  rewrite <- Hoff, (records_end _ _ Hr'), app_nil_r.
  replace (32 + slice_size (concat (take n chunks))) with (slice_size (old ++ concat (take n chunks)))
    by (rewrite slice_size_app; unfold slice_size at 1; by rewrite Hl).
  rewrite Hf. rewrite <- (take_drop n chunks) at 2. by rewrite concat_app, <- app_assoc, app_assoc, ftruncate_app.
Qed.

Lemma related_persist_fold batch : forall lo lo' bf fs fs', related bf fs ->
  foldl persist_one (Some (lo, fs)) batch = Some (lo', fs') ->
  exists bf', foldl bf_persist_one (Some (lo, bf)) batch = Some (lo', bf') /\ related bf' fs'.
Proof.
  induction batch as [|e batch IH]; intros lo lo' bf fs fs' Hrel; cbn [foldl].
  - intros [= <- <-]. eauto.
  - cbn [persist_one bf_persist_one]. destruct (related_write e bf fs Hrel) as (bf1 & -> & Hrel1). cbn [mbind option_bind].
    destruct (lo =? Index e); [by apply IH|]. by rewrite persist_one_None.
Qed.

Lemma related_PersistEntries lo hi batch bf fs fs' : related bf fs -> fs_PersistEntries lo hi batch fs = Some fs' ->
  exists bf', bf_PersistEntries lo hi batch bf = Some bf' /\ related bf' fs'.
Proof.
  intros Hrel. unfold fs_PersistEntries, bf_PersistEntries. destruct (hi <? lo); [intros [= <-]; eauto|].
  intros Hf. apply option.bind_Some in Hf as ([lo' fs1] & Hf & [= <-]).
  destruct (related_persist_fold _ _ _ _ _ _ Hrel Hf) as (bf1 & -> & Hrel1). cbn. eexists. split; [done|].
  by apply related_PersistHeader.
Qed.

(** ** Reading the file *)
Lemma records_count recs chunks : Forall2 is_record recs chunks -> (length chunks <= length (concat chunks))%nat.
Proof.
  induction 1 as [|e c recs chunks [Hc _] _ IH]; [done|]. cbn. rewrite length_app. pose proof (record_large e).
  unfold slice_size, sizeof_entry in *. lia.
Qed.

Lemma scan_related bf fs : related bf fs -> Forall storable (records fs) ->
  fst <$> scan_file bf =
  if readable (records fs) then Some (zip (offsets 32 (records fs)) (received <$> records fs)) else None.
Proof.
  intros [Hh Hx Hb Ho (old & chunks & tail & Hf & Hl & Hold & Hr)] Hst. unfold scan_file.
  rewrite Hh, Ho, Hf, (records_end _ _ Hr).
  assert (slice_size old = 32) as H32 by (unfold slice_size; by rewrite Hl). rewrite <- H32.
  assert (length (records fs) <= Z.to_nat (slice_size old + slice_size (concat chunks)))%nat.
  { rewrite (Forall2_length _ _ _ Hr). pose proof (records_count _ _ Hr). unfold slice_size in *. lia. }
  by apply (scan_records _ _ Hr Hst).
Qed.

Lemma LogEntries_related bf fs : related bf fs -> Forall storable (records fs) ->
  fst <$> bf_LogEntries bf = if readable (records fs) then Some (fs_LogEntries fs) else None.
Proof.
  intros Hrel Hst. unfold bf_LogEntries. pose proof (scan_related _ _ Hrel Hst) as Hs.
  destruct (scan_file bf) as [[l buf]|], (readable _); cbn in Hs |- *; try done. injection Hs as ->.
  rewrite (rl_header _ _ Hrel). unfold fs_LogEntries. f_equal.
  assert (forall off recs (v : list LogEntry), Forall storable recs ->
    foldl (fun v e => if Index e <=? lastLogIndex (header_ fs) then <[Z.to_nat (Index e) := e]> v else v) v
      (zip (offsets off recs) (received <$> recs)).*2 =
    foldl (fun v e => if Index e <=? lastLogIndex (header_ fs) then <[Z.to_nat (Index e) := reload e]> v else v) v recs)
    as Hf; [|by apply Hf].
  intros off recs. revert off. induction recs as [|e recs IH]; intros off v; [done|].
  intros [He Hrs]%Forall_cons. cbn. rewrite (reload_received e) by apply He. by apply IH.
Qed.

Lemma ConstructExtents_scan recs : Forall storable recs ->
  foldl (fun m p => <[Index p.2 := mkExtent p.1 (getSerializeSize p.2)]> m) ∅ (zip (offsets 32 recs) (received <$> recs)) =
  ConstructExtents recs.
Proof.
  unfold ConstructExtents. change kHeaderSize with 32. generalize 32 as off, (∅ : gmap Z EntryExtent) as m.
  induction recs as [|e recs IH]; intros off m; [done|]. intros [He Hrs]%Forall_cons. cbn.
  by rewrite (reload_received e), getSerializeSize_received, <- IH by (done || apply He).
Qed.

(** Opening the bytes is opening the records. *)
Lemma related_Open bf fs fs' : related bf fs -> header_ok (disk_header fs) -> Forall storable (records fs) ->
  Open fs = Some fs' ->
  if readable (records fs') then exists bf', OpenFile (bf_file bf) = Some bf' /\ related bf' fs'
  else OpenFile (bf_file bf) = None.
Proof.
  intros [Hh Hx Hb Ho (old & chunks & tail & Hf & Hl & Hold & Hr)] Hok Hst. unfold Open. intros Hopen.
  apply option.bind_Some in Hopen as (recs & Ht & [= <-]). destruct (truncate_at_Some _ _ _ Ht) as (n & -> & Hoff).
  cbn [records]. set (recs := take n (records fs)) in *.
  set (bf0 := mkByteFile (disk_header fs) (bf_file bf) [] kInitBufSize ∅).
  assert (Forall storable recs) as Hst' by (by apply Forall_take).
  assert (related bf0 (mkFileStorage (disk_header fs) (disk_header fs) recs ∅)) as Hrel.
  { split; cbn; try done. exists old, (take n chunks), (concat (drop n chunks) ++ tail). split_and!; [|done|done|].
    - rewrite Hf, <- (take_drop n chunks) at 1. by rewrite concat_app, <- app_assoc.
    - by apply Forall2_take. }
  assert (OpenFile (bf_file bf) = bf_ConstructExtents bf0) as ->.
  { unfold OpenFile. rewrite Hf, (proj2 (Z.ltb_ge _ _)), Hold, (reads_file_header _ Hok); [by rewrite <- Hold, <- Hf|].
    rewrite slice_size_app. unfold slice_size at 1. pose proof (slice_size_nonneg (concat chunks ++ tail)). lia. }
  unfold bf_ConstructExtents. pose proof (scan_related _ _ Hrel Hst') as Hs. cbn [records] in Hs.
  destruct (scan_file bf0) as [[l buf]|], (readable recs); cbn in Hs |- *; try done. injection Hs as ->. eexists. split; [done|].
  rewrite (ConstructExtents_scan _ Hst'). destruct Hrel. by split.
Qed.

(** ** The log in the file *)
Inductive FileOp :=
| OpAppend (e : LogEntry)
| OpPersist (lo hi : Z) (batch : list LogEntry)
| OpDelete (i : Z)
| OpOverwrite (i : Z) (e : LogEntry)
| OpState (term vote : Z)
| OpSync
| OpRestart.

(** An operation on the file; a restart closes it after a [Sync] and opens it again. *)
Definition run_op (op : FileOp) bf : option ByteFile :=
  match op with
  | OpAppend e => bf_AppendEntry e bf
  | OpPersist lo hi batch => bf_PersistEntries lo hi batch bf
  | OpDelete i => Some (bf_DeleteEntriesFrom i bf)
  | OpOverwrite i e => bf_OverwriteEntry i e bf
  | OpState t v => Some (bf_PersistState (mkPersistRaftState true t v) bf)
  | OpSync => Some (bf_Sync bf)
  | OpRestart => OpenFile (bf_file (bf_Sync bf))
  end.

(** What the file stands for: the entries 1, 2, ..., the term and vote, and the offsets
    by which an entry can be found to delete it. [PersistEntries] writes no offset, so
    that a deletion from such an entry is ignored, and deletions leave the offsets of
    what they removed; a restart computes them anew. An entry that does not follow the
    last one is ignored, as is a deletion beyond the end. [None]: a batch that does not
    continue the log, an offset left from an entry that was removed, a log of 2^27
    entries or a file of 2^64 bytes. *)
Record LogState := mkLogState { ls_log : list LogEntry; ls_state : PersistRaftState_t; ls_offsets : gmap Z Z }.

Definition log_fits (l : list LogEntry) : bool := (Z.of_nat (length l) <? 2 ^ 27) && (end_off l <? 2 ^ 64).

Definition log_append (e : LogEntry) (s : LogState) : option LogState :=
  let l := ls_log s in
  if negb (Index e =? Z.of_nat (length l) + 1) then Some s else
  if log_fits (l ++ [e]) then Some (mkLogState (l ++ [e]) (ls_state s) (<[Index e := end_off l]> (ls_offsets s))) else None.

Fixpoint log_persist (batch : list LogEntry) (s : LogState) : option LogState :=
  match batch with
  | [] => Some s
  | e :: batch =>
      let l := ls_log s ++ [e] in
      if (Index e =? Z.of_nat (length l)) && log_fits l then log_persist batch (mkLogState l (ls_state s) (ls_offsets s)) else None
  end.

Definition log_delete (i : Z) (s : LogState) : option LogState :=
  if Z.of_nat (length (ls_log s)) <? i then Some s else
  match ls_offsets s !! i with
  | None => Some s
  | Some off =>
      let l := take (Z.to_nat (i - 1)) (ls_log s) in
      if (1 <=? i) && (off =? end_off l) then Some (mkLogState l (ls_state s) (ls_offsets s)) else None
  end.

(** The offsets of all entries. *)
Definition all_offsets (l : list LogEntry) : gmap Z Z :=
  foldl (fun m p => <[p.1 := p.2]> m) ∅ (zip (Index <$> l) (offsets 32 l)).

Definition spec_op (op : FileOp) (s : LogState) : option LogState :=
  match op with
  | OpAppend e => log_append e s
  | OpPersist lo hi batch =>
      if hi <? lo then Some s else
      if lo =? Z.of_nat (length (ls_log s)) + 1 then log_persist batch s else None
  | OpDelete i => log_delete i s
  | OpOverwrite i e => s ← log_delete i s; log_append e s
  | OpState t v => Some (mkLogState (ls_log s) (mkPersistRaftState true t v) (ls_offsets s))
  | OpSync => Some s
  | OpRestart => if readable (ls_log s) then Some (mkLogState (ls_log s) (ls_state s) (all_offsets (ls_log s))) else None
  end.

Definition op_ok (op : FileOp) : Prop :=
  match op with
  | OpAppend e | OpOverwrite _ e => storable e
  | OpPersist _ _ batch => Forall storable batch
  | OpState t v => is_u32 t /\ is_u32 v
  | _ => True
  end.

Fixpoint run_ops (ops : list FileOp) bf : option ByteFile :=
  match ops with [] => Some bf | op :: ops => bf ← run_op op bf; run_ops ops bf end.
Fixpoint spec_ops (ops : list FileOp) (s : LogState) : option LogState :=
  match ops with [] => Some s | op :: ops => s ← spec_op op s; spec_ops ops s end.

(** ** The file stands for the log *)
Lemma layout_abi : layout_ok.
Proof. by split. Qed.

(** The records are the log, and the fields of the header fit. *)
Record sim_by fs (s : LogState) : Prop := {
  sm_records : records fs = ls_log s;
  sm_last : lastLogIndex (header_ fs) = Z.of_nat (length (ls_log s));
  sm_off : last_off (header_ fs) = end_off (ls_log s);
  sm_index : forall i e, ls_log s !! i = Some e -> Index e = Z.of_nat i + 1;
  sm_offsets : ext_offset <$> extents_ fs = ls_offsets s;
  sm_state : raft_state (header_ fs) = ls_state s;
  sm_header : header_ok (header_ fs);
  sm_storable : Forall storable (ls_log s);
  sm_length : Z.of_nat (length (ls_log s)) < 2 ^ 27
}.
Definition sim bf (s : LogState) : Prop := exists fs, related bf fs /\ sim_by fs s.

Lemma end_off_pos l : 0 <= end_off l.
Proof.
  induction l as [|e l IH] using rev_ind; [done|]. rewrite end_off_snoc. pose proof (getSerializeSize_pos layout_abi e). lia.
Qed.

Lemma end_off_take n l : end_off (take n l) <= end_off l.
Proof.
  destruct (decide (n < length l)%nat); [|by rewrite firstn_all2 by lia].
  pose proof (end_off_take_lt layout_abi l n (length l)) as Hlt. rewrite firstn_all in Hlt. lia.
Qed.

Lemma sim_disk fs s d : sim_by fs s -> sim_by (mkFileStorage (header_ fs) d (records fs) (extents_ fs)) s.
Proof. intros []. by split. Qed.

(** A record that continues the log. *)
Lemma sim_write fs s e : sim_by fs s -> storable e -> Index e = Z.of_nat (length (ls_log s)) + 1 -> log_fits (ls_log s ++ [e]) = true ->
  sim_by (write_record e fs) (mkLogState (ls_log s ++ [e]) (ls_state s) (ls_offsets s)).
Proof.
  intros [Hr Hl Ho Hi Hx Hs [Ht Hv Hix Hlt Hoff] Hst Hn] He Hie Hfit. unfold log_fits in Hfit. rewrite length_app in Hfit. cbn in Hfit.
  apply andb_true_iff in Hfit as [Hb1%Z.ltb_lt Hb2%Z.ltb_lt]. pose proof (end_off_pos (ls_log s ++ [e])). rewrite end_off_snoc in *.
  unfold write_record. rewrite (proj2 (Z.ltb_lt _ _)) by lia. split; cbn -[end_off]; try done.
  - by rewrite Hr.
  - rewrite length_app. cbn. lia.
  - by rewrite Ho, end_off_snoc.
  - intros i x [Hx'|[Hge Hx']]%lookup_app_Some; [by apply Hi|]. apply list_lookup_singleton_Some in Hx' as [Hi0 <-]. lia.
  - destruct He as [[] _ _]. split; cbn; try done. lia.
  - apply Forall_app. by split; [|constructor].
  - rewrite length_app. cbn. lia.
Qed.

Lemma step_append bf s s' e : sim bf s -> storable e -> log_append e s = Some s' ->
  exists bf', bf_AppendEntry e bf = Some bf' /\ sim bf' s'.
Proof.
  intros (fs & Hrel & Hsim) He. pose proof (sm_last _ _ Hsim) as Hl. pose proof (sm_length _ _ Hsim) as Hn. unfold log_append.
  assert (u32 (lastLogIndex (header_ fs) + 1) = Z.of_nat (length (ls_log s)) + 1) as Hu by (rewrite Hl; apply u32_small; unfold is_u32; lia).
  destruct (Index e =? _) eqn:Ei; cbn [negb].
  - destruct (log_fits _) eqn:Hfit; [|done]. intros [= <-]. pose proof (sim_write fs s e Hsim He (proj1 (Z.eqb_eq _ _) Ei) Hfit) as Hw.
    destruct (fs_AppendEntry e fs) as [fs'|] eqn:Ha; [|by unfold fs_AppendEntry in Ha; rewrite Hu, Ei in Ha].
    destruct (related_Append e bf fs fs' Hrel Ha) as (bf' & Hbf & Hrel'). exists bf'. split; [done|]. exists fs'. split; [done|].
    unfold fs_AppendEntry in Ha. rewrite Hu, Ei in Ha. injection Ha as <-. destruct Hw. split; try done. cbn.
    rewrite fmap_insert. cbn. rewrite (sm_off _ _ Hsim). unfold write_record. destruct (_ <? Index e); cbn; by rewrite (sm_offsets _ _ Hsim).
  - intros [= <-]. unfold bf_AppendEntry. rewrite (rl_header _ _ Hrel), Hu, Ei. cbn. eexists. split; [done|]. by exists fs.
Qed.

Lemma step_delete bf s s' i : sim bf s -> log_delete i s = Some s' -> sim (bf_DeleteEntriesFrom i bf) s'.
Proof.
  intros (fs & Hrel & Hsim). pose proof Hsim as [Hr Hl Ho Hix Hx Hs Hh Hst Hn].
  assert (ext_offset <$> (extents_ fs !! i) = ls_offsets s !! i) as Hxi by (by rewrite <- lookup_fmap, Hx). unfold log_delete.
  destruct (_ <? i) eqn:E.
  { intros [= <-]. exists fs. split; [|done]. unfold bf_DeleteEntriesFrom. by rewrite (rl_header _ _ Hrel), Hl, E. }
  apply Z.ltb_ge in E. destruct (ls_offsets s !! i) as [off|].
  - destruct (_ && _) eqn:Eb; [|done]. intros [= <-]. apply andb_true_iff in Eb as [Hi%Z.leb_le Hoff%Z.eqb_eq].
    apply fmap_Some in Hxi as ([o sz] & Hext & ->). cbn in Hoff. subst o.
    destruct (fs_DeleteEntriesFrom i fs) as [fs'|] eqn:Hd.
    + exists fs'. split; [by apply (related_Delete _ _ fs)|]. revert Hd. unfold fs_DeleteEntriesFrom.
      rewrite Hl, (proj2 (Z.ltb_ge _ _)), Hext, Hr by done. cbn [ext_offset]. rewrite (truncate_at_take layout_abi) by lia. cbn. intros [= <-].
      pose proof (end_off_take (Z.to_nat (i - 1)) (ls_log s)). pose proof (end_off_pos (take (Z.to_nat (i - 1)) (ls_log s))).
      destruct Hh as [Ht Hv Hi' Hlt Hof].
      split; cbn -[end_off]; try done.
      * rewrite length_take, u32_small by (unfold is_u32; lia). lia.
      * intros j e He. apply lookup_take_full in He as [He _]. by apply Hix.
      * split; cbn -[end_off]; try done; [apply u32_range|]. rewrite Ho in Hof. lia.
      * by apply Forall_take.
      * rewrite length_take. lia.
    + exfalso. revert Hd. unfold fs_DeleteEntriesFrom. rewrite Hl, (proj2 (Z.ltb_ge _ _)), Hext, Hr by done. cbn [ext_offset].
      by rewrite (truncate_at_take layout_abi) by lia.
  - intros [= <-]. apply fmap_None in Hxi. exists fs. split; [|done]. unfold bf_DeleteEntriesFrom.
    by rewrite (rl_header _ _ Hrel), (rl_extents _ _ Hrel), Hl, (proj2 (Z.ltb_ge _ _)), Hxi by done.
Qed.

Lemma sim_persist batch : forall fs s s', sim_by fs s -> Forall storable batch -> log_persist batch s = Some s' ->
  exists lo' fs', foldl persist_one (Some (Z.of_nat (length (ls_log s)) + 1, fs)) batch = Some (lo', fs') /\ sim_by fs' s'.
Proof.
  induction batch as [|e batch IH]; intros fs s s' Hsim Hst; cbn [log_persist foldl]; [intros [= <-]; eauto|].
  apply Forall_cons in Hst as [He Hst]. rewrite length_app. cbn [length]. destruct (_ && _) eqn:Eb; [|done]. intros Hp.
  apply andb_true_iff in Eb as [Hi%Z.eqb_eq Hfit]. pose proof (sm_length _ _ Hsim).
  cbn [persist_one]. rewrite (proj2 (Z.eqb_eq _ _)), u32_small by (unfold is_u32; lia).
  pose proof (sim_write fs s e Hsim He ltac:(lia) Hfit) as Hw. destruct (IH _ _ _ Hw Hst Hp) as (lo' & fs' & Hf & Hs').
  exists lo', fs'. split; [|done]. rewrite <- Hf. cbn [ls_log]. rewrite length_app. cbn [length]. do 4 f_equal. lia.
Qed.

Lemma step_persist bf s s' lo hi batch : sim bf s -> Forall storable batch -> spec_op (OpPersist lo hi batch) s = Some s' ->
  exists bf', bf_PersistEntries lo hi batch bf = Some bf' /\ sim bf' s'.
Proof.
  intros (fs & Hrel & Hsim) Hst. cbn [spec_op]. destruct (hi <? lo) eqn:E.
  - intros [= <-]. unfold bf_PersistEntries. rewrite E. eexists. split; [done|]. by exists fs.
  - destruct (lo =? _) eqn:El; [|done]. apply Z.eqb_eq in El. subst lo. intros Hp.
    destruct (sim_persist batch fs s s' Hsim Hst Hp) as (lo' & fs1 & Hf & Hsim').
    destruct (related_PersistEntries (Z.of_nat (length (ls_log s)) + 1) hi batch bf fs (PersistHeader fs1) Hrel) as (bf' & Hb & Hrel').
    { unfold fs_PersistEntries. rewrite E, Hf. done. }
    exists bf'. split; [done|]. exists (PersistHeader fs1). split; [done|]. by apply sim_disk.
Qed.

Lemma all_offsets_extents l : Forall storable l -> ext_offset <$> ConstructExtents l = all_offsets l.
Proof.
  intros Hst. unfold ConstructExtents, all_offsets. change kHeaderSize with 32.
  assert (forall off (m : gmap Z EntryExtent), ext_offset <$> (foldl extent_step (off, m) l).2 =
    foldl (fun m p => <[p.1 := p.2]> m) (ext_offset <$> m) (zip (Index <$> l) (offsets off l))) as Hg; [|by rewrite Hg, fmap_empty].
  induction l as [|e l IH]; intros off m; [done|]. apply Forall_cons in Hst as [He Hst]. cbn.
  rewrite (IH Hst), fmap_insert. cbn. rewrite getSerializeSize_reload by apply He. done.
Qed.

(** A restart after a [Sync]; the file is then as [Storage] wants it. *)
Lemma step_restart bf fs s : related bf fs -> sim_by fs s ->
  if readable (ls_log s) then
    exists bf' fs', OpenFile (bf_file (bf_Sync bf)) = Some bf' /\ related bf' fs' /\ fs_wf fs' /\
      sim_by fs' (mkLogState (ls_log s) (ls_state s) (all_offsets (ls_log s)))
  else OpenFile (bf_file (bf_Sync bf)) = None.
Proof.
  intros Hrel [Hr Hl Ho Hix Hx Hs Hh Hst Hn].
  set (fs' := mkFileStorage (header_ fs) (header_ fs) (ls_log s) (ConstructExtents (ls_log s))).
  assert (Open (PersistHeader fs) = Some fs') as Hopen.
  { unfold Open. cbn. rewrite Ho, Hr. pose proof (truncate_at_take layout_abi (ls_log s) (length (ls_log s)) ltac:(lia)) as Ht.
    rewrite firstn_all in Ht. by rewrite Ht. }
  pose proof (related_Open _ _ fs' (related_PersistHeader _ _ Hrel) Hh) as Hre. cbn [records PersistHeader] in Hre.
  rewrite Hr in Hre. specialize (Hre Hst Hopen). cbn [records fs'] in Hre. destruct (readable _); [|done].
  assert (forall e, e ∈ ls_log s -> within_limits e) as Hw by (intros e He; rewrite Forall_forall in Hst; apply (Hst e He)).
  destruct Hre as (bf' & Hb & Hrel'). exists bf', fs'. split_and!; [done|done| |].
  - split; cbn; try done; [lia|]. rewrite Hl. by apply ConstructExtents_spec.
  - split; cbn; try done. by apply all_offsets_extents.
Qed.

Lemma step_op op bf s s' : sim bf s -> op_ok op -> spec_op op s = Some s' ->
  exists bf', run_op op bf = Some bf' /\ sim bf' s'.
Proof.
  intros Hsim Hop. destruct op as [e|lo hi batch|i|i e|t v| |]; cbn [run_op op_ok] in *.
  - by apply step_append.
  - by apply step_persist.
  - intros Hd. eexists. split; [done|]. by apply (step_delete _ s).
  - intros (s1 & Hd & Ha)%option.bind_Some. apply (step_append _ s1); [by apply (step_delete _ s)|done|done].
  - intros [= <-]. eexists. split; [done|]. destruct Hsim as (fs & Hrel & Hsim).
    set (h := mkHeader (mkPersistRaftState true t v) (lastLogIndex (header_ fs)) (lastLogTerm (header_ fs)) (last_off (header_ fs))).
    exists (PersistHeader (mkFileStorage h (disk_header fs) (records fs) (extents_ fs))). split.
    + unfold bf_PersistState. cbn [prs_valid]. rewrite (rl_header _ _ Hrel). by apply related_PersistHeader, related_header.
    + destruct Hsim as [? ? ? ? ? ? [] ? ?], Hop. by split; cbn; try done.
  - intros [= <-]. eexists. split; [done|]. destruct Hsim as (fs & Hrel & Hsim).
    exists (PersistHeader fs). split; [by apply related_PersistHeader|by apply sim_disk].
  - cbn [spec_op]. destruct Hsim as (fs & Hrel & Hsim). pose proof (step_restart _ _ _ Hrel Hsim) as Hre.
    destruct (readable _); [|done]. intros [= <-]. destruct Hre as (bf' & fs' & Ho & Hrel' & _ & Hsim').
    exists bf'. split; [done|]. by exists fs'.
Qed.

Lemma step_ops ops : forall bf s s', sim bf s -> Forall op_ok ops -> spec_ops ops s = Some s' ->
  exists bf', run_ops ops bf = Some bf' /\ sim bf' s'.
Proof.
  induction ops as [|op ops IH]; intros bf s s' Hsim Hops; cbn [spec_ops run_ops].
  - intros [= <-]. eauto.
  - apply Forall_cons in Hops as [Hop Hops]. intros (s1 & Hs1 & Hs')%option.bind_Some.
    destruct (step_op op bf s s1 Hsim Hop Hs1) as (bf1 & -> & Hsim1). cbn. by apply (IH bf1 s1).
Qed.

(** A new file is the empty log. *)
Definition empty_log : LogState := mkLogState [] (mkPersistRaftState false 0 0) ∅.

Lemma OpenFile_new : exists bf, OpenFile [] = Some bf /\ sim bf empty_log.
Proof.
  assert (related (bf_PersistHeader (mkByteFile (mkHeader (mkPersistRaftState false 0 0) 0 0 32) [] [] kInitBufSize ∅))
    FileStorage_create) as Hrel.
  { split; try done. exists (header_bytes (header_ FileStorage_create)), [], []. split_and!; [|apply length_header|done|constructor].
    unfold bf_PersistHeader. cbn [bf_file bf_header header_ FileStorage_create]. rewrite (write_at_app [] []) by done.
    unfold slice_size. rewrite length_header. change (Z.of_nat 32) with 32. rewrite (dk_header HD), firstn_all2 by (by rewrite length_header).
    by rewrite drop_nil, !app_nil_r. }
  unfold OpenFile, bf_ConstructExtents. cbn [slice_size length Z.of_nat Z.ltb Z.compare]. pose proof (scan_related _ _ Hrel ltac:(constructor)) as Hs.
  destruct (scan_file _) as [[l buf]|]; [|done]. injection Hs as ->. cbn. eexists. split; [done|].
  exists FileStorage_create. split; [by destruct Hrel|]. split; try done; by split.
Qed.

Lemma sim_log_manager {alloc : Allocator} bf fs s : (forall n, new_array_ok n = true) -> related bf fs -> fs_wf fs -> sim_by fs s ->
  readable (ls_log s) = true ->
  exists es lm, fst <$> bf_LogEntries bf = Some es /\ NewLogManager (Some (es, lastLogIndex (bf_header bf))) = Some lm /\
    wf lm /\ base_ lm = 1 /\ view lm = received <$> ls_log s.
Proof.
  intros Halloc Hrel Hwf [Hr Hl Ho Hix Hx Hs Hh Hst Hn] Hre. rewrite <- Hr in Hre.
  rewrite (LogEntries_related _ _ Hrel) by (by rewrite Hr). rewrite Hre, (LogEntries_wf _ Hwf), (rl_header _ _ Hrel), (fw_last _ Hwf).
  destruct (NewLogManager_recovers LogEntry_default (reload <$> records fs) Halloc) as (lm & Hlm & Hw & Hv & Hb).
  - intros i e. apply reload_indices, (fw_index _ Hwf).
  - rewrite length_fmap, Hr. done.
  - rewrite length_fmap in Hlm. exists (LogEntry_default :: (reload <$> records fs)), lm. split_and!; try done.
    rewrite Hv, Hr. apply list_fmap_ext. intros i e He. apply reload_received, so_limits. by apply (Forall_lookup_1 _ _ _ _ Hst He).
Qed.
End proofs.

(** [C25] The file is the log, in bytes, for entries within the limits of the format and
    with records of at most 16 MiB, the buffer a file is opened with ([storable]; a
    larger record is written and cannot be read back). After a sequence of appends,
    persisted batches that continue the log, deletions by an offset that is still
    right, overwrites, state changes, syncs and restarts on a new file ([spec_op] says
    which), closing the file and opening its bytes again gives the same term and vote,
    and the log manager rebuilt from them holds the same entries as the deserializer
    receives them, whatever pieces the [write]s took and whatever lay in the padding
    and the buffer. Of these logs one with an entry that carries buffers, on a machine
    where releasing the pointers in the entry's image is not harmless, cannot be opened
    again. *)
Theorem log_file_refines_list `{Disk} `{Image} {alloc : Allocator} (ops : list FileOp) (s : LogState)
    (HD : disk_ok) (HI : image_ok) (Halloc : forall n, new_array_ok n = true)
    (Hops : Forall op_ok ops) (Hspec : spec_ops ops empty_log = Some s) :
  exists bf0 bf, OpenFile [] = Some bf0 /\ run_ops ops bf0 = Some bf /\
    raft_state (bf_header bf) = ls_state s /\ lastLogIndex (bf_header bf) = Z.of_nat (length (ls_log s)) /\
    if readable (ls_log s) then
      exists bf' es lm, OpenFile (bf_file (bf_Sync bf)) = Some bf' /\ raft_state (bf_header bf') = ls_state s /\
        fst <$> bf_LogEntries bf' = Some es /\ NewLogManager (Some (es, lastLogIndex (bf_header bf'))) = Some lm /\
        wf lm /\ base_ lm = 1 /\ view lm = received <$> ls_log s
    else OpenFile (bf_file (bf_Sync bf)) = None.
Proof.
  destruct (OpenFile_new HD HI) as (bf0 & Ho & Hsim0).
  destruct (step_ops HD HI ops bf0 empty_log s Hsim0 Hops Hspec) as (bf & Hr & fs & Hrel & Hsim).
  exists bf0, bf. rewrite (rl_header _ _ Hrel), (sm_state _ _ Hsim), (sm_last _ _ Hsim).
  split_and!; [done..|]. pose proof (step_restart HD HI _ _ _ Hrel Hsim) as Hre. destruct (readable _) eqn:E; [|done].
  destruct Hre as (bf' & fs' & Ho' & Hrel' & Hwf' & Hsim').
  destruct (sim_log_manager HI bf' fs' _ Halloc Hrel' Hwf' Hsim' E) as (es & lm & Hes & Hlm).
  exists bf', es, lm. split_and!; [done| |done|apply Hlm..]. by rewrite (rl_header _ _ Hrel'), (sm_state _ _ Hsim').
Qed.

(** ** A crash after a deletion *)
Section crash.
Context `{Disk} `{Image} (HD : disk_ok) (HI : image_ok).

(** Beyond the end of the file [read] leaves the buffer as it is: the last record is
    found again and again. *)
Lemma scan_beyond e buf : holds e buf -> storable e -> readable [e] = true -> forall fuel buf_size last_off off file,
  slice_size file <= off -> last_off - off <= Z.of_nat fuel ->
  exists l, scan fuel buf_size last_off off file buf = Some (l, buf) /\ Forall (fun p => p.2 = received e) l.
Proof.
  intros Hh He Hre. induction fuel as [|fuel IH]; intros buf_size last_off off file Hoff Hf; cbn [scan].
  - assert ((last_off <? off + sizeof_entry) = true) as -> by (apply Z.ltb_lt; unfold sizeof_entry; lia). by exists [].
  - destruct (_ <? _); [by exists []|]. unfold read_record. pose proof (slice_size_nonneg file).
    rewrite drop_ge, take_nil by (unfold slice_size in *; lia). change (overlay [] buf) with buf.
    rewrite (deserialize_held HI e buf Hh He), Hre. cbn [mbind option_bind fst snd].
    pose proof (record_large HI e). unfold sizeof_entry in *. rewrite (getSerializeSize_received e) by apply He.
    destruct (IH buf_size last_off (off + getSerializeSize e) file) as (l & -> & Hl); [lia|lia|].
    cbn. eexists. split; [done|]. by constructor.
Qed.

Lemma scan_cut recs chunks : Forall2 is_record recs chunks -> Forall storable recs -> readable recs = true ->
  forall e0 buf fuel buf_size last_off pre, kInitBufSize <= buf_size ->
  (recs = [] -> holds e0 buf /\ storable e0 /\ readable [e0] = true) ->
  slice_size pre + slice_size (concat chunks) + sizeof_entry <= last_off -> last_off - slice_size pre <= Z.of_nat fuel ->
  exists l buf', scan fuel buf_size last_off (slice_size pre) (pre ++ concat chunks) buf =
      Some (zip (offsets (slice_size pre) recs) (received <$> recs) ++ l, buf') /\
    Forall (fun p => p.2 = received (default e0 (last recs))) l.
Proof.
  induction 1 as [|e c recs chunks Hr Hrs IH]; intros Hst Hre e0 buf fuel buf_size last_off pre Hb Hbuf Hoff Hf; cbn [concat] in *.
  - destruct (Hbuf eq_refl) as (Hh & He0 & Hr0). rewrite app_nil_r.
    destruct (scan_beyond e0 buf Hh He0 Hr0 fuel buf_size last_off (slice_size pre) pre) as (l & -> & Hl); [lia|lia|].
    by exists l, buf.
  - apply Forall_cons in Hst as [Hse Hst]. rewrite (readable_cons e recs) in Hre. apply andb_true_iff in Hre as [Hre1 Hre].
    rewrite slice_size_app in Hoff. pose proof (slice_size_nonneg (concat chunks)). pose proof (record_large HI e) as Hlarge.
    pose proof (proj1 Hr) as Hc. unfold sizeof_entry in *. destruct fuel as [|fuel]; [lia|]. cbn [scan].
    rewrite (proj2 (Z.ltb_ge _ _)) by (unfold sizeof_entry; lia).
    destruct (read_record_ok HI buf_size pre e c (concat chunks) buf Hr Hse Hb) as (buf' & Hh & ->). rewrite Hre1.
    cbn [mbind option_bind fst snd]. rewrite (getSerializeSize_received e), <- Hc, <- slice_size_app, app_assoc by apply Hse.
    destruct (IH Hst Hre e buf' fuel buf_size last_off (pre ++ c)) as (l & buf'' & -> & Hl); [done|done|rewrite slice_size_app; lia..|].
    exists l, buf''. cbn. rewrite slice_size_app, Hc. split; [done|]. destruct recs as [|e1 recs]; [done|].
    change (last (e :: e1 :: recs)) with (last (e1 :: recs)). destruct (last (e1 :: recs)) eqn:El; [done|].
    by apply last_None in El.
Qed.

(** A record that the reader cannot take ends the scan. *)
Lemma scan_unreadable recs chunks : Forall2 is_record recs chunks -> Forall storable recs -> readable recs = false ->
  forall buf fuel buf_size last_off pre, kInitBufSize <= buf_size ->
  slice_size pre + slice_size (concat chunks) + sizeof_entry <= last_off -> last_off - slice_size pre <= Z.of_nat fuel ->
  scan fuel buf_size last_off (slice_size pre) (pre ++ concat chunks) buf = None.
Proof.
  induction 1 as [|e c recs chunks Hr Hrs IH]; intros Hst Hre buf fuel buf_size last_off pre Hb Hoff Hf; cbn [concat] in *; [done|].
  apply Forall_cons in Hst as [Hse Hst]. rewrite (readable_cons e recs) in Hre. rewrite slice_size_app in Hoff.
  pose proof (slice_size_nonneg (concat chunks)). pose proof (record_large HI e). pose proof (proj1 Hr) as Hc.
  unfold sizeof_entry in *. destruct fuel as [|fuel]; [lia|]. cbn [scan].
  rewrite (proj2 (Z.ltb_ge _ _)) by (unfold sizeof_entry; lia).
  destruct (read_record_ok HI buf_size pre e c (concat chunks) buf Hr Hse Hb) as (buf' & _ & ->).
  destruct (readable [e]); [|done]. cbn [mbind option_bind fst snd].
  rewrite (getSerializeSize_received e), <- Hc, <- slice_size_app, app_assoc by apply Hse.
  by rewrite (IH Hst Hre) by (rewrite ?slice_size_app; lia).
Qed.

(** Nothing to read, and nothing in the buffer. *)
Lemma scan_nothing fuel buf_size last_off off file : slice_size file <= off -> 0 <= off ->
  off + sizeof_entry <= last_off -> last_off - off <= Z.of_nat fuel ->
  scan fuel buf_size last_off off file [] = None.
Proof.
  intros Hoff Hpos Hl Hf. unfold sizeof_entry in *. destruct fuel as [|fuel]; [lia|]. cbn [scan].
  rewrite (proj2 (Z.ltb_ge _ _)) by (unfold sizeof_entry; lia). unfold read_record.
  rewrite drop_ge, take_nil by (unfold slice_size in *; lia). reflexivity.
Qed.

(** The vector of [LogEntries] after the records, and after the last one again. *)
Lemma fill_records recs (N : nat) : (length recs <= N)%nat ->
  (forall i e, recs !! i = Some e -> Index e = Z.of_nat i + 1) ->
  foldl (fun v e => if Index e <=? Z.of_nat N then <[Z.to_nat (Index e) := e]> v else v)
    (replicate (S N) LogEntry_default) recs =
  LogEntry_default :: recs ++ replicate (N - length recs) LogEntry_default.
Proof.
  induction recs as [|e recs IH] using rev_ind; intros HN Hix; [by rewrite Nat.sub_0_r|].
  rewrite length_app in HN. cbn in HN. rewrite foldl_app, IH; [|lia|intros i x Hx; apply Hix; by apply lookup_app_l_Some].
  assert (Index e = Z.of_nat (length recs) + 1) as He by (apply Hix; by rewrite lookup_app_r, Nat.sub_diag by lia).
  cbn [foldl]. rewrite He, (proj2 (Z.leb_le _ _)) by lia.
  replace (Z.to_nat (Z.of_nat (length recs) + 1)) with (S (length recs)) by lia. rewrite insert_cons_S. f_equal.
  rewrite insert_app_r_alt, Nat.sub_diag, length_app by lia. cbn [length].
  replace (N - length recs)%nat with (S (N - (length recs + 1))) by lia. cbn. by rewrite <- app_assoc.
Qed.

Lemma fill_again (N : nat) e l (v : list LogEntry) : Forall (fun x => x = e) l -> v !! Z.to_nat (Index e) = Some e ->
  foldl (fun v e => if Index e <=? Z.of_nat N then <[Z.to_nat (Index e) := e]> v else v) v l = v.
Proof.
  intros Hl Hv. induction Hl as [|x l -> _ IH]; [done|]. cbn. rewrite list_insert_id by done. by destruct (_ <=? _).
Qed.

Lemma Index_received e : within_limits e -> Index (received e) = Index e.
Proof. intros He. by rewrite <- (reload_received e He), reload_Index. Qed.

(** The bytes after a deletion: the header still counts all entries. *)
Lemma deleted_bytes bf s i : sim bf s -> 1 <= i <= Z.of_nat (length (ls_log s)) ->
  ls_offsets s !! i = Some (end_off (take (Z.to_nat (i - 1)) (ls_log s))) ->
  exists old chunks h, bf_file (bf_DeleteEntriesFrom i (bf_Sync bf)) = old ++ concat chunks /\ slice_size old = 32 /\
    get_header (old ++ concat chunks) = Ok (h, concat chunks) /\ lastLogIndex h = Z.of_nat (length (ls_log s)) /\
    Forall2 is_record (take (Z.to_nat (i - 1)) (ls_log s)) chunks /\
    slice_size old + slice_size (concat chunks) + sizeof_entry <= last_off h.
Proof.
  intros (fs & Hrel & [Hr Hl Ho Hix Hx Hs Hh Hst Hn]) Hi Hoff.
  pose proof (related_PersistHeader HD _ _ Hrel) as [Hh' Hx' Hb _ (old & chunks & tail & Hf & Hlen & Hold & Hrs)].
  cbn [records header_ disk_header extents_ PersistHeader] in *. rewrite Hr in Hrs. set (n := Z.to_nat (i - 1)) in *.
  rewrite <- Hx, lookup_fmap in Hoff. apply fmap_Some in Hoff as ([o sz] & Hext & Heq). cbn [ext_offset] in Heq. subst o.
  assert (Forall2 is_record (take n (ls_log s)) (take n chunks)) as Hrs' by (by apply Forall2_take).
  assert (slice_size (old ++ concat (take n chunks)) = end_off (take n (ls_log s))) as Hcut.
  { rewrite (records_end _ _ Hrs'), slice_size_app. unfold slice_size at 1. by rewrite Hlen. }
  exists old, (take n chunks), (header_ fs). split_and!; [|unfold slice_size; by rewrite Hlen| |done|done|].
  - unfold bf_DeleteEntriesFrom. change (bf_Sync bf) with (bf_PersistHeader bf).
    rewrite Hh', Hx', Hext, Hl, (proj2 (Z.ltb_ge _ _)) by lia. cbn [bf_file ext_offset].
    by rewrite Hf, <- Hcut, <- (take_drop n chunks), concat_app, take_drop, <- app_assoc, app_assoc, ftruncate_app.
  - rewrite Hold. apply (reads_file_header HD _ Hh).
  - rewrite <- slice_size_app, Hcut, Ho. destruct (lookup_lt_is_Some_2 (ls_log s) n) as [e He]; [lia|].
    pose proof (record_large HI e). pose proof (end_off_snoc (take n (ls_log s)) e) as Hsn.
    rewrite <- (take_S_r _ _ _ He) in Hsn. pose proof (end_off_take (S n) (ls_log s)). lia.
Qed.

(** The vector of [LogEntries] when the last record is found again. *)
Lemma phantom_vector recs (N : nat) (l : list (Z * LogEntry)) off : (length recs <= N)%nat -> recs <> [] -> Forall storable recs ->
  (forall i e, recs !! i = Some e -> Index e = Z.of_nat i + 1) ->
  Forall (fun p => p.2 = received (default LogEntry_default (last recs))) l ->
  foldl (fun v e => if Index e <=? Z.of_nat N then <[Z.to_nat (Index e) := e]> v else v)
    (replicate (S N) LogEntry_default) (zip (offsets off recs) (received <$> recs) ++ l).*2 =
  LogEntry_default :: (received <$> recs) ++ replicate (N - length recs) LogEntry_default.
Proof.
  intros HN Hne Hst Hix Hl.
  assert (forall j e, (received <$> recs) !! j = Some e -> Index e = Z.of_nat j + 1) as Hies.
  { intros j e (x & -> & Hj)%list_lookup_fmap_Some.
    rewrite Index_received by (apply so_limits; by apply (Forall_lookup_1 _ _ _ _ Hst Hj)). by apply Hix. }
  assert (forall off, (zip (offsets off recs) (received <$> recs)).*2 = received <$> recs) as Hzip.
  { clear. induction recs as [|e recs IH]; intros off; [done|]. cbn. by rewrite IH. }
  rewrite fmap_app, foldl_app, Hzip, fill_records, length_fmap by (rewrite ?length_fmap; done).
  destruct (last recs) as [e|] eqn:El; [|by apply last_None in El].
  apply (fill_again N (received e)); [by apply Forall_fmap|]. rewrite last_lookup in El.
  assert ((received <$> recs) !! Nat.pred (length recs) = Some (received e)) as He by (by rewrite list_lookup_fmap, El).
  rewrite (Hies _ _ He). replace (Z.to_nat (Z.of_nat (Nat.pred (length recs)) + 1)) with (S (Nat.pred (length recs))) by lia.
  cbn. by apply lookup_app_l_Some.
Qed.

(** [C26] [DeleteEntriesFrom] shortens the file but leaves the header on disk, which counts
    the deleted records. After a deletion from entry [i] on, behind a [Sync] and by an
    offset that is still right, and a crash before the next [Sync], the file opens with
    the old last index, and the deleted entries come back as default entries, of term 0
    and without a command, behind those before [i]. It does not open at all, that is
    the scan has no defined result, if there is no entry before [i], when the reader
    parses a buffer into which nothing was ever read, or if one of them cannot be
    read back, as in [log_file_refines_list]. *)
Theorem unsynced_delete_leaves_phantoms (bf : ByteFile) (s : LogState) (i : Z)
    (Hsim : sim bf s) (Hi : 1 <= i <= Z.of_nat (length (ls_log s)))
    (Hoff : ls_offsets s !! i = Some (end_off (take (Z.to_nat (i - 1)) (ls_log s)))) :
  let kept := take (Z.to_nat (i - 1)) (ls_log s) in
  if (2 <=? i) && readable kept then
    exists bf', OpenFile (bf_file (bf_DeleteEntriesFrom i (bf_Sync bf))) = Some bf' /\
      lastLogIndex (bf_header bf') = Z.of_nat (length (ls_log s)) /\
      fst <$> bf_LogEntries bf' = Some (LogEntry_default :: (received <$> kept) ++
        replicate (length (ls_log s) - Z.to_nat (i - 1)) LogEntry_default)
  else OpenFile (bf_file (bf_DeleteEntriesFrom i (bf_Sync bf))) = None.
Proof.
  destruct (deleted_bytes bf s i Hsim) as (old & chunks & h & -> & H32 & Hget & Hl & Hrs & Hend); [lia|done|].
  destruct Hsim as (fs & _ & [_ _ _ Hix _ _ _ Hst _]). cbv zeta. set (recs := take (Z.to_nat (i - 1)) (ls_log s)) in *.
  assert (Forall storable recs) as Hst' by (by apply Forall_take).
  assert (length recs = Z.to_nat (i - 1)) as Hlen by (unfold recs; rewrite length_take; lia).
  pose proof (slice_size_nonneg (concat chunks)) as Hnn.
  destruct ((2 <=? i) && readable recs) eqn:Ec.
  2:{ unfold OpenFile. rewrite slice_size_app, (proj2 (Z.ltb_ge _ _)), Hget by lia.
    unfold bf_ConstructExtents, scan_file. cbn [bf_header bf_file bf_buf_size bf_buf]. destruct (readable recs) eqn:Hre.
    - rewrite andb_true_r in Ec. apply Z.leb_gt in Ec. assert (recs = []) as Hnil by (apply length_zero_iff_nil; lia).
      rewrite Hnil in Hrs. apply Forall2_nil_inv_l in Hrs. subst chunks. rewrite app_nil_r.
      by rewrite scan_nothing by (unfold slice_size in *; cbn [concat length] in *; lia).
    - rewrite <- H32. by rewrite (scan_unreadable _ _ Hrs Hst' Hre) by (done || lia). }
  apply andb_true_iff in Ec as [Hi2%Z.leb_le Hre].
  assert (recs <> []) as Hne by (intros E; rewrite E in Hlen; cbn in Hlen; lia).
  assert (forall buf, exists l buf', scan (Z.to_nat (last_off h)) kInitBufSize (last_off h) 32 (old ++ concat chunks) buf =
      Some (zip (offsets 32 recs) (received <$> recs) ++ l, buf') /\
    Forall (fun p => p.2 = received (default LogEntry_default (last recs))) l) as Hscan.
  { intros buf. rewrite <- H32. by apply (scan_cut _ _ Hrs Hst' Hre); [| |lia|lia]. }
  unfold OpenFile. rewrite slice_size_app, (proj2 (Z.ltb_ge _ _)), Hget by lia.
  unfold bf_ConstructExtents, scan_file. cbn [bf_header bf_file bf_buf_size bf_buf].
  destruct (Hscan []) as (l & buf & -> & _). cbn [mbind option_bind fst snd]. eexists. split; [done|]. cbn [bf_header]. split; [done|].
  unfold bf_LogEntries, scan_file. cbn [bf_header bf_file bf_buf_size bf_buf]. destruct (Hscan buf) as (l' & buf' & -> & Hl').
  cbn [mbind option_bind fst snd fmap option_fmap option_map]. f_equal. rewrite Hl, <- Hlen.
  replace (Z.to_nat (Z.of_nat (length (ls_log s)) + 1)) with (S (length (ls_log s))) by lia.
  apply phantom_vector; try done; [lia|]. intros j e [Hj _]%lookup_take_full. by apply Hix.
Qed.
End crash.

(** A disk whose writes take at most three bytes of an entry at a time; two entries
    without buffers, the second replaced. *)
Section witness.
#[local] Instance demo_disk : Disk :=
  {| write_takes off n := if off =? 0 then n else Z.min n 3;
     header_padding i := match i with O => [1; 2; 3] | _ => [4; 5; 6; 7] end;
     stale_bytes _ n := replicate n 9 |}.
#[local] Instance demo_file_image : Image := demo_image.
#[local] Instance demo_file_alloc : Allocator := fun _ => true.
Definition demo_first : LogEntry := SetIndex 1 (SetTerm 1 LogEntry_default).
Definition demo_second : LogEntry := SetIndex 2 (SetTerm 1 LogEntry_default).
Definition demo_ops : list FileOp :=
  [OpState 1 0; OpAppend demo_first; OpPersist 2 2 [demo_second]; OpRestart; OpOverwrite 2 (SetTerm 2 demo_second); OpDelete 5].
Definition demo_log : LogState :=
  mkLogState [demo_first; SetTerm 2 demo_second] (mkPersistRaftState true 1 0) (<[2 := 248]> (<[1 := 32]> ∅)).

Lemma demo_disk_ok : disk_ok.
Proof.
  split; [|done|done|intros; apply length_replicate]. intros off n Hn. cbn. destruct (off =? 0); lia.
Qed.

Lemma demo_storable i t : 1 <= i <= 2 -> 1 <= t <= 2 -> storable (SetIndex i (SetTerm t LogEntry_default)).
Proof.
  intros Hi Ht. split; [|split; cbn; [lia|constructor|lia]|done].
  split; cbn; unfold is_u32, is_int, fits, slice_size; cbn; try lia; try constructor; cbn; unfold is_u32, is_int; cbn; lia.
Qed.

Lemma demo_ops_ok : Forall op_ok demo_ops.
Proof.
  unfold demo_ops. repeat apply Forall_cons_2; try exact I; try apply Forall_nil_2.
  - by split.
  - by apply demo_storable.
  - by apply demo_storable.
  - by apply (demo_storable 2 2).
Qed.

Lemma log_file_refines_list_witness :
  exists bf0 bf, OpenFile [] = Some bf0 /\ run_ops demo_ops bf0 = Some bf /\
    raft_state (bf_header bf) = ls_state demo_log /\ lastLogIndex (bf_header bf) = 2 /\
    exists bf' es lm, OpenFile (bf_file (bf_Sync bf)) = Some bf' /\ raft_state (bf_header bf') = ls_state demo_log /\
      fst <$> bf_LogEntries bf' = Some es /\ NewLogManager (Some (es, lastLogIndex (bf_header bf'))) = Some lm /\
      wf lm /\ base_ lm = 1 /\ view lm = received <$> ls_log demo_log.
Proof.
  apply (log_file_refines_list demo_ops demo_log demo_disk_ok demo_image_ok); [done|apply demo_ops_ok|vm_compute; reflexivity].
Defined.

Lemma unsynced_delete_leaves_phantoms_witness :
  exists bf0 bf bf', OpenFile [] = Some bf0 /\ run_ops demo_ops bf0 = Some bf /\
    OpenFile (bf_file (bf_DeleteEntriesFrom 2 (bf_Sync bf))) = Some bf' /\ lastLogIndex (bf_header bf') = 2 /\
    fst <$> bf_LogEntries bf' = Some [LogEntry_default; received demo_first; LogEntry_default] /\
    OpenFile (bf_file (bf_DeleteEntriesFrom 1 (bf_Sync bf))) = None.
Proof.
  destruct (OpenFile_new demo_disk_ok demo_image_ok) as (bf0 & Ho & Hsim0).
  destruct (step_ops demo_disk_ok demo_image_ok demo_ops bf0 empty_log demo_log Hsim0 demo_ops_ok) as (bf & Hr & Hsim);
    [vm_compute; reflexivity|].
  destruct (unsynced_delete_leaves_phantoms demo_disk_ok demo_image_ok bf demo_log 2 Hsim) as (bf' & Hb & Hl & He).
  - split; vm_compute; discriminate.
  - vm_compute. reflexivity.
  - exists bf0, bf, bf'. split_and!; [exact Ho|exact Hr|exact Hb|exact Hl|exact He|].
    apply (unsynced_delete_leaves_phantoms demo_disk_ok demo_image_ok bf demo_log 1 Hsim).
    + split; vm_compute; discriminate.
    + vm_compute. reflexivity.
Defined.
End witness.
