(* ===== verification/StripeApply.v ===== *)
(** From a committed log entry to the key-value store of a node: the batch-system
    bridge (src/raft/batch_system_bridge.cc), [SerializeForApply] (src/raft/serializer.cc),
    the mailbox (src/multi-raft/mailbox.h), [ApplyFsm] (src/multi-raft/raft_store.h),
    and the older payloads it still accepts (stripe_apply.cc, stripe_encode.cc).

    The payload of an applied LRC entry is [APLY], a version, a kind, the user key,
    the chunk info, the placement, the fragments of the entry with their ids and
    the size of the value. [ApplyFsm] writes the metadata of the stripe and those
    fragments the placement assigns to its own node, in one batch.

    [None] is undefined behaviour or an uncaught exception. The result of a write
    to the store is ignored by [ApplyFsm], as in the code; logging and the callback
    [on_applied], which the bridge never sets, are left out. *)

From S2P Require Import Prelude Types Bytes StripeFormat Engine Encoder Lrc Serializer.

(** ** Extracting the key (batch_system_bridge.cc) *)
Definition starts_with (magic data : Slice) : bool := bool_decide (take 4 data = magic).

(** The third branch reads the command with four-byte lengths. *)
Definition ExtractApplyMeta (entry : LogEntry) : option (Slice * Z) :=
  match Type_ entry with
  | kFragments =>
      let fs := FragmentSlice entry in
      if (12 <=? slice_size fs) && starts_with kPackedFragMagic fs then
        key_len ← DecodeFixed32 (drop 8 fs);
        if (key_len <=? 1024) && (12 + key_len <=? slice_size fs)
        then Some (sub_slice fs 12 key_len, slice_size (NotEncodedSlice entry)) else None
      else None
  | _ =>
      let cmd := CommandData entry in
      if IsLrcEncoded entry then
        let key_size := GetKeySize (GetChunkInfo entry) in
        if negb (valid cmd) || (key_size =? 0) then None else
        let header_skip := if (21 <=? slice_size cmd) && starts_with kStripeMagic cmd then 21 else 0 in
        if header_skip + key_size <=? slice_size cmd
        then Some (sub_slice cmd header_skip key_size, GetTotalSize (GetChunkInfo entry)) else None
      else
        if (13 <=? slice_size cmd) && starts_with kStripeMagic cmd then
          key_len ← DecodeFixed32 (drop 9 cmd);
          if (key_len <=? 1024) && (13 + key_len + 4 <=? slice_size cmd)
          then size ← DecodeFixed32 (drop (Z.to_nat (13 + key_len)) cmd);
               Some (sub_slice cmd 13 key_len, size)
          else None
        else None
  end.

(** ** The apply payload (serializer.cc) *)
Definition kApplyMagic : Slice := str "APLY".

(** The key when the caller passed none. *)
Definition fallback_key (entry : LogEntry) : Slice :=
  let key_size := GetKeySize (GetChunkInfo entry) in
  let cmd := CommandData entry in
  if valid cmd && (0 <? key_size) then
    let header_skip := if (21 <=? slice_size cmd) && starts_with kStripeMagic cmd then 21 else 0 in
    if header_skip + key_size <=? slice_size cmd then sub_slice cmd header_skip key_size
    else take (Z.to_nat (Z.min key_size (u32 (slice_size cmd)))) cmd
  else [].

Definition apply_chunk_bytes (ci : ChunkInfo) : Slice :=
  EncodeFixed32 (GetK ci) ++ EncodeFixed32 (GetRaftIndex ci) ++ EncodeFixed32 (GetL ci) ++
  EncodeFixed32 (GetR ci) ++ EncodeFixed32 (GetLrcGroupId ci) ++ EncodeFixed32 (GetKeySize ci) ++
  EncodeFixed32 (GetTotalSize ci).

Definition apply_placement_bytes (fp : FragmentPlacement) : Slice :=
  EncodeFixed32 (node_id fp) ++ EncodeFixed32 (frag_id fp) ++ EncodeFixed32 (local_group fp) ++
  EncodeFixed32 (kind_to_Z (kind fp)).

Definition apply_frag_bytes (id : Z) (frag : Slice) : Slice :=
  EncodeFixed32 id ++ EncodeFixed32 (slice_size frag) ++ take (Z.to_nat (u32 (slice_size frag))) frag.

Definition lrc_payload (entry : LogEntry) (user_key : Slice) (original_size : Z) : Slice :=
  EncodeFixed32 (slice_size user_key) ++ user_key ++
  apply_chunk_bytes (GetChunkInfo entry) ++
  EncodeFixed32 (Z.of_nat (length (Placement entry))) ++ concat (apply_placement_bytes <$> Placement entry) ++
  EncodeFixed32 (Z.of_nat (length (Fragments entry))) ++
  concat (imap (fun i frag => apply_frag_bytes (default (Z.of_nat i) (FragIds entry !! i)) frag) (Fragments entry)) ++
  EncodeFixed64 original_size.

Definition SerializeForApply (entry : LogEntry) (user_key : Slice) (original_size : Z) : Slice :=
  kApplyMagic ++ EncodeFixed32 1 ++
  (if IsLrcEncoded entry
   then [3] ++ lrc_payload entry (match user_key with [] => fallback_key entry | _ => user_key end) original_size
   else let cmd := CommandData entry in
        let cmd_len := u32 (slice_size cmd) in
        [0] ++ EncodeFixed32 cmd_len ++ take (Z.to_nat cmd_len) cmd).

(** ** Mailboxes *)
Record MsgApplyCommitted := mkMsgApplyCommitted {
  mac_entry_id : Z; mac_stripe_id : Z; mac_group_id : Z; mac_data : Slice
}.

(** [0] is no capacity. *)
Record Mailbox (A : Type) := mkMailbox { max_capacity_ : Z; q_ : list A }.
Arguments mkMailbox {A}.
Arguments max_capacity_ {A}.
Arguments q_ {A}.

(** [None]: the producer waits until the queue has room. *)
Definition push {A} (m : A) (mb : Mailbox A) : option (Mailbox A) :=
  if (0 <? max_capacity_ mb) && (max_capacity_ mb <=? Z.of_nat (length (q_ mb))) then None
  else Some (mkMailbox (max_capacity_ mb) (q_ mb ++ [m])).

Definition drain {A} (max_batch : nat) (mb : Mailbox A) : list A * Mailbox A :=
  (take max_batch (q_ mb), mkMailbox (max_capacity_ mb) (drop max_batch (q_ mb))).

(** Three quarters full; [max_capacity_ * 3 / 4] in unsigned 64 bits. *)
Definition nearly_full {A} (mb : Mailbox A) : bool :=
  if max_capacity_ mb =? 0 then false else u64 (max_capacity_ mb * 3) / 4 <=? Z.of_nat (length (q_ mb)).

(** ** The bridge: a registry of mailboxes, by group and node *)
Record Bridge := mkBridge {
  entry_map : gmap Z (option Z);
  mailboxes : gmap Z (Mailbox MsgApplyCommitted)
}.

Definition MakeKeyInternal (group_id node_id : Z) : Z := Z.lor (Z.shiftl group_id 32) node_id.

Definition RegisterMailbox (group_id node_id ptr : Z) (b : Bridge) : Bridge :=
  mkBridge (<[MakeKeyInternal group_id node_id := Some ptr]> (entry_map b)) (mailboxes b).
Definition UnregisterMailbox (group_id node_id : Z) (b : Bridge) : Bridge :=
  mkBridge (<[MakeKeyInternal group_id node_id := None]> (entry_map b)) (mailboxes b).
Definition HasMailbox (group_id node_id : Z) (b : Bridge) : bool :=
  match entry_map b !! MakeKeyInternal group_id node_id with Some (Some _) => true | _ => false end.

(** The message for an entry; [None] when its key cannot be extracted. *)
Definition apply_message (group_id : Z) (entry : LogEntry) : option MsgApplyCommitted :=
  meta ← ExtractApplyMeta entry;
  Some (mkMsgApplyCommitted (Index entry) (Index entry) group_id (SerializeForApply entry meta.1 meta.2)).

(** [None]: the mailbox is gone, or the call waits for room in it. *)
Definition ApplyEntry (group_id node_id : Z) (entry : LogEntry) (b : Bridge) : option Bridge :=
  match entry_map b !! MakeKeyInternal group_id node_id with
  | Some (Some ptr) =>
      mb ← mailboxes b !! ptr;
      match apply_message group_id entry with
      | None => Some b
      | Some msg => mb ← push msg mb; Some (mkBridge (entry_map b) (<[ptr := mb]> (mailboxes b)))
      end
  | _ => Some b
  end.

(** ** EncodeStripePayload (stripe_encode.cc) *)
Record StripeEncodeResult := mkStripeEncodeResult { ser_meta : StripeLogMeta; ser_all_fragments : list Slice }.

Section stripe_encode.
Context {isal : IsaL} {sh : Shuffle}.

Definition encode_meta (mode : EncodingMode) (group_id eid size k l r m : Z) (pl : list FragmentPlacement) : StripeLogMeta :=
  mkStripeLogMeta [] eid eid group_id size mode k l r m pl.

Definition rs_kind (k_param frag : Z) : PlacementKind := if frag <? k_param then kData else kGlobalParity.

Definition encode_rs_f (N group_id eid : Z) (data : Slice) : option (option StripeEncodeResult) :=
  let F := cdiv N 2 in
  let k_param := F + 1 in
  res ← EncodeSlice data k_param F ∅;
  if negb (res.1 : bool) then Some None else
  match mapM (fun i => (res.2 : EncodingResults) !! i) (seqZ 0 N) with
  | None => Some None
  | Some frags =>
      let pl := (fun i => mkFragmentPlacement i 0 i (rs_kind k_param i)) <$> seqZ 0 N in
      Some (Some (mkStripeEncodeResult (encode_meta kRsF group_id eid (slice_size data) k_param 0 0 F pl) frags))
  end.

(** The placement throws when the cluster size is even. *)
Definition encode_rs_3f (N group_id eid : Z) (data : Slice) : option (option StripeEncodeResult) :=
  if N <? 5 then Some None else
  let F := cdiv N 2 in
  let k_param := F + 1 in
  let m_param := 3 * F + 1 in
  let total := k_param + m_param in
  res ← EncodeSlice data k_param m_param ∅;
  if negb (res.1 : bool) || negb (Z.of_nat (size (res.2 : EncodingResults)) =? total) then Some None else
  plan ← BuildRsRandomPlacement N total (group_id + 1);
  frags ← mapM (fun i => (res.2 : EncodingResults) !! i) (seqZ 0 total);
  let pl := (fun rp => mkFragmentPlacement (rs_frag_id rp) 0 (rs_node_id rp) (rs_kind k_param (rs_frag_id rp))) <$> plan in
  Some (Some (mkStripeEncodeResult (encode_meta kRs3F group_id eid (slice_size data) k_param 0 0 m_param pl) frags)).

(** The exceptions of the parameters and the placement are caught. *)
Definition encode_lrc (N group_id eid : Z) (data : Slice) : option (option StripeEncodeResult) :=
  if N <? 5 then Some None else
  match FromCapacity N 2 with
  | None => Some None
  | Some lp =>
      res ← EncodeStripe lp data;
      if negb (res.1 : bool) then Some None else
      match BuildTwoComplementaryPartitions N (group_id + 1) ≫= Place2N lp with
      | None => Some None
      | Some placement =>
          Some (Some (mkStripeEncodeResult
            (encode_meta kLrc group_id eid (slice_size data) (lrc_k lp) (lrc_l lp) (lrc_r lp) 0 placement)
            (take (Z.to_nat (lrc_k lp)) (data_shards res.2) ++ take (Z.to_nat (lrc_l lp)) (local_parities res.2) ++
             take (Z.to_nat (lrc_r lp)) (global_parities res.2))))
      end
  end.

Definition EncodeStripePayload (mode : EncodingMode) (N group_id eid : Z) (data : Slice)
    : option (option StripeEncodeResult) :=
  if N <? 3 then Some None else
  match mode with
  | kRsF => encode_rs_f N group_id eid data
  | kRs3F => encode_rs_3f N group_id eid data
  | kLrc => encode_lrc N group_id eid data
  | kUnnamedMode _ => Some None
  end.
End stripe_encode.

(** ** Applying to the store *)
Section apply.
Context {isal : IsaL} {sh : Shuffle} {DB : Type} `{StorageEngine DB}.

(** The service node of a group: its store and the index applied last. *)
Record KvNode := mkKvNode { kv_db : DB; applied_index_ : Z }.

Definition UpdateAppliedIndex (idx : Z) (kv : KvNode) : KvNode :=
  if applied_index_ kv <? idx then mkKvNode (kv_db kv) idx else kv.

Definition DB_Write (batch : list (Slice * Slice)) (kv : KvNode) : KvNode :=
  mkKvNode (fst (db_write (kv_db kv) batch)) (applied_index_ kv).
Definition DB_Put (key value : Slice) (kv : KvNode) : KvNode :=
  mkKvNode (fst (db_put (kv_db kv) key value)) (applied_index_ kv).

(** The batch of the two stripe_apply.cc functions: the merged record, the index
    of its fragments, and the older keys. *)
Definition stripe_batch (meta : StripeLogMeta) (frags : list PackedNodeFragment) (gid stripe_id : Z) : list (Slice * Slice) :=
  let primary_key := MakeStripePrimaryKey gid (slm_user_key meta) in
  (primary_key, SerializeMergedFragStore meta frags) ::
  ((fun f => (MakeFragIndexKey gid (pnf_frag_id f), primary_key)) <$> frags) ++
  (StripeMetaDbKey gid (slm_user_key meta), StripeLogMeta_Serialize meta) ::
  ((fun f => (FragDbKey gid stripe_id (pnf_frag_id f), pnf_bytes f)) <$> frags).

Definition ApplyStripePacked (gid : Z) (payload : Slice) (kv : KvNode) : option KvNode :=
  match UnpackNodeFragments payload with
  | Undef => None
  | Reject => Some kv
  | Ok ((meta, frags), _) =>
      let meta := set_slm_group_id gid meta in
      Some (DB_Write (stripe_batch meta frags gid (slm_stripe_id meta)) kv)
  end.

(** Every fragment is stored on the node that applies the command. *)
Definition ApplyStripeCommand (gid : Z) (mode : EncodingMode) (cluster_n entry_id : Z) (cmd_bytes : Slice) (kv : KvNode)
    : option KvNode :=
  match StripeWriteCommand_Deserialize cmd_bytes with
  | Undef => None
  | Reject => Some kv
  | Ok (cmd, _) =>
      enc ← EncodeStripePayload mode cluster_n gid entry_id (swc_user_value cmd);
      match enc with
      | None => Some kv
      | Some enc =>
          let m := ser_meta enc in
          let meta := mkStripeLogMeta (swc_user_key cmd) entry_id entry_id gid (slice_size (swc_user_value cmd))
                        (slm_encoding_mode m) (slm_k m) (slm_l m) (slm_r m) (slm_m m) (slm_placement m) in
          let frags := omap (fun fp => bs ← arr_get (ser_all_fragments enc) (frag_id fp);
                                       Some (mkPackedNodeFragment (frag_id fp) bs)) (slm_placement m) in
          Some (DB_Write (stripe_batch meta frags gid entry_id) kv)
      end
  end.

(** *** ApplyFsm *)
Record ApplyFsm := mkApplyFsm { af_group_id : Z; af_node_id : Z; af_enc_mode : EncodingMode; af_cluster_n : Z }.

Definition take32 : Reader Z := read_le Reject 4.
Definition take32i : Reader Z := let? z := take32 in rret (i32 z).

Definition read_apply_chunk : Reader ChunkInfo :=
  let? _ := need 28 in
  let? k := take32 in let? i := take32 in let? l := take32 in let? r := take32 in
  let? g := take32i in let? ks := take32 in let? ts := take32 in rret (mkChunkInfo k i l r g ks ts).

Definition read_apply_placement : Reader FragmentPlacement :=
  let? n := take32i in let? f := take32i in let? g := take32i in
  let? kz := take32 in let? kd := kind_of_Z kz in rret (mkFragmentPlacement f g n kd).

Definition read_apply_head : Reader (Slice * ChunkInfo * list FragmentPlacement * Z) :=
  let? user_key_len := take32 in
  let? user_key := read_bytes Reject user_key_len in
  let? chunk := read_apply_chunk in
  let? placement_count := take32 in
  let? _ := need (placement_count * 16) in
  let? placements := read_list (Z.to_nat placement_count) read_apply_placement in
  let? frag_count := take32 in
  rret (user_key, chunk, placements, frag_count).

(** The fragment loop leaves at the first fragment that is not complete. It keeps
    the position and the number of bytes left apart: after a fragment whose data
    is missing they no longer agree. *)
Fixpoint read_frag_map (n : nat) (p : Slice) (remaining : Z) (frag_map : gmap Z Slice) : gmap Z Slice * Slice * Z :=
  match n with
  | O => (frag_map, p, remaining)
  | S n =>
      if remaining <? 4 then (frag_map, p, remaining) else
      let frag_id := unle (take 4 p) in
      let p := drop 4 p in
      let remaining := remaining - 4 in
      if remaining <? 4 then (frag_map, p, remaining) else
      let frag_size := unle (take 4 p) in
      let frag_bytes := drop 4 p in
      let remaining := remaining - 4 in
      if remaining <? frag_size then (frag_map, p, remaining) else
      read_frag_map n (drop (Z.to_nat frag_size) frag_bytes) (remaining - frag_size)
        (<[frag_id := take (Z.to_nat frag_size) frag_bytes]> frag_map)
  end.

(** The metadata and the fragments placed on this node. *)
Definition lrc_batch (f : ApplyFsm) (m : MsgApplyCommitted) (user_key : Slice) (chunk : ChunkInfo)
    (placements : list FragmentPlacement) (frag_map : gmap Z Slice) (original_size : Z) : list (Slice * Slice) :=
  let meta := mkStripeLogMeta user_key (mac_stripe_id m) (mac_entry_id m) (af_group_id f) original_size
                (af_enc_mode f) (i32 (GetK chunk)) (i32 (GetL chunk)) (i32 (GetR chunk)) 0 placements in
  (StripeMetaDbKey (af_group_id f) user_key, StripeLogMeta_Serialize meta) ::
  omap (fun fp => if u32 (node_id fp) =? af_node_id f
                  then frag ← frag_map !! u32 (frag_id fp);
                       Some (FragDbKey (af_group_id f) (mac_stripe_id m) (frag_id fp), frag)
                  else None) placements.

Definition apply_lrc (f : ApplyFsm) (m : MsgApplyCommitted) (payload : Slice) (kv : KvNode) : option KvNode :=
  match read_apply_head payload with
  | Undef => None
  | Reject => Some kv
  | Ok ((user_key, chunk, placements, frag_count), p) =>
      let '(frag_map, p, remaining) := read_frag_map (Z.to_nat frag_count) p (slice_size p) ∅ in
      let original_size := if 8 <=? remaining then unle (take 8 p) else 0 in
      Some (DB_Write (lrc_batch f m user_key chunk placements frag_map original_size) kv)
  end.

Definition legacy_key (m : MsgApplyCommitted) : Slice :=
  str "__lrc__:" ++ to_string (mac_entry_id m) ++ str ":" ++ to_string (mac_stripe_id m) ++ str ":" ++
  to_string (mac_group_id m).

(** A string of [len] bytes after a four-byte length. The bound [4 + len] is
    computed in 32 bits. *)
Definition sized_payload : Reader Slice := fun p =>
  if slice_size p <? 4 then Reject else
  let len := unle (take 4 p) in
  if slice_size p <? u32 (4 + len) then Reject else read_bytes Undef len (drop 4 p).

(** Runs [f] on the string, if there is one. *)
Definition with_payload (p : Slice) (f : Slice -> option KvNode) (kv : KvNode) : option KvNode :=
  match sized_payload p with Ok (s, _) => f s | Reject => Some kv | Undef => None end.

Definition apply_payload (f : ApplyFsm) (m : MsgApplyCommitted) (kv : KvNode) : option KvNode :=
  let data := mac_data m in
  if (9 <=? slice_size data) && starts_with kApplyMagic data then
    if negb (unle (take 4 (drop 4 data)) =? 1) then Some kv else
    let payload := drop 9 data in
    let apply_kind := nth 8 data 0 in
    if apply_kind =? 3 then apply_lrc f m payload kv
    else if apply_kind =? 0 then with_payload payload (fun s => Some (DB_Put (legacy_key m) s kv)) kv
    else Some kv
  else
    let p := drop 1 data in
    let apply_kind := nth 0 data 0 in
    if apply_kind =? 1 then with_payload p (fun s => ApplyStripePacked (af_group_id f) s kv) kv
    else if apply_kind =? 2 then
      with_payload p (fun s => ApplyStripeCommand (af_group_id f) (af_enc_mode f) (af_cluster_n f) (mac_entry_id m) s kv) kv
    else Some (DB_Put (legacy_key m) p kv).

Definition Handle (f : ApplyFsm) (m : MsgApplyCommitted) (kv : KvNode) : option KvNode :=
  match mac_data m with
  | [] => Some kv
  | _ => kv ← apply_payload f m kv; Some (UpdateAppliedIndex (u32 (mac_entry_id m)) kv)
  end.

(** The messages of one batch, in order ([MsgApplyStop] ends the thread). *)
Fixpoint HandleBatch (f : ApplyFsm) (batch : list MsgApplyCommitted) (kv : KvNode) : option KvNode :=
  match batch with
  | [] => Some kv
  | m :: batch => kv ← Handle f m kv; HandleBatch f batch kv
  end.
End apply.
Arguments KvNode : clear implicits.

(** ** Applying an LRC entry *)
Record apply_ok (e : LogEntry) (user_key : Slice) (original_size : Z) : Prop := {
  ap_index : is_u32 (Index e);
  ap_key : valid user_key = true /\ is_u32 (slice_size user_key);
  ap_chunk : chunk_ok (GetChunkInfo e);
  ap_placement : Forall placement_fits (Placement e);
  ap_counts : is_u32 (Z.of_nat (length (Placement e))) /\ is_u32 (Z.of_nat (length (Fragments e)));
  ap_ids : Forall is_u32 (sent_ids e);
  ap_frags : Forall (fun f => is_u32 (slice_size f)) (Fragments e);
  ap_size : 0 <= original_size < 2 ^ 64
}.

Lemma reads_take32 v : is_u32 v -> reads take32 (EncodeFixed32 v) v.
Proof. apply (reads_le Reject 4). Qed.

Lemma reads_take32i v : is_int v -> reads take32i (EncodeFixed32 v) v.
Proof.
  intros Hv. unfold take32i, EncodeFixed32. rewrite <- (le_mod 4).
  eapply reads_bind_last; [apply (reads_le Reject 4), u32_range|].
  change (v mod 256 ^ Z.of_nat 4) with (u32 v). rewrite i32_u32 by exact Hv. apply reads_ret.
Qed.

Lemma slice_size_fixed32 v : slice_size (EncodeFixed32 v) = 4.
Proof. apply slice_size_le. Qed.

Ltac apply_field := idtac;
  lazymatch goal with
  | |- reads take32 _ _ => apply reads_take32; assumption
  | |- reads take32i _ _ => apply reads_take32i; assumption
  | |- reads (read_bytes Reject _) _ _ => apply reads_bytes; reflexivity
  end.

Lemma reads_apply_chunk c : chunk_ok c -> reads read_apply_chunk (apply_chunk_bytes c) c.
Proof.
  intros []. unfold read_apply_chunk, apply_chunk_bytes.
  apply reads_need; [rewrite !slice_size_app, !slice_size_fixed32; lia|].
  reads_steps apply_field. destruct c. apply reads_ret.
Qed.

Lemma reads_apply_placement p : placement_fits p -> reads read_apply_placement (apply_placement_bytes p) p.
Proof.
  intros []. unfold read_apply_placement, apply_placement_bytes.
  assert (is_u32 (kind_to_Z (kind p))) by (unfold is_u32; destruct (kind p); cbn; lia).
  reads_steps apply_field. eapply reads_bind_nil; [apply exact_kind|]. destruct p. apply reads_ret.
Qed.

Lemma slice_size_placements pl : slice_size (concat (apply_placement_bytes <$> pl)) = Z.of_nat (length pl) * 16.
Proof.
  rewrite slice_size_concat. apply sum_sizes_const. intros p. unfold apply_placement_bytes.
  by rewrite !slice_size_app, !slice_size_fixed32.
Qed.

Definition head_bytes (e : LogEntry) (user_key : Slice) : Slice :=
  EncodeFixed32 (slice_size user_key) ++ user_key ++ apply_chunk_bytes (GetChunkInfo e) ++
  EncodeFixed32 (Z.of_nat (length (Placement e))) ++ concat (apply_placement_bytes <$> Placement e) ++
  EncodeFixed32 (Z.of_nat (length (Fragments e))).

Lemma reads_apply_head e user_key orig : apply_ok e user_key orig ->
  reads read_apply_head (head_bytes e user_key)
    (user_key, GetChunkInfo e, Placement e, Z.of_nat (length (Fragments e))).
Proof.
  intros [_ [_ Hk] Hc Hp [Hpn Hfn] _ _ _]. unfold read_apply_head, head_bytes.
  eapply reads_bind; [by apply reads_take32|].
  eapply reads_bind; [by apply reads_bytes|].
  eapply reads_bind; [by apply reads_apply_chunk|].
  eapply reads_bind; [by apply reads_take32|].
  apply reads_need; [rewrite slice_size_app, slice_size_placements, slice_size_fixed32; lia|].
  rewrite Nat2Z.id. eapply reads_bind; [by apply (reads_Forall placement_fits); [..|apply reads_apply_placement]|].
  eapply reads_bind_last; [by apply reads_take32|apply reads_ret].
Qed.

(** The fragments of a payload as a map: of two fragments with the same id the
    later one counts. *)
Definition frag_map_of (fs : list (Z * Slice)) (m : gmap Z Slice) : gmap Z Slice :=
  foldl (fun m f => <[fst f := snd f]> m) m fs.

Definition frag_bytes (f : Z * Slice) : Slice := apply_frag_bytes (fst f) (snd f).

Lemma frag_bytes_small f : is_u32 (slice_size (snd f)) ->
  frag_bytes f = EncodeFixed32 (fst f) ++ EncodeFixed32 (slice_size (snd f)) ++ snd f.
Proof.
  intros Hs. unfold frag_bytes, apply_frag_bytes. rewrite u32_small by done.
  unfold slice_size. by rewrite Nat2Z.id, firstn_all.
Qed.

Lemma read_frag_map_ok fs : forall rest m,
  Forall (fun f => is_u32 (fst f) /\ is_u32 (slice_size (snd f))) fs ->
  read_frag_map (length fs) (concat (frag_bytes <$> fs) ++ rest) (slice_size (concat (frag_bytes <$> fs) ++ rest)) m =
  (frag_map_of fs m, rest, slice_size rest).
Proof.
  induction fs as [|[i f] fs IH]; intros rest m Hfs; [done|]. apply Forall_cons in Hfs as [[Hi Hs] Hfs].
  cbn [length read_frag_map fmap list_fmap concat frag_map_of foldl fst snd] in *.
  rewrite frag_bytes_small by done. cbn [fst snd]. rewrite <- !app_assoc.
  set (tail := concat _ ++ rest). pose proof (slice_size_nonneg tail). pose proof (slice_size_nonneg f).
  rewrite !slice_size_app, !slice_size_fixed32, !(proj2 (Z.ltb_ge _ _)) by lia.
  assert (forall v t, take 4 (EncodeFixed32 v ++ t) = EncodeFixed32 v) as Ht
    by (intros v t; apply (take_app_length' (EncodeFixed32 v) t 4); symmetry; apply (length_le 4)).
  assert (forall v t, drop 4 (EncodeFixed32 v ++ t) = t) as Hd
    by (intros v t; apply (drop_app_length' (EncodeFixed32 v) t 4); symmetry; apply (length_le 4)).
  rewrite !Hd, !Ht. unfold EncodeFixed32. rewrite !unle_le_small by done.
  rewrite (proj2 (Z.ltb_ge _ _)) by lia. assert (Z.to_nat (slice_size f) = length f) as -> by apply Nat2Z.id.
  rewrite take_app_length, drop_app_length.
  replace (4 + (4 + (slice_size f + slice_size tail)) - 4 - 4 - slice_size f) with (slice_size tail) by lia.
  by apply IH.
Qed.

Section apply_lemmas.
Context {isal : IsaL} {sh : Shuffle} {DB : Type} `{StorageEngine DB}.

Lemma apply_payload_lrc (f : ApplyFsm) (m : MsgApplyCommitted) payload (kv : KvNode DB) :
  mac_data m = kApplyMagic ++ EncodeFixed32 1 ++ [3] ++ payload -> apply_payload f m kv = apply_lrc f m payload kv.
Proof.
  intros Hm. unfold apply_payload. rewrite Hm.
  change (kApplyMagic ++ EncodeFixed32 1 ++ [3] ++ payload) with ([65; 80; 76; 89; 1; 0; 0; 0; 3] ++ payload).
  rewrite (proj2 (Z.leb_le _ _)) by (unfold slice_size; rewrite length_app; cbn [length]; lia).
  done.
Qed.

(** What [ApplyFsm] makes of an LRC entry handed to it by the bridge. *)
Lemma Handle_lrc (f : ApplyFsm) (gid : Z) (e : LogEntry) (user_key : Slice) (orig : Z) (kv : KvNode DB) :
  ExtractApplyMeta e = Some (user_key, orig) -> IsLrcEncoded e = true -> apply_ok e user_key orig ->
  exists m, apply_message gid e = Some m /\ mac_stripe_id m = Index e /\ mac_entry_id m = Index e /\
    Handle f m kv = Some (UpdateAppliedIndex (Index e)
      (DB_Write (lrc_batch f m user_key (GetChunkInfo e) (Placement e)
        (frag_map_of (zip (sent_ids e) (Fragments e)) ∅) orig) kv)).
Proof.
  intros Hm Hl Hok. unfold apply_message. rewrite Hm. cbn [mbind option_bind fst snd].
  eexists. split; [done|]. split; [done|]. split; [done|].
  pose proof (reads_apply_head e user_key orig Hok) as Hhead.
  destruct Hok as [Hi [Hv Hk] Hc Hp Hcn Hid Hf Ho].
  unfold Handle, SerializeForApply. rewrite Hl. destruct user_key as [|b user_key]; [done|].
  set (key := b :: user_key) in *. cbn [mac_data mac_entry_id].
  change (kApplyMagic ++ EncodeFixed32 1 ++ [3] ++ lrc_payload e key orig) with
    (65 :: drop 1 (kApplyMagic ++ EncodeFixed32 1 ++ [3] ++ lrc_payload e key orig)) at 1.
  cbv match. rewrite (apply_payload_lrc f _ (lrc_payload e key orig)) by done.
  rewrite (u32_small (Index e)) by done. unfold apply_lrc.
  assert (lrc_payload e key orig = head_bytes e key ++
    concat (frag_bytes <$> zip (sent_ids e) (Fragments e)) ++ EncodeFixed64 orig) as ->.
  { unfold lrc_payload, head_bytes. rewrite <- !app_assoc. unfold frag_bytes.
    by rewrite (imap_zip apply_frag_bytes (Fragments e) (fun i => default (Z.of_nat i) (FragIds e !! i))). }
  rewrite Hhead, Nat2Z.id.
  assert (length (Fragments e) = length (zip (sent_ids e) (Fragments e))) as Hl2
    by (rewrite length_zip_with, length_sent_ids; lia).
  rewrite Hl2, read_frag_map_ok.
  - unfold EncodeFixed64. rewrite slice_size_le. change (8 <=? Z.of_nat 8) with true. cbv match.
    rewrite firstn_all2 by (by rewrite length_le). rewrite unle_le_small by (cbn; lia). done.
  - apply Forall_forall. intros [i x] Hin. rewrite Forall_forall in Hid. rewrite Forall_forall in Hf. cbn.
    split; [apply Hid; by eapply elem_of_zip_l|apply Hf; by eapply elem_of_zip_r].
Qed.
End apply_lemmas.
