(* ===== verification/StripeRead.v ===== *)
(** Reading a value back: [TryStripeGet] (src/multi-raft/stripe_read.cc) and the
    request dispatcher of a physical node, [GroupRegistry]
    (src/multi-raft/group_registry.cc).

    A read takes the metadata of the key from the local store, fetches the [k] data
    fragments, each from the node the placement names, and concatenates them. The
    fetches run in parallel and fill a map, so their order does not matter. A
    fragment of another node is requested with [GroupRegistry::GetValue], which
    itself starts with [TryStripeGet] on the key it is asked for: the two call each
    other through RPCs, hence the fuel. The outer [option] is [None] when the fuel
    is used up or the behaviour is undefined.

    The cluster is given by [registry], the service node of a group on a physical
    node, and [rpc a b]: a call from [a] to [b] finds a stub and gets through. The
    states are those at the time of the call; for the wait of [GetValue] those at
    the end of the wait. *)

From S2P Require Import Prelude Types Bytes StripeFormat KvFormat Engine Encoder StripeApply.

Section read.
Context {isal : IsaL} {DB : Type} `{StorageEngine DB}.

(** The data fragments in front of the placement. *)
Fixpoint data_placement (pl : list FragmentPlacement) : list FragmentPlacement :=
  match pl with
  | fp :: pl => if bool_decide (kind fp = kData) then fp :: data_placement pl else []
  | [] => []
  end.

(** The last step: [None] in the result is [return false]. *)
Definition decode_stripe_value (meta : StripeLogMeta) (frag_bytes : gmap Z Slice) : option (option Slice) :=
  let input : EncodingResults := foldl (fun m f => <[u32 (fst f) := snd f]> m) ∅ (map_iter frag_bytes) in
  let cut out := take (Z.to_nat (Z.min (slice_size out) (slm_original_size meta))) out in
  match slm_encoding_mode meta with
  | kLrc => out ← DecodeSlice input (slm_k meta) 0; Some (option_map cut out)
  | kRs3F | kRsF => out ← DecodeSlice input (slm_k meta) (slm_m meta); Some (option_map cut out)
  | kUnnamedMode _ => Some (Some [])
  end.

Section remote.
Context (remote : Z -> GetValueRequest -> option GetValueResponse) (my_id : Z) (kv : KvNode DB) (req : GetValueRequest).

(** One fetch; [None] in the result is a failed fetch. *)
Definition fetch_frag (stripe_id : Z) (fp : FragmentPlacement) : option (option Slice) :=
  let fk := FragDbKey (gvq_group_id req) stripe_id (frag_id fp) in
  if node_id fp =? i32 my_id then Some (db_get (kv_db kv) fk) else
  resp ← remote (u32 (node_id fp)) (mkGetValueRequest fk (gvq_read_index req) (gvq_group_id req));
  Some (if bool_decide (gvr_err resp = kOk) then Some (gvr_value resp) else None).

Fixpoint fetch_all (stripe_id : Z) (pl : list FragmentPlacement) : option (gmap Z Slice) :=
  match pl with
  | [] => Some ∅
  | fp :: pl =>
      r ← fetch_frag stripe_id fp;
      m ← fetch_all stripe_id pl;
      Some (match r with Some v => <[frag_id fp := v]> m | None => m end)
  end.

Definition TryStripeGet : option (option Slice) :=
  match db_get (kv_db kv) (StripeMetaDbKey (gvq_group_id req) (gvq_key req)) with
  | None => Some None
  | Some meta_bytes =>
      match StripeLogMeta_Deserialize meta_bytes with
      | Undef => None
      | Reject => Some None
      | Ok (meta, _) =>
          let data_pl := data_placement (slm_placement meta) in
          if negb (Z.of_nat (length data_pl) =? u64 (slm_k meta)) then Some None else
          frag_bytes ← fetch_all (slm_stripe_id meta) data_pl;
          if Z.of_nat (size frag_bytes) <? u64 (slm_k meta) then Some None
          else decode_stripe_value meta frag_bytes
      end
  end.
End remote.

(** ** GroupRegistry *)

(** The service nodes of one physical node, by group. *)
Abbreviation Nodes := (gmap Z (KvNode DB)).

Definition Register (gid node_id local_nid : Z) (n : KvNode DB) (nodes : Nodes) : Nodes :=
  if local_nid =? node_id then <[gid := n]> nodes else nodes.
Definition GetNodeForGroup (gid : Z) (nodes : Nodes) : option (KvNode DB) := nodes !! gid.

Context (registry : Z -> Nodes) (rpc : Z -> Z -> bool).

(** The node [GetValue] works on; for the group -1 any local one. *)
Definition value_target (node_id : Z) (req : GetValueRequest) : option (KvNode DB) :=
  if negb (gvq_group_id req =? u32 (-1)) then GetNodeForGroup (gvq_group_id req) (registry node_id)
  else snd <$> head (map_to_list (registry node_id)).

Definition call (GetValue : Z -> GetValueRequest -> option GetValueResponse) (from to : Z) (req : GetValueRequest)
    : option GetValueResponse :=
  if rpc from to then GetValue to req else Some (mkGetValueResponse [] kRPCCallFailed 0).

Fixpoint GetValue (fuel : nat) (node_id : Z) (req : GetValueRequest) : option GetValueResponse :=
  match fuel with
  | O => None
  | S fuel =>
      match value_target node_id req with
      | None => Some (mkGetValueResponse [] kNotALeader node_id)
      | Some kv =>
          if (0 <? gvq_read_index req) && (applied_index_ kv <? gvq_read_index req)
          then Some (mkGetValueResponse [] kRequestExecTimeout node_id) else
          r ← TryStripeGet (call (GetValue fuel) node_id) node_id kv req;
          Some (match r with
                | Some v => mkGetValueResponse v kOk node_id
                | None => match db_get (kv_db kv) (gvq_key req) with
                          | Some v => mkGetValueResponse v kOk node_id
                          | None => mkGetValueResponse [] kKeyNotExist node_id
                          end
                end)
      end
  end.

(** The [kGet] branch of [DealWithRequest] on [node_id]; [is_leader] is the role of the
    group's Raft node. Answers the error and the value. *)
Definition DealWithGet (fuel : nat) (node_id : Z) (is_leader : bool) (req : Request) : option (ErrorType * Slice) :=
  if rq_group_id req =? u32 (-1) then Some (kNotALeader, []) else
  match GetNodeForGroup (rq_group_id req) (registry node_id) with
  | None => Some (kNotALeader, [])
  | Some kv =>
      if negb is_leader then Some (kNotALeader, []) else
      r ← TryStripeGet (call (GetValue fuel) node_id) node_id kv (mkGetValueRequest (rq_key req) 0 (rq_group_id req));
      Some (match r with
            | Some v => (kOk, FormatFullEntryValueForStorage v)
            | None => (kKeyNotExist, [])
            end)
  end.
End read.

(** ** Lemmas *)

Lemma data_placement_prefix datas others :
  Forall (fun fp => kind fp = kData) datas -> Forall (fun fp => kind fp <> kData) others ->
  data_placement (datas ++ others) = datas.
Proof.
  intros Hd Ho. induction Hd as [|fp datas Hfp _ IH]; cbn [app data_placement].
  - destruct Ho as [|fp others Hfp _]; cbn [data_placement]; [done|]. by rewrite bool_decide_false.
  - rewrite bool_decide_true by done. by rewrite IH.
Qed.

(** The metadata of a value that is split into the data fragments [rows]. *)
Record stripe_of (meta : StripeLogMeta) (rows : list Slice) (value : Slice) : Prop := {
  so_meta : meta_ok meta;
  so_mode : slm_encoding_mode meta = kLrc;
  so_k : slm_k meta = Z.of_nat (length rows) /\ 1 <= slm_k meta <= kMaxK;
  so_size : slm_original_size meta = slice_size value;
  so_rows : exists fs, Forall (fun r => length r = fs) rows;
  so_concat : exists pad, concat rows = value ++ pad;
  so_ids : frag_id <$> data_placement (slm_placement meta) = seqZ 0 (slm_k meta);
  so_nodes : Forall (fun fp => 0 <= node_id fp) (data_placement (slm_placement meta))
}.

Lemma decode_stripe_value_ok {isal : IsaL} meta rows value :
  stripe_of meta rows value ->
  decode_stripe_value meta (list_to_map (zip (seqZ 0 (slm_k meta)) rows)) = Some (Some value).
Proof.
  intros [_ Hm [Hk Hk1] Hs [fs Hf] [pad Hc] _ _]. unfold kMaxK in *. unfold decode_stripe_value.
  set (M := list_to_map _ : gmap Z Slice).
  assert (forall i, M !! i = if decide (0 <= i < slm_k meta) then rows !! Z.to_nat i else None) as HM.
  { intros i. unfold M. case_decide as Hi.
    - destruct (lookup_lt_is_Some_2 rows (Z.to_nat i)) as [r Hr]; [lia|]. rewrite Hr.
      apply elem_of_list_to_map_1.
      + rewrite fst_zip by (rewrite length_seqZ; lia). apply NoDup_seqZ.
      + apply list_elem_of_lookup. exists (Z.to_nat i). rewrite lookup_zip_with, lookup_seqZ_lt, Hr by lia.
        cbn. do 2 f_equal. lia.
    - apply not_elem_of_list_to_map. rewrite fst_zip by (rewrite length_seqZ; lia). rewrite elem_of_seqZ. lia. }
  assert (foldl (fun m f => <[u32 (fst f) := snd f]> m) ∅ (map_iter M) = M) as ->.
  { rewrite <- (map_fmap_id M) at 2. rewrite <- (foldl_insert_map_iter id M).
    assert (Forall (fun f : Z * Slice => u32 (fst f) = fst f) (map_iter M)) as Hu.
    { apply Forall_forall. intros [i r] Hin. unfold map_iter in Hin.
      apply list_elem_of_omap in Hin as (j & _ & Hj). rewrite HM in Hj.
      case_decide; [|done]. destruct (rows !! _); [|done]. injection Hj as -> _. cbn. apply u32_small. unfold is_u32. lia. }
    generalize (∅ : EncodingResults). induction Hu as [|[i r] l Hi _ IH]; intros acc; [done|]. cbn in *.
    rewrite Hi. apply IH. }
  rewrite Hm. rewrite (DecodeSlice_data M rows fs); try done; unfold kMaxK, kMaxM; [|nia|lia].
  cbn [mbind option_bind option_map]. do 2 f_equal. rewrite Hs, Hc.
  rewrite slice_size_app. pose proof (slice_size_nonneg pad).
  rewrite Z.min_r by lia. unfold slice_size. rewrite Nat2Z.id. apply take_app_length.
Qed.

(** The fragments fetched, by id. *)
Lemma present_frags (rows : list Slice) (ok : FragmentPlacement -> bool) pl :
  NoDup (frag_id <$> pl) -> (forall fp, fp ∈ pl -> 0 <= frag_id fp < Z.of_nat (length rows)) ->
  let got := omap (fun fp => if ok fp then pair (frag_id fp) <$> rows !! Z.to_nat (frag_id fp) else None) pl in
  NoDup got.*1 /\ (forallb ok pl = false -> length got < length pl)%nat /\
  (forallb ok pl = true -> got = (fun fp => (frag_id fp, nth (Z.to_nat (frag_id fp)) rows [])) <$> pl).
Proof.
  induction pl as [|fp pl IH]; intros Hnd Hin; [split_and!; [constructor|done..]|].
  cbn in Hnd. apply NoDup_cons in Hnd as [Hni Hnd]. destruct IH as (IH1 & IH2 & IH3); [done|intros; apply Hin; by right|].
  cbn [omap list_omap forallb]. destruct (lookup_lt_is_Some_2 rows (Z.to_nat (frag_id fp))) as [x Hx].
  { specialize (Hin fp ltac:(left)). lia. }
  assert (forall (ps : list FragmentPlacement) (f : FragmentPlacement -> option (Z * Slice)), length (omap f ps) <= length ps)%nat as Hle
    by (intros ps f; induction ps as [|p ps IHp]; cbn; [done|]; destruct (f p); cbn; lia).
  rewrite Hx. destruct (ok fp) eqn:Hok; cbn [fmap option_fmap option_map andb].
  - cbn [length list_fmap fmap]. split_and!.
    + apply NoDup_cons. split; [|done]. intros ([i y] & Hi & Hin')%list_elem_of_fmap. cbn in Hi. subst i.
      apply list_elem_of_omap in Hin' as (fp' & Hfp' & Hy). apply Hni. apply list_elem_of_fmap.
      exists fp'. split; [|done]. destruct (ok fp'); [|done]. destruct (rows !! Z.to_nat (frag_id fp')); [|done]. by injection Hy.
    + intros Hall. specialize (IH2 Hall). lia.
    + intros Hall. rewrite (IH3 Hall). by rewrite (nth_lookup_Some _ _ [] _ Hx).
  - split_and!; [done|intros _; cbn [length]; apply Nat.lt_succ_r, Hle|done].
Qed.

Lemma zip_seqZ_nth (rows : list Slice) n : n = Z.of_nat (length rows) ->
  (fun f => (f, nth (Z.to_nat f) rows [])) <$> seqZ 0 n = zip (seqZ 0 n) rows.
Proof.
  intros ->. apply list_eq. intros i. rewrite list_lookup_fmap, lookup_zip_with.
  destruct (decide (Z.of_nat i < Z.of_nat (length rows))) as [Hi|Hi].
  - rewrite lookup_seqZ_lt by lia. destruct (lookup_lt_is_Some_2 rows i) as [x Hx]; [lia|].
    rewrite Hx, Z.add_0_l. cbn [fmap option_fmap option_map]. rewrite Nat2Z.id.
    by rewrite (nth_lookup_Some _ _ [] _ Hx).
  - by rewrite lookup_seqZ_ge by lia.
Qed.

Section read_lemmas.
Context {isal : IsaL} {DB : Type} `{StorageEngine DB}.
Context (registry : Z -> gmap Z (KvNode DB)) (rpc : Z -> Z -> bool).
Context (gid : Z) (meta : StripeLogMeta) (rows : list Slice) (value : Slice).
Context (Hso : stripe_of meta rows value) (Hgid : gid <> u32 (-1)).
Local Abbreviation k := (slm_k meta).
Local Abbreviation frag_key f := (FragDbKey gid (slm_stripe_id meta) f).
Local Abbreviation datas := (data_placement (slm_placement meta)).

(** Under the keys of the data fragments a node has the right bytes or nothing, and
    no user key collides with them. *)
Definition frags_clean (kv : KvNode DB) : Prop :=
  forall f, 0 <= f < k ->
    db_get (kv_db kv) (StripeMetaDbKey gid (frag_key f)) = None /\
    forall x, db_get (kv_db kv) (frag_key f) = Some x -> rows !! Z.to_nat f = Some x.

Definition has_frag (kv : KvNode DB) (f : Z) : bool :=
  match db_get (kv_db kv) (frag_key f) with Some _ => true | None => false end.

(** The fragment of [fp] can be had from its node at the read index [r]. *)
Definition served (my_id r : Z) (kv : KvNode DB) (fp : FragmentPlacement) : bool :=
  if node_id fp =? my_id then has_frag kv (frag_id fp) else
  rpc my_id (node_id fp) &&
  match registry (node_id fp) !! gid with
  | Some kv' => negb ((0 <? r) && (applied_index_ kv' <? r)) && has_frag kv' (frag_id fp)
  | None => false
  end.

Context (Hclean : forall n kv, registry n !! gid = Some kv -> frags_clean kv).

Lemma fetch_frag_served fuel my_id kv req fp :
  0 <= my_id < 2 ^ 31 -> frags_clean kv -> gvq_group_id req = gid -> fp ∈ datas ->
  fetch_frag (call rpc (GetValue registry rpc (S fuel)) my_id) my_id kv req (slm_stripe_id meta) fp =
  Some (if served my_id (gvq_read_index req) kv fp then rows !! Z.to_nat (frag_id fp) else None).
Proof.
  intros Hmy Hkv Hg Hin. pose proof Hso as [Hmok _ _ _ _ _ Hids Hnodes].
  assert (0 <= frag_id fp < k) as Hf.
  { apply (list_elem_of_fmap_2 frag_id) in Hin. rewrite Hids, elem_of_seqZ in Hin. lia. }
  assert (0 <= node_id fp < 2 ^ 31) as Hn.
  { rewrite Forall_forall in Hnodes. specialize (Hnodes _ Hin). split; [done|].
    pose proof (mo_placement _ Hmok) as Hp. rewrite Forall_forall in Hp.
    assert (fp ∈ slm_placement meta) as Hin'.
    { clear -Hin. induction (slm_placement meta) as [|a l IH]; cbn in Hin; [done|].
      case_bool_decide; [|by apply not_elem_of_nil in Hin].
      apply elem_of_cons in Hin as [->|Hin]; [left|right; auto]. }
    specialize (Hp _ Hin'). destruct Hp as [_ _ Hp]. unfold is_int in Hp. lia. }
  assert (forall kv', frags_clean kv' -> db_get (kv_db kv') (frag_key (frag_id fp)) =
    if has_frag kv' (frag_id fp) then rows !! Z.to_nat (frag_id fp) else None) as Hget.
  { intros kv' Hc. unfold has_frag. destruct (db_get _ _) as [x|] eqn:Hx; [|done].
    symmetry. by apply (Hc _ Hf). }
  unfold fetch_frag, served. rewrite Hg, i32_small by (unfold is_int; lia).
  destruct (node_id fp =? my_id); [by rewrite Hget|].
  rewrite u32_small by (unfold is_u32; lia). unfold call. destruct (rpc my_id (node_id fp)); [|done].
  cbn [andb GetValue gvq_group_id gvq_read_index gvq_key].
  unfold value_target. cbn [gvq_group_id].
  rewrite (proj2 (Z.eqb_neq _ _) Hgid). cbn [negb]. unfold GetNodeForGroup.
  destruct (registry (node_id fp) !! gid) as [kv'|] eqn:Hkv'; [|done].
  destruct ((0 <? gvq_read_index req) && (applied_index_ kv' <? gvq_read_index req)); [done|].
  specialize (Hclean _ _ Hkv'). unfold TryStripeGet. cbn [gvq_group_id gvq_key].
  destruct (Hclean _ Hf) as [-> _]. cbn [mbind option_bind negb andb]. rewrite Hget by done.
  destruct (has_frag kv' (frag_id fp)) eqn:Hh; [|done].
  destruct (lookup_lt_is_Some_2 rows (Z.to_nat (frag_id fp))) as [x Hx]; [|by rewrite Hx].
  pose proof (so_k _ _ _ Hso). lia.
Qed.

Lemma fetch_all_served fuel my_id kv req pl :
  0 <= my_id < 2 ^ 31 -> frags_clean kv -> gvq_group_id req = gid -> pl ⊆ datas ->
  fetch_all (call rpc (GetValue registry rpc (S fuel)) my_id) my_id kv req (slm_stripe_id meta) pl =
  Some (list_to_map (omap (fun fp => if served my_id (gvq_read_index req) kv fp
     then pair (frag_id fp) <$> rows !! Z.to_nat (frag_id fp) else None) pl)).
Proof.
  intros Hmy Hkv Hg. induction pl as [|fp pl IH]; intros Hsub; [done|]. cbn [fetch_all].
  rewrite fetch_frag_served by (try done; apply Hsub; left). cbn [mbind option_bind].
  rewrite IH by (intros x Hx; apply Hsub; by right). cbn [mbind option_bind omap list_omap].
  destruct (served _ _ _ fp); [|done]. by destruct (rows !! _).
Qed.

(** What a read of the stripe answers. *)
Lemma TryStripeGet_served fuel my_id kv req :
  0 <= my_id < 2 ^ 31 -> frags_clean kv -> gvq_group_id req = gid ->
  db_get (kv_db kv) (StripeMetaDbKey gid (gvq_key req)) = Some (StripeLogMeta_Serialize meta) ->
  TryStripeGet (call rpc (GetValue registry rpc (S fuel)) my_id) my_id kv req =
  Some (if forallb (served my_id (gvq_read_index req) kv) datas then Some value else None).
Proof.
  intros Hmy Hkv Hg Hmeta. pose proof Hso as [Hmok _ [Hk Hk1] _ _ _ Hids _]. unfold kMaxK in *.
  unfold TryStripeGet. rewrite Hg, Hmeta.
  pose proof (exact_meta meta Hmok) as [Hex _]. specialize (Hex []). rewrite app_nil_r in Hex. rewrite Hex.
  assert (length datas = Z.to_nat k) as Hl by (rewrite <- (length_fmap frag_id), Hids, length_seqZ; lia).
  rewrite Hl, (proj2 (Z.eqb_eq _ _)) by (rewrite u64_small by lia; lia). cbn [negb].
  rewrite fetch_all_served by done. cbn [mbind option_bind]. rewrite u64_small by lia.
  destruct (present_frags rows (served my_id (gvq_read_index req) kv) datas) as (Hnd & Hlen & Hall).
  { rewrite Hids. apply NoDup_seqZ. }
  { intros fp Hfp. apply (list_elem_of_fmap_2 frag_id) in Hfp. rewrite Hids, elem_of_seqZ in Hfp. lia. }
  rewrite map_size_list_to_map by done.
  destruct (forallb _ datas) eqn:Hfa.
  - rewrite Hall by done. rewrite length_fmap, (proj2 (Z.ltb_ge _ _)) by lia.
    rewrite <- (decode_stripe_value_ok meta rows value Hso). f_equal. f_equal.
    rewrite (list_fmap_compose frag_id (fun f => (f, nth (Z.to_nat f) rows []))), Hids.
    apply zip_seqZ_nth. lia.
  - rewrite (proj2 (Z.ltb_lt _ _)); [done|]. specialize (Hlen eq_refl). lia.
Qed.
End read_lemmas.

(** ** Termination *)
Section termination.
Context {isal : IsaL} {DB : Type} `{StorageEngine DB}.

(** The fetches depend on the remote calls for fragment keys only. *)
Lemma fetch_all_ext remote remote' my_id (kv : KvNode DB) req stripe_id pl :
  (forall n f, remote n (mkGetValueRequest (FragDbKey (gvq_group_id req) stripe_id f) (gvq_read_index req) (gvq_group_id req)) =
               remote' n (mkGetValueRequest (FragDbKey (gvq_group_id req) stripe_id f) (gvq_read_index req) (gvq_group_id req))) ->
  fetch_all remote my_id kv req stripe_id pl = fetch_all remote' my_id kv req stripe_id pl.
Proof.
  intros Hr. induction pl as [|fp pl IH]; [done|]. cbn [fetch_all]. unfold fetch_frag. by rewrite Hr, IH.
Qed.

Lemma TryStripeGet_ext remote remote' my_id (kv : KvNode DB) req :
  (forall n s f, remote n (mkGetValueRequest (FragDbKey (gvq_group_id req) s f) (gvq_read_index req) (gvq_group_id req)) =
                 remote' n (mkGetValueRequest (FragDbKey (gvq_group_id req) s f) (gvq_read_index req) (gvq_group_id req))) ->
  TryStripeGet remote my_id kv req = TryStripeGet remote' my_id kv req.
Proof.
  intros Hr. unfold TryStripeGet. destruct (db_get _ _) as [mb|]; [|done].
  destruct (StripeLogMeta_Deserialize mb) as [[m rest]| |]; [|done..].
  by rewrite (fetch_all_ext remote remote') by (intros; apply Hr).
Qed.

Context (registry : Z -> gmap Z (KvNode DB)) (rpc : Z -> Z -> bool).

(** No user key has the form of a fragment key. *)
Definition no_frag_keys : Prop := forall n g kv g' s f,
  registry n !! g = Some kv -> db_get (kv_db kv) (StripeMetaDbKey g' (FragDbKey g' s f)) = None.

Lemma value_target_registered n req kv :
  value_target registry n req = Some kv -> exists g, registry n !! g = Some kv.
Proof.
  unfold value_target, GetNodeForGroup. case_match; [eauto|].
  destruct (map_to_list (registry n)) as [|[g x] l] eqn:E; cbn; [done|]. intros [= <-].
  exists g. apply elem_of_map_to_list. rewrite E. left.
Qed.

(** A request for a fragment is answered locally. *)
Lemma GetValue_fragment fuel n g s f r : no_frag_keys ->
  exists resp, GetValue registry rpc (S fuel) n (mkGetValueRequest (FragDbKey g s f) r g) = Some resp /\
    GetValue registry rpc 1 n (mkGetValueRequest (FragDbKey g s f) r g) = Some resp.
Proof.
  intros Hno. cbn [GetValue]. destruct (value_target registry n _) as [kv|] eqn:Ht; [|by eexists].
  destruct (_ && _); [by eexists|]. unfold TryStripeGet. cbn [gvq_group_id gvq_key].
  apply value_target_registered in Ht as [g' Hg']. rewrite (Hno _ _ _ g s f Hg').
  cbn [mbind option_bind]. destruct (db_get _ _); by eexists.
Qed.

Lemma call_fragment fuel a n g s f r : no_frag_keys ->
  call rpc (GetValue registry rpc (S fuel)) a n (mkGetValueRequest (FragDbKey g s f) r g) =
  call rpc (GetValue registry rpc 1) a n (mkGetValueRequest (FragDbKey g s f) r g).
Proof.
  intros Hno. unfold call. destruct (rpc a n); [|done].
  by destruct (GetValue_fragment fuel n g s f r Hno) as (resp & -> & ->).
Qed.
End termination.

(** [C14] Reads terminate: as long as no user key has the form of a fragment key, the
    mutual recursion between [TryStripeGet] and the [GetValue] RPC stops after one
    remote level. A request for a fragment is always answered locally, and what a
    read answers does not depend on the depth allowed beyond that. *)
Theorem reads_terminate {isal : IsaL} {DB : Type} `{StorageEngine DB}
    (registry : Z -> gmap Z (KvNode DB)) (rpc : Z -> Z -> bool) (Hno : no_frag_keys registry) (fuel : nat) :
  (forall n g s f r, is_Some (GetValue registry rpc (S fuel) n (mkGetValueRequest (FragDbKey g s f) r g))) /\
  (forall n req, GetValue registry rpc (S (S fuel)) n req = GetValue registry rpc 2 n req) /\
  (forall n leader req, DealWithGet registry rpc (S fuel) n leader req = DealWithGet registry rpc 1 n leader req).
Proof.
  split_and!.
  - intros n g s f r. destruct (GetValue_fragment registry rpc fuel n g s f r Hno) as (resp & -> & _). done.
  - intros n req. set (G := GetValue registry rpc (S fuel)). set (G1 := GetValue registry rpc 1).
    cbn [GetValue]. fold G G1.
    destruct (value_target registry n req) as [kv|]; [|done]. destruct (_ && _); [done|].
    by rewrite (TryStripeGet_ext (call rpc G n) (call rpc G1 n)) by (intros; by apply call_fragment).
  - intros n leader req. unfold DealWithGet. destruct (_ =? _); [done|].
    destruct (GetNodeForGroup _ _) as [kv|]; [|done]. destruct (negb leader); [done|].
    by rewrite (TryStripeGet_ext _ (call rpc (GetValue registry rpc 1) n)) by (intros; by apply call_fragment).
Qed.

(** A node that stores the metadata of the key [k]. *)
Section witness.
#[local] Existing Instance Gf256.isal.

Definition one_key_kv : KvNode (gmap Slice Slice) :=
  mkKvNode {[StripeMetaDbKey 3 [107] := StripeLogMeta_Serialize demo_meta]} 7.

Lemma reads_terminate_witness :
  is_Some (GetValue (fun _ => {[3 := one_key_kv]}) (fun _ _ => true) 5 0 (mkGetValueRequest (FragDbKey 3 7 0) 0 3)).
Proof.
  destruct (reads_terminate (fun _ => {[3 := one_key_kv]}) (fun _ _ => true)) with (fuel := 4%nat) as (H & _).
  - intros n g kv g' s f Hkv. apply lookup_singleton_Some in Hkv as [_ <-].
    unfold one_key_kv, db_get, gmap_engine. cbn [kv_db]. apply lookup_singleton_ne. intros He. assert (KMeta 3 [107] = KMeta g' (FragDbKey g' s f)) as Hk by (apply db_key_inj; exact He).
    discriminate Hk.
  - apply H.
Defined.
End witness.

(** A user who puts the keys [__frag__/3/8/1] at index 7 and [__frag__/3/7/0] at index
    8 makes two stripes each of whose fragments is found under the other's key: a
    read of either never ends. *)
Section divergence.
Context {isal : IsaL}.

Definition loop_key (idx : Z) : Slice := if idx =? 7 then FragDbKey 3 8 1 else FragDbKey 3 7 0.
Definition loop_meta (idx : Z) : StripeLogMeta :=
  mkStripeLogMeta (loop_key idx) idx idx 3 2 kLrc 2 1 1 0
    [mkFragmentPlacement 0 0 0 kData; mkFragmentPlacement 1 0 1 kData].
Definition loop_kv : KvNode (gmap Slice Slice) :=
  mkKvNode (<[StripeMetaDbKey 3 (loop_key 7) := StripeLogMeta_Serialize (loop_meta 7)]>
    (<[StripeMetaDbKey 3 (loop_key 8) := StripeLogMeta_Serialize (loop_meta 8)]> ∅)) 8.
Definition loop_registry (n : Z) : gmap Z (KvNode (gmap Slice Slice)) := {[3 := loop_kv]}.

Lemma loop_lookup idx : idx = 7 \/ idx = 8 ->
  db_get (kv_db loop_kv) (StripeMetaDbKey 3 (loop_key idx)) = Some (StripeLogMeta_Serialize (loop_meta idx)) /\
  StripeLogMeta_Deserialize (StripeLogMeta_Serialize (loop_meta idx)) = Ok (loop_meta idx, []).
Proof. intros [->| ->]; split; vm_compute; reflexivity. Qed.

Lemma loop_step (G : Z -> GetValueRequest -> option GetValueResponse) idx other :
  (idx = 7 /\ other = 0) \/ (idx = 8 /\ other = 1) ->
  G other (mkGetValueRequest (loop_key (15 - idx)) 0 3) = None ->
  TryStripeGet (call (fun _ _ => true) G (1 - other)) (1 - other) loop_kv (mkGetValueRequest (loop_key idx) 0 3) = None.
Proof.
  intros Hcase HG. destruct (loop_lookup idx) as [Hm Hd]; [lia|].
  unfold TryStripeGet. cbn [gvq_group_id gvq_key]. rewrite Hm, Hd.
  assert (data_placement (slm_placement (loop_meta idx)) =
    [mkFragmentPlacement 0 0 0 kData; mkFragmentPlacement 1 0 1 kData]) as -> by done.
  cbn [length slm_k loop_meta]. change (negb (Z.of_nat 2 =? u64 2)) with false. cbn match.
  cbn [fetch_all]. unfold fetch_frag, call. cbn [gvq_group_id gvq_read_index slm_stripe_id frag_id node_id loop_meta].
  destruct Hcase as [[-> ->]|[-> ->]]; cbn [Z.eqb Z.sub] in *.
  - change (G (u32 0) _) with (G 0 (mkGetValueRequest (loop_key (15 - 7)) 0 3)). by rewrite HG.
  - change (0 =? i32 (1 - 1)) with true. cbn match. cbn [mbind option_bind].
    change (1 =? i32 (1 - 1)) with false. cbn match.
    change (G (u32 1) _) with (G 1 (mkGetValueRequest (loop_key (15 - 8)) 0 3)). by rewrite HG.
Qed.

Lemma colliding_keys_diverge fuel :
  GetValue loop_registry (fun _ _ => true) fuel 0 (mkGetValueRequest (loop_key 8) 0 3) = None /\
  GetValue loop_registry (fun _ _ => true) fuel 1 (mkGetValueRequest (loop_key 7) 0 3) = None.
Proof.
  induction fuel as [|fuel [IH0 IH1]]; [done|]. cbn [GetValue]. unfold value_target, GetNodeForGroup, loop_registry.
  cbn [gvq_group_id gvq_read_index gvq_key]. change (negb (3 =? u32 (-1))) with true. cbn match.
  rewrite lookup_singleton_eq. change (0 <? 0) with false. cbn [andb].
  pose proof (loop_step (GetValue loop_registry (fun _ _ => true) fuel) 8 1 ltac:(by right) IH1) as H8.
  pose proof (loop_step (GetValue loop_registry (fun _ _ => true) fuel) 7 0 ltac:(by left) IH0) as H7.
  change (1 - 1) with 0 in H8. change (1 - 0) with 1 in H7. unfold loop_registry in H7, H8. by rewrite H8, H7.
Qed.
End divergence.
