(* ===== verification/PersistQueue.v ===== *)
(** Asynchronous persistence: [PersistQueue] (src/raft/persist_queue.h and
    persist_queue.cc).

    The deque holds pointers to heap items; an item is identified by [pi_ptr], so
    that the worker, which collects pointers under the lock and dereferences them
    after releasing it, is modelled as two separate steps and a dereference of an
    item deleted in between is [None]. [PqStep] is the interleaving of the client
    operations with those worker steps. *)

From S2P Require Import Prelude Types LogManager Storage.

Record PersistItem := mkPersistItem {
  pi_ptr : Z;
  pi_index : Z;
  pi_term : Z;
  pi_entry : LogEntry;
  pi_persisted : bool
}.

Record PersistQueue := mkPersistQueue {
  batch_size_ : Z;
  queue_ : list PersistItem;
  last_persisted_index_ : Z;
  running_ : bool;
  next_ptr_ : Z
}.

Definition set_queue (l : list PersistItem) (q : PersistQueue) : PersistQueue :=
  mkPersistQueue (batch_size_ q) l (last_persisted_index_ q) (running_ q) (next_ptr_ q).

Definition PersistQueue_ctor (batch_size : Z) : PersistQueue := mkPersistQueue batch_size [] 0 true 0.

Definition Push (entry : LogEntry) (index : Z) (q : PersistQueue) : PersistQueue :=
  mkPersistQueue (batch_size_ q)
    (queue_ q ++ [mkPersistItem (next_ptr_ q) index (Term entry) entry false])
    (last_persisted_index_ q) (running_ q) (next_ptr_ q + 1).

Definition LastUnpersistedIndex (q : PersistQueue) : Z :=
  match last (queue_ q) with None => last_persisted_index_ q | Some it => pi_index it end.

(** [GetUnpersistedBatch]: the loop stops when [max_batch] items are found. *)
Fixpoint unpersisted_batch (l : list PersistItem) (from : Z) (max_batch : nat) : list Z :=
  match l with
  | [] => []
  | it :: l =>
      if pi_index it <? from then unpersisted_batch l from max_batch else
      match max_batch with
      | O => []
      | S n => if pi_persisted it then unpersisted_batch l from (S n)
               else pi_ptr it :: unpersisted_batch l from n
      end
  end.
Definition GetUnpersistedBatch (from : Z) (max_batch : nat) (q : PersistQueue) : list Z :=
  unpersisted_batch (queue_ q) from max_batch.

(** [MarkPersisted]: pops from the front while the index is at most [to]. *)
Fixpoint mark_persisted (to : Z) (l : list PersistItem) (last : Z) : list PersistItem * Z :=
  match l with
  | [] => ([], last)
  | it :: l' => if pi_index it <=? to then mark_persisted to l' (pi_index it) else (l, last)
  end.
Definition MarkPersisted (from to : Z) (q : PersistQueue) : PersistQueue :=
  let '(l, last) := mark_persisted to (queue_ q) (last_persisted_index_ q) in
  mkPersistQueue (batch_size_ q) l last (running_ q) (next_ptr_ q).

(** [TruncateFrom]: pops from the front while the index is at least [idx]. *)
Fixpoint truncate_front (idx : Z) (l : list PersistItem) : list PersistItem :=
  match l with
  | [] => []
  | it :: l' => if idx <=? pi_index it then truncate_front idx l' else l
  end.
Definition TruncateFrom (idx : Z) (q : PersistQueue) : PersistQueue :=
  set_queue (truncate_front idx (queue_ q)) q.

Fixpoint is_unpersisted (idx : Z) (l : list PersistItem) : bool :=
  match l with
  | [] => false
  | it :: l => if pi_index it =? idx then negb (pi_persisted it)
               else if idx <? pi_index it then false else is_unpersisted idx l
  end.
Definition IsUnpersisted (idx : Z) (q : PersistQueue) : bool := is_unpersisted idx (queue_ q).

Fixpoint drop_unpersisted (l : list PersistItem) : list PersistItem :=
  match l with
  | [] => []
  | it :: l' => if pi_persisted it then l else drop_unpersisted l'
  end.
Definition OnTermChange (new_term : Z) (q : PersistQueue) : PersistQueue :=
  set_queue (drop_unpersisted (queue_ q)) q.

Definition Shutdown (q : PersistQueue) : PersistQueue :=
  mkPersistQueue (batch_size_ q) [] (last_persisted_index_ q) false (next_ptr_ q).

(** ** The worker, one iteration in two steps *)

(** Under the lock: the pointers of the first [batch_size_] unpersisted items. *)
Fixpoint collect (l : list PersistItem) (n : nat) : list Z :=
  match l, n with
  | it :: l, S n' => if pi_persisted it then collect l n else pi_ptr it :: collect l n'
  | _, _ => []
  end.
Definition worker_collect (q : PersistQueue) : list Z := collect (queue_ q) (Z.to_nat (batch_size_ q)).

(** [item->...] on a pointer: the item must still be allocated. *)
Definition deref (q : PersistQueue) (p : Z) : option PersistItem :=
  snd <$> list_find (fun it => pi_ptr it = p) (queue_ q).

(** Without the lock: reads the batch, writes it, syncs and marks it. *)
Definition worker_persist {St} `{Storage St} (batch : list Z) (q : PersistQueue) (st : St)
    : option (PersistQueue * St) :=
  match batch with
  | [] => Some (q, st)
  | _ =>
      items ← mapM (deref q) batch;
      f ← head items; b ← last items;
      st ← PersistEntries (pi_index f) (pi_index b) (pi_entry <$> items) st;
      st ← Sync st;
      Some (MarkPersisted (pi_index f) (pi_index b) q, st)
  end.

(** One undisturbed iteration of [PersistWorkerLoop]. *)
Definition PersistWorkerLoop_body {St} `{Storage St} (q : PersistQueue) (st : St)
    : option (PersistQueue * St) := worker_persist (worker_collect q) q st.

(** ** Interleavings *)
Record PqState (St : Type) := mkPqState { pq_queue : PersistQueue; pq_store : St; pq_batch : list Z }.
Arguments mkPqState {St}.
Arguments pq_queue {St}.
Arguments pq_store {St}.
Arguments pq_batch {St}.

(** A step, and the index it pushes. [Propose] gives an entry its index under the lock of
    the Raft state and pushes it after it released that lock, so pushes come in any
    order. *)
Inductive PqStep {St} `{Storage St} : PqState St -> option Z -> PqState St -> Prop :=
| StepPush q st b e idx : PqStep (mkPqState q st b) (Some idx) (mkPqState (Push e idx q) st b)
| StepTruncate q st b idx : PqStep (mkPqState q st b) None (mkPqState (TruncateFrom idx q) st b)
| StepTermChange q st b t : PqStep (mkPqState q st b) None (mkPqState (OnTermChange t q) st b)
| StepCollect q st : running_ q = true -> PqStep (mkPqState q st []) None (mkPqState q st (worker_collect q))
| StepPersist q st b q' st' :
    worker_persist b q st = Some (q', st') -> PqStep (mkPqState q st b) None (mkPqState q' st' [])
| StepShutdown q st : PqStep (mkPqState q st []) None (mkPqState (Shutdown q) st []).

(** A run with the indices that were pushed, in the order of the pushes. *)
Inductive PqRun {St} `{Storage St} : PqState St -> list Z -> PqState St -> Prop :=
| PqRunNil s : PqRun s [] s
| PqRunStep s1 pushed s2 i s3 : PqRun s1 pushed s2 -> PqStep s2 i s3 -> PqRun s1 (pushed ++ option_list i) s3.

(** ** Invariants.
    Whatever the order of the pushes, nothing in the queue is persisted and the items
    are different objects. A queue in order has growing indices as well. *)
Record queue_wf (q : PersistQueue) : Prop := {
  qw_unpersisted : Forall (fun it => pi_persisted it = false) (queue_ q);
  qw_ptr : StronglySorted Z.lt (pi_ptr <$> queue_ q);
  qw_fresh : Forall (fun it => pi_ptr it < next_ptr_ q) (queue_ q)
}.
Record queue_ok (q : PersistQueue) : Prop := {
  qo_wf : queue_wf q;
  qo_sorted : StronglySorted Z.lt (pi_index <$> queue_ q)
}.

Lemma StronglySorted_fmap_drop {A} (f : A -> Z) n (l : list A) :
  StronglySorted Z.lt (f <$> l) -> StronglySorted Z.lt (f <$> drop n l).
Proof.
  intros H. rewrite <- (take_drop n l), fmap_app in H. by apply StronglySorted_app_1_r in H.
Qed.

Lemma StronglySorted_fmap_snoc {A} (f : A -> Z) (l : list A) x :
  StronglySorted Z.lt (f <$> l) -> Forall (fun y => f y < f x) l ->
  StronglySorted Z.lt (f <$> l ++ [x]).
Proof.
  intros Hs Hf. rewrite fmap_app. apply StronglySorted_app_2; [|done|repeat constructor].
  intros a b [y [-> Hy]]%list_elem_of_fmap ->%list_elem_of_singleton.
  rewrite Forall_forall in Hf. by apply Hf.
Qed.

(** Everything but a push takes items from the front, or nothing. *)
Definition pops (q q' : PersistQueue) : Prop := next_ptr_ q' = next_ptr_ q /\ exists n, queue_ q' = drop n (queue_ q).

Lemma queue_wf_pops q q' : pops q q' -> queue_wf q -> queue_wf q'.
Proof.
  intros [Hn [n Hq]] [Hu Hp Hf]. split; rewrite Hq, ?Hn; [by apply Forall_drop|by apply StronglySorted_fmap_drop|by apply Forall_drop].
Qed.

Lemma queue_ok_pops q q' : pops q q' -> queue_ok q -> queue_ok q'.
Proof.
  intros Hpops [Hw Hs]. split; [by eapply queue_wf_pops|]. destruct Hpops as [_ [n ->]]. by apply StronglySorted_fmap_drop.
Qed.

Lemma truncate_front_drop idx l : exists n, truncate_front idx l = drop n l.
Proof.
  induction l as [|it l [n IH]]; cbn; [by exists 0%nat|].
  destruct (idx <=? pi_index it); [by exists (S n)|by exists 0%nat].
Qed.

Lemma drop_unpersisted_drop l : exists n, drop_unpersisted l = drop n l.
Proof.
  induction l as [|it l [n IH]]; cbn; [by exists 0%nat|].
  destruct (pi_persisted it); [by exists 0%nat|by exists (S n)].
Qed.

Lemma mark_persisted_drop to l : forall last, exists n last', mark_persisted to l last = (drop n l, last').
Proof.
  induction l as [|it l IH]; intros last; cbn; [by exists 0%nat, last|].
  destruct (pi_index it <=? to); [|by exists 0%nat, last].
  destruct (IH (pi_index it)) as (n & last' & ->). by exists (S n), last'.
Qed.

Lemma MarkPersisted_pops lo hi q : pops q (MarkPersisted lo hi q).
Proof.
  unfold MarkPersisted. destruct (mark_persisted_drop hi (queue_ q) (last_persisted_index_ q)) as (n & last' & ->).
  split; [done|by exists n].
Qed.

Lemma worker_persist_queue {St} `{Storage St} b q (st : St) q' st' :
  worker_persist b q st = Some (q', st') -> q' = q \/ exists lo hi, q' = MarkPersisted lo hi q.
Proof.
  unfold worker_persist. destruct b as [|p b]; [intros [= <- <-]; by left|].
  intros Hx. right.
  repeat (match goal with
          | Hx : (?o ≫= _) = Some _ |- _ =>
              let y := fresh in let E := fresh in
              apply option.bind_Some in Hx as (y & E & Hx)
          end).
  injection Hx as <- <-. eauto.
Qed.

Lemma PqStep_pops {St} `{Storage St} (s s' : PqState St) :
  PqStep s None s' -> pops (pq_queue s) (pq_queue s').
Proof.
  inversion 1 as [|q st b idx|q st b t|q st|q st b q' st' Hw|q st]; subst; cbn.
  - split; [done|apply truncate_front_drop].
  - split; [done|apply drop_unpersisted_drop].
  - split; [done|by exists 0%nat].
  - apply worker_persist_queue in Hw as [->|(lo & hi & ->)]; [|apply MarkPersisted_pops]. split; [done|by exists 0%nat].
  - split; [done|]. exists (length (queue_ q)). cbn. by rewrite drop_all.
Qed.

Lemma queue_wf_Push e idx q : queue_wf q -> queue_wf (Push e idx q).
Proof.
  intros [Hu Hp Hf]. split; cbn; rewrite ?Forall_app, ?Forall_singleton; cbn; [done|by apply StronglySorted_fmap_snoc|].
  split; [|lia]. eapply Forall_impl; [exact Hf|]. cbn. lia.
Qed.

(** The queue holds what was pushed last. *)
Lemma PqRun_ok {St} `{Storage St} (s : PqState St) pushed s' : PqRun s pushed s' ->
  queue_ (pq_queue s) = [] -> queue_wf (pq_queue s') /\ (pi_index <$> queue_ (pq_queue s')) `suffix_of` pushed.
Proof.
  induction 1 as [s|s pushed s2 i s3 _ IH Hs]; intros He.
  - rewrite He. split; [split; rewrite He; constructor|by exists []].
  - destruct (IH He) as [Hw [k Hk]]. destruct i as [idx|].
    + rewrite Hk. inversion Hs; subst; cbn in *. split; [by apply queue_wf_Push|]. exists k. by rewrite fmap_app, app_assoc.
    + apply PqStep_pops in Hs. split; [by eapply queue_wf_pops|]. destruct Hs as [_ [n ->]]. cbn. rewrite app_nil_r, Hk.
      exists (k ++ take n (pi_index <$> queue_ (pq_queue s2))). by rewrite <- app_assoc, fmap_drop, take_drop.
Qed.

(** The search answers the first item that is not below the index. *)
Lemma is_unpersisted_first idx l : Forall (fun it => pi_persisted it = false) l ->
  is_unpersisted idx l = true <->
  exists front it back, l = front ++ it :: back /\ pi_index it = idx /\ Forall (fun x => pi_index x < idx) front.
Proof.
  induction 1 as [|x l Hx _ IH]; cbn; [split; [done|]; by intros ([] & ? & ? & ? & _)|].
  destruct (Z.eqb_spec (pi_index x) idx) as [He|Hne].
  - rewrite Hx. split; [|done]. intros _. by exists [], x, l.
  - destruct (Z.ltb_spec idx (pi_index x)) as [Hlt|Hge].
    + split; [done|]. intros ([|y front] & it & back & [= -> Hl] & Hi & Hf); [done|]. apply Forall_inv in Hf. lia.
    + rewrite IH. split.
      * intros (front & it & back & -> & Hi & Hf). exists (x :: front), it, back. split_and!; [done|done|].
        constructor; [lia|done].
      * intros ([|y front] & it & back & [= -> Hl] & Hi & Hf); [done|]. exists front, it, back. by apply Forall_cons in Hf as [_ Hf].
Qed.

(** [C27] The persistence queue and its worker under every interleaving of pushes in any
    order, truncations, term changes, the two halves of a worker iteration and the
    shutdown. The queue always holds what was pushed last. [IsUnpersisted], which stops
    at the first larger index, says yes exactly if an entry of this index is queued
    and every entry in front of it has a smaller one; so it never says yes for an
    index that is not queued, and when the pushes came in the order of their indices
    it says yes for every index that is. *)
Theorem IsUnpersisted_exact {St} `{Storage St} (n : Z) (st : St) (pushed : list Z) (s : PqState St) (idx : Z)
    (Hrun : PqRun (mkPqState (PersistQueue_ctor n) st []) pushed s) :
  (pi_index <$> queue_ (pq_queue s)) `suffix_of` pushed /\
  (IsUnpersisted idx (pq_queue s) = true <->
     exists front it back, queue_ (pq_queue s) = front ++ it :: back /\ pi_index it = idx /\
       Forall (fun x => pi_index x < idx) front) /\
  (StronglySorted Z.lt pushed ->
     StronglySorted Z.lt (pi_index <$> queue_ (pq_queue s)) /\
     (IsUnpersisted idx (pq_queue s) = true <-> idx ∈ pi_index <$> queue_ (pq_queue s))).
Proof.
  destruct (PqRun_ok _ _ _ Hrun eq_refl) as [Hw Hsuf]. pose proof (is_unpersisted_first idx _ (qw_unpersisted _ Hw)) as Hfirst.
  fold (IsUnpersisted idx (pq_queue s)) in Hfirst. split_and!; [done|done|]. intros Hs.
  assert (StronglySorted Z.lt (pi_index <$> queue_ (pq_queue s))) as Hq.
  { destruct Hsuf as [k Hk]. rewrite Hk in Hs. by apply StronglySorted_app_1_r in Hs. }
  split; [done|]. rewrite Hfirst. split.
  - intros (front & it & back & -> & <- & _). apply list_elem_of_fmap_2, elem_of_app. right. by left.
  - intros (it & -> & (front & back & Hl)%list_elem_of_split)%list_elem_of_fmap. exists front, it, back.
    split_and!; [done|done|]. rewrite Hl, fmap_app in Hq. apply Forall_forall. intros x Hx.
    eapply StronglySorted_app_1_elem_of; [exact Hq|by apply list_elem_of_fmap_2|by left].
Qed.

(** [TruncateFrom(idx)] pops from the front only: on an ordered queue it
    either empties the queue or removes nothing, so when the oldest queued entry
    is below [idx] the conflicting entries from [idx] on stay queued and are
    written to storage later. *)
Theorem TruncateFrom_all_or_nothing (q : PersistQueue) (idx : Z) (it : PersistItem) (l : list PersistItem)
    (Hq : queue_ok q) (Hne : queue_ q = it :: l) :
  queue_ (TruncateFrom idx q) = (if idx <=? pi_index it then [] else queue_ q).
Proof.
  cbn. pose proof (qo_sorted _ Hq) as Hs. rewrite Hne in *. cbn [truncate_front].
  destruct (Z.leb_spec idx (pi_index it)) as [Hle|]; [|done].
  rewrite ?fmap_cons in Hs. apply StronglySorted_cons in Hs as [Hlt _]. rewrite Forall_fmap in Hlt.
  clear Hne. induction Hlt as [|x l Hx Hlt IH]; [done|]. cbn in *.
  rewrite (proj2 (Z.leb_le _ _)) by lia. done.
Qed.

(** The worker reads the items it collected after it released the lock. When a follower
    truncates the queue from an index that is not above the oldest item in between, the
    items are deleted and the worker uses them: its iteration has no defined result. *)
Theorem truncation_frees_batch {St} `{Storage St} (q : PersistQueue) (st : St) (idx : Z) (it : PersistItem) (l : list PersistItem)
    (Hq : queue_ok q) (Hne : queue_ q = it :: l) (Hb : 0 < batch_size_ q) (Hidx : idx <= pi_index it) :
  worker_persist (worker_collect q) (TruncateFrom idx q) st = None.
Proof.
  pose proof (TruncateFrom_all_or_nothing q idx it l Hq Hne) as Ht. rewrite (proj2 (Z.leb_le _ _) Hidx) in Ht.
  pose proof (qw_unpersisted _ (qo_wf _ Hq)) as Hu. rewrite Hne in Hu. apply Forall_inv in Hu.
  unfold worker_collect. rewrite Hne. destruct (Z.to_nat (batch_size_ q)) as [|n] eqn:En; [lia|].
  assert (collect (it :: l) (S n) = pi_ptr it :: collect l n) as -> by (cbn; by rewrite Hu).
  set (q' := TruncateFrom idx q) in *. assert (deref q' (pi_ptr it) = None) as Hd by (unfold deref; by rewrite Ht).
  unfold worker_persist. cbn -[deref q']. by rewrite Hd.
Qed.

(** ** Draining the queue into a file *)
Record backlog (q : PersistQueue) (lo : Z) : Prop := {
  bl_ok : queue_ok q;
  bl_batch : 0 < batch_size_ q;
  bl_index : forall i it, queue_ q !! i = Some it ->
    pi_index it = lo + Z.of_nat i /\ Index (pi_entry it) = pi_index it;
  bl_lo : 0 <= lo;
  bl_bound : lo + Z.of_nat (length (queue_ q)) < 2 ^ 32
}.

Definition pending (q : PersistQueue) : list LogEntry := pi_entry <$> queue_ q.

Lemma collect_take l n :
  Forall (fun it => pi_persisted it = false) l -> collect l n = pi_ptr <$> take n l.
Proof.
  intros Hu. revert n. induction Hu as [|it l Hi Hu IH]; intros [|n]; cbn; try done.
  rewrite Hi. by rewrite IH.
Qed.

Lemma deref_in q it : queue_wf q -> it ∈ queue_ q -> deref q (pi_ptr it) = Some it.
Proof.
  intros Hq Hin. pose proof (qw_ptr _ Hq) as Hs. unfold deref.
  induction (queue_ q) as [|x l IH]; [by apply elem_of_nil in Hin|].
  rewrite fmap_cons in Hs. apply StronglySorted_cons in Hs as [Hlt Hs].
  rewrite Forall_fmap, Forall_forall in Hlt. cbn. case_decide as Hp.
  - apply elem_of_cons in Hin as [->|Hin]; [done|]. specialize (Hlt it Hin). cbn in Hlt. lia.
  - apply elem_of_cons in Hin as [->|Hin]; [done|]. specialize (IH Hin Hs).
    by destruct (list_find _ l) as [[? ?]|].
Qed.

Lemma deref_batch q n : queue_wf q -> mapM (deref q) (pi_ptr <$> take n (queue_ q)) = Some (take n (queue_ q)).
Proof.
  intros Hq. apply mapM_Some. apply Forall2_fmap_l, Forall_Forall2_diag, Forall_forall.
  intros it Hin. apply deref_in; [done|]. apply elem_of_take in Hin as (i & Hi & _).
  by eapply list_elem_of_lookup_2.
Qed.

Lemma mark_persisted_take l lo (n : nat) : forall last,
  (forall i it, l !! i = Some it -> pi_index it = lo + Z.of_nat i) ->
  exists last', mark_persisted (lo + Z.of_nat n - 1) l last = (drop n l, last').
Proof.
  revert lo n. induction l as [|it l IH]; intros lo n last Hix; cbn.
  - exists last. by rewrite drop_nil.
  - pose proof (Hix 0%nat it eq_refl) as H0. rewrite H0. destruct n as [|n].
    + rewrite (proj2 (Z.leb_gt _ _)) by lia. eauto.
    + rewrite (proj2 (Z.leb_le _ _)) by lia. cbn.
      destruct (IH (lo + 1) n (lo + Z.of_nat 0)) as [last' Hl].
      { intros i x Hx. rewrite (Hix (S i) x Hx). lia. }
      exists last'. rewrite <- Hl. f_equal. lia.
Qed.

Section drain.
Context `{Layout}.

(** The worker collects a non-empty prefix of the queue and can still read it
    when the lock is released: [k] items, the first [f] and the last [b]. *)
Lemma collected_prefix q : queue_ok q -> 0 < batch_size_ q -> queue_ q <> [] ->
  exists k f b, (0 < k <= length (queue_ q))%nat /\ worker_collect q <> [] /\
    mapM (deref q) (worker_collect q) = Some (take k (queue_ q)) /\
    head (take k (queue_ q)) = Some f /\ queue_ q !! 0%nat = Some f /\
    last (take k (queue_ q)) = Some b /\ queue_ q !! (k - 1)%nat = Some b.
Proof.
  intros Hq Hbs Hne. unfold worker_collect. rewrite (collect_take _ _ (qw_unpersisted _ (qo_wf _ Hq))).
  set (n := Z.to_nat (batch_size_ q)).
  assert (0 < length (queue_ q))%nat as Hlen by (destruct (queue_ q); [done|cbn; lia]).
  set (k := Nat.min n (length (queue_ q))).
  assert (take n (queue_ q) = take k (queue_ q)) as ->.
  { unfold k. destruct (Nat.min_spec n (length (queue_ q))) as [[? ->]|[? ->]]; [done|].
    by rewrite !firstn_all2 by lia. }
  destruct (lookup_lt_is_Some_2 (queue_ q) 0%nat) as [f Hf]; [done|].
  destruct (lookup_lt_is_Some_2 (queue_ q) (k - 1)%nat) as [b Hb]; [lia|].
  exists k, f, b. rewrite deref_batch by apply Hq.
  rewrite head_lookup, last_lookup, length_take, Nat.min_l by lia.
  replace (Nat.pred k) with (k - 1)%nat by lia. rewrite !lookup_take_lt by lia.
  split_and!; try done; try lia.
  intros Ep%(f_equal length). rewrite length_fmap, length_take in Ep. cbn in Ep. lia.
Qed.

(** One iteration moves a batch from the queue to the file. *)
Lemma worker_iteration q (st : FileStorage) :
  backlog q (LastIndex st + 1) -> queue_ q <> [] ->
  exists q' st', PersistWorkerLoop_body q st = Some (q', st') /\
    backlog q' (LastIndex st' + 1) /\ disk_header st' = header_ st' /\
    records st' ++ pending q' = records st ++ pending q /\
    (length (queue_ q') < length (queue_ q))%nat.
Proof.
  intros [Hq Hbs Hix Hlo Hb] Hne. unfold PersistWorkerLoop_body, worker_persist.
  destruct (collected_prefix q Hq) as (k & f & b & Hk & Hc & Hm & Hh & Hf & Hla & Hbk); [lia|done|].
  destruct (worker_collect q) as [|p ps]; [done|]. rewrite Hm. cbn [mbind option_bind].
  rewrite Hh. cbn [mbind option_bind]. rewrite Hla. cbn [mbind option_bind].
  clear Hc Hh Hla Hm. set (l := queue_ q) in *.
  destruct (Hix _ _ Hf) as [Hf1 _]. destruct (Hix _ _ Hbk) as [Hb1 _]. cbn in *.
  destruct (PersistEntries_appends (pi_entry <$> take k l) (pi_index f) (pi_index b) st)
    as (st1 & -> & Hr & Hl & Hd & Hs).
  - lia.
  - lia.
  - intros i e (it & -> & [Hit ?]%lookup_take_full)%list_lookup_fmap_Some.
    destruct (Hix _ _ Hit). lia.
  - lia.
  - rewrite length_fmap, length_take. lia.
  - rewrite length_fmap, length_take, Nat.min_l in Hl by lia. cbn.
    unfold MarkPersisted. fold l.
    destruct (mark_persisted_take l (lastLogIndex (header_ st) + 1) k (last_persisted_index_ q))
      as [last' Hm]; [intros i it Hit; by apply Hix|].
    replace (lastLogIndex (header_ st) + 1 + Z.of_nat k - 1) with (pi_index b) in Hm by lia.
    pose proof (queue_ok_pops _ _ (MarkPersisted_pops (pi_index f) (pi_index b) q) Hq) as Hq'.
    unfold MarkPersisted in Hq'. fold l in Hq'. rewrite Hm in *.
    eexists _, _. split; [done|]. unfold pending. cbn. split_and!.
    + split; cbn; [done|done| |lia|rewrite length_drop; lia].
      intros i it Hit. rewrite lookup_drop in Hit. destruct (Hix _ _ Hit). lia.
    + done.
    + rewrite Hr, <- app_assoc, <- fmap_app, take_drop. done.
    + rewrite length_drop. lia.
Qed.

(** [n] undisturbed iterations. *)
Fixpoint PersistWorkerLoop (n : nat) (q : PersistQueue) (st : FileStorage)
    : option (PersistQueue * FileStorage) :=
  match n with
  | O => Some (q, st)
  | S n => r ← PersistWorkerLoop_body q st; PersistWorkerLoop n (fst r) (snd r)
  end.

Lemma body_empty q (st : FileStorage) : queue_ q = [] -> PersistWorkerLoop_body q st = Some (q, st).
Proof. intros Hq. unfold PersistWorkerLoop_body, worker_collect. by rewrite Hq. Qed.

Lemma worker_loop_drains n : forall q (st : FileStorage),
  backlog q (LastIndex st + 1) -> (length (queue_ q) <= n)%nat ->
  disk_header st = header_ st ->
  exists q' st', PersistWorkerLoop n q st = Some (q', st') /\ queue_ q' = [] /\
    records st' = records st ++ pending q /\ disk_header st' = header_ st'.
Proof.
  induction n as [|n IH]; intros q st Hbl Hn Hd.
  - destruct (queue_ q) eqn:E; [|cbn in Hn; lia]. exists q, st. unfold pending. rewrite E, app_nil_r. done.
  - cbn [PersistWorkerLoop]. destruct (decide (queue_ q = [])) as [E|Hne].
    + rewrite body_empty by done. cbn. apply IH; [done|rewrite E; cbn; lia|done].
    + destruct (worker_iteration q st Hbl Hne) as (q1 & st1 & -> & Hbl1 & Hd1 & Hp & Hlt). cbn.
      destruct (IH q1 st1 Hbl1) as (q' & st' & -> & He & Hr & Hd'); [lia|done|].
      exists q', st'. rewrite Hr, Hp. done.
Qed.
End drain.

(** Left undisturbed, the background worker drains the queue: from a backlog
    whose indices continue the file, as many iterations as there are queued
    entries always succeed, empty the queue, append exactly the queued entries in
    order and leave the file's header written. *)
Theorem PersistWorkerLoop_drains `{Layout} (q : PersistQueue) (st : FileStorage)
    (Hbl : backlog q (LastIndex st + 1)) (Hd : disk_header st = header_ st) :
  exists q' st', PersistWorkerLoop (length (queue_ q)) q st = Some (q', st') /\ queue_ q' = [] /\
    records st' = records st ++ pending q /\ disk_header st' = header_ st'.
Proof. by apply worker_loop_drains. Qed.

(** Two proposals that push in the wrong order stop the worker for good: for the batch
    of the two it calls [PersistEntries] with a range that ends before it begins,
    which writes nothing, and then [MarkPersisted] finds a larger index in front and
    removes nothing. However often it tries, the entries stay queued and the file
    does not change; and [IsUnpersisted] denies that the second one is queued. *)
Theorem out_of_order_never_persisted `{Layout} (q : PersistQueue) (st : FileStorage) (e1 e2 : LogEntry) (i1 i2 : Z) (n : nat)
    (Hq : queue_ q = []) (Hbatch : 2 <= batch_size_ q) (Hi : i1 < i2) (Hd : disk_header st = header_ st) :
  let q' := Push e1 i1 (Push e2 i2 q) in
  PersistWorkerLoop n q' st = Some (q', st) /\ IsUnpersisted i1 q' = false.
Proof.
  cbv zeta. set (q' := Push e1 i1 (Push e2 i2 q)).
  set (it2 := mkPersistItem (next_ptr_ q) i2 (Term e2) e2 false).
  set (it1 := mkPersistItem (next_ptr_ q + 1) i1 (Term e1) e1 false).
  assert (queue_ q' = [it2; it1]) as Hq' by (unfold q'; cbn; by rewrite Hq).
  assert (queue_wf q') as Hw by (split; rewrite Hq'; repeat constructor; cbn; lia).
  assert (mapM (deref q') [pi_ptr it2; pi_ptr it1] = Some [it2; it1]) as Hm.
  { pose proof (deref_batch q' 2 Hw) as Hm. by rewrite Hq' in Hm. }
  assert (MarkPersisted i2 i1 q' = q') as Hmark.
  { unfold MarkPersisted. rewrite Hq'. cbn. rewrite (proj2 (Z.leb_gt i2 i1)) by done. unfold q', Push. cbn. by rewrite Hq. }
  split.
  - assert (PersistWorkerLoop_body q' st = Some (q', st)) as Hb; [|induction n as [|n IH]; cbn; [done|by rewrite Hb]].
    unfold PersistWorkerLoop_body. assert (worker_collect q' = [pi_ptr it2; pi_ptr it1]) as ->.
    { unfold worker_collect. rewrite (collect_take _ _ (qw_unpersisted _ Hw)), firstn_all2, Hq'; [done|].
      rewrite Hq'. cbn. lia. }
    unfold worker_persist. rewrite Hm. cbn -[MarkPersisted]. unfold fs_PersistEntries. rewrite (proj2 (Z.ltb_lt i1 i2)) by done.
    cbn -[MarkPersisted]. rewrite Hmark. unfold PersistHeader. rewrite <- Hd at 2. by destruct st.
  - unfold IsUnpersisted. rewrite Hq'. cbn. by rewrite (proj2 (Z.eqb_neq i2 i1)), (proj2 (Z.ltb_lt i1 i2)) by lia.
Qed.

(** ** Witnesses *)
#[local] Instance demo_layout : Layout := {| sizeof_LogEntry := 200; kHeaderSize := 32 |}.
Definition demo_e (i : Z) : LogEntry := SetIndex i (SetTerm 1 LogEntry_default).
Definition demo_q : PersistQueue := Push (demo_e 2) 2 (Push (demo_e 1) 1 (PersistQueue_ctor 1)).

Lemma demo_q_ok : queue_ok demo_q.
Proof. split; [split|]; cbn; repeat constructor; cbn; lia. Qed.

Lemma demo_q_backlog : backlog demo_q 1.
Proof.
  split; [apply demo_q_ok|done| |done|done].
  intros [|[|i]] it; cbn; intros [=]; subst; cbn; lia.
Qed.

Lemma PersistWorkerLoop_drains_witness :
  exists q' st', PersistWorkerLoop 2 demo_q FileStorage_create = Some (q', st') /\ queue_ q' = [] /\
    records st' = [demo_e 1; demo_e 2] /\ disk_header st' = header_ st'.
Proof. apply (PersistWorkerLoop_drains demo_q FileStorage_create); [apply demo_q_backlog|reflexivity]. Defined.

Lemma TruncateFrom_all_or_nothing_witness :
  queue_ (TruncateFrom 2 demo_q) = queue_ demo_q /\ IsUnpersisted 2 (TruncateFrom 2 demo_q) = true.
Proof.
  split; [exact (TruncateFrom_all_or_nothing demo_q 2 _ _ demo_q_ok eq_refl)|reflexivity].
Defined.

Lemma truncation_frees_batch_witness :
  worker_persist (worker_collect demo_q) (TruncateFrom 1 demo_q) FileStorage_create = None.
Proof. apply (truncation_frees_batch demo_q _ 1 _ _ demo_q_ok eq_refl); [reflexivity|]. cbn. lia. Defined.

(** Pushed in order, and with 3 in front of 2. *)
Lemma IsUnpersisted_exact_witness :
  (IsUnpersisted 2 demo_q = true <-> 2 ∈ [1; 2]) /\
  ~ (exists front it back, queue_ (Push (demo_e 2) 2 (Push (demo_e 3) 3 (PersistQueue_ctor 1))) = front ++ it :: back /\
       pi_index it = 2 /\ Forall (fun x => pi_index x < 2) front).
Proof.
  assert (forall i j, PqRun (mkPqState (PersistQueue_ctor 1) FileStorage_create []) [i; j]
    (mkPqState (Push (demo_e j) j (Push (demo_e i) i (PersistQueue_ctor 1))) FileStorage_create [])) as Hrun.
  { intros i j. apply (PqRunStep _ [i] (mkPqState (Push (demo_e i) i (PersistQueue_ctor 1)) FileStorage_create []) (Some j)).
    - apply (PqRunStep _ [] (mkPqState (PersistQueue_ctor 1) FileStorage_create []) (Some i)); [apply PqRunNil|apply StepPush].
    - apply StepPush. }
  split.
  - apply (IsUnpersisted_exact 1 FileStorage_create [1; 2] (mkPqState demo_q FileStorage_create []) 2 (Hrun 1 2)).
    repeat constructor.
  - intros Hex. destruct (IsUnpersisted_exact 1 FileStorage_create [3; 2] _ 2 (Hrun 3 2)) as (_ & Hiff & _).
    apply Hiff in Hex. discriminate Hex.
Defined.
