(* ===== verification/Monitors.v ===== *)
(** The helper structures of src/raft/raft.h and the timer of src/raft/util.h:
    [Timer], [LivenessMonitor], [SequenceGenerator], [PreLeaderStripeStore],
    [RaftPeer].

    The clock is a parameter of the operations that read it (microseconds); an
    access outside the fixed-size arrays is [None]. The arrays the C++ code
    leaves uninitialised start with arbitrary contents, so they are ordinary
    fields here and no operation relies on an initial value. *)

From S2P Require Import Prelude Types LogManager Encoder.

(** ** Timer: the start point in microseconds *)
Abbreviation Timer := Z (only parsing).
Definition ElapseMicroseconds (now : Z) (t : Timer) : Z := now - t.
Definition ElapseMilliseconds (now : Z) (t : Timer) : Z := cdiv (now - t) 1000.

Definition kHeartbeatInterval : Z := 200.
Definition kCollectFragmentsInterval : Z := 100.
Definition kReplicateInterval : Z := 1000.
Definition kLivenessTimeoutInterval : Z := 200.

(** ** LivenessMonitor *)
Definition kMaxNodeNum : Z := 10.

Record LivenessMonitor := mkLivenessMonitor {
  lv_node_num : Z;
  response : list bool;
  response_time : list Z;
  lv_me : Z;
  lv_timer : Timer
}.

Definition LivenessMonitor_Init (now : Z) (m : LivenessMonitor) : option LivenessMonitor :=
  if lv_me m <? kMaxNodeNum then
    r ← arr_set (response m) (lv_me m) true;
    t ← arr_set (response_time m) (lv_me m) 0;
    Some (mkLivenessMonitor (lv_node_num m) r t (lv_me m) now)
  else None.

Definition SetLivenessNumber (num : Z) (m : LivenessMonitor) : option LivenessMonitor :=
  r ← foldl (fun acc i => r ← acc; arr_set r i true) (Some (response m))
        (seqZ 0 (Z.min num (Z.min (lv_node_num m) kMaxNodeNum)));
  Some (mkLivenessMonitor (lv_node_num m) r (response_time m) (lv_me m) (lv_timer m)).

(** One iteration of the refresh loop of [UpdateLiveness]; the difference of the
    [uint64_t] times wraps. *)
Definition refresh (elapsed : Z) (times : list Z) (r : list bool) (i : Z) : option (list bool) :=
  ri ← arr_get r i; ti ← arr_get times i;
  arr_set r i (ri && (u64 (elapsed - ti) <? kLivenessTimeoutInterval)).

Definition UpdateLiveness (id now : Z) (m : LivenessMonitor) : option LivenessMonitor :=
  if (kMaxNodeNum <=? id) || (lv_node_num m <=? id) then Some m else
  r ← arr_set (response m) id true;
  let elapsed := u64 (ElapseMilliseconds now (lv_timer m)) in
  t ← arr_set (response_time m) id elapsed;
  r ← foldl (fun acc i => r ← acc; refresh elapsed t r i) (Some r) (seqZ 0 (lv_node_num m));
  r ← arr_set r (lv_me m) true;
  Some (mkLivenessMonitor (lv_node_num m) r t (lv_me m) (lv_timer m)).

Definition LiveNumber (m : LivenessMonitor) : option Z :=
  foldl (fun acc i => c ← acc; b ← arr_get (response m) i; Some (c + b2z b)) (Some 0)
    (seqZ 0 (lv_node_num m)).

Definition IsAlive (target_id : Z) (m : LivenessMonitor) : option bool := arr_get (response m) target_id.

(** ** SequenceGenerator *)
Definition SequenceGenerator_Reset : Z := 1.
Definition SequenceGenerator_Next (seq : Z) : Z * Z := (seq, u64 (seq + 1)).

(** ** PreLeaderStripeStore *)
Definition kResponseCapacity : Z := 32.

Record PreLeaderStripeStore := mkPreLeaderStripeStore {
  start_index : Z;
  end_index : Z;
  stripes : list Stripe;
  response_ : list bool;
  ps_node_num : Z;
  ps_me : Z
}.

Definition InitRequestFragmentsTask (start end_ node_num me : Z) (s : PreLeaderStripeStore)
    : PreLeaderStripeStore :=
  if kResponseCapacity <? node_num then s else
  let stripe_cnt := i32 (u32 (end_ - start + 1)) in
  let r := replicate 32 false in
  mkPreLeaderStripeStore start end_ (replicate (Z.to_nat stripe_cnt) Stripe_default)
    (if me <? kResponseCapacity then <[Z.to_nat me := true]> r else r) node_num me.

Definition UpdateResponseState (id : Z) (s : PreLeaderStripeStore) : PreLeaderStripeStore :=
  if (0 <=? id) && (id <? ps_node_num s) && (id <? kResponseCapacity) then
    mkPreLeaderStripeStore (start_index s) (end_index s) (stripes s)
      (<[Z.to_nat id := true]> (response_ s)) (ps_node_num s) (ps_me s)
  else s.

Definition IsCollected (id : Z) (s : PreLeaderStripeStore) : bool :=
  if (0 <=? id) && (id <? ps_node_num s) && (id <? kResponseCapacity)
  then default false (response_ s !! Z.to_nat id) else false.

Definition CollectedFragmentsCnt (s : PreLeaderStripeStore) : Z :=
  foldr (fun b acc => b2z b + acc) 0
    (take (Z.to_nat (Z.min (ps_node_num s) kResponseCapacity)) (response_ s)).

Definition set_stripes (l : list Stripe) (s : PreLeaderStripeStore) : PreLeaderStripeStore :=
  mkPreLeaderStripeStore (start_index s) (end_index s) l (response_ s) (ps_node_num s) (ps_me s).

Definition AddFragments (idx : Z) (entry : LogEntry) (chunk_id : Z) (s : PreLeaderStripeStore)
    : option PreLeaderStripeStore :=
  if (idx <? start_index s) || (end_index s <? idx) then Some s else
  let array_index := idx - start_index s in
  st ← arr_get (stripes s) array_index;
  l ← arr_set (stripes s) array_index
        (set_s_collected (<[chunk_id := entry]> (s_collected_fragments st)) st);
  Some (set_stripes l s).

(** ** RaftPeer *)
Record RaftPeer := mkRaftPeer {
  NextIndex : Z;
  MatchIndex : Z;
  matchChunkInfo : gmap Z ChunkInfo
}.

Definition RaftPeer_ctor : RaftPeer := mkRaftPeer 0 0 ∅.
Definition SetNextIndex (i : Z) (p : RaftPeer) : RaftPeer := mkRaftPeer i (MatchIndex p) (matchChunkInfo p).
Definition SetMatchIndex (i : Z) (p : RaftPeer) : RaftPeer := mkRaftPeer (NextIndex p) i (matchChunkInfo p).
Definition SetMatchChunkInfo (m : gmap Z ChunkInfo) (p : RaftPeer) : RaftPeer :=
  mkRaftPeer (NextIndex p) (MatchIndex p) m.

(** ** The liveness estimate *)
Record monitor_ok (m : LivenessMonitor) : Prop := {
  mo_len : length (response m) = 10%nat;
  mo_times : length (response_time m) = 10%nat;
  mo_num : 1 <= lv_node_num m <= 10;
  mo_me : 0 <= lv_me m < lv_node_num m
}.

(** The refresh loop, as a function of the index. *)
Definition refreshed (elapsed : Z) (times : list Z) (n : nat) (r : list bool) : list bool :=
  imap (fun i b => if decide (i < n)%nat
                   then b && (u64 (elapsed - default 0 (times !! i)) <? kLivenessTimeoutInterval)
                   else b) r.

Lemma refresh_loop elapsed times n : forall r,
  length r = length times -> (n <= length r)%nat ->
  foldl (fun acc i => r ← acc; refresh elapsed times r i) (Some r) (seqZ 0 (Z.of_nat n)) =
  Some (refreshed elapsed times n r).
Proof.
  induction n as [|n IH]; intros r Hl Hn.
  - change (seqZ 0 (Z.of_nat 0)) with (@nil Z). cbn [foldl]. f_equal. unfold refreshed. apply list_eq. intros i. rewrite list_lookup_imap.
    destruct (r !! i); cbn; [by rewrite decide_False by lia|done].
  - rewrite Nat2Z.inj_succ, <- Z.add_1_r, seqZ_snoc by lia. rewrite foldl_app, IH by lia.
    cbn [foldl mbind option_bind]. unfold refresh.
    assert (length (refreshed elapsed times n r) = length r) as Hlr by apply length_imap.
    destruct (lookup_lt_is_Some_2 r n) as [b Hb]; [lia|].
    destruct (lookup_lt_is_Some_2 times n) as [t Ht]; [lia|].
    unfold arr_get, arr_set. rewrite Nat2Z.id, !decide_True by lia. unfold refreshed.
    rewrite list_lookup_imap, Hb, Ht. cbn [fmap option_fmap option_map mbind option_bind].
    rewrite decide_True, decide_False by (rewrite ?length_imap; lia). f_equal. apply list_eq. intros i.
    destruct (decide (i = n)) as [->|Hne].
    + rewrite list_lookup_insert_eq by (rewrite length_imap; lia).
      rewrite list_lookup_imap, Hb. cbn. rewrite decide_True by lia. by rewrite Ht.
    + rewrite list_lookup_insert_ne, !list_lookup_imap by done. destruct (r !! i); cbn; [|done].
      f_equal. destruct (decide (i < n)%nat), (decide (i < S n)%nat); try done; lia.
Qed.

Lemma refresh_loop_Z elapsed times n r :
  length r = length times -> 0 <= n <= Z.of_nat (length r) ->
  foldl (fun acc i => r ← acc; refresh elapsed times r i) (Some r) (seqZ 0 n) =
  Some (refreshed elapsed times (Z.to_nat n) r).
Proof. intros Hl Hn. rewrite <- refresh_loop by lia. by rewrite Z2Nat.id by lia. Qed.

Lemma LiveNumber_count m :
  monitor_ok m ->
  LiveNumber m = Some (Z.of_nat (count_occ bool_dec (take (Z.to_nat (lv_node_num m)) (response m)) true)).
Proof.
  intros [Hl _ Hn _]. unfold LiveNumber.
  replace (lv_node_num m) with (Z.of_nat (Z.to_nat (lv_node_num m))) at 1 by lia.
  assert (Z.to_nat (lv_node_num m) <= length (response m))%nat as Hle by lia.
  revert Hle. generalize (Z.to_nat (lv_node_num m)) as n. intros n. induction n as [|n IH]; intros Hle; [done|].
  rewrite Nat2Z.inj_succ, <- Z.add_1_r, seqZ_snoc by lia. rewrite foldl_app, IH by lia. cbn.
  unfold arr_get. rewrite Nat2Z.id, decide_True by lia.
  destruct (lookup_lt_is_Some_2 (response m) n) as [b Hb]; [lia|]. rewrite Hb. cbn.
  erewrite take_S_r by exact Hb. rewrite count_occ_app. destruct b; cbn; f_equal; lia.
Qed.

(** The monitor after hearing from a node of the group. *)
Lemma UpdateLiveness_run id now m :
  monitor_ok m -> 0 <= id < lv_node_num m ->
  let elapsed := u64 (ElapseMilliseconds now (lv_timer m)) in
  let times := <[Z.to_nat id := elapsed]> (response_time m) in
  let alive := refreshed elapsed times (Z.to_nat (lv_node_num m)) (<[Z.to_nat id := true]> (response m)) in
  let m' := mkLivenessMonitor (lv_node_num m) (<[Z.to_nat (lv_me m) := true]> alive) times (lv_me m) (lv_timer m) in
  UpdateLiveness id now m = Some m' /\ monitor_ok m'.
Proof.
  intros [Hl Ht Hn Hme] Hid. cbv zeta. unfold UpdateLiveness, kMaxNodeNum.
  rewrite (proj2 (Z.leb_gt _ _)), (proj2 (Z.leb_gt _ _)) by lia. cbn [orb].
  rewrite !arr_set_in by lia. cbn [mbind option_bind].
  rewrite refresh_loop_Z by (rewrite ?length_insert; lia). cbn [mbind option_bind].
  rewrite arr_set_in by (unfold refreshed; rewrite length_imap, length_insert; lia).
  split; [done|]. split; cbn; [|by rewrite length_insert|done|done].
  unfold refreshed. by rewrite length_insert, length_imap, length_insert.
Qed.

Lemma UpdateLiveness_total id now m :
  monitor_ok m -> 0 <= id -> exists m', UpdateLiveness id now m = Some m' /\ monitor_ok m'.
Proof.
  intros Hm Hid. destruct (decide (id < lv_node_num m)) as [Hlt|Hge].
  - eexists. by apply UpdateLiveness_run.
  - exists m. split; [|done]. unfold UpdateLiveness. rewrite (proj2 (Z.leb_le (lv_node_num m) id)) by lia.
    by rewrite orb_true_r.
Qed.

(** The liveness estimate: for a group of at most ten nodes, hearing from
    node [id] keeps alive exactly the nodes already alive whose last message is
    less than 200 ms old, adds [id] and the node itself, and the live count then
    lies between 1 and the group size. *)
Theorem UpdateLiveness_spec (id now : Z) (m : LivenessMonitor)
    (Hm : monitor_ok m) (Hid : 0 <= id < lv_node_num m) :
  exists m' n, UpdateLiveness id now m = Some m' /\ monitor_ok m' /\
    (forall j, 0 <= j < lv_node_num m ->
       IsAlive j m' = Some (bool_decide (j = lv_me m \/ j = id) ||
         (default false (IsAlive j m) &&
          (u64 (u64 (ElapseMilliseconds now (lv_timer m)) -
                default 0 (arr_get (response_time m) j)) <? kLivenessTimeoutInterval)))) /\
    LiveNumber m' = Some n /\ 1 <= n <= lv_node_num m.
Proof.
  pose proof Hm as [Hl Ht Hn Hme]. destruct (UpdateLiveness_run id now m Hm Hid) as [Hrun Hm'].
  set (elapsed := u64 _) in *. set (r0 := <[Z.to_nat id := true]> (response m)) in *.
  set (t0 := <[Z.to_nat id := elapsed]> (response_time m)) in *. set (r1 := refreshed _ _ _ _) in *.
  set (m' := mkLivenessMonitor _ _ _ _ _) in *.
  assert (length r1 = 10%nat) as Hr1 by (unfold r1, refreshed, r0; rewrite length_imap, length_insert; done).
  exists m'. eexists. split; [done|]. split; [done|]. split; [|split; [by apply LiveNumber_count|]].
  - intros j Hj. unfold IsAlive, arr_get. rewrite !decide_True by lia. cbn.
    destruct (decide (j = lv_me m)) as [->|Hjm].
    { rewrite list_lookup_insert_eq by lia. by rewrite bool_decide_true by (by left). }
    rewrite list_lookup_insert_ne by lia. unfold r1, refreshed. rewrite list_lookup_imap.
    unfold r0, t0. destruct (decide (j = id)) as [->|Hji].
    + rewrite !list_lookup_insert_eq by lia. cbn. rewrite decide_True by lia.
      rewrite bool_decide_true by (by right). unfold u64. by rewrite Z.sub_diag.
    + rewrite !list_lookup_insert_ne by lia. rewrite bool_decide_false by lia.
      destruct (lookup_lt_is_Some_2 (response m) (Z.to_nat j)) as [b Hb]; [lia|]. rewrite Hb. cbn.
      by rewrite decide_True by lia.
  - assert (0 < count_occ bool_dec (take (Z.to_nat (lv_node_num m')) (response m')) true)%nat as Hpos.
    { apply count_occ_In, list_elem_of_In, elem_of_take. exists (Z.to_nat (lv_me m)). cbn.
      rewrite list_lookup_insert_eq by lia. split; [done|lia]. }
    pose proof (count_occ_bound bool_dec true (take (Z.to_nat (lv_node_num m')) (response m'))) as Hb.
    rewrite length_take in Hb. cbn [lv_node_num m'] in *. lia.
Qed.

(** The arrays hold ten nodes but the loop runs to the group size: in a
    group of more than ten nodes the first message from any node with an id below
    ten reads past the end of the arrays. *)
Theorem UpdateLiveness_overruns (id now : Z) (m : LivenessMonitor)
    (Hl : length (response m) = 10%nat) (Ht : length (response_time m) = 10%nat) (Hn : 10 < lv_node_num m) (Hid : 0 <= id < 10) :
  UpdateLiveness id now m = None /\ LiveNumber m = None.
Proof.
  assert (forall (A : Type) (f : A -> Z -> option A) l, foldl (fun acc i => r ← acc; f r i) None l = None) as Hnone.
  { intros A f l. by induction l. }
  assert (forall (A : Type) (f : A -> Z -> option A) (a : A),
    (forall x, f x 10 = None) -> foldl (fun acc i => r ← acc; f r i) (Some a) (seqZ 0 (lv_node_num m)) = None) as Hfold.
  { intros A f a Hf. replace (lv_node_num m) with (10 + (1 + (lv_node_num m - 11))) by lia.
    rewrite !seqZ_app, !foldl_app by lia. cbn [foldl seqZ Z.add].
    change (seqZ (0 + 10) 1) with [10]. cbn [foldl].
    destruct (foldl _ (Some a) (seqZ 0 10)) as [x|]; cbn [mbind option_bind]; [rewrite Hf|]; apply Hnone. }
  split.
  - unfold UpdateLiveness, kMaxNodeNum. rewrite (proj2 (Z.leb_gt _ _)), (proj2 (Z.leb_gt _ _)) by lia. cbn [orb].
    destruct (arr_set (response m) id true) as [r|]; [|done]. cbn [mbind option_bind].
    destruct (arr_set (response_time m) _ _) as [t|] eqn:Et; [|done]. cbn [mbind option_bind].
    apply arr_set_length in Et. rewrite Hfold; [done|]. intros x. unfold refresh.
    rewrite (proj2 (arr_get_None t 10)) by lia. by destruct (arr_get x 10).
  - unfold LiveNumber. apply Hfold. intros x. rewrite (proj2 (arr_get_None _ _)) by lia. done.
Qed.

(** ** Witnesses *)
Definition demo_monitor (n : Z) : LivenessMonitor :=
  mkLivenessMonitor n (replicate 10 false) (replicate 10 0) 0 0.

Lemma UpdateLiveness_spec_witness :
  exists m' n, UpdateLiveness 2 5000 (demo_monitor 5) = Some m' /\ monitor_ok m' /\
    IsAlive 2 m' = Some true /\ IsAlive 1 m' = Some false /\ LiveNumber m' = Some n /\ 1 <= n <= 5.
Proof.
  destruct (UpdateLiveness_spec 2 5000 (demo_monitor 5)) as (m' & n & Hu & Hm & Ha & Hn & Hr).
  - split; cbn; lia.
  - cbn. lia.
  - exists m', n. split_and!; [exact Hu|exact Hm|exact (Ha 2 ltac:(cbn; lia))|exact (Ha 1 ltac:(cbn; lia))|exact Hn|apply Hr|apply Hr].
Defined.

Lemma UpdateLiveness_overruns_witness :
  UpdateLiveness 0 0 (demo_monitor 11) = None /\ LiveNumber (demo_monitor 11) = None.
Proof. apply UpdateLiveness_overruns; [reflexivity|reflexivity|cbn; lia|lia]. Defined.
