(* ===== verification/RaftBase.v ===== *)
(** The state of a Raft node: [RaftState], its configuration and its accessors
    (src/raft/raft.h), with the effects the handlers of raft.cc use.

    The storage is a parameter [St] with the [Storage] interface; [isal], [alloc]
    are the erasure-code kernels and the allocator. The clock [now_]
    (microseconds) and the random stream [rng_] are inputs of the environment kept
    in the state; [sent_] collects the outgoing messages in order, [rsm_] and
    [batch_system_bridge_] the entries handed to the state machine, when present.
    Members the constructor leaves uninitialised are fields with arbitrary
    initial contents ([Uninit]).

    A handler is a computation of the monad [M]; it runs as one atomic step. *)

From S2P Require Import Prelude Types LogManager Encoder Lrc Grouper Storage PersistQueue Monitors.

Inductive RaftRole := kFollower | kCandidate | kPreLeader | kLeader.
#[export] Instance RaftRole_eq_dec : EqDecision RaftRole.
Proof. solve_decision. Defined.

Definition role_eqb (a b : RaftRole) : bool := bool_decide (a = b).

(** [kNotVoted = -1], converted to [raft_node_id_t]. *)
Definition kNotVoted : Z := 2 ^ 32 - 1.

Record RecoveryCtx := mkRecoveryCtx { rc_start_time_ : Z; start_recovery_index_ : Z }.
Record RecoveryRecord := mkRecoveryRecord { recover_node : Z; rr_entry_cnt : Z; rr_dura : Z }.
Record ProposeResult := mkProposeResult { propose_index : Z; propose_term : Z; is_leader : bool }.

(** Messages handed to [RpcClient::sendMessage] and [sendAsyncMessage]. *)
Inductive Msg :=
| MsgRequestVote (to : Z) (args : RequestVoteArgs)
| MsgAppendEntries (to : Z) (args : AppendEntriesArgs)
| MsgRequestFragments (to : Z) (args : RequestFragmentsArgs).

Section state.
Context {St : Type}.

Record RaftState := mkRaftState {
  id_ : Z;
  group_id_ : Z;
  role_ : RaftRole;
  current_term_ : Z;
  vote_for_ : Z;
  commit_index_ : Z;
  last_applied_ : Z;
  lm_ : LogManager;
  storage_ : option St;
  live_monitor_ : LivenessMonitor;
  encoded_stripe_ : gmap Z Stripe;
  last_encoding_ : gmap Z Z;
  preleader_stripe_store_ : PreLeaderStripeStore;
  peers_ : list Z;
  raft_peer_ : list (option RaftPeer);
  rpc_clients_ : list bool;
  election_timer_ : Timer;
  heartbeat_timer_ : Timer;
  preleader_timer_ : Timer;
  replicate_timer_ : Timer;
  electionTimeLimitMin_ : Z;
  electionTimeLimitMax_ : Z;
  election_time_out_ : Z;
  heartbeatTimeInterval : Z;
  rng_ : nat -> Z;
  commit_start_time_ : gmap Z Z;
  commit_elapse_time_ : gmap Z Z;
  recovery_ctx_ : gmap Z RecoveryCtx;
  recover_records_ : list RecoveryRecord;
  alive_servers_of_last_point_ : Z;
  preleader_timepoint_ : Z;
  preleader_recover_ent_cnt_ : Z;
  vote_me_cnt_ : Z;
  rsm_ : option (list LogEntry);
  election_round_ : Z;
  N_physical_nodes_ : Z;
  dynamic_k_ : Z;
  encoding_mode_ : Z;
  batch_system_bridge_ : option (list (Z * Z * LogEntry));
  bridge_group_id_ : Z;
  bridge_node_id_ : Z;
  lrc_grouper_ : option LrcComplementaryGrouper;
  persist_queue_ : option PersistQueue;
  now_ : Z;
  sent_ : list Msg
}.

Definition RaftState_eta (s : RaftState) : RaftState :=
  mkRaftState (id_ s) (group_id_ s) (role_ s) (current_term_ s) (vote_for_ s)
    (commit_index_ s) (last_applied_ s) (lm_ s) (storage_ s) (live_monitor_ s)
    (encoded_stripe_ s) (last_encoding_ s) (preleader_stripe_store_ s) (peers_ s)
    (raft_peer_ s) (rpc_clients_ s) (election_timer_ s) (heartbeat_timer_ s)
    (preleader_timer_ s) (replicate_timer_ s) (electionTimeLimitMin_ s)
    (electionTimeLimitMax_ s) (election_time_out_ s) (heartbeatTimeInterval s) (rng_ s)
    (commit_start_time_ s) (commit_elapse_time_ s) (recovery_ctx_ s) (recover_records_ s)
    (alive_servers_of_last_point_ s) (preleader_timepoint_ s) (preleader_recover_ent_cnt_ s)
    (vote_me_cnt_ s) (rsm_ s) (election_round_ s) (N_physical_nodes_ s) (dynamic_k_ s)
    (encoding_mode_ s) (batch_system_bridge_ s) (bridge_group_id_ s) (bridge_node_id_ s)
    (lrc_grouper_ s) (persist_queue_ s) (now_ s) (sent_ s).

Definition set_role_ : RaftRole -> RaftState -> RaftState := ltac:(setter_of RaftState_eta role_).
Definition set_current_term_ : Z -> RaftState -> RaftState := ltac:(setter_of RaftState_eta current_term_).
Definition set_vote_for_ : Z -> RaftState -> RaftState := ltac:(setter_of RaftState_eta vote_for_).
Definition set_commit_index_ : Z -> RaftState -> RaftState := ltac:(setter_of RaftState_eta commit_index_).
Definition set_last_applied_ : Z -> RaftState -> RaftState := ltac:(setter_of RaftState_eta last_applied_).
Definition set_lm_ : LogManager -> RaftState -> RaftState := ltac:(setter_of RaftState_eta lm_).
Definition set_storage_ : option St -> RaftState -> RaftState := ltac:(setter_of RaftState_eta storage_).
Definition set_live_monitor_ : LivenessMonitor -> RaftState -> RaftState := ltac:(setter_of RaftState_eta live_monitor_).
Definition set_encoded_stripe_ : gmap Z Stripe -> RaftState -> RaftState := ltac:(setter_of RaftState_eta encoded_stripe_).
Definition set_last_encoding_ : gmap Z Z -> RaftState -> RaftState := ltac:(setter_of RaftState_eta last_encoding_).
Definition set_preleader_stripe_store_ : PreLeaderStripeStore -> RaftState -> RaftState := ltac:(setter_of RaftState_eta preleader_stripe_store_).
Definition set_peers_ : list Z -> RaftState -> RaftState := ltac:(setter_of RaftState_eta peers_).
Definition set_rpc_clients_ : list bool -> RaftState -> RaftState := ltac:(setter_of RaftState_eta rpc_clients_).
Definition set_raft_peer_ : list (option RaftPeer) -> RaftState -> RaftState := ltac:(setter_of RaftState_eta raft_peer_).
Definition set_election_timer_ : Timer -> RaftState -> RaftState := ltac:(setter_of RaftState_eta election_timer_).
Definition set_heartbeat_timer_ : Timer -> RaftState -> RaftState := ltac:(setter_of RaftState_eta heartbeat_timer_).
Definition set_preleader_timer_ : Timer -> RaftState -> RaftState := ltac:(setter_of RaftState_eta preleader_timer_).
Definition set_replicate_timer_ : Timer -> RaftState -> RaftState := ltac:(setter_of RaftState_eta replicate_timer_).
Definition set_election_time_out_ : Z -> RaftState -> RaftState := ltac:(setter_of RaftState_eta election_time_out_).
Definition set_rng_ : (nat -> Z) -> RaftState -> RaftState := ltac:(setter_of RaftState_eta rng_).
Definition set_commit_start_time_ : gmap Z Z -> RaftState -> RaftState := ltac:(setter_of RaftState_eta commit_start_time_).
Definition set_commit_elapse_time_ : gmap Z Z -> RaftState -> RaftState := ltac:(setter_of RaftState_eta commit_elapse_time_).
Definition set_recovery_ctx_ : gmap Z RecoveryCtx -> RaftState -> RaftState := ltac:(setter_of RaftState_eta recovery_ctx_).
Definition set_recover_records_ : list RecoveryRecord -> RaftState -> RaftState := ltac:(setter_of RaftState_eta recover_records_).
Definition set_alive_servers_of_last_point_ : Z -> RaftState -> RaftState := ltac:(setter_of RaftState_eta alive_servers_of_last_point_).
Definition set_preleader_timepoint_ : Z -> RaftState -> RaftState := ltac:(setter_of RaftState_eta preleader_timepoint_).
Definition set_preleader_recover_ent_cnt_ : Z -> RaftState -> RaftState := ltac:(setter_of RaftState_eta preleader_recover_ent_cnt_).
Definition set_vote_me_cnt_ : Z -> RaftState -> RaftState := ltac:(setter_of RaftState_eta vote_me_cnt_).
Definition set_rsm_ : option (list LogEntry) -> RaftState -> RaftState := ltac:(setter_of RaftState_eta rsm_).
Definition set_election_round_ : Z -> RaftState -> RaftState := ltac:(setter_of RaftState_eta election_round_).
Definition set_N_physical_nodes_ : Z -> RaftState -> RaftState := ltac:(setter_of RaftState_eta N_physical_nodes_).
Definition set_dynamic_k_ : Z -> RaftState -> RaftState := ltac:(setter_of RaftState_eta dynamic_k_).
Definition set_encoding_mode_ : Z -> RaftState -> RaftState := ltac:(setter_of RaftState_eta encoding_mode_).
Definition set_batch_system_bridge_ : option (list (Z * Z * LogEntry)) -> RaftState -> RaftState := ltac:(setter_of RaftState_eta batch_system_bridge_).
Definition set_lrc_grouper_ : option LrcComplementaryGrouper -> RaftState -> RaftState := ltac:(setter_of RaftState_eta lrc_grouper_).
Definition set_persist_queue_ : option PersistQueue -> RaftState -> RaftState := ltac:(setter_of RaftState_eta persist_queue_).
Definition set_now_ : Z -> RaftState -> RaftState := ltac:(setter_of RaftState_eta now_).
Definition set_sent_ : list Msg -> RaftState -> RaftState := ltac:(setter_of RaftState_eta sent_).
End state.
Arguments RaftState : clear implicits.

(** ** Configuration *)
Record RaftConfig (St : Type) := mkRaftConfig {
  cfg_id : Z;
  cfg_group_id : Z;
  cfg_rpc_clients : list (Z * bool);
  cfg_storage : option St;
  cfg_electionTimeMin : Z;
  cfg_electionTimeMax : Z;
  cfg_rsm : bool;
  cfg_N_physical_nodes : Z;
  cfg_batch_system_bridge : bool;
  cfg_bridge_group_id : Z;
  cfg_bridge_node_id : Z;
  cfg_dynamic_k : Z;
  cfg_encoding_mode : Z
}.
Arguments mkRaftConfig {St}.
Arguments cfg_id {St}.
Arguments cfg_group_id {St}.
Arguments cfg_rpc_clients {St}.
Arguments cfg_storage {St}.
Arguments cfg_electionTimeMin {St}.
Arguments cfg_electionTimeMax {St}.
Arguments cfg_rsm {St}.
Arguments cfg_N_physical_nodes {St}.
Arguments cfg_batch_system_bridge {St}.
Arguments cfg_bridge_group_id {St}.
Arguments cfg_bridge_node_id {St}.
Arguments cfg_dynamic_k {St}.
Arguments cfg_encoding_mode {St}.

(** Initial contents of the members [NewRaftState] does not set. *)
Record Uninit := mkUninit {
  un_response : list bool;
  un_response_time : list Z;
  un_store : PreLeaderStripeStore;
  un_election_time_out : Z;
  un_alive_servers : Z;
  un_vote_me_cnt : Z;
  un_rng : nat -> Z
}.

(** [std::set<raft_node_id_t>::insert]. *)
Fixpoint set_insert (x : Z) (l : list Z) : list Z :=
  match l with
  | [] => [x]
  | y :: l' => if x <? y then x :: l else if x =? y then l else y :: set_insert x l'
  end.

(** ** Accessors and effects *)
Section access.
Context {St : Type}.
Abbreviation State := (RaftState St).
Implicit Types (s : State).

Definition Role s : RaftRole := role_ s.
Definition CurrentTerm s : Z := current_term_ s.
Definition VoteFor s : Z := vote_for_ s.
Definition CommitIndex s : Z := commit_index_ s.
Definition GetClusterServerNumber s : Z := Z.of_nat (length (peers_ s)) + 1.
Definition livenessLevel s : Z := Z.of_nat (length (peers_ s)) / 2.
Definition IsGroupMember (node_id : Z) s : bool :=
  (node_id =? id_ s) || bool_decide (node_id ∈ peers_ s).
Definition HasLrcGrouper s : bool := match lrc_grouper_ s with Some _ => true | None => false end.
Definition HasFixedK s : bool := negb (dynamic_k_ s =? 0).

Definition CommitLatency (raft_index : Z) s : Z :=
  match commit_elapse_time_ s !! raft_index with None => u64 (-1) | Some t => t end.

Definition GetLastPersistedIndex `{Storage St} s : Z :=
  match persist_queue_ s with
  | Some q => last_persisted_index_ q
  | None => match storage_ s with Some st => LastIndex st | None => 0 end
  end.

Definition GetLastEncodingK (raft_index : Z) s : Z :=
  match GetSingleLogEntry (lm_ s) raft_index with
  | None => 0
  | Some ent =>
      match Type_ ent with
      | kNormal => default 0 (last_encoding_ s !! raft_index)
      | kFragments => GetK (GetChunkInfo ent)
      | kTypeMax => 0
      end
  end.

Definition SetRole (r : RaftRole) : M State unit := modify (set_role_ r).
Definition SetCurrentTerm (t : Z) : M State unit := modify (set_current_term_ t).
Definition SetVoteFor (n : Z) : M State unit := modify (set_vote_for_ n).
Definition SetCommitIndex (i : Z) : M State unit := modify (set_commit_index_ i).
Definition SetDynamicK (k : Z) : M State unit := modify (set_dynamic_k_ k).
Definition SetEncodingMode (m : Z) : M State unit := modify (set_encoding_mode_ m).
Definition SetLrcGrouper (g : option LrcComplementaryGrouper) : M State unit := modify (set_lrc_grouper_ g).
Definition SetRsm (r : option (list LogEntry)) : M State unit := modify (set_rsm_ r).
Definition SetPhysicalClusterSize (n : Z) : M State unit := modify (set_N_physical_nodes_ n).
Definition SetElectionRound (n : Z) : M State unit := modify (set_election_round_ n).
Definition incrementVoteMeCnt : M State unit := modify (fun s => set_vote_me_cnt_ (vote_me_cnt_ s + 1) s).
Definition UpdateAliveServers (n : Z) : M State unit := modify (set_alive_servers_of_last_point_ n).
Definition UpdateLastEncodingK (raft_index k : Z) : M State unit :=
  modify (fun s => set_last_encoding_ (<[raft_index := k]> (last_encoding_ s)) s).

Definition GetRecoveryCtx (id : Z) s : option RecoveryCtx := recovery_ctx_ s !! id.
Definition AddNewRecoveryCtx (id : Z) (c : RecoveryCtx) : M State unit :=
  modify (fun s => set_recovery_ctx_ (<[id := c]> (recovery_ctx_ s)) s).
Definition ClearRecoveryCtx (id : Z) : M State unit :=
  modify (fun s => set_recovery_ctx_ (delete id (recovery_ctx_ s)) s).
Definition EmitRecoveryRecord (node ent_cnt dura : Z) : M State unit :=
  modify (fun s => set_recover_records_ (recover_records_ s ++ [mkRecoveryRecord node ent_cnt dura]) s).

(** Log manager calls that change the log; the status is ignored by the callers
    that use this form. *)
Definition update_lm (f : LogManager -> LogManager) : M State unit :=
  modify (fun s => set_lm_ (f (lm_ s)) s).

(** [if (storage_ != nullptr) storage_->op(..)]. *)
Definition update_storage (f : St -> option St) : M State unit :=
  s <- get ;;
  match storage_ s with
  | None => ret tt
  | Some st => st' <- lift (f st) ;; modify (set_storage_ (Some st'))
  end.

Definition update_live_monitor (f : LivenessMonitor -> option LivenessMonitor) : M State unit :=
  s <- get ;; m <- lift (f (live_monitor_ s)) ;; modify (set_live_monitor_ m).

(** [live_monitor_.UpdateLiveness(id)]. *)
Definition touch (id : Z) : M State unit :=
  s <- get ;; update_live_monitor (UpdateLiveness id (now_ s)).

(** [raft_peer_[id]] and its update through the pointer. *)
Definition raft_peer (id : Z) : M State (option RaftPeer) :=
  s <- get ;; lift (arr_get (raft_peer_ s) id).
Definition peer_ref (id : Z) : M State RaftPeer := p <- raft_peer id ;; lift p.
Definition update_peer (id : Z) (f : RaftPeer -> RaftPeer) : M State unit :=
  p <- peer_ref id ;; s <- get ;;
  l <- lift (arr_set (raft_peer_ s) id (Some (f p))) ;; modify (set_raft_peer_ l).

(** [rpc_clients_[id] != nullptr]. *)
Definition has_rpc (id : Z) : M State bool := s <- get ;; lift (arr_get (rpc_clients_ s) id).

Definition emit (m : Msg) : M State unit := modify (fun s => set_sent_ (sent_ s ++ [m]) s).

(** A call through [rpc_clients_[id]], which must not be null. *)
Definition rpc_send (id : Z) (m : Msg) : M State unit :=
  ok <- has_rpc id ;; assertM ok ;;; emit m.

(** [dist(rng_)] for [uniform_int_distribution(lo, hi)], which requires [lo <= hi]. *)
Definition draw (lo hi : Z) : M State Z :=
  assertM (lo <=? hi) ;;;
  s <- get ;;
  modify (set_rng_ (fun n => rng_ s (S n))) ;;;
  ret (lo + rng_ s O mod (hi - lo + 1)).

(** [for (auto i = lo; i <= hi; ++i)] over [raft_index_t]; the loop ends only when
    [hi] is not the largest value, which the capacity of the log excludes. *)
Definition index_range (lo hi : Z) : list Z := seqZ lo (hi - lo + 1).
End access.

(** ** A small concrete node, for examples: node [id] of the group {0, 1, 2} *)
Definition demo_store : PreLeaderStripeStore := mkPreLeaderStripeStore 0 0 [] [] 0 0.

Definition demo_node {St} (id : Z) (st : option St) : RaftState St :=
  let others := filter (fun i => i <> id) [0; 1; 2] in
  mkRaftState id 0 kFollower 0 kNotVoted 0 0 (LogManager_ctor 4) st
    (mkLivenessMonitor 3 (replicate 10 true) (replicate 10 0) id 0) ∅ ∅ demo_store others
    ((fun i => if bool_decide (i ∈ others) then Some RaftPeer_ctor else None) <$> seqZ 0 32)
    ((fun i => bool_decide (i ∈ others)) <$> seqZ 0 32)
    0 0 0 0 1000 1500 1200 kHeartbeatInterval (fun n => Z.of_nat n) ∅ ∅ ∅ [] 3 0 0 0 (Some []) 0 3 0 0
    None 0 0 None None 0 [].

Definition demo_config {St} (id : Z) (st : option St) : RaftConfig St :=
  mkRaftConfig id 0 ((fun i => (i, true)) <$> filter (fun i => i <> id) [0; 1; 2]) st 1000 1500 true 3
    false 0 0 0 0.

Definition demo_uninit : Uninit := mkUninit (replicate 10 false) (replicate 10 0) demo_store 0 0 0 Z.of_nat.

#[export] Instance demo_isal : IsaL := {|
  gf_gen_cauchy1_matrix := fun _ _ => []; gf_invert_matrix := fun m _ => m; gf_tables := unit;
  ec_init_tables := fun _ _ _ => tt; ec_encode_data := fun _ _ _ _ l => l
|}.
