(* ===== verification/RaftEncode.v ===== *)
(** Encoding and decoding of log entries (src/raft/raft.cc): [EncodeRaftEntry],
    [EncodeRaftEntryLrc], the packing helpers, [DecodingRaftEntry] and
    [FindFullEntryInStripe].

    They read the log, the node id and the group size and write a stripe; they are
    functions to [option], [None] being a failed assert, a null dereference or a
    read outside a buffer. *)

From S2P Require Import Prelude Types LogManager Encoder Lrc Grouper Storage PersistQueue Monitors RaftBase.

(** Bytes of the ASCII literals. *)
Definition MFRG : Slice := [77; 70; 82; 71].
Definition STRI : Slice := [83; 84; 82; 73].

(** Little-endian encoding of a [uint32_t], as [AppendU32ToString] copies it. *)
Definition le32 (v : Z) : Slice :=
  let v := u32 v in [v mod 256; v / 2 ^ 8 mod 256; v / 2 ^ 16 mod 256; v / 2 ^ 24 mod 256].
Definition read_le32 (p : Slice) : option Z :=
  match p with
  | a :: b :: c :: d :: _ => Some (a + 2 ^ 8 * b + 2 ^ 16 * c + 2 ^ 24 * d)
  | _ => None
  end.

Definition AppendU32ToString (out : Slice) (v : Z) : Slice := out ++ le32 v.

(** The empty string signals failure. *)
Definition ExtractUserKeyFromStripeCommand (data : Slice) : Slice :=
  let len := slice_size data in
  if len <? 13 then [] else
  if negb (bool_decide (take 4 data = STRI)) then [] else
  match read_le32 (drop 9 data) with
  | None => []
  | Some key_len =>
      if (1024 <? key_len) || (len - 13 <? key_len) then []
      else sub_slice data 13 key_len
  end.

Definition PackFragmentsInline (frag_ids : list Z) (all_frags : list Slice) (k l r stripe_id : Z)
    (user_key : Slice) : Slice :=
  let meta := le32 (slice_size user_key) ++ user_key ++ le32 stripe_id ++ le32 stripe_id ++
              le32 0 ++ le32 0 ++ [2] ++ le32 k ++ le32 l ++ le32 r ++ le32 0 ++ le32 0 in
  let out := MFRG ++ le32 (slice_size meta) ++ meta ++ le32 (Z.of_nat (length frag_ids)) in
  foldl (fun out frag_id =>
           match arr_get all_frags frag_id with
           | Some frag => out ++ le32 frag_id ++ le32 (slice_size frag) ++ frag
           | None => out
           end) out frag_ids.

(** A fragment entry as the three encoding loops build it. *)
Definition fragment_entry (ent : LogEntry) (raft_index raft_term k : Z) (frag : Slice) : LogEntry :=
  SetFragmentSlice frag
    (SetNotEncodedSlice (sub_slice (CommandData ent) 0 (StartOffset ent))
      (SetCommandLength (CommandLength ent)
        (SetStartOffset (StartOffset ent)
          (SetChunkInfo (ChunkInfo_init (u32 k) raft_index)
            (SetType kFragments (SetTerm raft_term (SetIndex raft_index LogEntry_default))))))).

(** The bytes from [StartOffset] on; an offset past the end wraps the size. *)
Definition data_to_encode (ent : LogEntry) : option Slice :=
  if (StartOffset ent <? 0) || (slice_size (CommandData ent) <? StartOffset ent) then None
  else Some (drop (Z.to_nat (StartOffset ent)) (CommandData ent)).

Section encode.
Context {St : Type} {isal : IsaL}.
Abbreviation State := (RaftState St).

Definition EncodeRaftEntry (raft_index k m : Z) (stripe : Stripe) (s : State) : option Stripe :=
  if LastLogEntryIndex (lm_ s) <? raft_index then None else
  if k <=? 0 then None else
  ent ← GetSingleLogEntry (lm_ s) raft_index;
  data ← data_to_encode ent;
  res ← EncodeSlice data (i32 k) (i32 m) ∅;
  let frags :=
    foldl (fun fs '(frag_id, frag) =>
             <[frag_id := fragment_entry ent raft_index (Term ent) k frag]> fs)
          ∅ (map_iter (snd res)) in
  Some (set_s_fragments frags (set_s_raft_term (Term ent) (set_s_raft_index (Index ent) stripe))).

(** Returns the LRC group id, or -1 when the encoder refuses the data. *)
Definition EncodeRaftEntryLrc (raft_index : Z) (p : LrcParams) (stripe : Stripe) (s : State)
    : option (Z * Stripe) :=
  if LastLogEntryIndex (lm_ s) <? raft_index then None else
  ent ← GetSingleLogEntry (lm_ s) raft_index;
  if lrc_l p =? 0 then None else
  let lrc_group_id := i32 (crem raft_index (lrc_l p)) in
  let stripe := set_s_lrc_group_id lrc_group_id (set_s_fragments ∅
                  (set_s_raft_term (Term ent) (set_s_raft_index (Index ent) stripe))) in
  if negb (LrcEncoder_ok p) then None else
  data ← data_to_encode ent;
  res ← EncodeStripe p data;
  let '(ok, st) := res in
  if negb ok then Some (-1, stripe) else
  let data_frags := take (Z.to_nat (lrc_k p)) (data_shards st) in
  locals ← mapM (arr_get (local_parities st)) (seqZ 0 (lrc_l p));
  globals ← mapM (arr_get (global_parities st)) (seqZ 0 (lrc_r p));
  let frags := data_frags ++ locals ++ globals in
  let fragments :=
    foldl (fun fs '(frag_idx, frag) =>
             <[frag_idx := fragment_entry ent raft_index (Term ent) (lrc_k p) frag]> fs)
          ∅ (zip (seqZ 0 (Z.of_nat (length frags))) frags) in
  Some (lrc_group_id, set_s_all_fragments frags (set_s_fragments fragments stripe)).

(** The body of the node loop of [PackStripesToPeerKeyed]. *)
Definition pack_node (g : LrcComplementaryGrouper) (raft_index : Z) (user_key : Slice)
    (stripe : Stripe) (acc : option (gmap Z LogEntry)) (node : Z) : option (gmap Z LogEntry) :=
  fs ← acc;
  frag_ids ← GetFragmentsForNode node g;
  if bool_decide (omap (arr_get (s_all_fragments stripe)) frag_ids = []) then Some fs else
  let p := lrc_params_ g in
  let packed := PackFragmentsInline frag_ids (s_all_fragments stripe) (lrc_k p) (lrc_l p) (lrc_r p)
                  (s_raft_index stripe) user_key in
  let e := SetFragmentSlice packed (SetCommandLength 0 (SetStartOffset 0
             (SetChunkInfo (ChunkInfo_init (u32 (lrc_k p)) raft_index)
               (SetType kFragments (SetTerm (s_raft_term stripe) (SetIndex raft_index LogEntry_default)))))) in
  Some (<[node := e]> fs).

Definition PackStripesToPeerKeyed (raft_index : Z) (stripe : Stripe) (user_key : Slice) (s : State)
    : option Stripe :=
  if s_peer_keyed_fragments stripe then Some stripe else
  if bool_decide (s_all_fragments stripe = []) then Some stripe else
  match lrc_grouper_ s with
  | None => Some stripe
  | Some g =>
      fs ← foldl (pack_node g raft_index user_key stripe) (Some ∅)
             (seqZ 0 (GetClusterServerNumber s));
      Some (set_s_peer_keyed true (set_s_fragments fs stripe))
  end.

(** The first complete entry in fragment-id order. *)
Definition FindFullEntryInStripe (stripe : Stripe) : option LogEntry :=
  head (filter (fun frag => Type_ frag = kNormal) (snd <$> map_iter (s_collected_fragments stripe))).

(** [collected_fragments[id]] creates a default entry when there is none. *)
Definition own_fragment (id : Z) (stripe : Stripe) : LogEntry * Stripe :=
  match s_collected_fragments stripe !! id with
  | Some e => (e, stripe)
  | None => (LogEntry_default,
             set_s_collected (<[id := LogEntry_default]> (s_collected_fragments stripe)) stripe)
  end.

(** Answers the result of the call (the decoded entry, or [None] for [false]) and
    the stripe. The buffer of [complete_ent_size + 16] bytes is zero in the model
    where the code leaves it uninitialised. *)
Definition DecodingRaftEntry (stripe : Stripe) (s : State) : option (option LogEntry * Stripe) :=
  match FindFullEntryInStripe stripe with
  | Some ent => Some (Some ent, stripe)
  | None =>
      let '(own, stripe) := own_fragment (id_ s) stripe in
      let k := GetK (GetChunkInfo own) in
      let m := u32 (GetClusterServerNumber s - k) in
      let not_encoded_size := StartOffset own in
      let complete_ent_size := not_encoded_size + slice_size (FragmentSlice own) * k in
      let buf := replicate (Z.to_nat (complete_ent_size + 16)) 0 in
      if slice_size buf <? slice_size (NotEncodedSlice own) then None else
      let buf := memcpy_at buf 0 (NotEncodedSlice own) in
      let input := FragmentSlice <$> s_collected_fragments stripe in
      res ← DecodeSliceHelper input (i32 k) (i32 m);
      match res with
      | None => Some (None, stripe)
      | Some decoded =>
          if slice_size buf <? not_encoded_size + slice_size decoded then None else
          let buf := memcpy_at buf not_encoded_size decoded in
          let origin_size := CommandLength own in
          if slice_size buf <? origin_size then None else
          let ent := SetChunkInfo (ChunkInfo_init 0 (s_raft_index stripe))
                (SetStartOffset not_encoded_size
                  (SetCommandData (sub_slice buf 0 origin_size)
                    (SetType kNormal (SetTerm (s_raft_term stripe)
                      (SetIndex (s_raft_index stripe) LogEntry_default))))) in
          Some (Some ent, stripe)
      end
  end.
End encode.

(** ** Lemmas *)

Lemma DecodeSlice_helper {isal : IsaL} F k m r :
  k <> 1 -> DecodeSlice F k m = Some r -> DecodeSliceHelper F k m = Some r.
Proof.
  intros Hk. unfold DecodeSlice. destruct (map_iter F) as [|[i x] l]; [done|].
  by rewrite (proj2 (Z.eqb_neq _ _)).
Qed.

Lemma length_concat_uniform (rows : list Slice) (n : nat) :
  Forall (fun r => length r = n) rows -> length (concat rows) = (length rows * n)%nat.
Proof. induction 1 as [|r rows Hr _ IH]; cbn; [done|]. rewrite length_app, Hr, IH. lia. Qed.

(** Copying a prefix and then the decoded bytes behind it into the buffer. *)
Lemma decode_buffer (pre dec : Slice) (n : nat) :
  (length pre + length dec <= n)%nat ->
  memcpy_at (memcpy_at (replicate n 0) 0 pre) (slice_size pre) dec =
  pre ++ dec ++ replicate (n - length pre - length dec) 0.
Proof.
  intros Hn. unfold memcpy_at, slice_size. rewrite Nat2Z.id. cbn [Z.to_nat]. rewrite take_0.
  cbn [app Nat.add]. rewrite take_app_length, drop_replicate.
  f_equal. f_equal. rewrite drop_app_ge by lia. rewrite drop_replicate. f_equal. lia.
Qed.

Lemma FindFullEntry_None stripe :
  (forall i e, s_collected_fragments stripe !! i = Some e -> Type_ e <> kNormal) ->
  FindFullEntryInStripe stripe = None.
Proof.
  intros H. unfold FindFullEntryInStripe.
  destruct (filter _ (snd <$> map_iter (s_collected_fragments stripe))) as [|e l] eqn:E; [done|].
  assert (e ∈ filter (fun frag => Type_ frag = kNormal) (snd <$> map_iter (s_collected_fragments stripe))) as Hin
    by (rewrite E; by left).
  apply list_elem_of_filter in Hin as [Ht Hin].
  apply list_elem_of_fmap in Hin as ([i x] & -> & Hin). unfold map_iter in Hin.
  apply list_elem_of_omap in Hin as (j & _ & Hj).
  destruct (s_collected_fragments stripe !! j) as [y|] eqn:Hy; [|done].
  injection Hj as -> ->. by apply H in Hy.
Qed.

(** The fields of a fragment entry. *)
Section fragment_fields.
Context (ent : LogEntry) (i t k : Z) (x : Slice).
Let e := fragment_entry ent i t k x.

Lemma fe_frag : FragmentSlice e = x.
Proof. done. Qed.
Lemma fe_plain : NotEncodedSlice e = sub_slice (CommandData ent) 0 (StartOffset ent).
Proof. done. Qed.
Lemma fe_off : StartOffset e = StartOffset ent.
Proof. done. Qed.
Lemma fe_len : CommandLength e = CommandLength ent.
Proof. done. Qed.
Lemma fe_k : GetK (GetChunkInfo e) = u32 k.
Proof. done. Qed.
End fragment_fields.

(** The fragments of a subset of the encoded entries. *)
Lemma frag_subset (C : gmap Z LogEntry) (M : gmap Z Slice) ent i t k :
  C ⊆ fragment_entry ent i t k <$> M -> FragmentSlice <$> C ⊆ M.
Proof.
  intros HC. apply map_subseteq_spec. intros j y (e & <- & He)%lookup_fmap_Some.
  eapply lookup_weaken in He; [|exact HC]. by apply lookup_fmap_Some in He as (z & <- & Hz).
Qed.

(** An entry as [Propose] stores it. *)
Record proposed (ent : LogEntry) : Prop := {
  pe_type : Type_ ent = kNormal;
  pe_len : CommandLength ent = slice_size (command_data_ ent);
  pe_off : 0 <= StartOffset ent <= slice_size (command_data_ ent);
  pe_bytes : bytes (command_data_ ent)
}.

Section recovery.
Context {St : Type} {isal : IsaL} (gf_mul : Z -> Z -> Z) (k m : Z).
Context (HI : IsaL_spec gf_mul k (k + m)) (Hk : 1 <= k <= kMaxK) (Hm : 0 <= m <= kMaxM).

Lemma EncodeRaftEntry_frags (s : RaftState St) idx ent stripe :
  idx <= LastLogEntryIndex (lm_ s) -> GetSingleLogEntry (lm_ s) idx = Some ent -> proposed ent ->
  exists M (fs pad : nat),
    EncodeRaftEntry idx k m stripe s =
      Some (set_s_fragments (fragment_entry ent idx (Term ent) k <$> M)
             (set_s_raft_term (Term ent) (set_s_raft_index (Index ent) stripe))) /\
    (forall i x, M !! i = Some x -> length x = fs) /\
    Z.of_nat fs * k = slice_size (command_data_ ent) - StartOffset ent + Z.of_nat pad /\
    forall F : EncodingResults, F ⊆ M -> k <= Z.of_nat (size F) -> (k = 1 -> is_Some (F !! 0)) ->
      DecodeSliceHelper F k m =
      Some (Some (drop (Z.to_nat (StartOffset ent)) (command_data_ ent) ++ replicate pad 0)).
Proof.
  intros Hl Hent [Ht Hlen Hoff Hb]. unfold kMaxK, kMaxM in *.
  assert (CommandData ent = command_data_ ent) as Hcd.
  { unfold CommandData, is_kNormal. by rewrite bool_decide_true. }
  set (data := drop (Z.to_nat (StartOffset ent)) (command_data_ ent)).
  destruct (EncodeSlice_code gf_mul k m data HI) as
    (M & rows & fs & pad & HM & _ & Hrl & Hrf & _ & Hfs & Hcat & Hpad & _ & Hdec);
    [unfold kMaxK; lia|done|by apply Forall_drop|].
  exists M, fs, pad. split_and!.
  - unfold EncodeRaftEntry. rewrite (proj2 (Z.ltb_ge _ _)), (proj2 (Z.leb_gt _ _)) by lia.
    rewrite Hent. cbn [mbind option_bind]. unfold data_to_encode. rewrite Hcd.
    rewrite (proj2 (Z.ltb_ge _ _)), (proj2 (Z.ltb_ge _ _)) by lia. cbn [orb mbind option_bind].
    fold data. rewrite !i32_small, HM by lia. cbn [mbind option_bind snd].
    by rewrite (foldl_insert_map_iter (fragment_entry ent idx (Term ent) k)).
  - done.
  - apply length_concat_uniform in Hrf. rewrite Hcat, Hrl, length_app, length_replicate in Hrf.
    unfold data in Hrf. rewrite length_drop in Hrf. unfold slice_size in *. nia.
  - intros F HF Hsz H0. destruct (decide (k = 1)) as [->|Hne]; [|apply DecodeSlice_helper; [lia|]; by apply Hdec].
    rewrite (DecodeSliceHelper_first F m data); [|unfold kMaxM; lia| |auto].
    + assert (pad = 0%nat) as -> by lia. by rewrite app_nil_r.
    + intros i x Hx. eapply lookup_weaken in Hx; [|exact HF].
      apply (EncodeSlice_one_values m data M i x); [lia|done..].
Qed.
End recovery.

(** [C10] Recovery of an erasure-coded log entry: if a leader encodes a proposed
    entry for a group of [k + m] nodes, then a new leader that holds its own
    fragment and has collected any [k] of the fragments decodes exactly the
    original command, with the entry's index, term and start offset. When [k] is 1 the
    fragment 0 must be among them: without it [DecodeSliceHelper] scales the bytes,
    see [DecodeSliceHelper_k1_corrupts] of Encoder.v. *)
Theorem raft_entry_recovery {St : Type} {isal : IsaL} (gf_mul : Z -> Z -> Z) (k m idx : Z)
    (s s' : RaftState St) (ent own : LogEntry) (stripe0 stripe : Stripe)
    (HI : IsaL_spec gf_mul k (k + m)) (Hk : 1 <= k <= kMaxK) (Hm : 0 <= m <= kMaxM)
    (Hlast : idx <= LastLogEntryIndex (lm_ s)) (Hent : GetSingleLogEntry (lm_ s) idx = Some ent)
    (Hp : proposed ent) (Hsize : GetClusterServerNumber s' = k + m) :
  exists encoded, EncodeRaftEntry idx k m stripe0 s = Some encoded /\
    (s_raft_index stripe = idx -> s_raft_term stripe = Term ent ->
     s_collected_fragments stripe ⊆ s_fragments encoded ->
     k <= Z.of_nat (size (s_collected_fragments stripe)) ->
     (k = 1 -> is_Some (s_collected_fragments stripe !! 0)) ->
     s_collected_fragments stripe !! id_ s' = Some own ->
     exists ent', DecodingRaftEntry stripe s' = Some (Some ent', stripe) /\
       CommandData ent' = command_data_ ent /\ Term ent' = Term ent /\ Index ent' = idx /\
       StartOffset ent' = StartOffset ent /\ Type_ ent' = kNormal).
Proof.
  destruct (EncodeRaftEntry_frags gf_mul k m HI Hk Hm s idx ent stripe0 Hlast Hent Hp)
    as (M & fs & pad & HE & Hfs & Hsz & Hdec).
  eexists. split; [exact HE|]. cbn. intros Hidx Hterm Hsub Hcnt Hzero Hown.
  assert (forall i e, s_collected_fragments stripe !! i = Some e ->
    exists x, M !! i = Some x /\ e = fragment_entry ent idx (Term ent) k x) as Hcol.
  { intros i e He. eapply lookup_weaken in He; [|exact Hsub].
    apply lookup_fmap_Some in He as (x & <- & Hx). eauto. }
  destruct (Hcol _ _ Hown) as (x & Hx & ->). pose proof (Hfs _ _ Hx) as Hlx.
  unfold DecodingRaftEntry. rewrite FindFullEntry_None.
  2: { intros i e He. apply Hcol in He as (? & _ & ->). done. }
  unfold own_fragment. rewrite Hown. unfold kMaxK, kMaxM in *.
  destruct Hp as [Ht Hlen Hoff Hb].
  assert (CommandData ent = command_data_ ent) as Hcd.
  { unfold CommandData, is_kNormal. by rewrite bool_decide_true. }
  cbv zeta. rewrite fe_frag, fe_plain, fe_off, fe_len, fe_k, Hcd, Hsize.
  unfold sub_slice. change (drop (Z.to_nat 0) (command_data_ ent)) with (command_data_ ent). set (pre := take (Z.to_nat (StartOffset ent)) (command_data_ ent)).
  assert (slice_size pre = StartOffset ent) as Hpre.
  { unfold pre, slice_size in *. rewrite length_take. lia. }
  rewrite (u32_small k) by (unfold is_u32; lia). replace (k + m - k) with m by lia.
  rewrite u32_small by (unfold is_u32; lia). rewrite !i32_small by lia.
  assert (slice_size x = Z.of_nat fs) as -> by (unfold slice_size; lia).
  assert (exists n, Z.to_nat (StartOffset ent + Z.of_nat fs * k + 16) = n /\ Z.of_nat n = StartOffset ent + Z.of_nat fs * k + 16) as (n & -> & Hn).
  { eexists. split; [done|]. lia. }
  rewrite (proj2 (Z.ltb_ge _ _)) by (unfold slice_size in *; rewrite length_replicate; lia).
  rewrite Hdec; [|by eapply frag_subset|by rewrite map_size_fmap|intros H1; rewrite lookup_fmap; by apply fmap_is_Some, Hzero]. cbn [mbind option_bind].
  set (data := drop _ (command_data_ ent) ++ replicate pad 0).
  assert (slice_size data = Z.of_nat fs * k) as Hdata.
  { unfold data, slice_size in *. rewrite length_app, length_drop, length_replicate. lia. }
  pose proof (decode_buffer pre data n ltac:(unfold slice_size in *; lia)) as Hbuf.
  rewrite Hpre in Hbuf. rewrite Hbuf, (proj2 (Z.ltb_ge _ _)).
  2: { rewrite Hdata. unfold memcpy_at, slice_size in *. cbn [Z.to_nat take].
       rewrite !length_app, length_drop, length_replicate. cbn [length]. lia. }
  rewrite (proj2 (Z.ltb_ge _ _)).
  2: { unfold slice_size in *. rewrite !length_app, length_replicate. lia. }
  eexists. split; [done|]. cbn. split_and!; try done.
  unfold CommandData, is_kNormal. cbn. rewrite Hlen. unfold slice_size. rewrite Nat2Z.id.
  rewrite bool_decide_true by done. change (Z.to_nat 0) with 0%nat. rewrite drop_0.
  unfold pre at 1. unfold data at 1. rewrite <- !app_assoc, (app_assoc (take _ _)), take_drop.
  by rewrite take_app_length.
Qed.

(** The command [1; 2; 3] proposed at index 1 in term 1, kept unencoded up to
    offset 1, encoded for the group {0, 1, 2} with k = 2. *)
Section witness.
#[local] Existing Instance Gf256.isal.

Definition demo_entry : LogEntry :=
  SetCommandLength 3 (SetStartOffset 1 (SetCommandData [1; 2; 3]
    (SetType kNormal (SetTerm 1 (SetIndex 1 LogEntry_default))))).

Definition demo_leader : RaftState unit :=
  set_lm_ (snd (AppendLogEntry (alloc := fun _ => true) demo_entry (LogManager_ctor 4))) (demo_node 0 None).

Lemma demo_entry_proposed : proposed demo_entry.
Proof. split; [done|done|vm_compute; split; discriminate|exact bytes_123]. Defined.

(** The new leader 1 has the fragments 1 and 2 only. *)
Lemma raft_entry_recovery_witness : exists encoded,
  EncodeRaftEntry 1 2 1 Stripe_default demo_leader = Some encoded /\
  let stripe := set_s_collected (delete 0 (s_fragments encoded)) encoded in
  exists ent', DecodingRaftEntry stripe (demo_node (St := unit) 1 None) = Some (Some ent', stripe) /\
    CommandData ent' = [1; 2; 3] /\ Term ent' = 1 /\ Index ent' = 1 /\
    StartOffset ent' = 1 /\ Type_ ent' = kNormal.
Proof.
  set (enc := default Stripe_default (EncodeRaftEntry 1 2 1 Stripe_default demo_leader)).
  destruct (s_fragments enc !! 1) as [own|] eqn:Hown; [|vm_compute in Hown; discriminate].
  destruct (raft_entry_recovery Gf256.mul 2 1 1 demo_leader (demo_node 1 None) demo_entry own
    Stripe_default (set_s_collected (delete 0 (s_fragments enc)) enc) gf256_spec_2_3)
    as (e & HE & Hdec);
    [unfold kMaxK; lia|unfold kMaxM; lia|vm_compute; discriminate|done|exact demo_entry_proposed|done|].
  assert (e = enc) as -> by (unfold enc; by rewrite HE).
  exists enc. split; [exact HE|]. cbv zeta.
  apply Hdec; [vm_compute; done|vm_compute; done|apply delete_subseteq|vm_compute; discriminate|lia|].
  cbn [s_collected_fragments set_s_collected]. by rewrite lookup_delete_ne.
Defined.
End witness.
