(* ===== verification/RaftCore.v ===== *)
(** The Raft node: the handlers of [RaftState] (src/raft/raft.cc), in the order
    of their dependencies. Each definition is the whole function: the guards, the
    early returns and every state change, with the logging left out. *)

From S2P Require Import Prelude Types LogManager Encoder Lrc Grouper Storage PersistQueue Monitors RaftBase RaftEncode.

(** A default-constructed [RequestFragmentsArgs] leaves [group_id] uninitialised. *)
Class Indeterminate := indet : Z.

(** A write through the pointer [GetSingleLogEntry] returns. *)
Definition set_entry (idx : Z) (f : LogEntry -> LogEntry) (lm : LogManager) : LogManager :=
  match GetSingleLogEntry lm idx with
  | Some e => snd (OverWriteLogEntry (f e) idx lm)
  | None => lm
  end.

Section raft.
Context {St : Type} {store : Storage St} {isal : IsaL} {alloc : Allocator} {indet0 : Indeterminate}.
Abbreviation State := (RaftState St).
Abbreviation R := (M State).

(** ** Construction *)
Definition PersistRaftState : R unit :=
  s <- get ;;
  update_storage (SetPersistState (mkPersistRaftState true (CurrentTerm s) (VoteFor s))).

(** The loop over [config.rpc_clients]. *)
Definition add_peer (acc : option State) (p : Z * bool) : option State :=
  s ← acc;
  let '(id, rpc) := p in
  if id <? 32 then
    rp ← arr_set (raft_peer_ s) id (Some RaftPeer_ctor);
    rc ← arr_set (rpc_clients_ s) id rpc;
    Some (set_rpc_clients_ rc (set_raft_peer_ rp (set_peers_ (set_insert id (peers_ s)) s)))
  else None.

Definition NewRaftState (config : RaftConfig St) (u : Uninit) (now : Z) : option State :=
  let state := PersistState <$> cfg_storage config in
  let '(term, vote) :=
    match state with
    | Some st => if prs_valid st then (persisted_term st, persisted_vote_for st) else (0, kNotVoted)
    | None => (0, kNotVoted)
    end in
  lm ← NewLogManager ((fun st => (LogEntries st, LastIndex st)) <$> cfg_storage config);
  let live := mkLivenessMonitor (Z.of_nat (length (cfg_rpc_clients config)) + 1)
                (un_response u) (un_response_time u) (cfg_id config) now in
  let bridge := cfg_batch_system_bridge config in
  let s0 := mkRaftState (cfg_id config) (cfg_group_id config) kFollower term vote 0 0 lm
    (cfg_storage config) live ∅ ∅ (un_store u) [] (replicate 32 None) (replicate 32 false)
    now now now now (cfg_electionTimeMin config) (cfg_electionTimeMax config)
    (un_election_time_out u) kHeartbeatInterval (un_rng u) ∅ ∅ ∅ [] (un_alive_servers u) 0 0
    (un_vote_me_cnt u) (if cfg_rsm config then Some [] else None) 0
    (cfg_N_physical_nodes config) (cfg_dynamic_k config) (cfg_encoding_mode config)
    (if bridge then Some [] else None)
    (if bridge then cfg_bridge_group_id config else 0) (if bridge then cfg_bridge_node_id config else 0)
    None ((fun _ => PersistQueue_ctor 32) <$> cfg_storage config) now [] in
  s1 ← foldl add_peer (Some s0) (cfg_rpc_clients config);
  snd <$> PersistRaftState s1.

(** ** Timers *)
Definition resetElectionTimer : R unit :=
  s <- get ;;
  t <- draw (electionTimeLimitMin_ s) (electionTimeLimitMax_ s - 1) ;;
  modify (set_election_time_out_ t) ;;;
  modify (set_election_timer_ (now_ s)).
Definition resetHeartbeatTimer : R unit := s <- get ;; modify (set_heartbeat_timer_ (now_ s)).
Definition resetPreLeaderTimer : R unit := s <- get ;; modify (set_preleader_timer_ (now_ s)).
Definition resetReplicateTimer : R unit := s <- get ;; modify (set_replicate_timer_ (now_ s)).

Definition Init : R unit :=
  resetElectionTimer ;;;
  s <- get ;; update_live_monitor (LivenessMonitor_Init (now_ s)).

(** ** Election eligibility *)
Definition GetPriorityRank (s : State) : Z :=
  let N := GetClusterServerNumber s in
  if i32 (id_ s) =? i32 (group_id_ s) then N else
  let h := Z.lxor (Z.lxor (u64 (Z.shiftl (group_id_ s) 32)) (u64 (Z.shiftl (id_ s) 16))) 2654435769 in
  h mod N.

Definition IsEligibleForElection (s : State) : bool :=
  let max_priority_rank := GetClusterServerNumber s in
  let my_rank := GetPriorityRank s in
  if election_round_ s <=? 1 then my_rank =? max_priority_rank else
  let stage := cdiv (election_round_ s) 5 in
  let allowed_quarters := stage + 1 in
  if 4 <=? allowed_quarters then true else
  let allowed_count := Z.max 1 (cdiv (max_priority_rank * allowed_quarters) 4) in
  max_priority_rank - allowed_count <? my_rank.

(** ** Log comparisons *)
Definition isLogUpToDate (raft_index raft_term : Z) (s : State) : bool :=
  if LastLogEntryTerm (lm_ s) <? raft_term then true
  else (raft_term =? LastLogEntryTerm (lm_ s)) && (LastLogEntryIndex (lm_ s) <=? raft_index).

Definition containEntry (raft_index raft_term prev_k : Z) (s : State) : bool :=
  if raft_index =? last_snapshot_index_ (lm_ s) then raft_term =? last_snapshot_term_ (lm_ s) else
  match GetSingleLogEntry (lm_ s) raft_index with
  | None => false
  | Some entry => (Term entry =? raft_term) && (GetK (GetChunkInfo entry) =? prev_k)
  end.

(** A smaller [k] is a newer version of the encoding. *)
Definition NeedOverwriteLogEntry (old_info new_info : ChunkInfo) : bool := GetK new_info <? GetK old_info.

(** ** Sending *)
Definition sendHeartBeat (peer : Z) : R unit :=
  if 32 <=? peer then ret tt else
  rpc <- has_rpc peer ;;
  p <- raft_peer peer ;;
  match rpc, p with
  | true, Some p =>
      s <- get ;;
      let prev_index := u32 (NextIndex p - 1) in
      let prev_term := TermAt (lm_ s) prev_index in
      let prev_k := GetLastEncodingK prev_index s in
      emit (MsgAppendEntries peer
        (mkAppendEntriesArgs (CurrentTerm s) (group_id_ s) (id_ s) prev_index prev_term prev_k
           (CommitIndex s) 0 []))
  | _, _ => ret tt
  end.

Definition broadcastHeartbeat : R unit :=
  s <- get ;;
  forM_ (peers_ s) (fun id =>
    when (negb (id =? id_ s) && (id <? 32)) (
      rpc <- has_rpc id ;; p <- raft_peer id ;;
      match rpc, p with true, Some _ => sendHeartBeat id | _, _ => ret tt end)).

(** The entry [sendAppendEntriesLrc] and [ReplicateNewProposeEntry] send to a
    peer, before its fragments: only the key of the command, at offset 21. *)
Definition key_only_entry (ent : LogEntry) (raft_index : Z) : LogEntry :=
  let e := SetChunkInfo (GetChunkInfo ent) (SetType kNormal (SetTerm (Term ent) (SetIndex raft_index LogEntry_default))) in
  let cmd_data := CommandData ent in
  let key_size := GetKeySize (GetChunkInfo ent) in
  let e := if (0 <? key_size) && (u32 (21 + key_size) <=? slice_size cmd_data)
           then SetCommandData (sub_slice cmd_data 21 key_size) e
           else SetCommandData [] e in
  SetPlacement (Placement ent) (SetCommandLength (GetTotalSize (GetChunkInfo ent)) e).

(** The fragments [sendAppendEntriesLrc] adds, with the number of calls of
    [AddFragment]. *)
Definition placed_frags (ent : LogEntry) (peer : Z) : list Slice :=
  match Placement ent with
  | [] => Fragments ent
  | pl => omap (fun p => if node_id p =? peer then arr_get (Fragments ent) (frag_id p) else None) pl
  end.

Definition lrc_peer_entry (ent : LogEntry) (raft_index peer : Z) : option LogEntry :=
  let frags := placed_frags ent peer in
  if bool_decide (frags = []) then None
  else Some (foldl (fun e frag => AddFragment frag e) (key_only_entry ent raft_index) frags).

(** The entries appended to [args->entries]; a missing log entry is skipped, a
    peer without fragments aborts. *)
Fixpoint lrc_entries (lm : LogManager) (peer : Z) (indices : list Z) : option (list LogEntry) :=
  match indices with
  | [] => Some []
  | raft_index :: indices =>
      match GetSingleLogEntry lm raft_index with
      | None => lrc_entries lm peer indices
      | Some ent =>
          e ← lrc_peer_entry ent raft_index peer;
          es ← lrc_entries lm peer indices;
          Some (e :: es)
      end
  end.

Definition sendAppendEntriesLrc (peer start_index : Z) : R (list LogEntry) :=
  s <- get ;;
  lift (lrc_entries (lm_ s) peer (index_range start_index (LastLogEntryIndex (lm_ s)))).

(** [encoded_stripe_[raft_index]->fragments[peer]]: a missing stripe is a null
    dereference, a missing fragment is created with the default value. *)
Definition stripe_fragment (peer raft_index : Z) : R LogEntry :=
  s <- get ;;
  stripe <- lift (encoded_stripe_ s !! raft_index) ;;
  match s_fragments stripe !! peer with
  | Some e => ret e
  | None =>
      let stripe := set_s_fragments (<[peer := LogEntry_default]> (s_fragments stripe)) stripe in
      modify (set_encoded_stripe_ (<[raft_index := stripe]> (encoded_stripe_ s))) ;;;
      ret LogEntry_default
  end.

Fixpoint mapR {X Y} (f : X -> R Y) (l : list X) : R (list Y) :=
  match l with
  | [] => ret []
  | x :: l => y <- f x ;; ys <- mapR f l ;; ret (y :: ys)
  end.

Definition sendAppendEntries (peer : Z) : R unit :=
  p <- peer_ref peer ;;
  s <- get ;;
  let next_index := NextIndex p in
  let prev_index := u32 (next_index - 1) in
  let prev_term := TermAt (lm_ s) prev_index in
  let prev_k := GetLastEncodingK prev_index s in
  let last := LastLogEntryIndex (lm_ s) in
  when (next_index <=? CommitIndex s)
    (match GetRecoveryCtx peer s with
     | None => AddNewRecoveryCtx peer (mkRecoveryCtx (now_ s) next_index)
     | Some _ => ret tt
     end) ;;;
  entries <- (if HasLrcGrouper s && (encoding_mode_ s =? 2)
              then sendAppendEntriesLrc peer next_index
              else mapR (stripe_fragment peer) (index_range next_index last)) ;;
  assertM (Z.of_nat (length entries) =? u32 (last - next_index + 1)) ;;;
  rpc_send peer (MsgAppendEntries peer
    (mkAppendEntriesArgs (CurrentTerm s) (group_id_ s) (id_ s) prev_index prev_term prev_k
       (CommitIndex s) (Z.of_nat (length entries)) entries)).

(** ** Replication *)
Definition send_by_liveness (peer : Z) : R unit :=
  s <- get ;;
  alive <- lift (IsAlive peer (live_monitor_ s)) ;;
  if (alive : bool) then sendAppendEntries peer else sendHeartBeat peer.

Definition send_to_peers : R unit :=
  s <- get ;;
  forM_ (peers_ s) (fun peer => when (negb (peer =? id_ s)) (send_by_liveness peer)).

(** Encodes the entry into a new stripe. *)
Definition encode_entry (raft_index k m : Z) : R unit :=
  s <- get ;;
  stripe <- lift (EncodeRaftEntry raft_index k m Stripe_default s) ;;
  modify (fun s => set_encoded_stripe_ (<[raft_index := stripe]> (encoded_stripe_ s)) s) ;;;
  UpdateLastEncodingK raft_index k.

Definition MaybeReEncodingAndReplicate : R unit :=
  s <- get ;;
  live_servers <- lift (LiveNumber (live_monitor_ s)) ;;
  if live_servers <=? livenessLevel s then ret tt else
  let encode_k := if 0 <? dynamic_k_ s then dynamic_k_ s else u32 (live_servers - livenessLevel s) in
  let encode_m := u32 (GetClusterServerNumber s - encode_k) in
  forM_ (index_range (u32 (CommitIndex s + 1)) (LastLogEntryIndex (lm_ s))) (fun raft_index =>
    s <- get ;;
    let last_k := GetLastEncodingK raft_index s in
    when (negb (negb (last_k =? 0) && (last_k <=? encode_k)))
      (encode_entry raft_index encode_k encode_m)) ;;;
  forM_ (peers_ s) (fun peer => when (negb (peer =? id_ s))
    (update_peer peer (fun p => SetMatchIndex (CommitIndex s) (SetNextIndex (u32 (CommitIndex s + 1)) p)) ;;;
     send_by_liveness peer)).

Definition ReplicateEntries : R unit :=
  s <- get ;;
  live_servers <- lift (LiveNumber (live_monitor_ s)) ;;
  if negb (live_servers =? alive_servers_of_last_point_ s) then
    UpdateAliveServers live_servers ;;; MaybeReEncodingAndReplicate
  else send_to_peers.

(** The entry [ReplicateNewProposeEntry] builds for a peer that stores the fragments
    [frag_ids]. *)
Definition lrc_new_peer_entry (ent : LogEntry) (raft_index : Z) (frag_ids : list Z) : option LogEntry :=
  let sorted_frag_ids := merge_sort (≤) frag_ids in
  let peer_frags := omap (arr_get (Fragments ent)) sorted_frag_ids in
  if bool_decide (peer_frags = []) then None else
  Some (foldl (fun e '(fid, frag) => AddFragmentWithId fid frag e) (key_only_entry ent raft_index)
          (zip sorted_frag_ids peer_frags)).

(** The LRC branch of [ReplicateNewProposeEntry], for one peer. *)
Definition replicate_lrc_peer (raft_index : Z) (ent : LogEntry) (g : LrcComplementaryGrouper) (peer : Z) : R unit :=
  frag_ids <- lift (GetFragmentsForNode peer g) ;;
  match lrc_new_peer_entry ent raft_index frag_ids with
  | None => ret tt
  | Some peer_entry =>
      s <- get ;;
      let prev_index := u32 (raft_index - 1) in
      prev_term <- (if 0 <? prev_index then
                      e <- lift (GetSingleLogEntry (lm_ s) prev_index) ;; ret (Term e)
                    else ret 0) ;;
      rpc_send peer (MsgAppendEntries peer
        (mkAppendEntriesArgs (CurrentTerm s) (group_id_ s) (id_ s) prev_index prev_term
           (GetLastEncodingK prev_index s) (CommitIndex s) 1 [peer_entry]))
  end.

(** The other branch: Reed-Solomon, with a re-encoding when the number of live
    servers changed. *)
Definition replicate_rs (raft_index : Z) : R unit :=
  s <- get ;;
  live_servers <- lift (LiveNumber (live_monitor_ s)) ;;
  when (negb (live_servers =? alive_servers_of_last_point_ s))
    (UpdateAliveServers live_servers ;;; MaybeReEncodingAndReplicate) ;;;
  s <- get ;;
  match encoded_stripe_ s !! raft_index with
  | Some _ => ret tt
  | None =>
      let encode_k := if 0 <? dynamic_k_ s then dynamic_k_ s else u32 (live_servers - livenessLevel s) in
      encode_entry raft_index encode_k (u32 (GetClusterServerNumber s - encode_k))
  end ;;;
  send_to_peers ;;;
  resetReplicateTimer.

Definition ReplicateNewProposeEntry (raft_index : Z) : R unit :=
  s <- get ;;
  match GetSingleLogEntry (lm_ s) raft_index with
  | None => ret tt
  | Some ent =>
      match lrc_grouper_ s with
      | Some g =>
          if (encoding_mode_ s =? 2) && IsLrcEncoded ent then
            UpdateLastEncodingK raft_index (GetK (GetChunkInfo ent)) ;;;
            forM_ (peers_ s) (fun peer =>
              when (negb (peer =? id_ s)) (replicate_lrc_peer raft_index ent g peer)) ;;;
            resetReplicateTimer
          else replicate_rs raft_index
      | None => replicate_rs raft_index
      end
  end.

(** ** Proposing a command *)

(** The chunk info and fragments computed before the lock is taken; [None] in
    the result is the failed encoding. *)
Definition propose_lrc (command : CommandData_t) (g : LrcComplementaryGrouper) (s : State)
    : option (option (ChunkInfo * list FragmentPlacement * list Slice)) :=
  placement ← GetNodePlacementsVector g;
  let p := lrc_params_ g in
  let off := cd_start_fragment_offset command in
  let size := slice_size (cd_command_data command) in
  if (off <? 0) || (size <? off) then None else
  if negb (LrcEncoder_ok p) then None else
  res ← EncodeStripe p (drop (Z.to_nat off) (cd_command_data command));
  let '(ok, stripe) := res in
  if (ok : bool) then
    let ci := mkChunkInfo (u32 (lrc_k p)) 0 (u32 (lrc_l p)) (u32 (lrc_r p))
                (GetLrcGroupIdForNode (id_ s) g) (u32 (off - 29)) (u32 (size - off)) in
    Some (Some (ci, placement, all_frags stripe))
  else Some None.

(** The entry [Propose] appends to the log. *)
Definition proposed_entry (command : CommandData_t) (propose_term : Z)
    (lrc : option (ChunkInfo * list FragmentPlacement * list Slice)) : LogEntry :=
  let entry := SetStartOffset (cd_start_fragment_offset command)
                 (SetTerm propose_term
                   (SetCommandData (cd_command_data command) (SetType kNormal LogEntry_default))) in
  match lrc with
  | Some (ci, placement, frags) =>
      foldl (fun e frag => AddFragment frag e) (SetPlacement placement (SetChunkInfo ci entry)) frags
  | None => SetChunkInfo (ChunkInfo_init 0 0) entry
  end.

Definition rejected : ProposeResult := mkProposeResult 0 0 false.

Definition Propose (command : CommandData_t) : R ProposeResult :=
  s <- get ;;
  let use_lrc := if encoding_mode_ s =? 2 then lrc_grouper_ s else None in
  pre <- (match use_lrc with
          | None => ret (Some None)
          | Some g =>
              r <- lift (propose_lrc command g s) ;;
              ret (match r with None => None | Some x => Some (Some x) end)
          end) ;;
  match pre with
  | None => ret rejected
  | Some lrc =>
      if negb (role_eqb (Role s) kLeader) then ret rejected else
      let propose_term := CurrentTerm s in
      let '(index, status, lm) := AppendLogEntryAtomic (proposed_entry command propose_term lrc) (lm_ s) in
      modify (set_lm_ lm) ;;;
      if negb (bool_decide (status = kOk)) then ret rejected else
      match lrc with
      | Some (ci, _, _) =>
          update_lm (fun lm => set_entry index (SetChunkInfo (SetRaftIndex index ci)) lm)
      | None => ret tt
      end ;;;
      s <- get ;;
      match GetSingleLogEntry (lm_ s) index, persist_queue_ s with
      | Some e, Some q => modify (set_persist_queue_ (Some (Push e index q)))
      | _, _ => ret tt
      end ;;;
      modify (fun s => set_commit_start_time_ (<[index := now_ s]> (commit_start_time_ s)) s) ;;;
      ReplicateNewProposeEntry index ;;;
      ret (mkProposeResult index propose_term true)
  end.

(** ** Commit and apply *)

(** Peers whose acknowledged chunk at [N] was encoded with [k]. *)
Fixpoint count_agree (N k : Z) (ids : list Z) (s : State) : option Z :=
  match ids with
  | [] => Some 0
  | id :: ids =>
      node ← arr_get (raft_peer_ s) id;
      rest ← count_agree N k ids s;
      match node with
      | Some p =>
          match matchChunkInfo p !! N with
          | Some ci => Some (rest + b2z (GetK ci =? k))
          | None => Some rest
          end
      | None => Some rest
      end
  end.

Definition commit_threshold (k : Z) (s : State) : Z := i32 (u32 (livenessLevel s + u32 (k + 1) / 2)).

(** One iteration of the loop of [tryUpdateCommitIndex]; [false] is the [return]. *)
Definition try_commit (N : Z) : R bool :=
  s <- get ;;
  let ent := GetSingleLogEntry (lm_ s) N in
  let is_lrc_entry := match ent with Some e => IsLrcEncoded e | None => false end in
  if negb is_lrc_entry && bool_decide (encoded_stripe_ s !! N = None) then ret false else
  let commit_require_k :=
    match ent with
    | Some e => if is_lrc_entry then GetK (GetChunkInfo e) else GetLastEncodingK N s
    | None => GetLastEncodingK N s
    end in
  agree <- lift (count_agree N commit_require_k (peers_ s) s) ;;
  if commit_threshold commit_require_k s <=? 1 + agree then
    e <- lift ent ;;
    if Term e =? CurrentTerm s then
      SetCommitIndex N ;;;
      match commit_start_time_ s !! N with
      | Some t => modify (set_commit_elapse_time_ (<[N := u64 (now_ s - t)]> (commit_elapse_time_ s)))
      | None => ret tt
      end ;;;
      ret true
    else ret true
  else ret true.

Definition tryUpdateCommitIndex : R unit :=
  s <- get ;;
  forM_break (index_range (u32 (CommitIndex s + 1)) (LastLogEntryIndex (lm_ s))) try_commit.

(** One iteration of the loop of [tryApplyLogEntries]; [false] is the [break]. *)
Definition apply_next : R bool :=
  s <- get ;;
  let next := u32 (last_applied_ s + 1) in
  let ent := GetSingleLogEntry (lm_ s) next in
  let finish :=
    modify (fun s => set_last_applied_ next s) ;;; ret true in
  let via_bridge :=
    match batch_system_bridge_ s with
    | None => finish
    | Some l =>
        match ent with
        | None => ret false
        | Some e =>
            modify (set_batch_system_bridge_ (Some (l ++ [(bridge_group_id_ s, bridge_node_id_ s, e)]))) ;;;
            finish
        end
    end in
  match rsm_ s with
  | None => via_bridge
  | Some l =>
      match ent with
      | None => ret false
      | Some e => modify (set_rsm_ (Some (l ++ [e]))) ;;; via_bridge
      end
  end.

Fixpoint apply_loop (fuel : nat) : R unit :=
  match fuel with
  | O => ret tt
  | S fuel =>
      s <- get ;;
      if last_applied_ s <? commit_index_ s then
        go <- apply_next ;; if (go : bool) then apply_loop fuel else ret tt
      else ret tt
  end.

(** Each iteration but the last advances [last_applied_] by one, so the distance
    to the commit index bounds the number of iterations. *)
Definition tryApplyLogEntries : R unit :=
  s <- get ;; apply_loop (Z.to_nat (commit_index_ s - last_applied_ s)).

(** ** Role changes *)
Definition convertToFollower (term : Z) : R unit :=
  s <- get ;;
  assertM (CurrentTerm s <=? term) ;;;
  SetRole kFollower ;;;
  when (CurrentTerm s <? term)
    (SetVoteFor kNotVoted ;;; SetCurrentTerm term ;;; PersistRaftState).

Definition resetNextIndexAndMatchIndex : R unit :=
  s <- get ;;
  let next_index := u32 (LastLogEntryIndex (lm_ s) + 1) in
  forM_ (peers_ s) (fun peer_id =>
    if 32 <=? peer_id then ret tt else
    p <- raft_peer peer_id ;;
    match p with
    | None => ret tt
    | Some _ => update_peer peer_id (fun p => SetMatchIndex 0 (SetNextIndex next_index p))
    end).

Definition convertToLeaderInternal : R unit :=
  s <- get ;;
  if negb (role_eqb (Role s) kPreLeader) then ret tt else
  SetRole kLeader ;;;
  SetElectionRound 0 ;;;
  resetNextIndexAndMatchIndex ;;;
  broadcastHeartbeat ;;;
  resetHeartbeatTimer ;;;
  resetReplicateTimer.

Definition convertToLeader : R unit := convertToLeaderInternal.

(** The loop of [collectFragments] over the stripes of the task. *)
Definition init_stripe (start : Z) (i : Z) : R unit :=
  s <- get ;;
  let r_idx := u32 (i + start) in
  ent <- lift (GetSingleLogEntry (lm_ s) r_idx) ;;
  let store := preleader_stripe_store_ s in
  stripe <- lift (arr_get (stripes store) i) ;;
  let stripe := set_s_raft_term (Term ent) (set_s_raft_index (Index ent) stripe) in
  let stripe :=
    match Type_ ent with
    | kTypeMax => stripe
    | _ => set_s_collected (<[id_ s := ent]> (s_collected_fragments stripe)) stripe
    end in
  l <- lift (arr_set (stripes store) i stripe) ;;
  modify (set_preleader_stripe_store_ (set_stripes l store)).

Definition collectFragments : R unit :=
  s <- get ;;
  let recover_start_index := u32 (CommitIndex s + 1) in
  let last := LastLogEntryIndex (lm_ s) in
  modify (set_preleader_stripe_store_
    (InitRequestFragmentsTask recover_start_index last (Z.of_nat (length (peers_ s)) + 1) (id_ s)
       (preleader_stripe_store_ s))) ;;;
  resetPreLeaderTimer ;;;
  modify (set_preleader_recover_ent_cnt_ (u32 (last + 1 - recover_start_index))) ;;;
  s <- get ;;
  let store := preleader_stripe_store_ s in
  forM_ (seqZ 0 (Z.of_nat (length (stripes store)))) (init_stripe (start_index store)) ;;;
  forM_ (peers_ s) (fun id =>
    when (negb (id =? id_ s))
      (rpc_send id (MsgRequestFragments id
         (mkRequestFragmentsArgs indet (CurrentTerm s) (id_ s) recover_start_index last)))).

Definition convertToPreLeader : R unit :=
  s <- get ;;
  SetRole kPreLeader ;;;
  modify (set_preleader_timepoint_ (now_ s)) ;;;
  if CommitIndex s =? LastLogEntryIndex (lm_ s) then convertToLeaderInternal else collectFragments.

Definition startElection : R unit :=
  s <- get ;;
  assertM (role_eqb (Role s) kCandidate) ;;;
  SetCurrentTerm (u32 (CurrentTerm s + 1)) ;;;
  SetVoteFor (id_ s) ;;;
  modify (set_vote_me_cnt_ 1) ;;;
  PersistRaftState ;;;
  s <- get ;;
  let args := mkRequestVoteArgs (CurrentTerm s) (id_ s) (LastLogEntryIndex (lm_ s))
                (LastLogEntryTerm (lm_ s)) (group_id_ s) (GetPriorityRank s) in
  if livenessLevel s + 1 <=? vote_me_cnt_ s then convertToPreLeader else
  forM_ (peers_ s) (fun id =>
    when (negb (id =? id_ s) && (id <? 32))
      (rpc <- has_rpc id ;; when rpc (emit (MsgRequestVote id args)))).

Definition convertToCandidate : R unit :=
  s <- get ;;
  SetRole kCandidate ;;;
  SetElectionRound (election_round_ s + 1) ;;;
  resetElectionTimer ;;;
  startElection.

(** ** Recovery by a new leader *)

(** The rollback of the log at [idx] on disk: an entry still queued is only
    dropped from the queue; otherwise [after] follows the deletion. *)
Definition rollback_storage (idx : Z) (after : R unit) : R unit :=
  s <- get ;;
  match storage_ s with
  | None => ret tt
  | Some _ =>
      match persist_queue_ s with
      | Some q => if IsUnpersisted idx q then modify (set_persist_queue_ (Some (TruncateFrom idx q)))
                  else update_storage (DeleteEntriesFrom idx) ;;; after
      | None => update_storage (DeleteEntriesFrom idx) ;;; after
      end
  end.

(** Decodes stripe [i]; [false] is the early [return]. *)
Definition decode_stripe (i : Z) : R bool :=
  s <- get ;;
  let store := preleader_stripe_store_ s in
  stripe <- lift (arr_get (stripes store) i) ;;
  if CollectFragmentsCount stripe =? 0 then ret true else
  res <- lift (DecodingRaftEntry stripe s) ;;
  let '(succ, stripe) := res in
  l <- lift (arr_set (stripes store) i stripe) ;;
  modify (set_preleader_stripe_store_ (set_stripes l store)) ;;;
  let r_idx := u32 (i + start_index store) in
  match succ with
  | Some entry =>
      update_lm (fun lm => snd (OverWriteLogEntry entry r_idx lm)) ;;;
      update_storage (OverwriteEntry r_idx entry) ;;;
      ret true
  | None =>
      update_lm (fun lm => snd (DeleteLogEntriesFrom r_idx lm)) ;;;
      rollback_storage r_idx (update_storage Sync) ;;;
      ret false
  end.

Fixpoint decode_stripes (indices : list Z) : R unit :=
  match indices with
  | [] => update_storage Sync
  | i :: indices => go <- decode_stripe i ;; if (go : bool) then decode_stripes indices else ret tt
  end.

Definition DecodeCollectedStripe : R unit :=
  s <- get ;;
  decode_stripes (seqZ 0 (Z.of_nat (length (stripes (preleader_stripe_store_ s))))).

Definition PreLeaderBecomeLeader : R unit :=
  s <- get ;;
  when (livenessLevel s + 1 <=? CollectedFragmentsCnt (preleader_stripe_store_ s))
    (DecodeCollectedStripe ;;; convertToLeaderInternal).

(** ** RPC handlers *)
Definition ProcessRequestVote (args : RequestVoteArgs) : R RequestVoteReply :=
  touch (rva_candidate_id args) ;;;
  s <- get ;;
  let reply granted term := mkRequestVoteReply term granted (id_ s) (group_id_ s) in
  if negb (IsGroupMember (rva_candidate_id args) s) then ret (reply false (CurrentTerm s)) else
  if rva_term args <? CurrentTerm s then ret (reply false (CurrentTerm s)) else
  when ((CurrentTerm s <? rva_term args) || role_eqb (Role s) kCandidate)
    (convertToFollower (rva_term args)) ;;;
  s <- get ;;
  let rule1 := (VoteFor s =? kNotVoted) || (VoteFor s =? rva_candidate_id args) in
  let rule2 := isLogUpToDate (rva_last_log_index args) (rva_last_log_term args) s in
  if rule1 && rule2 then
    SetVoteFor (rva_candidate_id args) ;;;
    PersistRaftState ;;;
    resetElectionTimer ;;;
    ret (reply true (CurrentTerm s))
  else ret (reply false (CurrentTerm s)).

Definition ProcessRequestVoteReply (reply : RequestVoteReply) : R unit :=
  touch (rvr_reply_id reply) ;;;
  s <- get ;;
  if negb (role_eqb (Role s) kCandidate) || (rvr_term reply <? CurrentTerm s) then ret tt else
  if CurrentTerm s <? rvr_term reply then convertToFollower (rvr_term reply) else
  when (rvr_vote_granted reply)
    (incrementVoteMeCnt ;;;
     s <- get ;;
     when (livenessLevel s + 1 <=? vote_me_cnt_ s) convertToPreLeader).

(** The first loop of [checkConflictEntryAndAppendNew]: the entries already in the
    log. Answers the chunk infos replied and the entries left. The variable
    [do_overwrite] is declared inside the loop. *)
Fixpoint check_existing (raft_index : Z) (entries : list LogEntry) : R (list ChunkInfo * list LogEntry) :=
  match entries with
  | [] => ret ([], [])
  | e :: rest =>
      s <- get ;;
      if LastLogEntryIndex (lm_ s) <? raft_index then ret ([], entries) else
      if negb (Term e =? TermAt (lm_ s) raft_index) then
        update_lm (fun lm => snd (DeleteLogEntriesFrom raft_index lm)) ;;;
        rollback_storage raft_index (ret tt) ;;;
        ret ([], entries)
      else
        let do_overwrite := false in
        ent <- lift (GetSingleLogEntry (lm_ s) raft_index) ;;
        (if NeedOverwriteLogEntry (GetChunkInfo ent) (GetChunkInfo e) then
           update_lm (fun lm => snd (OverWriteLogEntry e raft_index lm)) ;;;
           (if negb do_overwrite then update_storage (OverwriteEntry raft_index e)
            else s <- get ;; ent <- lift (GetSingleLogEntry (lm_ s) raft_index) ;;
                 update_storage (AppendEntry ent))
         else when do_overwrite (update_storage (AppendEntry ent))) ;;;
        s <- get ;;
        ent <- lift (GetSingleLogEntry (lm_ s) raft_index) ;;
        r <- check_existing (u32 (raft_index + 1)) rest ;;
        ret (GetChunkInfo ent :: fst r, snd r)
  end.

Definition append_new (entries : list LogEntry) : R unit :=
  forM_ entries (fun e =>
    update_lm (fun lm => snd (AppendLogEntry e lm)) ;;;
    update_storage (AppendEntry e)).

(** Answers [reply->chunk_infos]. *)
Definition checkConflictEntryAndAppendNew (args : AppendEntriesArgs) : R (list ChunkInfo) :=
  assertM (aea_entry_cnt args =? Z.of_nat (length (aea_entries args))) ;;;
  r <- check_existing (u32 (aea_prev_log_index args + 1)) (aea_entries args) ;;
  append_new (snd r) ;;;
  ret (fst r ++ (GetChunkInfo <$> snd r)).

Definition ProcessAppendEntries (args : AppendEntriesArgs) : R AppendEntriesReply :=
  touch (aea_leader_id args) ;;;
  SetElectionRound 0 ;;;
  s <- get ;;
  let reply success term expect infos :=
    mkAppendEntriesReply term success expect (id_ s) (group_id_ s) (Z.of_nat (length infos)) infos in
  if aea_term args <? CurrentTerm s then ret (reply false (CurrentTerm s) 0 []) else
  when ((CurrentTerm s <? aea_term args) || role_eqb (Role s) kCandidate)
    (convertToFollower (aea_term args)) ;;;
  resetElectionTimer ;;;
  s <- get ;;
  if negb (containEntry (aea_prev_log_index args) (aea_prev_log_term args) (aea_prev_k args) s) then
    ret (reply false (CurrentTerm s)
           (Z.min (u32 (LastLogEntryIndex (lm_ s) + 1)) (aea_prev_log_index args)) [])
  else
  assertM (aea_entry_cnt args =? Z.of_nat (length (aea_entries args))) ;;;
  infos <- (if 0 <? aea_entry_cnt args then checkConflictEntryAndAppendNew args else ret []) ;;
  s <- get ;;
  when (CommitIndex s <? aea_leader_commit args)
    (let new_entry_idx := u32 (aea_prev_log_index args + Z.of_nat (length (aea_entries args))) in
     SetCommitIndex (Z.min (Z.min (aea_leader_commit args) new_entry_idx) (LastLogEntryIndex (lm_ s)))) ;;;
  tryApplyLogEntries ;;;
  ret (reply true (CurrentTerm s) (u32 (aea_prev_log_index args + aea_entry_cnt args + 1)) infos).

(** The new chunk replaces the recorded one when it was encoded with a smaller [k]. *)
Definition record_chunk (m : gmap Z ChunkInfo) (ci : ChunkInfo) : gmap Z ChunkInfo :=
  match m !! GetRaftIndex ci with
  | None => <[GetRaftIndex ci := ci]> m
  | Some old => if GetK ci <? GetK old then <[GetRaftIndex ci := ci]> m else m
  end.

Definition finish_recovery (reply : AppendEntriesReply) : R unit :=
  s <- get ;;
  match GetRecoveryCtx (aer_reply_id reply) s with
  | None => ret tt
  | Some ctx =>
      if aer_chunk_info_cnt reply =? 0 then ret tt else
      ci <- lift (head (aer_chunk_infos reply)) ;;
      when (GetRaftIndex ci =? start_recovery_index_ ctx)
        (EmitRecoveryRecord (aer_reply_id reply) (Z.of_nat (length (aer_chunk_infos reply)))
           (u32 (now_ s - rc_start_time_ ctx)) ;;;
         ClearRecoveryCtx (aer_reply_id reply))
  end.

Definition acknowledge (reply : AppendEntriesReply) (node : RaftPeer) : RaftPeer :=
  let update_nextIndex := aer_expect_index reply in
  let update_matchIndex := u32 (update_nextIndex - 1) in
  let node := if NextIndex node <? update_nextIndex then SetNextIndex update_nextIndex node else node in
  let node := if MatchIndex node <? update_matchIndex then SetMatchIndex update_matchIndex node else node in
  SetMatchChunkInfo (foldl record_chunk (matchChunkInfo node) (aer_chunk_infos reply)) node.

Definition ProcessAppendEntriesReply (reply : AppendEntriesReply) : R unit :=
  touch (aer_reply_id reply) ;;;
  s <- get ;;
  if negb (role_eqb (Role s) kLeader) || (aer_term reply <? CurrentTerm s) then ret tt else
  if CurrentTerm s <? aer_term reply then convertToFollower (aer_term reply) else
  let peer_id := aer_reply_id reply in
  if 32 <=? peer_id then ret tt else
  node <- raft_peer peer_id ;;
  match node with
  | None => ret tt
  | Some _ =>
      (if aer_success reply then
         finish_recovery reply ;;;
         update_peer peer_id (acknowledge reply) ;;;
         tryUpdateCommitIndex
       else when (negb (aer_expect_index reply =? 0))
              (update_peer peer_id (SetNextIndex (aer_expect_index reply)))) ;;;
      tryApplyLogEntries
  end.

(** The entries from [start] on, up to the first missing one. *)
Fixpoint take_entries (lm : LogManager) (indices : list Z) : list LogEntry :=
  match indices with
  | [] => []
  | i :: indices => match GetSingleLogEntry lm i with
                    | Some e => e :: take_entries lm indices
                    | None => []
                    end
  end.

Definition ProcessRequestFragments (args : RequestFragmentsArgs) : R RequestFragmentsReply :=
  touch (rfa_leader_id args) ;;;
  s <- get ;;
  let reply success term frags :=
    mkRequestFragmentsReply (id_ s) term (rfa_start_index args) success (Z.of_nat (length frags)) frags in
  if rfa_term args <? CurrentTerm s then ret (reply false (CurrentTerm s) []) else
  when ((CurrentTerm s <? rfa_term args) || role_eqb (Role s) kCandidate)
    (convertToFollower (rfa_term args)) ;;;
  resetElectionTimer ;;;
  s <- get ;;
  ret (reply true (CurrentTerm s)
         (take_entries (lm_ s) (index_range (rfa_start_index args) (rfa_last_index args)))).

(** The loop over [reply->fragments]. *)
Fixpoint add_fragments (start check_idx from : Z) (frags : list LogEntry) (store : PreLeaderStripeStore)
    : option PreLeaderStripeStore :=
  match frags with
  | [] => Some store
  | e :: frags =>
      if u32 (check_idx + start) =? Index e then
        store ← AddFragments (Index e) e from store;
        add_fragments start (check_idx + 1) from frags store
      else None
  end.

Definition ProcessRequestFragmentsReply (reply : RequestFragmentsReply) : R unit :=
  touch (rfr_reply_id reply) ;;;
  s <- get ;;
  if negb (role_eqb (Role s) kPreLeader) || (rfr_term reply <? CurrentTerm s) then ret tt else
  if CurrentTerm s <? rfr_term reply then convertToFollower (rfr_term reply) else
  if IsCollected (rfr_reply_id reply) (preleader_stripe_store_ s) then ret tt else
  store <- lift (add_fragments (rfr_start_index reply) 0 (rfr_reply_id reply) (rfr_fragments reply)
                   (preleader_stripe_store_ s)) ;;
  modify (set_preleader_stripe_store_ (UpdateResponseState (rfr_reply_id reply) store)) ;;;
  PreLeaderBecomeLeader.

(** The transport callbacks. *)
Definition HandleRequestVoteReply (reply : RequestVoteReply) : R unit := ProcessRequestVoteReply reply.
Definition HandleAppendEntriesReply (reply : AppendEntriesReply) : R unit := ProcessAppendEntriesReply reply.
Definition HandleRequestFragmentsReply (reply : RequestFragmentsReply) : R unit := ProcessRequestFragmentsReply reply.

(** ** Ticks *)
Definition election_expired (s : State) : bool :=
  election_time_out_ s <=? ElapseMilliseconds (now_ s) (election_timer_ s).

Definition tickOnFollower : R unit :=
  s <- get ;;
  when (election_expired s && IsEligibleForElection s) convertToCandidate.

Definition tickOnCandidate : R unit :=
  s <- get ;;
  if negb (election_expired s) then ret tt else
  if negb (IsEligibleForElection s) then
    convertToFollower (CurrentTerm s) ;;;
    SetElectionRound (election_round_ s + 1) ;;;
    resetElectionTimer
  else resetElectionTimer ;;; startElection.

Definition tickOnLeader : R unit :=
  s <- get ;;
  if negb (role_eqb (Role s) kLeader) then ret tt else
  let should_send_heartbeat := heartbeatTimeInterval s <=? ElapseMilliseconds (now_ s) (heartbeat_timer_ s) in
  let should_replicate := kReplicateInterval <=? ElapseMilliseconds (now_ s) (replicate_timer_ s) in
  when should_send_heartbeat (broadcastHeartbeat ;;; resetHeartbeatTimer) ;;;
  when should_replicate (ReplicateEntries ;;; resetReplicateTimer).

Definition tickOnPreLeader : R unit :=
  PreLeaderBecomeLeader ;;;
  s <- get ;;
  when (kCollectFragmentsInterval <=? ElapseMilliseconds (now_ s) (preleader_timer_ s))
    (collectFragments ;;; resetPreLeaderTimer).

Definition Tick : R unit :=
  s <- get ;;
  match Role s with
  | kFollower => tickOnFollower
  | kCandidate => tickOnCandidate
  | kPreLeader => tickOnPreLeader
  | kLeader => tickOnLeader
  end.

(** The background persistence thread of this node, one iteration. *)
Definition persist_worker : R unit :=
  s <- get ;;
  match persist_queue_ s, storage_ s with
  | Some q, Some st =>
      r <- lift (PersistWorkerLoop_body q st) ;;
      modify (set_persist_queue_ (Some (fst r))) ;;;
      modify (set_storage_ (Some (snd r)))
  | _, _ => ret tt
  end.

(** ** Events: everything that makes a node act *)
Inductive Event :=
| EvTick
| EvPropose (command : CommandData_t)
| EvRequestVote (args : RequestVoteArgs)
| EvRequestVoteReply (reply : RequestVoteReply)
| EvAppendEntries (args : AppendEntriesArgs)
| EvAppendEntriesReply (reply : AppendEntriesReply)
| EvRequestFragments (args : RequestFragmentsArgs)
| EvRequestFragmentsReply (reply : RequestFragmentsReply)
| EvPersist
| EvClock (now : Z).

Inductive Output :=
| OutNone
| OutPropose (r : ProposeResult)
| OutRequestVote (r : RequestVoteReply)
| OutAppendEntries (r : AppendEntriesReply)
| OutRequestFragments (r : RequestFragmentsReply).

Definition handle (ev : Event) : R Output :=
  match ev with
  | EvTick => Tick ;;; ret OutNone
  | EvPropose command => r <- Propose command ;; ret (OutPropose r)
  | EvRequestVote args => r <- ProcessRequestVote args ;; ret (OutRequestVote r)
  | EvRequestVoteReply reply => HandleRequestVoteReply reply ;;; ret OutNone
  | EvAppendEntries args => r <- ProcessAppendEntries args ;; ret (OutAppendEntries r)
  | EvAppendEntriesReply reply => HandleAppendEntriesReply reply ;;; ret OutNone
  | EvRequestFragments args => r <- ProcessRequestFragments args ;; ret (OutRequestFragments r)
  | EvRequestFragmentsReply reply => HandleRequestFragmentsReply reply ;;; ret OutNone
  | EvPersist => persist_worker ;;; ret OutNone
  | EvClock now => modify (set_now_ now) ;;; ret OutNone
  end.

(** A run of a node: events handled one after the other. *)
Inductive node_step : State -> State -> Prop :=
| NodeStep ev s out s' : handle ev s = Some (out, s') -> node_step s s'.
End raft.
