(* ===== verification/RaftFrames.v ===== *)
(** Frame facts about the handlers of RaftCore.v: which members of the state an
    operation leaves alone. [core] lists the members the communication functions
    (sending, timers, liveness, encoding caches) never touch; [kept] the identity,
    term, vote and persisted state that only the election code changes; [calm] adds
    the vote count, the vote requests and the direction of role changes. The facts
    live in the hint database [obeys], so the proofs about handlers follow the
    structure of the code. *)

From S2P Require Import Prelude Types LogManager Encoder Lrc Grouper Storage PersistQueue Monitors RaftBase RaftEncode RaftCore.

Lemma obeys_weaken {S A} (R1 R2 : S -> S -> Prop) (m : M S A) :
  (forall s s', R1 s s' -> R2 s s') -> obeys R1 m -> obeys R2 m.
Proof. intros Hw Hm s a s' E. eapply Hw, Hm, E. Qed.

Section frames.
Context {St : Type} {store : Storage St} {isal : IsaL} {alloc : Allocator} {indet0 : Indeterminate}.
Abbreviation State := (RaftState St).

(** The vote requests among the messages sent. *)
Definition vote_request (m : Msg) : option (Z * RequestVoteArgs) :=
  match m with MsgRequestVote to args => Some (to, args) | _ => None end.
Definition vote_requests (l : list Msg) : list (Z * RequestVoteArgs) := omap vote_request l.

Lemma vote_requests_app l1 l2 : vote_requests (l1 ++ l2) = vote_requests l1 ++ vote_requests l2.
Proof. apply omap_app. Qed.

Record Core := mkCore {
  co_id : Z; co_group : Z; co_peers : list Z; co_term : Z; co_vote : Z; co_storage : option St;
  co_role : RaftRole; co_round : Z; co_lm : LogManager; co_commit : Z; co_applied : Z;
  co_rsm : option (list LogEntry); co_bridge : option (list (Z * Z * LogEntry));
  co_queue : option PersistQueue; co_votes : Z; co_requests : list (Z * RequestVoteArgs)
}.

Definition core (s : State) : Core :=
  mkCore (id_ s) (group_id_ s) (peers_ s) (current_term_ s) (vote_for_ s) (storage_ s) (role_ s)
    (election_round_ s) (lm_ s) (commit_index_ s) (last_applied_ s) (rsm_ s)
    (batch_system_bridge_ s) (persist_queue_ s) (vote_me_cnt_ s) (vote_requests (sent_ s)).

Record Kept := mkKept {
  ke_id : Z; ke_group : Z; ke_peers : list Z; ke_term : Z; ke_vote : Z;
  ke_persisted : option PersistRaftState_t
}.

Definition kept_of (s : State) : Kept :=
  mkKept (id_ s) (group_id_ s) (peers_ s) (current_term_ s) (vote_for_ s) (PersistState <$> storage_ s).

(** ** Communication keeps [core] *)
Abbreviation keeps_core := (obeys (same core)).

Lemma core_update_live_monitor f : keeps_core (update_live_monitor (St := St) f).
Proof. unfold update_live_monitor. obeys_tac. reflexivity. Qed.
Hint Resolve core_update_live_monitor : obeys.

Lemma core_touch id : keeps_core (touch (St := St) id).
Proof. unfold touch. obeys_tac. Qed.
Hint Resolve core_touch : obeys.

Lemma core_raft_peer id : keeps_core (raft_peer (St := St) id).
Proof. unfold raft_peer. obeys_tac. Qed.
Hint Resolve core_raft_peer : obeys.

Lemma core_peer_ref id : keeps_core (peer_ref (St := St) id).
Proof. unfold peer_ref. obeys_tac. Qed.
Hint Resolve core_peer_ref : obeys.

Lemma core_update_peer id f : keeps_core (update_peer (St := St) id f).
Proof. unfold update_peer. obeys_tac. reflexivity. Qed.
Hint Resolve core_update_peer : obeys.

Lemma core_has_rpc id : keeps_core (has_rpc (St := St) id).
Proof. unfold has_rpc. obeys_tac. Qed.
Hint Resolve core_has_rpc : obeys.

Lemma core_emit m : vote_request m = None -> keeps_core (emit (St := St) m).
Proof.
  intros Hm. unfold emit. obeys_tac. unfold same, core. cbn.
  rewrite vote_requests_app. unfold vote_requests at 2. cbn. by rewrite Hm, app_nil_r.
Qed.
Hint Extern 1 (obeys _ (emit _)) => apply core_emit; reflexivity : obeys.

Lemma core_rpc_send id m : vote_request m = None -> keeps_core (rpc_send (St := St) id m).
Proof. intros Hm. unfold rpc_send. obeys_tac. by apply core_emit. Qed.
Hint Extern 1 (obeys _ (rpc_send _ _)) => apply core_rpc_send; reflexivity : obeys.

Lemma core_draw lo hi : keeps_core (draw (St := St) lo hi).
Proof. unfold draw. obeys_tac. reflexivity. Qed.
Hint Resolve core_draw : obeys.

Lemma core_resetElectionTimer : keeps_core (resetElectionTimer (St := St)).
Proof. unfold resetElectionTimer. obeys_tac; reflexivity. Qed.
Lemma core_resetHeartbeatTimer : keeps_core (resetHeartbeatTimer (St := St)).
Proof. unfold resetHeartbeatTimer. obeys_tac; reflexivity. Qed.
Lemma core_resetPreLeaderTimer : keeps_core (resetPreLeaderTimer (St := St)).
Proof. unfold resetPreLeaderTimer. obeys_tac; reflexivity. Qed.
Lemma core_resetReplicateTimer : keeps_core (resetReplicateTimer (St := St)).
Proof. unfold resetReplicateTimer. obeys_tac; reflexivity. Qed.
Hint Resolve core_resetElectionTimer core_resetHeartbeatTimer core_resetPreLeaderTimer
  core_resetReplicateTimer : obeys.

Lemma core_sendHeartBeat peer : keeps_core (sendHeartBeat (St := St) peer).
Proof. unfold sendHeartBeat. obeys_tac. Qed.
Hint Resolve core_sendHeartBeat : obeys.

Lemma core_broadcastHeartbeat : keeps_core (broadcastHeartbeat (St := St)).
Proof. unfold broadcastHeartbeat. obeys_tac. Qed.
Hint Resolve core_broadcastHeartbeat : obeys.

Lemma core_sendAppendEntriesLrc peer i : keeps_core (sendAppendEntriesLrc (St := St) peer i).
Proof. unfold sendAppendEntriesLrc. obeys_tac. Qed.
Hint Resolve core_sendAppendEntriesLrc : obeys.

Lemma core_stripe_fragment peer i : keeps_core (stripe_fragment (St := St) peer i).
Proof. unfold stripe_fragment. obeys_tac. reflexivity. Qed.
Hint Resolve core_stripe_fragment : obeys.

Lemma core_mapR {X Y} (f : X -> M State Y) l : (forall x, keeps_core (f x)) -> keeps_core (mapR f l).
Proof. intros Hf. induction l as [|x l IH]; cbn [mapR]; obeys_tac. Qed.
Hint Resolve core_mapR : obeys.

Lemma core_AddNewRecoveryCtx id c : keeps_core (AddNewRecoveryCtx (St := St) id c).
Proof. unfold AddNewRecoveryCtx. obeys_tac. reflexivity. Qed.
Lemma core_ClearRecoveryCtx id : keeps_core (ClearRecoveryCtx (St := St) id).
Proof. unfold ClearRecoveryCtx. obeys_tac. reflexivity. Qed.
Lemma core_EmitRecoveryRecord a b c : keeps_core (EmitRecoveryRecord (St := St) a b c).
Proof. unfold EmitRecoveryRecord. obeys_tac. reflexivity. Qed.
Lemma core_UpdateAliveServers n : keeps_core (UpdateAliveServers (St := St) n).
Proof. unfold UpdateAliveServers. obeys_tac. reflexivity. Qed.
Lemma core_UpdateLastEncodingK i k : keeps_core (UpdateLastEncodingK (St := St) i k).
Proof. unfold UpdateLastEncodingK. obeys_tac. reflexivity. Qed.
Hint Resolve core_AddNewRecoveryCtx core_ClearRecoveryCtx core_EmitRecoveryRecord
  core_UpdateAliveServers core_UpdateLastEncodingK : obeys.

Lemma core_sendAppendEntries peer : keeps_core (sendAppendEntries (St := St) peer).
Proof. unfold sendAppendEntries. obeys_tac. Qed.
Hint Resolve core_sendAppendEntries : obeys.

Lemma core_send_by_liveness peer : keeps_core (send_by_liveness (St := St) peer).
Proof. unfold send_by_liveness. obeys_tac. Qed.
Hint Resolve core_send_by_liveness : obeys.

Lemma core_send_to_peers : keeps_core (send_to_peers (St := St)).
Proof. unfold send_to_peers. obeys_tac. Qed.
Hint Resolve core_send_to_peers : obeys.

Lemma core_encode_entry i k m : keeps_core (encode_entry (St := St) i k m).
Proof. unfold encode_entry. obeys_tac. reflexivity. Qed.
Hint Resolve core_encode_entry : obeys.

Lemma core_MaybeReEncodingAndReplicate : keeps_core (MaybeReEncodingAndReplicate (St := St)).
Proof. unfold MaybeReEncodingAndReplicate. obeys_tac. Qed.
Hint Resolve core_MaybeReEncodingAndReplicate : obeys.

Lemma core_ReplicateEntries : keeps_core (ReplicateEntries (St := St)).
Proof. unfold ReplicateEntries. obeys_tac. Qed.
Hint Resolve core_ReplicateEntries : obeys.

Lemma core_replicate_lrc_peer i e g p : keeps_core (replicate_lrc_peer (St := St) i e g p).
Proof. unfold replicate_lrc_peer. obeys_tac. Qed.
Hint Resolve core_replicate_lrc_peer : obeys.

Lemma core_replicate_rs i : keeps_core (replicate_rs (St := St) i).
Proof. unfold replicate_rs. obeys_tac. Qed.
Hint Resolve core_replicate_rs : obeys.

Lemma core_ReplicateNewProposeEntry i : keeps_core (ReplicateNewProposeEntry (St := St) i).
Proof. unfold ReplicateNewProposeEntry. obeys_tac. Qed.
Hint Resolve core_ReplicateNewProposeEntry : obeys.

Lemma core_resetNextIndexAndMatchIndex : keeps_core (resetNextIndexAndMatchIndex (St := St)).
Proof. unfold resetNextIndexAndMatchIndex. obeys_tac. Qed.
Hint Resolve core_resetNextIndexAndMatchIndex : obeys.

Lemma core_init_stripe a i : keeps_core (init_stripe (St := St) a i).
Proof. unfold init_stripe. obeys_tac. reflexivity. Qed.
Hint Resolve core_init_stripe : obeys.

Lemma core_collectFragments : keeps_core (collectFragments (St := St)).
Proof. unfold collectFragments. obeys_tac; reflexivity. Qed.
Hint Resolve core_collectFragments : obeys.

Lemma core_finish_recovery r : keeps_core (finish_recovery (St := St) r).
Proof. unfold finish_recovery. obeys_tac. Qed.
Hint Resolve core_finish_recovery : obeys.

(** ** The rest keeps [kept] *)
Context {dur : DurableState St}.

(** What is on disk is what the store answers. *)
Definition written (s : State) : Prop :=
  forall st, storage_ s = Some st -> OnDisk st = PersistState st.

Definition kept (s s' : State) : Prop := kept_of s' = kept_of s /\ (written s -> written s').

#[global] Instance kept_preorder : PreOrder kept.
Proof. split; [by split|]. intros a b c [E1 W1] [E2 W2]. split; [congruence|auto]. Qed.

Abbreviation keeps := (obeys kept).

Lemma kept_of_core {A} (m : M State A) : keeps_core m -> keeps m.
Proof.
  apply obeys_weaken. intros s s' Hc. unfold same, kept, kept_of, written in *.
  injection Hc as -> -> -> -> -> -> _ _ _ _ _ _ _ _ _ _. done.
Qed.
Hint Resolve kept_of_core : obeys.

(** A change of members outside [kept]. *)
Lemma kept_other s s' : kept_of s' = kept_of s -> storage_ s' = storage_ s -> kept s s'.
Proof. intros He Hs. split; [done|]. unfold written. by rewrite Hs. Qed.

Lemma kept_emit m : keeps (emit (St := St) m).
Proof. unfold emit. obeys_tac. by apply kept_other. Qed.
Lemma kept_SetRole r : keeps (SetRole (St := St) r).
Proof. unfold SetRole. obeys_tac. by apply kept_other. Qed.
Lemma kept_SetElectionRound n : keeps (SetElectionRound (St := St) n).
Proof. unfold SetElectionRound. obeys_tac. by apply kept_other. Qed.
Lemma kept_incrementVoteMeCnt : keeps (incrementVoteMeCnt (St := St)).
Proof. unfold incrementVoteMeCnt. obeys_tac. by apply kept_other. Qed.
Hint Resolve kept_emit kept_SetRole kept_SetElectionRound kept_incrementVoteMeCnt : obeys.

(** ** Outside the election code: [calm].
    A calm operation keeps [kept] and the vote count, requests no vote, and
    changes the role only to follower or from pre-leader to leader, the election
    round only to zero. *)
Definition winner (r : RaftRole) : Prop := r = kPreLeader \/ r = kLeader.
Definition role_le (r r' : RaftRole) : Prop := r' = r \/ r' = kFollower \/ (winner r /\ winner r').

#[global] Instance role_le_preorder : PreOrder role_le.
Proof.
  split; [by left|]. intros a b c Hab Hbc. unfold role_le, winner in *.
  destruct Hbc as [->|[->|[Hb Hc]]]; [done|by right; left|].
  destruct Hab as [->|[->|[Ha _]]]; [by right; right|by destruct Hb|by right; right].
Qed.

Record calm (s s' : State) : Prop := {
  ca_kept : kept s s';
  ca_votes : vote_me_cnt_ s' = vote_me_cnt_ s;
  ca_requests : vote_requests (sent_ s') = vote_requests (sent_ s);
  ca_role : role_le (role_ s) (role_ s');
  ca_round : election_round_ s' = election_round_ s \/ election_round_ s' = 0
}.

#[global] Instance calm_preorder : PreOrder calm.
Proof.
  split; [intros s; split; done || by left|].
  intros a b c [K1 V1 Q1 R1 E1] [K2 V2 Q2 R2 E2].
  split; [by etrans|congruence|congruence|by etrans|].
  destruct E2 as [->| ->]; [done|by right].
Qed.

Abbreviation is_calm := (obeys calm).

Lemma kept_of_calm {A} (m : M State A) : is_calm m -> keeps m.
Proof. apply obeys_weaken. by intros s s' []. Qed.
Lemma calm_of_core {A} (m : M State A) : keeps_core m -> is_calm m.
Proof.
  intros Hm s a s' E. pose proof (kept_of_core _ Hm _ _ _ E) as Hk. specialize (Hm _ _ _ E).
  unfold same, core in Hm. injection Hm as _ _ _ _ _ _ Hr He _ _ _ _ _ _ Hv Hq.
  split; [done|done|done|left|left]; done.
Qed.
Hint Resolve kept_of_calm calm_of_core : obeys.

(** A change of members the relation does not mention. *)
Lemma calm_other s s' :
  kept_of s' = kept_of s -> storage_ s' = storage_ s -> vote_me_cnt_ s' = vote_me_cnt_ s ->
  vote_requests (sent_ s') = vote_requests (sent_ s) -> role_ s' = role_ s ->
  election_round_ s' = election_round_ s -> calm s s'.
Proof. intros Hk Hs Hv Hq Hr He. split; [by apply kept_other|done|done|by left|by left]. Qed.

Lemma calm_SetElectionRound : is_calm (SetElectionRound (St := St) 0).
Proof. unfold SetElectionRound. obeys_tac. split; [by apply kept_other|done|done|by left|by right]. Qed.
Lemma calm_SetRole_follower : is_calm (SetRole (St := St) kFollower).
Proof. unfold SetRole. obeys_tac. split; [by apply kept_other|done|done|by right; left|by left]. Qed.
Hint Resolve calm_SetElectionRound calm_SetRole_follower : obeys.

Lemma calm_storage s st st' :
  storage_ s = Some st -> state_kept st st' -> calm s (set_storage_ (Some st') s).
Proof.
  intros Hs [Hp Ho]. split; [split|done|done|by left|by left].
  - unfold kept_of. cbn. rewrite Hs. cbn. by rewrite Hp.
  - intros Hw x. cbn. intros [= <-]. by apply Ho, Hw.
Qed.

Lemma calm_update_storage f : (forall st st', f st = Some st' -> state_kept st st') -> is_calm (update_storage f).
Proof.
  intros Hf s a s'. unfold update_storage, bind, get, lift, modify.
  destruct (storage_ s) as [st|] eqn:Hst; [|intros [= <- <-]; reflexivity].
  destruct (f st) as [st'|] eqn:E; [|done]. intros [= <- <-].
  by eapply calm_storage; [|eapply Hf].
Qed.

Lemma calm_Sync : is_calm (update_storage Sync).
Proof. apply calm_update_storage. apply ds_sync. Qed.
Lemma calm_AppendEntry e : is_calm (update_storage (AppendEntry e)).
Proof. apply calm_update_storage. apply ds_append. Qed.
Lemma calm_OverwriteEntry i e : is_calm (update_storage (OverwriteEntry i e)).
Proof. apply calm_update_storage. apply ds_overwrite. Qed.
Lemma calm_DeleteEntriesFrom i : is_calm (update_storage (DeleteEntriesFrom i)).
Proof. apply calm_update_storage. apply ds_delete. Qed.
Hint Resolve calm_Sync calm_AppendEntry calm_OverwriteEntry calm_DeleteEntriesFrom : obeys.

Lemma calm_update_lm f : is_calm (update_lm (St := St) f).
Proof. unfold update_lm. obeys_tac. by apply calm_other. Qed.
Lemma calm_SetCommitIndex i : is_calm (SetCommitIndex (St := St) i).
Proof. unfold SetCommitIndex. obeys_tac. by apply calm_other. Qed.
Hint Resolve calm_update_lm calm_SetCommitIndex : obeys.

Lemma calm_rollback_storage i m : is_calm m -> is_calm (rollback_storage i m).
Proof. intros Hm. unfold rollback_storage. obeys_tac. by apply calm_other. Qed.
Hint Resolve calm_rollback_storage : obeys.

Lemma calm_check_existing es : forall i, is_calm (check_existing i es).
Proof.
  induction es as [|e es IH]; intros i; cbn [check_existing]; cbv zeta; cbn [negb]; obeys_tac.
Qed.
Hint Resolve calm_check_existing : obeys.

Lemma calm_checkConflict args : is_calm (checkConflictEntryAndAppendNew args).
Proof. unfold checkConflictEntryAndAppendNew, append_new. obeys_tac. Qed.
Hint Resolve calm_checkConflict : obeys.

Lemma calm_try_commit n : is_calm (try_commit (St := St) n).
Proof. unfold try_commit. cbv zeta. obeys_tac; by apply calm_other. Qed.
Hint Resolve calm_try_commit : obeys.

Lemma calm_tryUpdateCommitIndex : is_calm (tryUpdateCommitIndex (St := St)).
Proof. unfold tryUpdateCommitIndex. obeys_tac. Qed.
Hint Resolve calm_tryUpdateCommitIndex : obeys.

Lemma calm_apply_next : is_calm (apply_next (St := St)).
Proof. unfold apply_next. cbv zeta. obeys_tac; by apply calm_other. Qed.
Hint Resolve calm_apply_next : obeys.

Lemma calm_apply_loop n : is_calm (apply_loop (St := St) n).
Proof. induction n as [|n IH]; cbn [apply_loop]; obeys_tac. Qed.
Hint Resolve calm_apply_loop : obeys.

Lemma calm_tryApplyLogEntries : is_calm (tryApplyLogEntries (St := St)).
Proof. unfold tryApplyLogEntries. obeys_tac. Qed.
Hint Resolve calm_tryApplyLogEntries : obeys.

(** The pre-leader becomes leader. *)
Lemma calm_convertToLeaderInternal : is_calm (convertToLeaderInternal (St := St)).
Proof.
  intros s a s'. unfold convertToLeaderInternal. rewrite bind_get.
  destruct (role_eqb (Role s) kPreLeader) eqn:Hr; cbn [negb]; [|by intros [= <- <-]].
  apply bool_decide_eq_true in Hr. unfold SetRole. rewrite bind_modify. intros H.
  assert (calm s (set_role_ kLeader s)) as Hc.
  { split; [by apply kept_other|done|done| |by left].
    right. right. split; [by left|by right]. }
  etrans; [exact Hc|]. revert H. apply (obeys_bind calm); [obeys_tac|intros _; obeys_tac].
Qed.
Hint Resolve calm_convertToLeaderInternal : obeys.

Lemma kept_convertToPreLeader : keeps (convertToPreLeader (St := St)).
Proof. unfold convertToPreLeader. obeys_tac. by apply kept_other. Qed.
Hint Resolve kept_convertToPreLeader : obeys.

Lemma calm_decode_stripe i : is_calm (decode_stripe i).
Proof. unfold decode_stripe. cbv zeta. obeys_tac; by apply calm_other. Qed.
Hint Resolve calm_decode_stripe : obeys.

Lemma calm_decode_stripes l : is_calm (decode_stripes l).
Proof. induction l as [|i l IH]; cbn [decode_stripes]; obeys_tac. Qed.
Hint Resolve calm_decode_stripes : obeys.

Lemma calm_PreLeaderBecomeLeader : is_calm PreLeaderBecomeLeader.
Proof. unfold PreLeaderBecomeLeader, DecodeCollectedStripe. obeys_tac. Qed.
Hint Resolve calm_PreLeaderBecomeLeader : obeys.

Lemma calm_Propose c : is_calm (Propose (St := St) c).
Proof. unfold Propose. cbv zeta. obeys_tac; by apply calm_other. Qed.

Lemma calm_tickOnLeader : is_calm (tickOnLeader (St := St)).
Proof. unfold tickOnLeader. cbv zeta. obeys_tac. Qed.
Lemma calm_tickOnPreLeader : is_calm tickOnPreLeader.
Proof. unfold tickOnPreLeader. obeys_tac. Qed.
Hint Resolve calm_Propose calm_tickOnLeader calm_tickOnPreLeader : obeys.

Lemma kept_worker b q st q' (st' : St) :
  worker_persist b q st = Some (q', st') -> state_kept st st'.
Proof.
  unfold worker_persist. destruct b as [|p b]; [by intros [= <- <-]; split|]. intros Hx.
  apply option.bind_Some in Hx as (items & _ & Hx).
  apply option.bind_Some in Hx as (f & _ & Hx). apply option.bind_Some in Hx as (l & _ & Hx).
  apply option.bind_Some in Hx as (st1 & E1 & Hx). apply option.bind_Some in Hx as (st2 & E2 & Hx).
  injection Hx as <- <-. eapply state_kept_trans; [by eapply ds_persist_entries|by eapply ds_sync].
Qed.

Lemma calm_persist_worker : is_calm persist_worker.
Proof.
  intros s a s'. unfold persist_worker, bind, get, lift, modify.
  destruct (persist_queue_ s) as [q|] eqn:Hq; [|intros [= <- <-]; reflexivity].
  destruct (storage_ s) as [st|] eqn:Hst; [|intros [= <- <-]; reflexivity].
  destruct (PersistWorkerLoop_body q st) as [[q' st']|] eqn:E; [|done]. intros [= <- <-].
  etrans; [by apply (calm_other _ (set_persist_queue_ (Some q') s))|].
  eapply calm_storage; [exact Hst|by eapply kept_worker].
Qed.
Hint Resolve calm_persist_worker : obeys.
End frames.

#[export] Hint Extern 1 (obeys _ (emit _)) => apply core_emit; reflexivity : obeys.
#[export] Hint Extern 1 (obeys _ (rpc_send _ _)) => apply core_rpc_send; reflexivity : obeys.
#[export] Hint Resolve core_update_live_monitor core_touch core_raft_peer core_peer_ref core_update_peer
  core_has_rpc core_draw core_resetElectionTimer
  core_resetHeartbeatTimer core_resetPreLeaderTimer core_resetReplicateTimer
  core_sendHeartBeat core_broadcastHeartbeat core_sendAppendEntriesLrc
  core_stripe_fragment core_mapR core_AddNewRecoveryCtx core_ClearRecoveryCtx
  core_EmitRecoveryRecord core_UpdateAliveServers core_UpdateLastEncodingK
  core_sendAppendEntries core_send_by_liveness core_send_to_peers core_encode_entry
  core_MaybeReEncodingAndReplicate core_ReplicateEntries core_replicate_lrc_peer
  core_replicate_rs core_ReplicateNewProposeEntry core_resetNextIndexAndMatchIndex
  core_init_stripe core_collectFragments core_finish_recovery kept_of_core kept_of_calm calm_of_core kept_emit
  calm_SetRole_follower calm_Sync
  calm_AppendEntry calm_OverwriteEntry calm_DeleteEntriesFrom calm_update_lm kept_SetRole
  calm_SetCommitIndex calm_SetElectionRound kept_SetElectionRound kept_incrementVoteMeCnt calm_rollback_storage
  calm_check_existing calm_checkConflict calm_try_commit calm_tryUpdateCommitIndex
  calm_apply_next calm_apply_loop calm_tryApplyLogEntries calm_convertToLeaderInternal
  kept_convertToPreLeader calm_decode_stripe calm_decode_stripes
  calm_PreLeaderBecomeLeader calm_Propose calm_tickOnLeader calm_tickOnPreLeader
  calm_persist_worker : obeys.
