(* ===== verification/RaftVote.v ===== *)
(** Terms, votes and their persistence: the safety core of the election code of
    src/raft/raft.cc, for one node.

    [advance] relates the state before and after an event: terms only grow, a
    vote cast in a term stays, and what is in memory is what is on disk. *)

From S2P Require Import Prelude Types LogManager Encoder Lrc Grouper Storage PersistQueue Monitors RaftBase RaftEncode RaftCore RaftFrames.

Section vote.
Context {St : Type} {store : Storage St} {isal : IsaL} {alloc : Allocator} {indet0 : Indeterminate}.
Context {dur : DurableState St}.
Abbreviation State := (RaftState St).

(** The term and vote on disk are the ones in memory. *)
Definition durable (s : State) : Prop :=
  forall st, storage_ s = Some st ->
    PersistState st = mkPersistRaftState true (current_term_ s) (vote_for_ s) /\
    OnDisk st = PersistState st.

Record advance (s s' : State) : Prop := {
  ad_id : id_ s' = id_ s;
  ad_group : group_id_ s' = group_id_ s;
  ad_peers : peers_ s' = peers_ s;
  ad_term : current_term_ s <= current_term_ s';
  ad_vote : current_term_ s' = current_term_ s -> vote_for_ s <> kNotVoted -> vote_for_ s' = vote_for_ s;
  ad_durable : durable s -> durable s'
}.

#[global] Instance advance_preorder : PreOrder advance.
Proof.
  split.
  - intros s. split; done || lia.
  - intros a b c [I1 G1 P1 T1 V1 D1] [I2 G2 P2 T2 V2 D2].
    split; [congruence..|lia| |auto]. intros Ht Hv.
    assert (current_term_ b = current_term_ a) as Hb by lia.
    specialize (V1 Hb Hv). rewrite <- V1. apply V2; congruence.
Qed.

Lemma kept_advance s s' : kept s s' -> advance s s'.
Proof.
  intros [Hk Hw]. unfold kept_of in Hk. injection Hk as Hi Hg Hp Ht Hv Hs.
  split; try done; [lia|]. intros Hd st Hst. rewrite Ht, Hv.
  split; [|apply Hw; [|done]; intros st0 Hst0; by apply Hd].
  rewrite Hst in Hs. destruct (storage_ s) as [st0|] eqn:E; [|done]. cbn in Hs. injection Hs as ->.
  by apply Hd.
Qed.

Lemma advance_of_kept {A} (m : M State A) : obeys kept m -> obeys advance m.
Proof. apply obeys_weaken, kept_advance. Qed.
Hint Resolve advance_of_kept : obeys.

(** Writing the state makes it durable. *)
Lemma PersistRaftState_run s a s' :
  PersistRaftState s = Some (a, s') ->
  durable s' /\ id_ s' = id_ s /\ group_id_ s' = group_id_ s /\ peers_ s' = peers_ s /\
  current_term_ s' = current_term_ s /\ vote_for_ s' = vote_for_ s /\ lm_ s' = lm_ s /\ role_ s' = role_ s.
Proof.
  unfold PersistRaftState, update_storage, bind, get, lift, modify.
  destruct (storage_ s) as [st|] eqn:Hst.
  - destruct (ds_write st (CurrentTerm s) (VoteFor s)) as (st' & -> & Hp & Ho).
    intros [= <- <-]. split; [|done]. intros x. cbn. intros [= <-]. by rewrite Ho, Hp.
  - intros [= <- <-]. split; [|done]. intros x. by rewrite Hst.
Qed.

Lemma advance_convertToFollower term : obeys advance (convertToFollower term).
Proof.
  intros s a s'. unfold convertToFollower, bind, get, assertM, when, SetRole, SetVoteFor, SetCurrentTerm, modify, CurrentTerm.
  destruct (current_term_ s <=? term) eqn:Hle; [|done]. cbn [ret].
  destruct (current_term_ s <? term) eqn:Hlt.
  - intros H. apply PersistRaftState_run in H as (Hd & Hi & Hg & Hp & Ht & Hv & _). cbn in *.
    apply Z.ltb_lt in Hlt. split; try done; lia.
  - intros [= <- <-]. split; done || (cbn; lia).
Qed.
Hint Resolve advance_convertToFollower : obeys.

Lemma advance_ProcessRequestVote args : obeys advance (ProcessRequestVote args).
Proof.
  unfold ProcessRequestVote. cbv zeta. apply obeys_bind; [apply _|obeys_tac|intros _].
  apply obeys_bind; [apply _|obeys_tac|intros s0].
  apply obeys_if; [obeys_tac|]. apply obeys_if; [obeys_tac|].
  apply obeys_bind; [apply _|apply obeys_when; [apply _|obeys_tac]|intros _].
  intros s a s'. unfold bind at 1, get at 1.
  destruct ((VoteFor s =? kNotVoted) || (VoteFor s =? rva_candidate_id args)) eqn:Hr1; cbn [andb];
    [|by intros [= <- <-]].
  destruct (isLogUpToDate _ _ s); [|by intros [= <- <-]].
  intros H. apply bind_Some in H as (? & s1 & H1 & H). injection H1 as <- <-.
  apply bind_Some in H as (? & s2 & H2 & H).
  apply PersistRaftState_run in H2 as (Hd & Hi & Hg & Hp & Ht & Hv & _). cbn in *.
  assert (advance s s2) as Ha.
  { split; try done; [lia|]. intros _ Hnv. rewrite Hv. unfold VoteFor in Hr1.
    apply orb_prop in Hr1 as [?%Z.eqb_eq|?%Z.eqb_eq]; done. }
  apply bind_Some in H as (? & s3 & H3 & H). injection H as <- <-.
  etrans; [exact Ha|]. eapply advance_of_kept; [|exact H3]. obeys_tac.
Qed.

Lemma advance_ProcessAppendEntries args : obeys advance (ProcessAppendEntries args).
Proof. unfold ProcessAppendEntries. cbv zeta. obeys_tac. Qed.
Lemma advance_ProcessRequestFragments args : obeys advance (ProcessRequestFragments args).
Proof. unfold ProcessRequestFragments. cbv zeta. obeys_tac. Qed.
Lemma advance_ProcessRequestVoteReply r : obeys advance (ProcessRequestVoteReply r).
Proof. unfold ProcessRequestVoteReply. obeys_tac. Qed.
Lemma advance_ProcessAppendEntriesReply r : obeys advance (ProcessAppendEntriesReply r).
Proof. unfold ProcessAppendEntriesReply. cbv zeta. obeys_tac. Qed.
Lemma advance_ProcessRequestFragmentsReply r : obeys advance (ProcessRequestFragmentsReply r).
Proof. unfold ProcessRequestFragmentsReply. obeys_tac. by apply kept_advance, kept_other. Qed.
Hint Resolve advance_ProcessRequestVote advance_ProcessAppendEntries advance_ProcessRequestFragments
  advance_ProcessRequestVoteReply advance_ProcessAppendEntriesReply
  advance_ProcessRequestFragmentsReply : obeys.

(** Elections increment the term, which is a [uint32_t]: below its largest value
    an election advances. *)
Definition small (s : State) : Prop := 0 <= current_term_ s < 2 ^ 32 - 1.

Definition advances {A} (m : M State A) : Prop :=
  forall s a s', small s -> m s = Some (a, s') -> advance s s'.

Lemma advances_obeys {A} (m : M State A) : obeys advance m -> advances m.
Proof. intros Hm s a s' _. apply Hm. Qed.

Lemma advances_bind_l {A B} (m : M State A) (k : A -> M State B) :
  obeys kept m -> (forall a, advances (k a)) -> advances (bind m k).
Proof.
  intros Hm Hk s b s' Hs H. apply bind_Some in H as (a & s1 & H1 & H).
  pose proof (Hm _ _ _ H1) as Hkept. etrans; [by apply kept_advance|]. eapply Hk; [|exact H].
  unfold small. destruct Hkept as [[= _ _ _ Ht _ _] _]. by rewrite Ht.
Qed.

Lemma advances_bind_r {A B} (m : M State A) (k : A -> M State B) :
  advances m -> (forall a, obeys advance (k a)) -> advances (bind m k).
Proof.
  intros Hm Hk s b s' Hs H. apply bind_Some in H as (a & s1 & H1 & H).
  etrans; [by eapply Hm|by eapply Hk].
Qed.

Lemma advances_startElection : advances startElection.
Proof.
  intros s a s' Hs. unfold startElection. intros H. unfold bind at 1, get at 1 in H.
  apply bind_Some in H as (? & s1 & H1 & H).
  assert (s1 = s) as -> by (unfold assertM in H1; destruct (role_eqb _ _); by inversion H1).
  apply bind_Some in H as (? & s2 & H2 & H). injection H2 as _ <-.
  apply bind_Some in H as (? & s3 & H3 & H). injection H3 as _ <-.
  apply bind_Some in H as (? & s4 & H4 & H). injection H4 as _ <-.
  apply bind_Some in H as (? & s5 & H5 & H).
  apply PersistRaftState_run in H5 as (Hd & Hi & Hg & Hp & Ht & Hv & _). cbn in Hi, Hg, Hp, Ht, Hv.
  assert (advance s s5) as Ha.
  { destruct Hs as [H0 H1']. unfold CurrentTerm in *.
    rewrite u32_small in Ht by (unfold is_u32; lia). split; try done; lia. }
  etrans; [exact Ha|]. eapply advance_of_kept; [|exact H]. obeys_tac.
Qed.

Lemma advances_Tick : advances Tick.
Proof.
  unfold Tick. apply advances_bind_l; [obeys_tac|]. intros s. destruct (Role s).
  - unfold tickOnFollower, convertToCandidate, when. apply advances_bind_l; [obeys_tac|]. intros s1.
    destruct (_ && _); [|apply advances_obeys; obeys_tac].
    do 4 (apply advances_bind_l; [obeys_tac|]; intros ?). apply advances_startElection.
  - unfold tickOnCandidate. apply advances_bind_l; [obeys_tac|]. intros s1.
    destruct (negb _); [apply advances_obeys; obeys_tac|].
    destruct (negb _); [apply advances_obeys; obeys_tac|].
    apply advances_bind_l; [obeys_tac|]. intros _. apply advances_startElection.
  - apply advances_obeys. obeys_tac.
  - apply advances_obeys. obeys_tac.
Qed.

Lemma advances_handle ev : advances (handle ev).
Proof.
  destruct ev; cbn [handle].
  { apply advances_bind_r; [apply advances_Tick|intros _; obeys_tac]. }
  all: apply advances_obeys; unfold HandleRequestVoteReply, HandleAppendEntriesReply, HandleRequestFragmentsReply;
    obeys_tac; by apply kept_advance, kept_other.
Qed.

(** ** Restart *)
Inductive life_step : State -> State -> Prop :=
| LifeEvent s s' : small s -> node_step s s' -> life_step s s'
| LifeRestart s st st' cfg u now s' :
    storage_ s = Some st -> Reopen st = Some st' ->
    cfg_storage cfg = Some st' -> cfg_id cfg = id_ s -> cfg_group_id cfg = group_id_ s ->
    NewRaftState cfg u now = Some s' -> life_step s s'.

Lemma add_peer_fold l : forall s s' : State,
  foldl add_peer (Some s) l = Some s' ->
  id_ s' = id_ s /\ group_id_ s' = group_id_ s /\ current_term_ s' = current_term_ s /\
  vote_for_ s' = vote_for_ s /\ storage_ s' = storage_ s /\ role_ s' = role_ s /\
  election_round_ s' = election_round_ s /\ lm_ s' = lm_ s /\ commit_index_ s' = commit_index_ s /\
  last_applied_ s' = last_applied_ s.
Proof.
  assert (forall l, foldl add_peer None l = @None State) as Hn by (intros l0; by induction l0).
  induction l as [|[id rpc] l IH]; cbn [foldl]; intros s s'; [by intros [= ->]|].
  unfold add_peer at 2. cbn [mbind option_bind]. destruct (id <? 32); [|by rewrite Hn].
  destruct (arr_set (raft_peer_ s) id _); cbn [mbind option_bind]; [|by rewrite Hn].
  destruct (arr_set (rpc_clients_ s) id rpc); cbn [mbind option_bind]; [|by rewrite Hn].
  intros H. apply IH in H. done.
Qed.

(** The state a node starts with. *)
Lemma NewRaftState_spec cfg u now s' :
  NewRaftState cfg u now = Some s' ->
  durable s' /\ id_ s' = cfg_id cfg /\ group_id_ s' = cfg_group_id cfg /\ role_ s' = kFollower /\
  election_round_ s' = 0 /\ commit_index_ s' = 0 /\ last_applied_ s' = 0 /\
  (forall st, cfg_storage cfg = Some st -> prs_valid (PersistState st) = true ->
     current_term_ s' = persisted_term (PersistState st) /\
     vote_for_ s' = persisted_vote_for (PersistState st)).
Proof.
  unfold NewRaftState. intros H. destruct (match _ with Some _ => _ | None => _ end) as [t v] eqn:Htv.
  apply option.bind_Some in H as (lm & Hlm & H). apply option.bind_Some in H as (s1 & H1 & H).
  apply add_peer_fold in H1 as (Hi & Hg & Ht & Hv & Hs & Hr & He & _ & Hc & Ha).
  destruct (PersistRaftState s1) as [[[] s2]|] eqn:Hp; cbn in H; [|done]. injection H as <-.
  pose proof Hp as Hp'. apply PersistRaftState_run in Hp as (Hd & Hi' & Hg' & _ & Ht' & Hv' & _ & Hr').
  assert (election_round_ s2 = election_round_ s1 /\ commit_index_ s2 = commit_index_ s1 /\ last_applied_ s2 = last_applied_ s1) as (He' & Hc' & Ha').
  { revert Hp'. unfold PersistRaftState, update_storage, bind, get, lift, modify.
    destruct (storage_ s1) as [x|]; [destruct (SetPersistState _ x)|]; by intros [= <-]. }
  cbn in *. split_and!; try (done || congruence). intros st Hst Hval. rewrite Hst in Htv. cbn in Htv.
  rewrite Hval in Htv. injection Htv as <- <-. split; congruence.
Qed.

Record lives (s s' : State) : Prop := {
  lv_id : id_ s' = id_ s;
  lv_term : current_term_ s <= current_term_ s';
  lv_vote : current_term_ s' = current_term_ s -> vote_for_ s <> kNotVoted -> vote_for_ s' = vote_for_ s
}.

Lemma life_step_lives s s' : life_step s s' -> durable s -> lives s s' /\ durable s'.
Proof.
  intros [s1 s2 Hsm Hstep|s1 st st' cfg u now s2 Hst Hre Hcfg Hid Hgr Hn] Hd.
  - destruct Hstep as [ev s1 out s2 He]. apply advances_handle in He as [Hi _ _ Ht Hv Hdd]; [|done]. split; [by split|auto].
  - destruct (Hd st Hst) as [Hp Ho]. apply ds_reopen in Hre.
    apply NewRaftState_spec in Hn as (Hd' & Hi & _ & _ & _ & _ & _ & Hres).
    destruct (Hres st' Hcfg) as [Ht Hv]; [by rewrite Hre, Ho, Hp|].
    rewrite Hre, Ho, Hp in Ht, Hv. cbn in *. split; [|done]. split; [congruence|lia|congruence].
Qed.

Lemma lives_trans a b c : lives a b -> lives b c -> lives a c.
Proof.
  intros [I1 T1 V1] [I2 T2 V2]. split; [congruence|lia|]. intros Ht Hv.
  assert (current_term_ b = current_term_ a) as Hb by lia.
  specialize (V1 Hb Hv). rewrite <- V1. apply V2; congruence.
Qed.

Lemma life_lives s s' : rtc life_step s s' -> durable s -> lives s s' /\ durable s'.
Proof.
  induction 1 as [s|s s1 s2 H1 _ IH]; intros Hd; [split; [split; done || lia|done]|].
  destruct (life_step_lives _ _ H1 Hd) as [L1 D1]. destruct (IH D1) as [L2 D2].
  split; [by eapply lives_trans|done].
Qed.

End vote.

Section total.
Context {St : Type} {store : Storage St} {writes : StateWrites St}.
Abbreviation State := (RaftState St).

(** ** Totality of the operations a handler starts with *)
Lemma touch_run id (s : State) :
  monitor_ok (live_monitor_ s) -> 0 <= id ->
  exists m, touch id s = Some (tt, set_live_monitor_ m s) /\ monitor_ok m.
Proof.
  intros Hm Hid. destruct (UpdateLiveness_total id (now_ s) _ Hm Hid) as (m & Hu & Hok).
  exists m. split; [|done]. unfold touch, update_live_monitor, bind, get, lift, modify. by rewrite Hu.
Qed.

Lemma resetElectionTimer_run (s : State) :
  electionTimeLimitMin_ s < electionTimeLimitMax_ s ->
  exists s', resetElectionTimer s = Some (tt, s') /\ same core s s' /\ now_ s' = now_ s /\
    electionTimeLimitMin_ s <= election_time_out_ s' < electionTimeLimitMax_ s /\
    election_timer_ s' = now_ s /\
    electionTimeLimitMin_ s' = electionTimeLimitMin_ s /\ electionTimeLimitMax_ s' = electionTimeLimitMax_ s.
Proof.
  intros Hlim. unfold resetElectionTimer, draw, bind, get, assertM, modify.
  rewrite (proj2 (Z.leb_le _ _)) by lia. cbn. eexists. split; [done|]. split_and!; try done; cbn.
  - pose proof (Z.mod_pos_bound (rng_ s 0) (electionTimeLimitMax_ s - 1 - electionTimeLimitMin_ s + 1)). lia.
  - pose proof (Z.mod_pos_bound (rng_ s 0) (electionTimeLimitMax_ s - 1 - electionTimeLimitMin_ s + 1)). lia.
Qed.

Lemma PersistRaftState_set (s : State) :
  exists o, PersistRaftState s = Some (tt, set_storage_ o s) /\ (o = None <-> storage_ s = None).
Proof.
  unfold PersistRaftState, update_storage, bind, get, lift, modify.
  destruct (storage_ s) as [st|] eqn:E.
  - destruct (state_writes st (CurrentTerm s) (VoteFor s)) as [st' ->]. by eexists.
  - exists (storage_ s). rewrite E. split; [|done]. by destruct s; cbn in *; subst.
Qed.

Lemma convertToFollower_run term (s : State) :
  current_term_ s <= term ->
  exists s', convertToFollower term s = Some (tt, s') /\
    current_term_ s' = term /\ role_ s' = kFollower /\
    vote_for_ s' = (if current_term_ s <? term then kNotVoted else vote_for_ s) /\
    id_ s' = id_ s /\ group_id_ s' = group_id_ s /\ peers_ s' = peers_ s /\ lm_ s' = lm_ s /\
    commit_index_ s' = commit_index_ s /\ last_applied_ s' = last_applied_ s /\
    electionTimeLimitMin_ s' = electionTimeLimitMin_ s /\ electionTimeLimitMax_ s' = electionTimeLimitMax_ s /\
    election_round_ s' = election_round_ s /\ (storage_ s' = None <-> storage_ s = None).
Proof.
  intros Hle. unfold convertToFollower, bind at 1, get at 1, CurrentTerm.
  rewrite (proj2 (Z.leb_le _ _)) by done. unfold assertM, when, bind at 1, ret at 1, SetRole, bind at 1, modify at 1.
  destruct (Z.ltb_spec (current_term_ s) term).
  - unfold SetVoteFor, SetCurrentTerm, modify, bind.
    edestruct PersistRaftState_set as (o & -> & Ho). eexists. split; [done|]. done.
  - eexists. split; [done|]. cbn. split_and!; try done. lia.
Qed.

(** ** The vote rule.
    A log is up to date when its last entry is lexicographically at least the
    voter's in term, then index. *)
Definition up_to_date (index term : Z) (s : State) : bool :=
  (LastLogEntryTerm (lm_ s) <? term) ||
  ((LastLogEntryTerm (lm_ s) =? term) && (LastLogEntryIndex (lm_ s) <=? index)).

Lemma isLogUpToDate_spec index term s : isLogUpToDate index term s = up_to_date index term s.
Proof. unfold isLogUpToDate, up_to_date. rewrite (Z.eqb_sym term). by destruct (_ <? _). Qed.

Definition vote_rule (args : RequestVoteArgs) (s : State) : bool :=
  IsGroupMember (rva_candidate_id args) s && (current_term_ s <=? rva_term args) &&
  ((current_term_ s <? rva_term args) || (vote_for_ s =? kNotVoted) ||
   (vote_for_ s =? rva_candidate_id args)) &&
  up_to_date (rva_last_log_index args) (rva_last_log_term args) s.

Definition steps_down (args : RequestVoteArgs) (s : State) : bool :=
  IsGroupMember (rva_candidate_id args) s &&
  ((current_term_ s <? rva_term args) ||
   ((current_term_ s =? rva_term args) && role_eqb (role_ s) kCandidate)).

(** The state in which the vote is decided. *)
Lemma step_down_run args (s : State) :
  current_term_ s <= rva_term args ->
  exists s', when ((CurrentTerm s <? rva_term args) || role_eqb (Role s) kCandidate)
               (convertToFollower (rva_term args)) s = Some (tt, s') /\
    current_term_ s' = rva_term args /\
    vote_for_ s' = (if current_term_ s <? rva_term args then kNotVoted else vote_for_ s) /\
    role_ s' = (if (current_term_ s <? rva_term args) || role_eqb (role_ s) kCandidate then kFollower else role_ s) /\
    id_ s' = id_ s /\ group_id_ s' = group_id_ s /\ peers_ s' = peers_ s /\ lm_ s' = lm_ s /\
    electionTimeLimitMin_ s' = electionTimeLimitMin_ s /\ electionTimeLimitMax_ s' = electionTimeLimitMax_ s /\
    (storage_ s' = None <-> storage_ s = None).
Proof.
  intros Hle. unfold when, Role, CurrentTerm.
  destruct ((current_term_ s <? rva_term args) || role_eqb (role_ s) kCandidate) eqn:E.
  - destruct (convertToFollower_run _ _ Hle) as (s' & H & Ht & Hr & Hv & Hi & Hg & Hp & Hl & _ & _ & H1 & H2 & _ & Hst).
    exists s'. done.
  - apply orb_false_elim in E as [E _]. exists s. rewrite E. apply Z.ltb_ge in E.
    split_and!; try done. lia.
Qed.
End total.

(** [C4] Terms never go back and a vote is never changed within a term, for every
    run of a node: any events in any order, with any number of stops and restarts
    from its own storage; what the storage holds is what memory holds. *)
Theorem vote_once_per_term {St} {store : Storage St} {isal : IsaL} {alloc : Allocator}
    {indet0 : Indeterminate} {dur : DurableState St}
    (cfg : RaftConfig St) (u : Uninit) (now : Z) (s0 s1 s2 : RaftState St)
    (Hnew : NewRaftState cfg u now = Some s0)
    (H01 : rtc life_step s0 s1) (H12 : rtc life_step s1 s2) :
  current_term_ s1 <= current_term_ s2 /\
  (current_term_ s2 = current_term_ s1 -> vote_for_ s1 <> kNotVoted -> vote_for_ s2 = vote_for_ s1) /\
  (forall st, storage_ s2 = Some st ->
     OnDisk st = mkPersistRaftState true (current_term_ s2) (vote_for_ s2)).
Proof.
  apply NewRaftState_spec in Hnew as (Hd & _). apply life_lives in H01 as [_ Hd1]; [|done].
  apply life_lives in H12 as [[_ Ht Hv] Hd2]; [|done]. split_and!; [done|done|].
  intros st Hst. destruct (Hd2 st Hst) as [Hp Ho]. by rewrite Ho, Hp.
Qed.

(** [C5] The RequestVote handler, on every branch: it always answers; it grants
    exactly when the candidate is a member, its term is not old, no other vote was
    cast in its term and its log is at least as up to date; the vote is then
    recorded, and the term, the role and the log change only as stated. The storage is
    neither lost nor invented, and when a vote is granted the term of the request and
    the candidate are on its disk before the reply is given. *)
Theorem ProcessRequestVote_spec {St} {store : Storage St} {writes : StateWrites St}
    (args : RequestVoteArgs) (s : RaftState St)
    (Hmon : monitor_ok (live_monitor_ s)) (Hid : 0 <= rva_candidate_id args)
    (Hlim : electionTimeLimitMin_ s < electionTimeLimitMax_ s) :
  exists s', ProcessRequestVote args s =
      Some (mkRequestVoteReply (current_term_ s') (vote_rule args s) (id_ s) (group_id_ s), s') /\
    current_term_ s' = (if IsGroupMember (rva_candidate_id args) s
                        then Z.max (current_term_ s) (rva_term args) else current_term_ s) /\
    vote_for_ s' = (if vote_rule args s then rva_candidate_id args
                    else if IsGroupMember (rva_candidate_id args) s && (current_term_ s <? rva_term args)
                    then kNotVoted else vote_for_ s) /\
    role_ s' = (if steps_down args s then kFollower else role_ s) /\
    lm_ s' = lm_ s /\ id_ s' = id_ s /\ peers_ s' = peers_ s /\
    (storage_ s' = None <-> storage_ s = None) /\
    (forall (dur : DurableState St) (st' : St), vote_rule args s = true -> storage_ s' = Some st' ->
     OnDisk st' = mkPersistRaftState true (rva_term args) (rva_candidate_id args)).
Proof.
  destruct (touch_run (rva_candidate_id args) s Hmon Hid) as (m & Ht & _).
  unfold ProcessRequestVote, vote_rule, steps_down. unfold bind at 1. rewrite Ht.
  unfold bind at 1, get at 1. cbv zeta. set (s1 := set_live_monitor_ m s).
  change (IsGroupMember (rva_candidate_id args) s1) with (IsGroupMember (rva_candidate_id args) s).
  destruct (IsGroupMember (rva_candidate_id args) s); cbn [negb andb]; [|by exists s1].
  change (CurrentTerm s1) with (current_term_ s).
  destruct (Z.ltb_spec (rva_term args) (current_term_ s)) as [Hlt|Hge].
  { rewrite (proj2 (Z.leb_gt _ _)), (proj2 (Z.ltb_ge _ _)), (proj2 (Z.eqb_neq (current_term_ s) _)) by lia.
    cbn. exists s1. split_and!; try done. cbn. lia. }
  rewrite (proj2 (Z.leb_le _ _)) by lia. cbn [andb].
  destruct (step_down_run args s1 Hge) as (s2 & H2 & Ht2 & Hv2 & Hr2 & Hi2 & Hg2 & Hp2 & Hl2 & Hm1 & Hm2 & Hst2).
  change (CurrentTerm s1) with (current_term_ s) in H2. change (Role s1) with (role_ s) in *.
  unfold bind at 1. rewrite H2. unfold bind at 1, get at 1. cbn in Hv2, Hr2, Hi2, Hg2, Hp2, Hl2, Hm1, Hm2.
  assert (isLogUpToDate (rva_last_log_index args) (rva_last_log_term args) s2 =
          up_to_date (rva_last_log_index args) (rva_last_log_term args) s) as ->.
  { rewrite isLogUpToDate_spec. unfold up_to_date. by rewrite Hl2. }
  assert ((VoteFor s2 =? kNotVoted) || (VoteFor s2 =? rva_candidate_id args) =
          ((current_term_ s <? rva_term args) || (vote_for_ s =? kNotVoted) ||
           (vote_for_ s =? rva_candidate_id args))) as ->.
  { unfold VoteFor. rewrite Hv2. by destruct (current_term_ s <? rva_term args). }
  assert (((current_term_ s <? rva_term args) || (current_term_ s =? rva_term args) && role_eqb (role_ s) kCandidate)
          = ((current_term_ s <? rva_term args) || role_eqb (role_ s) kCandidate)) as ->.
  { destruct (Z.ltb_spec (current_term_ s) (rva_term args)); [done|].
    by rewrite (proj2 (Z.eqb_eq _ _)) by lia. }
  destruct (((current_term_ s <? rva_term args) || _ || _) && _) eqn:Hrule.
  - unfold bind at 1, SetVoteFor at 1, modify at 1. unfold bind at 1.
    edestruct PersistRaftState_set as (o & Hpers & Ho). rewrite Hpers.
    set (s3 := set_storage_ o _) in *.
    destruct (resetElectionTimer_run s3) as (s4 & H4 & Hc4 & _); [cbn; lia|].
    unfold bind at 1. rewrite H4. unfold same, core in Hc4. injection Hc4 as Hi4 Hg4 Hp4 Ht4 Hv4 Hst4 Hr4 _ Hl4 _ _ _ _ _ _.
    unfold ret. exists s4. rewrite Ht4, Hv4, Hr4, Hl4, Hi4, Hp4. cbn. unfold CurrentTerm.
    split_and!; try done; [lia|by rewrite Hst4, Ho|].
    intros dur st' _ Hst. rewrite Hst4 in Hst.
    apply PersistRaftState_run in Hpers as (Hd & _ & _ & _ & Ht3 & Hv3 & _).
    destruct (Hd st' Hst) as [Hp Hdisk]. rewrite Hdisk, Hp, Ht3, Hv3. cbn. by rewrite Ht2.
  - exists s2. rewrite Ht2, Hv2, Hr2. unfold CurrentTerm. rewrite Ht2. split_and!; try done. lia.
Qed.

(** ** Witnesses *)
Section witnesses.
#[local] Instance demo_layout_vote : Layout := {| sizeof_LogEntry := 200; kHeaderSize := 32 |}.
#[local] Instance demo_alloc_vote : Allocator := fun _ => true.
#[local] Instance demo_indet_vote : Indeterminate := 0.

(** The state an event leads to. *)
Definition after {St} {store : Storage St} {isal : IsaL} {alloc : Allocator} {indet0 : Indeterminate}
    (ev : Event) (s : RaftState St) : RaftState St := default s (snd <$> handle ev s).
Definition succeeds {A} (o : option A) : bool := match o with Some _ => true | None => false end.

Lemma after_step {St} {store : Storage St} {isal : IsaL} {alloc : Allocator} {indet0 : Indeterminate}
    (ev : Event) (s : RaftState St) : succeeds (handle ev s) = true -> node_step s (after ev s).
Proof.
  unfold after. destruct (handle ev s) as [[out s']|] eqn:E; [|done]. intros _. cbn.
  by eapply NodeStep.
Qed.

Definition demo_vote : RequestVoteArgs := mkRequestVoteArgs 7 1 0 0 0 0.
Definition demo_start : RaftState FileStorage :=
  default (demo_node 0 None) (NewRaftState (demo_config 0 (Some FileStorage_create)) demo_uninit 0).
Definition demo_voted : RaftState FileStorage := after (EvRequestVote demo_vote) demo_start.

Lemma demo_start_new : NewRaftState (demo_config 0 (Some FileStorage_create)) demo_uninit 0 = Some demo_start.
Proof.
  unfold demo_start.
  destruct (NewRaftState (demo_config 0 (Some FileStorage_create)) demo_uninit 0) as [s|] eqn:E; [done|].
  apply (f_equal succeeds) in E. vm_compute in E. done.
Qed.

Lemma vote_once_per_term_witness :
  current_term_ demo_start <= current_term_ demo_voted /\
  (current_term_ demo_voted = current_term_ demo_start -> vote_for_ demo_start <> kNotVoted ->
   vote_for_ demo_voted = vote_for_ demo_start) /\
  (forall st, storage_ demo_voted = Some st ->
     OnDisk st = mkPersistRaftState true (current_term_ demo_voted) (vote_for_ demo_voted)).
Proof.
  apply (vote_once_per_term (demo_config 0 (Some FileStorage_create)) demo_uninit 0 demo_start demo_start demo_voted).
  - exact demo_start_new.
  - apply rtc_refl.
  - apply rtc_once, LifeEvent.
    + vm_compute. split; [discriminate|reflexivity].
    + apply after_step. vm_compute. reflexivity.
Defined.

Lemma ProcessRequestVote_spec_witness :
  exists s', ProcessRequestVote demo_vote (demo_node 0 (Some FileStorage_create)) =
      Some (mkRequestVoteReply (current_term_ s') true 0 0, s') /\ current_term_ s' = 7 /\ vote_for_ s' = 1 /\
    exists st', storage_ s' = Some st' /\ OnDisk st' = mkPersistRaftState true 7 1.
Proof.
  destruct (ProcessRequestVote_spec demo_vote (demo_node 0 (Some FileStorage_create)))
    as (s' & H & Ht & Hv & _ & _ & _ & _ & Hn & Hd).
  - split; cbn; lia.
  - cbn. lia.
  - cbn. lia.
  - exists s'. split; [exact H|split; [exact Ht|split; [exact Hv|]]].
    destruct (storage_ s') as [st'|]; [|discriminate (proj1 Hn eq_refl)].
    exists st'. split; [reflexivity|]. apply Hd; reflexivity.
Defined.
End witnesses.
