(* ===== verification/RaftLog.v ===== *)
(** The replicated log of one node: what the AppendEntries handler does to the
    log, what is committed and what reaches the state machine
    (src/raft/raft.cc: [Process(AppendEntriesArgs)],
    [checkConflictEntryAndAppendNew], [tryUpdateCommitIndex],
    [tryApplyLogEntries]).

    The abstract log is a list ([represents] of LogManager.v); [merge_entries] is
    the specification of a conflict check and append on it. *)

From S2P Require Import Prelude Types LogManager Encoder Lrc Grouper Storage PersistQueue Monitors RaftBase RaftEncode RaftCore RaftFrames RaftVote.

(** Writing to the storage does not fail (no I/O error, no failed assert). *)
Class TotalStorage (St : Type) `{Storage St} : Prop := {
  ts_writes :: StateWrites St;
  ts_append : forall e st, is_Some (AppendEntry e st);
  ts_overwrite : forall i e st, is_Some (OverwriteEntry i e st);
  ts_delete : forall i st, is_Some (DeleteEntriesFrom i st)
}.

#[export] Instance MemStorage_Total : TotalStorage MemStorage.
Proof. split; cbn; eauto. apply _. Qed.

(** ** Specification: the entries [es] received for the positions from [i] on *)
Fixpoint merge_entries (l : list LogEntry) (i : nat) (es : list LogEntry) : list LogEntry :=
  match es with
  | [] => l
  | e :: rest =>
      match l !! i with
      | None => l ++ es
      | Some old =>
          if Term e =? Term old then
            merge_entries (if NeedOverwriteLogEntry (GetChunkInfo old) (GetChunkInfo e)
                           then <[i := e]> l else l) (S i) rest
          else take i l ++ es
      end
  end.

(** The entries carry the indices of their positions. *)
Definition indexed (i : nat) (es : list LogEntry) : Prop :=
  forall j e, es !! j = Some e -> Index e = Z.of_nat (i + j) + 1.

Lemma indexed_cons i e es : indexed i (e :: es) -> Index e = Z.of_nat i + 1 /\ indexed (S i) es.
Proof.
  intros H. split; [rewrite (H 0%nat e eq_refl); lia|].
  intros j x Hx. rewrite (H (S j) x Hx). lia.
Qed.

(** What the specification guarantees. *)
Lemma merge_prefix es : forall l i, (i <= length l)%nat -> take i (merge_entries l i es) = take i l.
Proof.
  induction es as [|e es IH]; intros l i Hi; cbn; [done|].
  destruct (l !! i) as [old|] eqn:Ho.
  - apply lookup_lt_Some in Ho. destruct (Term e =? Term old).
    + set (l' := if NeedOverwriteLogEntry _ _ then _ else l).
      assert (take i l' = take i l /\ length l' = length l) as [Ht Hl].
      { unfold l'. destruct (NeedOverwriteLogEntry _ _); [|done]. by rewrite take_insert_ge, length_insert by lia. }
      rewrite <- Ht. pose proof (IH l' (S i) ltac:(lia)) as H.
      apply (f_equal (take i)) in H. rewrite !take_take, Nat.min_l in H by lia. done.
    + rewrite take_app_le by (rewrite length_take; lia). by rewrite take_take, Nat.min_id.
  - by rewrite take_app_le by lia.
Qed.

Lemma merge_terms es : forall l i j e, (i <= length l)%nat -> es !! j = Some e ->
  exists x, merge_entries l i es !! (i + j)%nat = Some x /\ Term x = Term e.
Proof.
  induction es as [|e es IH]; intros l i j x Hi Hj; [done|]. cbn [merge_entries].
  destruct (l !! i) as [old|] eqn:Ho.
  - pose proof (lookup_lt_Some _ _ _ Ho). destruct (Z.eqb_spec (Term e) (Term old)) as [Ht|Ht].
    + set (l' := if NeedOverwriteLogEntry _ _ then _ else l).
      assert (length l' = length l /\ exists y, l' !! i = Some y /\ Term y = Term e) as [Hl (y & Hy & Hty)].
      { unfold l'. destruct (NeedOverwriteLogEntry _ _).
        - rewrite length_insert. split; [done|]. exists e. by rewrite list_lookup_insert_eq by lia.
        - split; [done|]. exists old. done. }
      destruct j as [|j].
      * injection Hj as <-. rewrite Nat.add_0_r.
        pose proof (merge_prefix es l' (S i) ltac:(lia)) as Hp.
        apply (f_equal (.!! i)) in Hp. rewrite !lookup_take_lt in Hp by lia.
        rewrite Hp. eauto.
      * replace (i + S j)%nat with (S i + j)%nat by lia. apply IH; [lia|done].
    + rewrite lookup_app_r by (rewrite length_take; lia). rewrite length_take, Nat.min_l by lia.
      replace (i + j - i)%nat with j by lia. eauto.
  - apply lookup_ge_None in Ho. rewrite lookup_app_r by lia.
    replace (i + j - length l)%nat with j by lia. eauto.
Qed.

(** Without a conflict nothing is lost. *)
Lemma merge_no_conflict es : forall l i, (i <= length l)%nat ->
  (forall j e old, es !! j = Some e -> l !! (i + j)%nat = Some old -> Term e = Term old) ->
  length (merge_entries l i es) = Nat.max (length l) (i + length es).
Proof.
  induction es as [|e es IH]; intros l i Hi Hc; cbn [merge_entries length]; [lia|].
  destruct (l !! i) as [old|] eqn:Ho.
  - pose proof (lookup_lt_Some _ _ _ Ho).
    rewrite (proj2 (Z.eqb_eq _ _)) by (apply (Hc 0%nat e old eq_refl); by rewrite Nat.add_0_r).
    set (l' := if NeedOverwriteLogEntry _ _ then _ else l).
    assert (length l' = length l) as Hl.
    { unfold l'. destruct (NeedOverwriteLogEntry _ _); [apply length_insert|done]. }
    rewrite IH by (rewrite ?Hl; lia || (intros j x o Hj Hx; apply (Hc (S j) x o Hj);
      replace (i + S j)%nat with (S i + j)%nat by lia; revert Hx; unfold l';
      destruct (NeedOverwriteLogEntry _ _); [rewrite list_lookup_insert_ne by lia|]; done)).
    rewrite Hl. lia.
  - apply lookup_ge_None in Ho. rewrite length_app. cbn. lia.
Qed.

(** No entry received conflicts with the log. *)
Definition no_conflict (l : list LogEntry) (i : nat) (es : list LogEntry) : Prop :=
  forall j e old, es !! j = Some e -> l !! (i + j)%nat = Some old -> Term e = Term old.

Lemma no_conflict_step l i e es x :
  no_conflict l i (e :: es) -> no_conflict l (S i) es /\ no_conflict (<[i := x]> l) (S i) es.
Proof.
  intros H. split; intros j y old Hj Hx.
  - apply (H (S j) y old Hj). by replace (i + S j)%nat with (S i + j)%nat by lia.
  - rewrite list_lookup_insert_ne in Hx by lia. apply (H (S j) y old Hj).
    by replace (i + S j)%nat with (S i + j)%nat by lia.
Qed.

(** The first conflict is at position [j] of the request, between [e] and [old]. *)
Record conflict_at (l : list LogEntry) (i : nat) (es : list LogEntry) (j : nat) (e old : LogEntry) : Prop := {
  ca_new : es !! j = Some e;
  ca_old : l !! (i + j)%nat = Some old;
  ca_terms : Term e <> Term old;
  ca_first : no_conflict l i (take j es)
}.

Lemma conflict_at_tail l i e es j x old y :
  conflict_at l i (e :: es) (S j) x old ->
  conflict_at l (S i) es j x old /\ conflict_at (<[i := y]> l) (S i) es j x old.
Proof.
  intros [H1 H2 H3 H4]. cbn in H4. apply no_conflict_step with (x := y) in H4 as [H4 H5].
  replace (i + S j)%nat with (S i + j)%nat in H2 by lia.
  split; split; try done. by rewrite list_lookup_insert_ne by lia.
Qed.

(** What writing the entries [es] does to the slots of a log, and truncating it unless
    [c]: an invariant of the slots is preserved, and when it excludes freed storage,
    none is used. *)
Definition keeps_slots (P : Slot -> Prop) (Q : LogEntry -> Prop) (lm lm' : LogManager) : Prop :=
  slots_hold P lm -> slots_hold P lm' /\ (NoFreedUse P Q -> undefined_ lm' = undefined_ lm).
Definition writes_only (es : list LogEntry) (c : Prop) (lm lm' : LogManager) : Prop :=
  forall P Q, SlotInvariant P Q -> Forall Q es -> (forall o, P o -> P (default_Deleter o)) \/ c ->
  keeps_slots P Q lm lm'.

Lemma keeps_slots_trans P Q a b c : keeps_slots P Q a b -> keeps_slots P Q b c -> keeps_slots P Q a c.
Proof.
  intros H1 H2 H. destruct (H1 H) as [Hb Hu1], (H2 Hb) as [Hc Hu2]. split; [done|].
  intros Hn. by rewrite Hu2, Hu1.
Qed.

(** ** The handler implements the specification *)
Section log.
Context {St : Type} {store : Storage St} {alloc : Allocator} {total : TotalStorage St}.
Context (Halloc : forall n, new_array_ok n = true).
Abbreviation State := (RaftState St).

(** What the log operations leave alone. *)
Record Outer := mkOuter {
  ou_id : Z; ou_group : Z; ou_peers : list Z; ou_term : Z; ou_vote : Z; ou_role : RaftRole;
  ou_commit : Z; ou_applied : Z; ou_rsm : option (list LogEntry);
  ou_bridge : option (list (Z * Z * LogEntry)); ou_bridge_group : Z; ou_bridge_node : Z
}.
Definition outer (s : State) : Outer :=
  mkOuter (id_ s) (group_id_ s) (peers_ s) (current_term_ s) (vote_for_ s) (role_ s) (commit_index_ s)
    (last_applied_ s) (rsm_ s) (batch_system_bridge_ s) (bridge_group_id_ s) (bridge_node_id_ s).

Lemma update_storage_run f (s : State) :
  (forall st, is_Some (f st)) -> exists o, update_storage f s = Some (tt, set_storage_ o s).
Proof.
  intros Hf. unfold update_storage, bind, get, lift, modify. destruct (storage_ s) as [st|] eqn:E.
  - destruct (Hf st) as [st' ->]. by eexists.
  - exists (storage_ s). by destruct s.
Qed.

Lemma rollback_run i (s : State) :
  exists s', rollback_storage i (ret tt) s = Some (tt, s') /\ lm_ s' = lm_ s /\ outer s' = outer s.
Proof.
  unfold rollback_storage. rewrite bind_get.
  destruct (storage_ s) as [st|]; [|by exists s].
  destruct (update_storage_run (DeleteEntriesFrom i) s) as [o Ho]; [intros; apply ts_delete|].
  destruct (persist_queue_ s) as [q|]; [destruct (IsUnpersisted i q); [by eexists|]|].
  - rewrite (bind_run _ _ _ _ _ Ho). by eexists.
  - rewrite (bind_run _ _ _ _ _ Ho). by eexists.
Qed.

Lemma append_new_run es : forall l (s : State),
  represents (lm_ s) l -> indexed (length l) es -> Z.of_nat (length l + length es) < 2 ^ 27 ->
  exists s', append_new es s = Some (tt, s') /\ represents (lm_ s') (l ++ es) /\
    writes_only es True (lm_ s) (lm_ s') /\
    (undefined_ (lm_ s) = true -> undefined_ (lm_ s') = true) /\
    (forall e rest, es = e :: rest -> undefined_ (snd (AppendLogEntry e (lm_ s))) = true ->
     undefined_ (lm_ s') = true) /\ outer s' = outer s.
Proof.
  induction es as [|e es IH]; intros l s Hr Hix Hlen.
  - exists s. rewrite app_nil_r. by split_and!.
  - apply indexed_cons in Hix as [He Hix]. cbn [length] in Hlen.
    unfold append_new. cbn [forM_]. fold (append_new es).
    unfold update_lm. rewrite bind_assoc, bind_modify.
    edestruct update_storage_run as [o Ho]; [intros; apply ts_append|].
    rewrite (bind_run _ _ _ _ _ Ho).
    pose proof (rep_append (lm_ s) l e Halloc Hr He ltac:(lia)) as Hr1.
    destruct (IH (l ++ [e]) (set_storage_ o (set_lm_ (snd (AppendLogEntry e (lm_ s))) s))) as (s' & -> & Hr' & Hk & Hu & _ & Ho').
    + done.
    + rewrite length_app. cbn. by rewrite Nat.add_1_r.
    + rewrite length_app. cbn. lia.
    + exists s'. rewrite <- app_assoc in Hr'. split_and!; try done.
      * intros P Q Hinv [Hq Hqs]%Forall_cons Hd. eapply keeps_slots_trans; [|by apply Hk].
        intros Hs. by apply (slots_append P Q Hinv).
      * intros H. apply Hu. by apply undefined_append.
      * intros e' rest [= <- <-]. apply Hu.
Qed.

(** The overwriting of an entry of the same term by one of a smaller coding parameter. *)
Definition refreshed (l : list LogEntry) (i : nat) (old e : LogEntry) : list LogEntry :=
  if NeedOverwriteLogEntry (GetChunkInfo old) (GetChunkInfo e) then <[i := e]> l else l.

Lemma length_refreshed l i old e : length (refreshed l i old e) = length l.
Proof. unfold refreshed. destruct (NeedOverwriteLogEntry _ _); [apply length_insert|done]. Qed.

Lemma refresh_run (i : nat) l e old (s : State) :
  represents (lm_ s) l -> (i < length l)%nat -> Index e = Z.of_nat i + 1 ->
  exists s', (if NeedOverwriteLogEntry (GetChunkInfo old) (GetChunkInfo e)
      then update_lm (fun lm => snd (OverWriteLogEntry e (Z.of_nat i + 1) lm)) ;;;
           update_storage (OverwriteEntry (Z.of_nat i + 1) e)
      else when false (update_storage (AppendEntry old))) s = Some (tt, s') /\
    represents (lm_ s') (refreshed l i old e) /\ writes_only [e] True (lm_ s) (lm_ s') /\ outer s' = outer s.
Proof.
  intros Hr Hi He. unfold refreshed. destruct (NeedOverwriteLogEntry _ _); [|exists s; by split_and!].
  unfold update_lm. rewrite bind_modify.
  edestruct update_storage_run as [o ->]; [intros; apply ts_overwrite|].
  eexists. split; [done|]. split_and!; [by apply rep_overwrite| |done].
  intros P Q Hinv [Hq _]%Forall_cons _ Hs. by apply (slots_overwrite P Q Hinv).
Qed.

Lemma check_existing_run es : forall (i : nat) l (s : State),
  represents (lm_ s) l -> (i <= length l)%nat -> indexed i es ->
  Z.of_nat (length l + length es) < 2 ^ 27 ->
  exists infos rest l' s', check_existing (Z.of_nat i + 1) es s = Some ((infos, rest), s') /\
    represents (lm_ s') l' /\ indexed (length l') rest /\ l' ++ rest = merge_entries l i es /\
    (length l' + length rest <= length l + length es)%nat /\
    infos ++ (GetChunkInfo <$> rest) = GetChunkInfo <$> take (length es) (drop i (merge_entries l i es)) /\
    rest `suffix_of` es /\ writes_only es (no_conflict l i es) (lm_ s) (lm_ s') /\
    (forall j e old, conflict_at l i es j e old -> share_vector e old -> slots_hold tracked_slot (lm_ s) ->
     exists rest', rest = e :: rest' /\ undefined_ (snd (AppendLogEntry e (lm_ s'))) = true) /\
    outer s' = outer s.
Proof.
  induction es as [|e es IH]; intros i l s Hr Hi Hix Hlen.
  - exists [], [], l, s. rewrite app_nil_r. cbn. split_and!; try done; try lia.
    intros j e old []. by rewrite lookup_nil in *.
  - pose proof Hix as Hix0. apply indexed_cons in Hix as [He Hix]. cbn [length] in Hlen.
    cbn [check_existing merge_entries]. rewrite bind_get, (rep_last _ _ Hr). destruct (l !! i) as [old|] eqn:Ho.
    + pose proof (lookup_lt_Some _ _ _ Ho) as Hlt. rewrite (proj2 (Z.ltb_ge _ _)) by lia.
      rewrite (rep_term _ _ Hr i _ Ho).
      destruct (Z.eqb_spec (Term e) (Term old)) as [Ht|Ht]; cbn [negb].
      * cbv zeta. cbn [negb]. rewrite (bind_lift _ _ _ old) by (by rewrite (rep_get_nat _ _ Hr i)).
        destruct (refresh_run i l e old s Hr Hlt He) as (s1 & Hs1 & Hr1 & Hk1 & Ho1).
        change (if NeedOverwriteLogEntry (GetChunkInfo old) (GetChunkInfo e) then <[i := e]> l else l)
          with (refreshed l i old e). set (l1 := refreshed l i old e) in *.
        rewrite (bind_run _ _ _ _ _ Hs1), bind_get.
        pose proof (length_refreshed l i old e) as Hl1. fold l1 in Hl1.
        destruct (lookup_lt_is_Some_2 l1 i) as [y Hy]; [lia|].
        rewrite (bind_lift _ _ _ y) by (by rewrite (rep_get_nat _ _ Hr1 i)).
        destruct (IH (S i) l1 s1 Hr1 ltac:(lia) Hix ltac:(lia))
          as (infos & rest & l' & s' & Hrun & Hr' & Hix' & Hm & Hle & Hinf & Hsuf & Hk & Hcf & Ho').
        replace (u32 (Z.of_nat i + 1 + 1)) with (Z.of_nat (S i) + 1)
          by (rewrite u32_small; unfold is_u32; lia).
        rewrite (bind_run _ _ _ _ _ Hrun). exists (GetChunkInfo y :: infos), rest, l', s'. cbn [fst snd length].
        split_and!; try done; [lia| |by apply suffix_cons_r| | |congruence].
        { pose proof (merge_prefix es l1 (S i) ltac:(lia)) as Hp. apply (f_equal (.!! i)) in Hp.
          rewrite !lookup_take_lt, Hy in Hp by lia. rewrite (drop_S _ _ _ Hp). cbn. by rewrite <- Hinf. }
        { intros P Q Hinv [Hq Hqs]%Forall_cons Hc. eapply keeps_slots_trans.
          { apply (Hk1 P Q Hinv); [by apply Forall_cons|by right]. }
          apply (Hk P Q Hinv Hqs). destruct Hc as [|Hc]; [by left|right]. unfold l1, refreshed.
          destruct (no_conflict_step l i e es e Hc). by destruct (NeedOverwriteLogEntry _ _). }
        intros [|j] x o Hca Hsh Htr.
        { destruct Hca as [[= <-] Hco Hne _]. rewrite Nat.add_0_r, Ho in Hco. by injection Hco as ->. }
        apply (conflict_at_tail _ _ _ _ _ _ _ e) in Hca as [Hca1 Hca2].
        apply (Hcf j x o); [|done|by apply (Hk1 _ _ tracked_invariant ltac:(by repeat constructor) (or_intror I))].
        unfold l1, refreshed. by destruct (NeedOverwriteLogEntry _ _).
      * unfold update_lm. rewrite bind_modify.
        set (s1 := set_lm_ _ s). destruct (rollback_run (Z.of_nat i + 1) s1) as (s' & Hroll & Hlm & Ho').
        rewrite (bind_run _ _ _ _ _ Hroll).
        exists [], (e :: es), (take i l), s'. split; [done|]. rewrite Hlm. cbn [length].
        rewrite length_take, Nat.min_l by lia.
        split_and!; try done; try lia; [by apply rep_delete| | |].
        { rewrite drop_app_ge, length_take, Nat.min_l, Nat.sub_diag, drop_0 by (rewrite ?length_take; lia).
          by rewrite (firstn_all2 (n := S _)) by done. }
        { intros P Q Hinv Hqs [Hd|Hc].
          { intros Hs. by apply (slots_delete P Q Hinv Hd). }
          destruct Ht. apply (Hc 0%nat e old eq_refl). by rewrite Nat.add_0_r. }
        intros [|j] x o Hca Hsh Htr.
        { destruct Hca as [[= <-] Hco _ _]. rewrite Nat.add_0_r, Ho in Hco. injection Hco as <-.
          exists es. split; [done|]. apply (truncate_append_undefined _ _ old); try done; [apply (rep_wf _ _ Hr)|].
          by rewrite <- GetSingleLogEntry_spec, (rep_get_nat _ _ Hr) by apply (rep_wf _ _ Hr). }
        destruct Ht. apply (ca_first _ _ _ _ _ _ Hca 0%nat e old eq_refl). by rewrite Nat.add_0_r.
    + apply lookup_ge_None in Ho. rewrite (proj2 (Z.ltb_lt _ _)) by lia.
      exists [], (e :: es), l, s. replace (length l) with i by lia. cbn [length app].
      split_and!; try done; try lia.
      { rewrite drop_app_ge by lia. replace (i - length l)%nat with 0%nat by lia.
        by rewrite drop_0, (firstn_all2 (n := S _)) by done. }
      intros j x o [_ Hco%lookup_lt_Some _ _]. lia.
Qed.

Lemma checkConflict_run args (i : nat) l (s : State) :
  represents (lm_ s) l -> aea_prev_log_index args = Z.of_nat i -> (i <= length l)%nat ->
  aea_entry_cnt args = Z.of_nat (length (aea_entries args)) ->
  indexed i (aea_entries args) -> Z.of_nat (length l + length (aea_entries args)) < 2 ^ 27 ->
  exists infos s', checkConflictEntryAndAppendNew args s = Some (infos, s') /\
    represents (lm_ s') (merge_entries l i (aea_entries args)) /\
    infos = GetChunkInfo <$> take (length (aea_entries args)) (drop i (merge_entries l i (aea_entries args))) /\
    writes_only (aea_entries args) (no_conflict l i (aea_entries args)) (lm_ s) (lm_ s') /\
    (forall j e old, conflict_at l i (aea_entries args) j e old -> share_vector e old ->
     slots_hold tracked_slot (lm_ s) -> undefined_ (lm_ s') = true) /\ outer s' = outer s.
Proof.
  intros Hr Hp Hi Hc Hix Hlen. unfold checkConflictEntryAndAppendNew.
  rewrite bind_assert by (by apply Z.eqb_eq). rewrite Hp, u32_small by (unfold is_u32; lia).
  destruct (check_existing_run (aea_entries args) i l s Hr Hi Hix Hlen)
    as (infos & rest & l' & s1 & Hrun & Hr1 & Hix1 & Hm & Hle & Hinf & Hsuf & Hk1 & Hcf & Ho1).
  rewrite (bind_run _ _ _ _ _ Hrun). cbn [fst snd].
  destruct (append_new_run rest l' s1 Hr1 Hix1 ltac:(lia)) as (s2 & Hrun2 & Hr2 & Hk2 & _ & Hu2 & Ho2).
  rewrite (bind_run _ _ _ _ _ Hrun2). exists (infos ++ (GetChunkInfo <$> rest)), s2.
  split; [done|]. rewrite Hinf, <- Hm. split_and!; try done; [| |congruence].
  2: { intros j e old Hca Hsh Htr. destruct (Hcf j e old Hca Hsh Htr) as (rest' & -> & Hu). by eapply Hu2. }
  intros P Q Hinv Hq Hd. eapply keeps_slots_trans; [by apply (Hk1 P Q Hinv)|].
  apply (Hk2 P Q Hinv); [|by right]. destruct Hsuf as [pre Hpre]. rewrite Hpre in Hq. by apply Forall_app in Hq as [_ Hq].
Qed.

(** The step-down of the AppendEntries handler. *)
Lemma append_step_down {writes : StateWrites St} args (s : State) :
  current_term_ s <= aea_term args ->
  exists s', when ((CurrentTerm s <? aea_term args) || role_eqb (Role s) kCandidate)
               (convertToFollower (aea_term args)) s = Some (tt, s') /\
    current_term_ s' = aea_term args /\ id_ s' = id_ s /\ group_id_ s' = group_id_ s /\
    lm_ s' = lm_ s /\ commit_index_ s' = commit_index_ s /\
    electionTimeLimitMin_ s' = electionTimeLimitMin_ s /\ electionTimeLimitMax_ s' = electionTimeLimitMax_ s.
Proof.
  intros Hle. unfold when, Role, CurrentTerm.
  destruct ((current_term_ s <? aea_term args) || role_eqb (role_ s) kCandidate) eqn:E.
  - destruct (convertToFollower_run _ _ Hle) as (s' & H & Ht & _ & _ & Hi & Hg & _ & Hl & Hc & _ & H1 & H2 & _).
    exists s'. done.
  - apply orb_false_elim in E as [E _]. exists s. apply Z.ltb_ge in E. split_and!; try done. lia.
Qed.

(** ** Applying *)

(** What applying leaves alone. *)
Record Inner := mkInner {
  in_id : Z; in_group : Z; in_term : Z; in_vote : Z; in_role : RaftRole; in_commit : Z; in_lm : LogManager;
  in_storage : option St; in_peers : list Z
}.
Definition inner (s : State) : Inner :=
  mkInner (id_ s) (group_id_ s) (current_term_ s) (vote_for_ s) (role_ s) (commit_index_ s) (lm_ s)
    (storage_ s) (peers_ s).

Lemma inner_apply_next : obeys (same inner) (apply_next (St := St)).
Proof. unfold apply_next. cbv zeta. obeys_tac; reflexivity. Qed.
Hint Resolve inner_apply_next : obeys.

Lemma inner_apply_loop n : obeys (same inner) (apply_loop (St := St) n).
Proof. induction n as [|n IH]; cbn [apply_loop]; obeys_tac. Qed.
Hint Resolve inner_apply_loop : obeys.

Lemma inner_tryApplyLogEntries : obeys (same inner) (tryApplyLogEntries (St := St)).
Proof. unfold tryApplyLogEntries. obeys_tac. Qed.

Lemma apply_next_total (s : State) : exists go s', apply_next s = Some (go, s').
Proof.
  unfold apply_next. rewrite bind_get. cbv zeta.
  destruct (rsm_ s) as [r|], (batch_system_bridge_ s) as [b|],
    (GetSingleLogEntry (lm_ s) (u32 (last_applied_ s + 1))) as [e|]; by eexists _, _.
Qed.

Lemma tryApply_total (s : State) : exists s', tryApplyLogEntries s = Some (tt, s').
Proof.
  unfold tryApplyLogEntries. rewrite bind_get. generalize (Z.to_nat (commit_index_ s - last_applied_ s)) as n.
  intros n. revert s. induction n as [|n IH]; intros s; cbn [apply_loop]; [by eexists|].
  rewrite bind_get. destruct (last_applied_ s <? commit_index_ s); [|by eexists].
  destruct (apply_next_total s) as (go & s1 & H1). rewrite (bind_run _ _ _ _ _ H1).
  destruct go; [apply IH|by eexists].
Qed.

(** One iteration on an entry of the log. *)
Lemma apply_next_run (s : State) e :
  GetSingleLogEntry (lm_ s) (u32 (last_applied_ s + 1)) = Some e ->
  exists s', apply_next s = Some (true, s') /\ last_applied_ s' = u32 (last_applied_ s + 1) /\
    rsm_ s' = (fun l => l ++ [e]) <$> rsm_ s /\
    batch_system_bridge_ s' = (fun l => l ++ [(bridge_group_id_ s, bridge_node_id_ s, e)]) <$> batch_system_bridge_ s /\
    bridge_group_id_ s' = bridge_group_id_ s /\ bridge_node_id_ s' = bridge_node_id_ s.
Proof.
  intros He. unfold apply_next. rewrite bind_get. cbv zeta. rewrite He.
  destruct (rsm_ s) as [r|] eqn:Hr, (batch_system_bridge_ s) as [b|] eqn:Hb;
    eexists; (split; [reflexivity|]); cbn; rewrite ?Hr, ?Hb; done.
Qed.

Lemma apply_loop_run n : forall l (s : State) (a : nat),
  represents (lm_ s) l -> last_applied_ s = Z.of_nat a -> commit_index_ s = Z.of_nat (a + n) ->
  (a + n <= length l)%nat ->
  exists s', apply_loop n s = Some (tt, s') /\ last_applied_ s' = Z.of_nat (a + n) /\
    rsm_ s' = (fun r => r ++ take n (drop a l)) <$> rsm_ s /\
    batch_system_bridge_ s' =
      (fun r => r ++ (pair (bridge_group_id_ s, bridge_node_id_ s) <$> take n (drop a l))) <$> batch_system_bridge_ s.
Proof.
  induction n as [|n IH]; intros l s a Hr Ha Hc Hn.
  - exists s. rewrite Ha, Nat.add_0_r. cbn [take fmap list_fmap]. split_and!; try done.
    + destruct (rsm_ s); cbn; by rewrite ?app_nil_r.
    + destruct (batch_system_bridge_ s); cbn; by rewrite ?app_nil_r.
  - cbn [apply_loop]. rewrite bind_get, (proj2 (Z.ltb_lt _ _)) by lia.
    pose proof (rep_bound _ _ Hr) as Hb. destruct (lookup_lt_is_Some_2 l a) as [e He]; [lia|].
    destruct (apply_next_run s e) as (s1 & H1 & Ha1 & Hr1 & Hb1 & Hg1 & Hn1).
    { rewrite Ha, u32_small by (unfold is_u32; lia). by rewrite (rep_get_nat _ _ Hr). }
    pose proof (inner_apply_next _ _ _ H1) as [= _ _ _ _ _ Hc1 Hl1 _ _].
    rewrite (bind_run _ _ _ _ _ H1).
    destruct (IH l s1 (S a)) as (s' & -> & Ha' & Hr' & Hb').
    + by rewrite Hl1.
    + rewrite Ha1, Ha, u32_small by (unfold is_u32; lia). lia.
    + rewrite Hc1, Hc. lia.
    + lia.
    + exists s'. rewrite Ha', Hr', Hb', Hr1, Hb1, Hg1, Hn1, (drop_S _ _ _ He). cbn [take fmap list_fmap].
      split_and!; [done|lia| |].
      * destruct (rsm_ s); cbn; by rewrite <- ?app_assoc.
      * destruct (batch_system_bridge_ s); cbn; by rewrite <- ?app_assoc.
Qed.
End log.

(** The entries of the log [l] that are committed and not applied yet. *)
Definition to_apply {St} (l : list LogEntry) (s : RaftState St) : list LogEntry :=
  take (Z.to_nat (commit_index_ s - last_applied_ s)) (drop (Z.to_nat (last_applied_ s)) l).

(** [C9] Committed entries reach the state machine in log order, each exactly
    once: [tryApplyLogEntries] hands over precisely the entries between the last
    applied index and the commit index, on both delivery paths, and ends with
    everything committed applied. *)
Theorem tryApplyLogEntries_spec {St} (l : list LogEntry) (s : RaftState St)
    (Hr : represents (lm_ s) l) (Hac : 0 <= last_applied_ s <= commit_index_ s)
    (Hcl : commit_index_ s <= Z.of_nat (length l)) :
  exists s', tryApplyLogEntries s = Some (tt, s') /\ last_applied_ s' = commit_index_ s /\
    rsm_ s' = (fun r => r ++ to_apply l s) <$> rsm_ s /\
    batch_system_bridge_ s' =
      (fun r => r ++ (pair (bridge_group_id_ s, bridge_node_id_ s) <$> to_apply l s)) <$> batch_system_bridge_ s /\
    lm_ s' = lm_ s /\ commit_index_ s' = commit_index_ s.
Proof.
  unfold to_apply. set (n := Z.to_nat (commit_index_ s - last_applied_ s)).
  destruct (apply_loop_run n l s (Z.to_nat (last_applied_ s)) Hr) as (s' & Hrun & Ha & Hrs & Hb); [lia..|].
  exists s'. unfold tryApplyLogEntries. rewrite bind_get. fold n. rewrite Hrun.
  pose proof (inner_apply_loop n _ _ _ Hrun) as [= _ _ _ _ _ Hc Hl _ _].
  split_and!; try done. lia.
Qed.

(** The log has the entry at [index], with this term and coding parameter; index 0
    stands for the empty prefix. *)
Definition log_has (l : list LogEntry) (snapshot_term index term k : Z) : bool :=
  if index =? 0 then term =? snapshot_term else
  match arr_get l (index - 1) with
  | Some e => (Term e =? term) && (GetK (GetChunkInfo e) =? k)
  | None => false
  end.

Lemma containEntry_log {St} (l : list LogEntry) (s : RaftState St) index term k :
  represents (lm_ s) l ->
  containEntry index term k s = log_has l (last_snapshot_term_ (lm_ s)) index term k.
Proof.
  intros Hr. unfold containEntry, log_has. rewrite (rep_get _ _ Hr).
  destruct Hr as [[_ _ ->] _]. done.
Qed.

(** The entries of an accepted request, if it has any. *)
Lemma append_part_run {St} {store : Storage St} {alloc : Allocator} {total : TotalStorage St} (args : AppendEntriesArgs) (i : nat) (l : list LogEntry)
    (s : RaftState St) :
  (forall n, new_array_ok n = true) -> represents (lm_ s) l -> aea_prev_log_index args = Z.of_nat i -> (i <= length l)%nat ->
  aea_entry_cnt args = Z.of_nat (length (aea_entries args)) -> indexed i (aea_entries args) ->
  Z.of_nat (length l + length (aea_entries args)) < 2 ^ 27 ->
  exists infos s', (if 0 <? aea_entry_cnt args then checkConflictEntryAndAppendNew args else ret []) s = Some (infos, s') /\
    represents (lm_ s') (merge_entries l i (aea_entries args)) /\
    infos = GetChunkInfo <$> take (length (aea_entries args)) (drop i (merge_entries l i (aea_entries args))) /\
    writes_only (aea_entries args) (no_conflict l i (aea_entries args)) (lm_ s) (lm_ s') /\
    (forall j e old, conflict_at l i (aea_entries args) j e old -> share_vector e old ->
     slots_hold tracked_slot (lm_ s) -> undefined_ (lm_ s') = true) /\ outer s' = outer s.
Proof.
  intros Halloc Hr Hprev Hi Hcnt Hix Hlen. destruct (Z.ltb_spec 0 (aea_entry_cnt args)).
  - by apply checkConflict_run.
  - destruct (aea_entries args); [|cbn in *; lia]. exists [], s. split_and!; try done.
    intros j e old []. by rewrite lookup_nil in *.
Qed.

(** The commit index follows the leader's, as far as the log goes. *)
Lemma follow_commit_run {St} (args : AppendEntriesArgs) (m : Z) (l : list LogEntry) (s : RaftState St) :
  represents (lm_ s) l -> is_u32 m ->
  exists s', when (CommitIndex s <? aea_leader_commit args)
      (SetCommitIndex (Z.min (Z.min (aea_leader_commit args) (u32 m)) (LastLogEntryIndex (lm_ s)))) s = Some (tt, s') /\
    commit_index_ s' = (if commit_index_ s <? aea_leader_commit args
                        then Z.min (Z.min (aea_leader_commit args) m) (Z.of_nat (length l)) else commit_index_ s) /\
    lm_ s' = lm_ s /\ current_term_ s' = current_term_ s /\ id_ s' = id_ s /\ group_id_ s' = group_id_ s.
Proof.
  intros Hr Hm. unfold CommitIndex. rewrite (rep_last _ _ Hr), (u32_small m) by done.
  destruct (commit_index_ s <? aea_leader_commit args); cbn; by eexists.
Qed.

(** A request whose predecessor matches is accepted. *)
Lemma ProcessAppendEntries_accepted {St} {store : Storage St} {alloc : Allocator}
    {total : TotalStorage St} (args : AppendEntriesArgs) (i : nat) (l : list LogEntry) (s : RaftState St)
    (Halloc : forall n, new_array_ok n = true) (Hr : represents (lm_ s) l)
    (Hmon : monitor_ok (live_monitor_ s)) (Hlead : 0 <= aea_leader_id args)
    (Hlim : electionTimeLimitMin_ s < electionTimeLimitMax_ s)
    (Hterm : current_term_ s <= aea_term args)
    (Hprev : aea_prev_log_index args = Z.of_nat i) (Hi : (i <= length l)%nat)
    (Hmatch : log_has l (last_snapshot_term_ (lm_ s)) (aea_prev_log_index args) (aea_prev_log_term args)
                (aea_prev_k args) = true)
    (Hcnt : aea_entry_cnt args = Z.of_nat (length (aea_entries args)))
    (Hix : indexed i (aea_entries args))
    (Hlen : Z.of_nat (length l + length (aea_entries args)) < 2 ^ 27) :
  let n := length (aea_entries args) in
  let l' := merge_entries l i (aea_entries args) in
  exists s', ProcessAppendEntries args s =
      Some (mkAppendEntriesReply (aea_term args) true (Z.of_nat (i + n) + 1) (id_ s) (group_id_ s)
              (Z.of_nat n) (GetChunkInfo <$> take n (drop i l')), s') /\
    current_term_ s' = aea_term args /\
    represents (lm_ s') l' /\ take i l' = take i l /\
    (forall j e, aea_entries args !! j = Some e -> exists x, l' !! (i + j)%nat = Some x /\ Term x = Term e) /\
    (no_conflict l i (aea_entries args) -> length l' = Nat.max (length l) (i + n)) /\
    commit_index_ s' = (if commit_index_ s <? aea_leader_commit args
                        then Z.min (Z.min (aea_leader_commit args) (Z.of_nat (i + n))) (Z.of_nat (length l'))
                        else commit_index_ s) /\
    writes_only (aea_entries args) (no_conflict l i (aea_entries args)) (lm_ s) (lm_ s') /\
    (forall j e old, conflict_at l i (aea_entries args) j e old -> share_vector e old ->
     slots_hold tracked_slot (lm_ s) -> undefined_ (lm_ s') = true).
Proof.
  cbv zeta. rewrite <- (containEntry_log l s) in Hmatch by done.
  destruct (touch_run (aea_leader_id args) s Hmon Hlead) as (m & Ht & _).
  unfold ProcessAppendEntries. rewrite (bind_run _ _ _ _ _ Ht). unfold SetElectionRound.
  rewrite bind_modify, bind_get. set (s1 := set_election_round_ 0 _). cbv zeta.
  change (CurrentTerm s1) with (current_term_ s). rewrite (proj2 (Z.ltb_ge _ _)) by done.
  destruct (append_step_down args s1 Hterm) as (s2 & H2 & Ht2 & Hi2 & Hg2 & Hl2 & Hc2 & Hm1 & Hm2).
  rewrite (bind_run _ _ _ _ _ H2).
  destruct (resetElectionTimer_run s2) as (s3 & H3 & Hc3 & _); [cbn in *; lia|].
  injection Hc3 as Hi3 Hg3 _ Ht3 _ _ _ _ Hl3 Hc3 _ _ _ _ _.
  rewrite (bind_run _ _ _ _ _ H3), bind_get. cbn in Hl2, Hi2, Hg2, Hc2.
  assert (containEntry (aea_prev_log_index args) (aea_prev_log_term args) (aea_prev_k args) s3 = true) as ->.
  { rewrite <- Hmatch. unfold containEntry. by rewrite Hl3, Hl2. }
  cbn [negb]. rewrite bind_assert by (by apply Z.eqb_eq).
  assert (represents (lm_ s3) l) as Hr3 by (by rewrite Hl3, Hl2).
  destruct (append_part_run args i l s3 Halloc Hr3 Hprev Hi Hcnt Hix Hlen) as (infos & s4 & H4 & Hr4 & Hinf & Hk4 & Hcf4 & Ho4).
  injection Ho4 as Hi4 Hg4 _ Ht4 _ _ Hc4 _ _ _ _ _.
  rewrite (bind_run _ _ _ _ _ H4), bind_get.
  set (n := length (aea_entries args)) in *. set (l' := merge_entries l i (aea_entries args)) in *.
  destruct (follow_commit_run args (aea_prev_log_index args + Z.of_nat n) l' s4 Hr4) as (s5 & H5 & Hc5 & Hl5 & Ht5 & Hi5 & Hg5);
    [unfold is_u32; lia|].
  rewrite (bind_run _ _ _ _ _ H5). destruct (tryApply_total s5) as (s6 & H6).
  pose proof (inner_tryApplyLogEntries _ _ _ H6) as [= Hi6 Hg6 Ht6 _ _ Hc6 Hl6 _ _].
  rewrite (bind_run _ _ _ _ _ H6). exists s6.
  assert (length infos = n) as Hinfos.
  { rewrite Hinf, length_fmap, length_take, length_drop. fold n l'. pose proof (merge_terms (aea_entries args) l i) as Hm.
    fold l' in Hm. destruct (decide (n = 0%nat)) as [->|Hn]; [lia|].
    destruct (lookup_lt_is_Some_2 (aea_entries args) (n - 1)) as [e He]; [lia|].
    destruct (Hm _ e Hi He) as (x & Hx%lookup_lt_Some & _). lia. }
  split_and!; try done.
  - rewrite Hinfos, Hprev, Hcnt, u32_small by (unfold is_u32; lia). fold n. unfold CurrentTerm.
    rewrite Hinf, Ht4, Ht3, Ht2, Nat2Z.inj_add. done.
  - congruence.
  - by rewrite Hl6, Hl5.
  - by apply merge_prefix.
  - intros j e. by apply merge_terms.
  - by apply merge_no_conflict.
  - by rewrite Hc6, Hc5, Hprev, Hc4, Hc3, Hc2, Nat2Z.inj_add.
  - by rewrite Hl6, Hl5, <- Hl2, <- Hl3.
  - by rewrite Hl6, Hl5, <- Hl2, <- Hl3.
Qed.


(** [C21] Resolving a conflict between LRC entries uses freed memory: when the first
    conflicting entry of an accepted request and the entry it replaces both carry
    fragments (or both fragment ids, or both a placement), the handler destroys the
    old entry in its slot of the ring and then assigns the new one to the destroyed
    object, whose vectors still point to the storage they freed. Whatever the rest of
    the log and of the request. *)
Theorem AppendEntries_conflict_undefined {St} {store : Storage St} {alloc : Allocator}
    {total : TotalStorage St} (args : AppendEntriesArgs) (i j : nat) (l : list LogEntry) (e old : LogEntry) (s : RaftState St)
    (Halloc : forall n, new_array_ok n = true) (Hr : represents (lm_ s) l)
    (Hslots : slots_hold tracked_slot (lm_ s))
    (Hmon : monitor_ok (live_monitor_ s)) (Hlead : 0 <= aea_leader_id args)
    (Hlim : electionTimeLimitMin_ s < electionTimeLimitMax_ s)
    (Hterm : current_term_ s <= aea_term args)
    (Hprev : aea_prev_log_index args = Z.of_nat i) (Hi : (i <= length l)%nat)
    (Hmatch : log_has l (last_snapshot_term_ (lm_ s)) (aea_prev_log_index args) (aea_prev_log_term args)
                (aea_prev_k args) = true)
    (Hcnt : aea_entry_cnt args = Z.of_nat (length (aea_entries args)))
    (Hix : indexed i (aea_entries args))
    (Hlen : Z.of_nat (length l + length (aea_entries args)) < 2 ^ 27)
    (Hconf : conflict_at l i (aea_entries args) j e old) (Hshare : share_vector e old) :
  exists reply s', ProcessAppendEntries args s = Some (reply, s') /\ undefined_ (lm_ s') = true.
Proof.
  destruct (ProcessAppendEntries_accepted args i l s Halloc Hr Hmon Hlead Hlim Hterm Hprev Hi Hmatch Hcnt Hix Hlen)
    as (s' & H & _ & _ & _ & _ & _ & _ & _ & Hu). eauto.
Qed.


(** ** Committing *)
Section commit.
Context {St : Type}.
Abbreviation State := (RaftState St).










End commit.


(** ** Witnesses *)
Section witnesses.
#[local] Instance demo_alloc_log : Allocator := fun _ => true.
#[local] Instance demo_layout_log : Layout := {| sizeof_LogEntry := 200; kHeaderSize := 32 |}.

Definition log_e (i t : Z) : LogEntry := SetIndex i (SetTerm t LogEntry_default).

(** A log of two entries, and a node holding it. *)
Definition demo_lm : LogManager :=
  snd (AppendLogEntry (log_e 2 1) (snd (AppendLogEntry (log_e 1 1) (LogManager_ctor 4)))).
Definition demo_l : list LogEntry := [log_e 1 1; log_e 2 1].

Lemma demo_lm_represents : represents demo_lm demo_l.
Proof.
  assert (represents (LogManager_ctor 4) []) as H0 by (split; [by apply LogSpec.wf_ctor|done]).
  pose proof (rep_append _ _ (log_e 1 1) (fun _ => eq_refl) H0 eq_refl ltac:(cbn; lia)) as H1.
  exact (rep_append _ _ (log_e 2 1) (fun _ => eq_refl) H1 eq_refl ltac:(cbn; lia)).
Qed.

Definition demo_follower : RaftState MemStorage := set_lm_ demo_lm (demo_node 0 (Some (mkMemStorage 0 0 []))).
Definition demo_committed : RaftState MemStorage := set_commit_index_ 2 demo_follower.

Lemma demo_monitor_ok : monitor_ok (live_monitor_ demo_follower).
Proof. split; cbn; lia. Qed.

Lemma tryApplyLogEntries_spec_witness :
  exists s', tryApplyLogEntries demo_committed = Some (tt, s') /\ last_applied_ s' = 2 /\ rsm_ s' = Some demo_l.
Proof.
  destruct (tryApplyLogEntries_spec demo_l demo_committed) as (s' & H & Ha & Hr & _).
  - exact demo_lm_represents.
  - cbn. lia.
  - cbn. lia.
  - exists s'. split; [exact H|split; [exact Ha|exact Hr]].
Defined.



(** The same with entries that carry a fragment. *)
Definition lrc_e (i t : Z) : LogEntry := AddFragment [7; 8] (log_e i t).
Definition demo_lrc_lm : LogManager :=
  snd (AppendLogEntry (lrc_e 2 1) (snd (AppendLogEntry (lrc_e 1 1) (LogManager_ctor 4)))).

Lemma demo_lrc_lm_represents : represents demo_lrc_lm [lrc_e 1 1; lrc_e 2 1].
Proof.
  assert (represents (LogManager_ctor 4) []) as H0 by (split; [by apply LogSpec.wf_ctor|done]).
  pose proof (rep_append _ _ (lrc_e 1 1) (fun _ => eq_refl) H0 eq_refl ltac:(cbn; lia)) as H1.
  exact (rep_append _ _ (lrc_e 2 1) (fun _ => eq_refl) H1 eq_refl ltac:(cbn; lia)).
Qed.

Lemma AppendEntries_conflict_undefined_witness :
  exists reply s',
    ProcessAppendEntries (mkAppendEntriesArgs 4 0 1 1 1 0 2 2 [lrc_e 2 4; lrc_e 3 4])
      (set_lm_ demo_lrc_lm demo_follower) = Some (reply, s') /\ undefined_ (lm_ s') = true.
Proof.
  apply (AppendEntries_conflict_undefined _ 1 0 [lrc_e 1 1; lrc_e 2 1] (lrc_e 2 4) (lrc_e 2 1)).
  - reflexivity.
  - exact demo_lrc_lm_represents.
  - vm_compute. repeat constructor; first [intros _; discriminate | intros H; destruct (H eq_refl)].
  - exact demo_monitor_ok.
  - cbn. lia.
  - cbn. lia.
  - cbn. lia.
  - reflexivity.
  - cbn. lia.
  - reflexivity.
  - reflexivity.
  - intros [|[|j]] e; cbn; intros [=]; subst; reflexivity.
  - cbn. lia.
  - split; [reflexivity|reflexivity|cbn; lia|]. intros [|j] x y; cbn; discriminate.
  - left. split; cbn; discriminate.
Defined.

(** A late request whose predecessor is below the commit index, with a newer commit
    index of the leader: the follower's commit index goes back from 2 to 1, below
    what it may have applied. *)
Example commit_index_goes_back :
  (fun r => (aer_success (fst r), commit_index_ (snd r))) <$>
    ProcessAppendEntries (mkAppendEntriesArgs 4 0 1 1 1 0 3 0 []) demo_committed = Some (true, 1).
Proof. vm_compute. reflexivity. Qed.



End witnesses.
