(* ===== verification/RaftElection.v ===== *)
(** Elections: what one event does to the term, the vote, the role and the vote
    count of a node of src/raft/raft.cc ([elects]), and who can stand for election
    at all. RaftCluster.v builds on [elects]. *)

From S2P Require Import Prelude Types LogManager Encoder Lrc Grouper Storage PersistQueue Monitors RaftBase RaftEncode RaftCore RaftFrames RaftVote.

Section node.
Context {St : Type} {store : Storage St} {isal : IsaL} {alloc : Allocator} {indet0 : Indeterminate}.
Context {dur : DurableState St}.
Abbreviation State := (RaftState St).

Definition requests (s : State) : list (Z * RequestVoteArgs) := vote_requests (sent_ s).

(** The members no handler changes. *)
Definition same_node (s s' : State) : Prop :=
  id_ s' = id_ s /\ group_id_ s' = group_id_ s /\ peers_ s' = peers_ s.

Definition round_le (s s' : State) : Prop :=
  election_round_ s' = election_round_ s \/ election_round_ s' = 0.

(** An event that takes no part in an election beyond stepping down. *)
Record quiet (s s' : State) : Prop := {
  qu_node : same_node s s';
  qu_requests : requests s' = requests s;
  qu_round : role_ s = kFollower -> round_le s s';
  qu_term : current_term_ s <= current_term_ s';
  qu_same : current_term_ s' = current_term_ s ->
    vote_for_ s' = vote_for_ s /\ vote_me_cnt_ s' = vote_me_cnt_ s /\ role_le (role_ s) (role_ s');
  qu_new : current_term_ s < current_term_ s' -> vote_for_ s' = kNotVoted /\ role_ s' = kFollower
}.

#[global] Instance same_node_preorder : PreOrder same_node.
Proof. split; [done|]. intros a b c (?&?&?) (?&?&?). split_and!; congruence. Qed.

#[global] Instance round_le_preorder : PreOrder round_le.
Proof. split; [by left|]. intros a b c Hab [Hc|Hc]; [destruct Hab; [left|right]; congruence|by right]. Qed.

#[global] Instance quiet_preorder : PreOrder quiet.
Proof.
  split.
  - intros s. split; done || lia || by left.
  - intros a b c [N1 Q1 D1 T1 S1 W1] [N2 Q2 D2 T2 S2 W2].
    split; [by etrans|congruence| |lia| |].
    + intros Hf. etrans; [by apply D1|]. apply D2.
      destruct (decide (current_term_ b = current_term_ a)) as [Hb|Hb]; [|apply W1; lia].
      destruct (S1 Hb) as (_ & _ & [Hr|[Hr|[[Hr|Hr] _]]]); congruence.
    + intros Ht. destruct S1 as (V1 & C1 & R1); [lia|]. destruct S2 as (V2 & C2 & R2); [lia|].
      split_and!; [congruence|congruence|by etrans].
    + intros Ht. destruct (decide (current_term_ b < current_term_ c)) as [Hc|Hc]; [auto|].
      destruct S2 as (V2 & _ & R2); [lia|]. destruct W1 as [Hv Hr]; [lia|]. rewrite V2. split; [done|].
      rewrite Hr in R2. destruct R2 as [|[|[[] _]]]; done.
Qed.

Lemma calm_quiet s s' : calm s s' -> quiet s s'.
Proof.
  intros [[Hk _] Hv Hq Hr He]. unfold kept_of in Hk. injection Hk as Hi Hg Hp Ht Hw _.
  split; try done; lia.
Qed.

Lemma quiet_of_calm {A} (m : M State A) : obeys calm m -> obeys quiet m.
Proof. apply obeys_weaken, calm_quiet. Qed.
Hint Resolve quiet_of_calm : obeys.

(** [PersistRaftState] changes the storage only. *)
Lemma PersistRaftState_storage s a s' : PersistRaftState s = Some (a, s') -> exists o, s' = set_storage_ o s.
Proof.
  unfold PersistRaftState, update_storage, bind, get, lift, modify.
  destruct (storage_ s) as [st|] eqn:Hst; [|intros [= _ <-]; exists (storage_ s); by destruct s].
  destruct (SetPersistState _ st) as [st'|]; [|done]. intros [= _ <-]. by exists (Some st').
Qed.

Lemma quiet_convertToFollower term : obeys quiet (convertToFollower term).
Proof.
  intros s a s'. unfold convertToFollower. rewrite bind_get.
  destruct (CurrentTerm s <=? term) eqn:Hle; [|done]. unfold CurrentTerm in *.
  rewrite bind_assert by done. unfold SetRole. rewrite bind_modify. unfold when.
  destruct (Z.ltb_spec (current_term_ s) term) as [Hlt|Hge].
  - unfold SetVoteFor, SetCurrentTerm. rewrite !bind_modify. intros H.
    apply PersistRaftState_storage in H as [o ->]. split; try done; cbn; try lia. by left.
  - intros [= <- <-]. split; try done; cbn; try lia; [by left|].
    intros _. split_and!; [done|done|by right; left].
Qed.
Hint Resolve quiet_convertToFollower : obeys.

Lemma quiet_ProcessAppendEntries args : obeys quiet (ProcessAppendEntries args).
Proof. unfold ProcessAppendEntries. cbv zeta. obeys_tac. Qed.
Lemma quiet_ProcessRequestFragments args : obeys quiet (ProcessRequestFragments args).
Proof. unfold ProcessRequestFragments. cbv zeta. obeys_tac. Qed.
Lemma quiet_ProcessAppendEntriesReply r : obeys quiet (ProcessAppendEntriesReply r).
Proof. unfold ProcessAppendEntriesReply. cbv zeta. obeys_tac. Qed.
Lemma quiet_ProcessRequestFragmentsReply r : obeys quiet (ProcessRequestFragmentsReply r).
Proof.
  unfold ProcessRequestFragmentsReply. obeys_tac. by apply calm_quiet, calm_other.
Qed.
Hint Resolve quiet_ProcessAppendEntries quiet_ProcessRequestFragments
  quiet_ProcessAppendEntriesReply quiet_ProcessRequestFragmentsReply : obeys.

(** Winning: the candidate becomes pre-leader, or leader at once. *)
Lemma role_of_core {A} (m : M State A) : obeys (same core) m -> obeys (same (role_ (St:=St))) m.
Proof. apply obeys_weaken. intros s s' Hc. unfold same, core in *. by injection Hc. Qed.
Hint Resolve role_of_core : obeys.

Lemma convertToLeaderInternal_role (s : State) a s' :
  role_ s = kPreLeader -> convertToLeaderInternal s = Some (a, s') -> role_ s' = kLeader.
Proof.
  intros Hr. unfold convertToLeaderInternal. rewrite bind_get. unfold Role. rewrite Hr. cbn [role_eqb negb].
  unfold role_eqb. rewrite bool_decide_true by done. cbn [negb]. unfold SetRole. rewrite bind_modify. intros H.
  assert (same (role_ (St:=St)) (set_role_ kLeader s) s') as ->; [|done].
  revert H. apply (obeys_bind (same (role_ (St:=St)))); [|intros _; obeys_tac].
  unfold SetElectionRound. obeys_tac. done.
Qed.

Lemma convertToPreLeader_wins (s : State) a s' :
  convertToPreLeader s = Some (a, s') ->
  kept s s' /\ winner (role_ s') /\ vote_me_cnt_ s' = vote_me_cnt_ s /\ requests s' = requests s /\ round_le s s'.
Proof.
  intros H. split; [by apply kept_convertToPreLeader in H|]. revert H.
  unfold convertToPreLeader. rewrite bind_get. unfold SetRole. rewrite !bind_modify.
  set (s1 := set_preleader_timepoint_ (now_ s) (set_role_ kPreLeader s)).
  destruct (_ =? _); intros H.
  - pose proof (convertToLeaderInternal_role s1 a s' eq_refl H) as Hr.
    apply calm_convertToLeaderInternal in H as [_ Hv Hq _ He].
    split_and!; [by right|done|done|done].
  - apply core_collectFragments in H. unfold same, core in H.
    injection H as _ _ _ _ _ _ Hr He _ _ _ _ _ _ Hv Hq. split_and!; [by left|done|done|by left].
Qed.

(** The vote requests one election sends: at most one per peer. *)
Definition requested (s s' : State) (l : list (Z * RequestVoteArgs)) : Prop :=
  requests s' = requests s ++ l /\ sublist l.*1 (peers_ s) /\
  forall to args, (to, args) ∈ l ->
    to <> id_ s /\ rva_term args = current_term_ s' /\ rva_candidate_id args = id_ s.

Lemma send_requests (me : Z) args ids : forall (s : State) a s',
  forM_ ids (fun id =>
    when (negb (id =? me) && (id <? 32))
      (rpc <- has_rpc id ;; when rpc (emit (MsgRequestVote id args)))) s = Some (a, s') ->
  exists l, sent_ s' = sent_ s ++ ((fun id => MsgRequestVote id args) <$> l) /\
    sublist l ids /\ (forall id, id ∈ l -> id <> me) /\ s' = set_sent_ (sent_ s') s.
Proof.
  induction ids as [|id ids IH]; intros s a s'; cbn [forM_].
  { intros [= _ <-]. exists []. cbn [fmap list_fmap]. rewrite app_nil_r. split_and!; [done|constructor| |by destruct s].
    intros x Hx. by apply not_elem_of_nil in Hx. }
  intros H. apply bind_Some in H as (? & s1 & H1 & H). apply IH in H as (l & Hs & Hl & Hne & He).
  assert (s1 = s \/ id <> me /\ s1 = set_sent_ (sent_ s ++ [MsgRequestVote id args]) s) as [->|[Hid ->]].
  { revert H1. unfold when at 1. destruct (Z.eqb_spec id me) as [->|Hid]; [intros [= _ <-]; by left|].
    destruct (id <? 32); [|intros [= _ <-]; by left]. cbn [negb andb]. unfold has_rpc.
    rewrite bind_assoc, bind_get. unfold lift, bind. destruct (arr_get (rpc_clients_ s) id) as [[|]|]; [| |done].
    - intros [= _ <-]. by right.
    - intros [= _ <-]. by left. }
  - exists l. split_and!; [done|by apply sublist_cons|done|done].
  - exists (id :: l). split_and!; [by rewrite Hs; cbn; rewrite <- app_assoc|by apply sublist_skip| |exact He].
    intros y [->|Hy]%elem_of_cons; auto.
Qed.

Lemma vote_requests_fmap args ids :
  vote_requests ((fun id => MsgRequestVote id args) <$> ids) = (fun id => (id, args)) <$> ids.
Proof. induction ids as [|id ids IH]; [done|]. cbn. by f_equal. Qed.

Record campaign (s s' : State) : Prop := {
  cp_node : same_node s s';
  cp_term : current_term_ s' = current_term_ s + 1;
  cp_vote : vote_for_ s' = id_ s;
  cp_role : (role_ s' = kCandidate /\ vote_me_cnt_ s' = 1 /\ exists l, requested s s' l) \/
            (winner (role_ s') /\ livenessLevel s + 1 <= 1 /\ requests s' = requests s)
}.

Lemma startElection_campaign s a s' :
  small s -> startElection s = Some (a, s') -> role_ s = kCandidate /\ campaign s s' /\ round_le s s'.
Proof.
  intros Hsm. unfold startElection. rewrite bind_get.
  destruct (role_eqb (Role s) kCandidate) eqn:Hr; [|done]. rewrite bind_assert by done.
  apply bool_decide_eq_true in Hr. unfold SetCurrentTerm, SetVoteFor. rewrite !bind_modify. intros H.
  apply bind_Some in H as (? & s1 & H1 & H). apply PersistRaftState_storage in H1 as [o ->].
  rewrite bind_get in H. cbn in H. unfold CurrentTerm in H. destruct Hsm as [H0 Hm].
  rewrite (u32_small (current_term_ s + 1)) in H by (unfold is_u32; lia).
  set (s2 := set_storage_ o _) in H. change (livenessLevel s2) with (livenessLevel s) in H.
  destruct (Z.leb_spec (livenessLevel s + 1) 1) as [Hle|_].
  - apply convertToPreLeader_wins in H as ([Hk _] & Hw & Hc & Hq & He).
    unfold kept_of in Hk. injection Hk as Hi Hg Hp Ht Hv _. split; [done|]. split; [|done].
    split; [done|done|done|]. right. done.
  - apply send_requests in H as (l & Hs & Hl & Hne & He). cbn in Hs.
    split; [done|]. rewrite He. split; [|by left]. split; [done|done|done|]. left. split; [done|]. split; [done|].
    eexists. split_and!.
    + unfold requests. cbn. rewrite Hs, vote_requests_app. by rewrite vote_requests_fmap.
    + rewrite <- list_fmap_compose. cbn. by rewrite list_fmap_id.
    + intros to args' (id & [= -> ->] & Hid)%list_elem_of_fmap. split_and!; [by apply Hne|done|done].
Qed.

(** The vote is granted, possibly after stepping down. *)
Record grants (args : RequestVoteArgs) (s s' : State) : Prop := {
  gr_node : same_node s s';
  gr_member : IsGroupMember (rva_candidate_id args) s = true;
  gr_requests : requests s' = requests s;
  gr_round : role_ s = kFollower -> round_le s s';
  gr_term : current_term_ s' = rva_term args;
  gr_le : current_term_ s <= current_term_ s';
  gr_vote : vote_for_ s' = rva_candidate_id args;
  gr_same : current_term_ s' = current_term_ s ->
    (vote_for_ s = kNotVoted \/ vote_for_ s = rva_candidate_id args) /\
    vote_me_cnt_ s' = vote_me_cnt_ s /\ role_le (role_ s) (role_ s');
  gr_new : current_term_ s < current_term_ s' -> role_ s' = kFollower
}.

Lemma ProcessRequestVote_elects args (s : State) r s' :
  ProcessRequestVote args s = Some (r, s') ->
  (quiet s s' /\ rvr_vote_granted r = false) \/
  (grants args s s' /\ r = mkRequestVoteReply (current_term_ s') true (id_ s) (group_id_ s)).
Proof.
  intros H. unfold ProcessRequestVote in H. cbv zeta in H.
  apply bind_Some in H as (? & s1 & H1 & H). apply (calm_of_core _ (core_touch _)) in H1.
  assert (IsGroupMember (rva_candidate_id args) s1 = IsGroupMember (rva_candidate_id args) s) as Hm1.
  { destruct H1 as [[Hk _] _ _ _ _]. unfold kept_of in Hk. injection Hk as Hi _ Hp _ _ _.
    unfold IsGroupMember. by rewrite Hi, Hp. }
  assert (group_id_ s1 = group_id_ s /\ id_ s1 = id_ s) as [Hg1 Hi1].
  { destruct H1 as [[Hk _] _ _ _ _]. unfold kept_of in Hk. by injection Hk. }
  apply calm_quiet in H1.
  rewrite bind_get, Hg1, Hi1, Hm1 in H. destruct (IsGroupMember (rva_candidate_id args) s) eqn:Hmem; cbn [negb] in H.
  2: { injection H as <- <-. left. split; done. }
  unfold CurrentTerm in H. destruct (Z.ltb_spec (rva_term args) (current_term_ s1)) as [Hlt|Hge].
  { injection H as <- <-. left. split; done. }
  apply bind_Some in H as ([] & s2 & H2 & H).
  assert (current_term_ s2 = rva_term args) as Ht2.
  { revert H2. unfold when. destruct ((current_term_ s1 <? rva_term args) || role_eqb (Role s1) kCandidate) eqn:E.
    - intros H2. destruct (convertToFollower_run (rva_term args) s1 Hge) as (s3 & H3 & Ht3 & _). congruence.
    - apply orb_false_elim in E as [E%Z.ltb_ge _]. intros [= <-]. lia. }
  apply (obeys_when quiet _ _ (quiet_convertToFollower _)) in H2. rewrite bind_get in H.
  assert (quiet s s2) as H12 by (by etrans).
  destruct ((VoteFor s2 =? kNotVoted) || (VoteFor s2 =? rva_candidate_id args)) eqn:Hr1; cbn [andb] in H.
  2: { injection H as <- <-. left. split; done. }
  destruct (isLogUpToDate _ _ s2); [|injection H as <- <-; left; split; done].
  unfold SetVoteFor in H. rewrite bind_modify in H.
  apply bind_Some in H as (? & s3 & H3 & H). apply PersistRaftState_storage in H3 as [o ->].
  apply bind_Some in H as (? & s4 & H4 & H). injection H as <- <-.
  apply core_resetElectionTimer in H4. unfold same, core in H4.
  injection H4 as Hi4 Hg4 Hp4 Ht4 Hv4 _ Hr4 He4 _ _ _ _ _ _ Hc4 Hq4. cbn in Hi4, Hg4, Hp4, Ht4, Hv4, Hr4, He4, Hc4, Hq4.
  destruct H12 as [(Hi & Hg & Hp) Hq Hrd Hle Hs Hn]. right. rewrite Ht4. split; [|done]. unfold VoteFor in Hr1.
  split; unfold same_node, requests, round_le; rewrite ?Hi4, ?Hg4, ?Hp4, ?Ht4, ?Hv4, ?Hr4, ?He4, ?Hc4; try done.
  - by rewrite Hq4.
  - intros Ht. destruct (Hs Ht) as (Hv & Hc & Hro). split_and!; [|done|done]. rewrite <- Hv.
    apply orb_prop in Hr1 as [?%Z.eqb_eq|?%Z.eqb_eq]; auto.
  - intros Ht. by apply Hn.
Qed.

(** A granted vote is counted; with enough votes the candidate wins. *)
Record counts (r : RequestVoteReply) (s s' : State) : Prop := {
  ct_node : same_node s s';
  ct_role : role_ s = kCandidate;
  ct_granted : rvr_vote_granted r = true;
  ct_reply : rvr_term r = current_term_ s;
  ct_term : current_term_ s' = current_term_ s;
  ct_vote : vote_for_ s' = vote_for_ s;
  ct_requests : requests s' = requests s;
  ct_votes : vote_me_cnt_ s' = vote_me_cnt_ s + 1;
  ct_won : role_ s' = kCandidate \/ (winner (role_ s') /\ livenessLevel s + 1 <= vote_me_cnt_ s')
}.

Lemma ProcessRequestVoteReply_elects r (s : State) a s' :
  ProcessRequestVoteReply r s = Some (a, s') -> quiet s s' \/ counts r s s'.
Proof.
  intros H. unfold ProcessRequestVoteReply in H.
  apply bind_Some in H as (? & s1 & H1 & H). apply core_touch in H1.
  pose proof H1 as Hc1. unfold same, core in Hc1.
  injection Hc1 as Hi1 Hg1 Hp1 Ht1 Hv1 _ Hr1 He1 _ _ _ _ _ _ Hc1 Hq1.
  assert (quiet s s1) as Hquiet.
  { split; try done; rewrite ?Ht1; try lia; [by left|]. intros _. split_and!; [done|done|by left]. }
  rewrite bind_get in H. unfold CurrentTerm, Role in H.
  destruct (role_eqb (role_ s1) kCandidate) eqn:Hrc; cbn [negb orb] in H; [|injection H as _ <-; by left].
  apply bool_decide_eq_true in Hrc.
  destruct (Z.ltb_spec (rvr_term r) (current_term_ s1)) as [_|Hge]; [injection H as _ <-; by left|].
  destruct (Z.ltb_spec (current_term_ s1) (rvr_term r)) as [_|Hle].
  { apply quiet_convertToFollower in H. left. by etrans. }
  destruct (rvr_vote_granted r) eqn:Hgr; [|injection H as _ <-; by left].
  right. unfold when at 1, incrementVoteMeCnt in H. rewrite bind_modify, bind_get in H.
  set (s2 := set_vote_me_cnt_ (vote_me_cnt_ s1 + 1) s1) in H.
  assert (livenessLevel s2 = livenessLevel s) as Hl by (unfold livenessLevel; cbn; by rewrite Hp1).
  rewrite Hl in H. unfold when in H. cbn [vote_me_cnt_ s2 set_vote_me_cnt_] in H.
  destruct (Z.leb_spec (livenessLevel s + 1) (vote_me_cnt_ s1 + 1)) as [Hw|_].
  - apply convertToPreLeader_wins in H as ([Hk _] & Hwin & Hc & Hq & He).
    unfold kept_of in Hk. injection Hk as Hi Hg Hp Ht Hv _. cbn in *.
    split; unfold same_node, round_le, requests in *; try congruence; try lia.
    + split_and!; congruence.
    + cbn in Hq. unfold vote_requests in *. congruence.
    + right. split; [done|]. lia.
  - injection H as _ <-. split; unfold same_node, round_le, requests; cbn; try congruence; try lia.
    + done.
    + exact Hq1.
    + by left.
Qed.

(** What one event does to the election state of a node. *)
Inductive elects (s s' : State) (out : Output) : Event -> Prop :=
| ElQuiet ev : quiet s s' -> (forall r, out = OutRequestVote r -> rvr_vote_granted r = false) ->
    elects s s' out ev
| ElGrant args : grants args s s' ->
    out = OutRequestVote (mkRequestVoteReply (current_term_ s') true (id_ s) (group_id_ s)) ->
    elects s s' out (EvRequestVote args)
| ElCount r : counts r s s' -> out = OutNone -> elects s s' out (EvRequestVoteReply r)
| ElCampaign : campaign s s' ->
    (role_ s = kFollower /\ IsEligibleForElection s = true) \/ role_ s = kCandidate -> out = OutNone ->
    elects s s' out EvTick.

Lemma Tick_elects (s : State) a s' :
  small s -> Tick s = Some (a, s') ->
  quiet s s' \/ (campaign s s' /\
    ((role_ s = kFollower /\ IsEligibleForElection s = true) \/ role_ s = kCandidate)).
Proof.
  intros Hsm. unfold Tick. rewrite bind_get. unfold Role. destruct (role_ s) eqn:Hr.
  - unfold tickOnFollower. rewrite bind_get. unfold when.
    destruct (election_expired s); cbn [andb]; [|intros [= _ <-]; by left].
    destruct (IsEligibleForElection s) eqn:Hel; [|intros [= _ <-]; by left].
    unfold convertToCandidate, SetRole, SetElectionRound. rewrite bind_get, !bind_modify. intros H.
    apply bind_Some in H as (? & s1 & H1 & H). apply core_resetElectionTimer in H1.
    unfold same, core in H1. injection H1 as Hi Hg Hp Ht Hv _ _ _ _ _ _ _ _ _ Hc Hq.
    cbn in Hi, Hg, Hp, Ht, Hv, Hc, Hq.
    apply startElection_campaign in H as (_ & [(Hi' & Hg' & Hp') Ht' Hv' Hcr] & _).
    2: { unfold small. by rewrite Ht. }
    right. split; [|by left]. split; [split_and!; congruence|congruence|congruence|].
    unfold livenessLevel, requested, requests in *. rewrite Hi, Hp, Hq in Hcr. exact Hcr.
  - unfold tickOnCandidate. rewrite bind_get.
    destruct (election_expired s); cbn [negb]; [|intros [= _ <-]; by left].
    destruct (IsEligibleForElection s); cbn [negb].
    + intros H. apply bind_Some in H as (? & s1 & H1 & H). apply core_resetElectionTimer in H1.
      unfold same, core in H1. injection H1 as Hi Hg Hp Ht Hv _ _ _ _ _ _ _ _ _ Hc Hq.
      apply startElection_campaign in H as (_ & [(Hi' & Hg' & Hp') Ht' Hv' Hcr] & _).
      2: { unfold small. by rewrite Ht. }
      right. split; [|by right]. split; [split_and!; congruence|congruence|congruence|].
      unfold livenessLevel, requested, requests in *. rewrite Hi, Hp, Hq in Hcr. exact Hcr.
    + intros H. left. apply bind_Some in H as (? & s1 & H1 & H). apply quiet_convertToFollower in H1.
      unfold SetElectionRound in H. rewrite bind_modify in H. apply core_resetElectionTimer in H.
      unfold same, core in H. injection H as Hi Hg Hp Ht Hv _ Hro _ _ _ _ _ _ _ Hc Hq.
      cbn in Hi, Hg, Hp, Ht, Hv, Hro, Hc, Hq. destruct H1 as [(Ni & Ng & Np) Q1 _ T1 S1 W1].
      unfold requests in *. split; rewrite ?Ht, ?Hv, ?Hro, ?Hc; try done.
      * split_and!; congruence.
      * unfold requests. by rewrite Hq.
      * by rewrite Hr.
  - intros H. left. revert H. apply quiet_of_calm. obeys_tac.
  - intros H. left. revert H. apply quiet_of_calm. obeys_tac.
Qed.

Lemma handle_elects ev (s : State) out s' :
  small s -> handle ev s = Some (out, s') -> elects s s' out ev.
Proof.
  intros Hsm. destruct ev; cbn [handle]; intros H; apply bind_Some in H as (r & s1 & H & [= <- <-]).
  - apply Tick_elects in H as [H|[H H']]; [by apply ElQuiet|by apply ElCampaign|done].
  - apply ElQuiet; [|done]. revert H. apply quiet_of_calm. obeys_tac.
  - apply ProcessRequestVote_elects in H as [[H Hr]|[H ->]].
    + apply ElQuiet; [done|]. by intros r' [= <-].
    + by apply ElGrant.
  - apply ProcessRequestVoteReply_elects in H as [H|H]; [by apply ElQuiet|by apply ElCount].
  - apply ElQuiet; [|done]. revert H. apply quiet_ProcessAppendEntries.
  - apply ElQuiet; [|done]. revert H. apply quiet_ProcessAppendEntriesReply.
  - apply ElQuiet; [|done]. revert H. apply quiet_ProcessRequestFragments.
  - apply ElQuiet; [|done]. revert H. apply quiet_ProcessRequestFragmentsReply.
  - apply ElQuiet; [|done]. revert H. apply quiet_of_calm. obeys_tac.
  - apply ElQuiet; [|done]. revert H. apply quiet_of_calm. obeys_tac. by apply calm_other.
Qed.

(** ** Who stands for election *)

(** A follower that is not the preferred node, before its first campaign. *)
Record barred (s : State) : Prop := {
  ba_id : i32 (id_ s) <> i32 (group_id_ s);
  ba_role : role_ s = kFollower;
  ba_round : election_round_ s = 0;
  ba_requests : requests s = []
}.

Lemma barred_ineligible s : barred s -> IsEligibleForElection s = false.
Proof.
  intros [Hid _ Hr _]. unfold IsEligibleForElection, GetPriorityRank. rewrite Hr. cbn [Z.leb Z.compare].
  rewrite (proj2 (Z.eqb_neq _ _) Hid). apply Z.eqb_neq.
  assert (0 < GetClusterServerNumber s) as HN by (unfold GetClusterServerNumber; lia).
  pose proof (Z.mod_pos_bound (Z.lxor (Z.lxor (u64 (Z.shiftl (group_id_ s) 32)) (u64 (Z.shiftl (id_ s) 16)))
    2654435769) _ HN). lia.
Qed.

Lemma barred_quiet s s' : quiet s s' -> barred s -> barred s'.
Proof.
  intros [(Hi & Hg & Hp) Hq Hro Ht Hs Hn] [Hid Hr He Hreq].
  assert (role_ s' = kFollower) as Hr'.
  { destruct (decide (current_term_ s' = current_term_ s)) as [Heq|]; [|apply Hn; lia].
    destruct (Hs Heq) as (_ & _ & [?|[?|[[?|?] _]]]); congruence. }
  split; [by rewrite Hi, Hg|done| |congruence]. destruct (Hro Hr); congruence.
Qed.

Lemma barred_grants args s s' : grants args s s' -> barred s -> barred s'.
Proof.
  intros [(Hi & Hg & Hp) _ Hq Hro _ Hle _ Hs Hn] [Hid Hr He Hreq].
  assert (role_ s' = kFollower) as Hr'.
  { destruct (decide (current_term_ s' = current_term_ s)) as [Heq|]; [|apply Hn; lia].
    destruct (Hs Heq) as (_ & _ & [?|[?|[[?|?] _]]]); congruence. }
  split; [by rewrite Hi, Hg|done| |congruence]. destruct (Hro Hr); congruence.
Qed.

Lemma NewRaftState_requests cfg u now (s : State) : NewRaftState cfg u now = Some s -> requests s = [].
Proof.
  unfold NewRaftState. intros H. destruct (match _ with Some _ => _ | None => _ end) as [t v].
  apply option.bind_Some in H as (lm & _ & H). apply option.bind_Some in H as (s1 & H1 & H).
  assert (forall l (a b : State), foldl add_peer (Some a) l = Some b -> sent_ b = sent_ a) as Hf.
  { assert (forall l, foldl add_peer None l = @None State) as Hn by (intros l0; by induction l0).
    induction l as [|[i r] l IH]; intros a b; cbn [foldl]; [by intros [= ->]|].
    unfold add_peer at 2. cbn [mbind option_bind]. destruct (i <? 32); [|by rewrite Hn].
    destruct (arr_set (raft_peer_ a) i _); cbn [mbind option_bind]; [|by rewrite Hn].
    destruct (arr_set (rpc_clients_ a) i r); cbn [mbind option_bind]; [|by rewrite Hn].
    intros Hx. by rewrite (IH _ _ Hx). }
  apply Hf in H1. destruct (PersistRaftState s1) as [[[] s2]|] eqn:Hp; [|done]. injection H as <-.
  apply PersistRaftState_storage in Hp as [o ->]. unfold requests. cbn. by rewrite H1.
Qed.

Lemma NewRaftState_barred cfg u now s :
  i32 (cfg_id cfg) <> i32 (cfg_group_id cfg) -> NewRaftState cfg u now = Some s -> barred s.
Proof.
  intros Hne H. pose proof (NewRaftState_requests _ _ _ _ H) as Hq.
  apply NewRaftState_spec in H as (_ & Hi & Hg & Hr & He & _). split; congruence.
Qed.

Lemma life_step_barred s s' : life_step s s' -> barred s -> barred s'.
Proof.
  intros [s1 s2 Hsm Hstep|s1 st st' cfg u now s2 _ _ _ Hi Hg Hn] Hb.
  - destruct Hstep as [ev s1 out s2 He]. apply handle_elects in He; [|done]. destruct He as [ev Hq _|args Hgr _|r Hc _|_ Hst _].
    + by eapply barred_quiet.
    + by eapply barred_grants.
    + destruct Hc as [_ Hr _ _ _ _ _ _ _]. destruct Hb as [_ Hf _ _]. congruence.
    + pose proof (barred_ineligible _ Hb). destruct Hb as [_ Hf _ _]. destruct Hst as [[_ ?]|?]; congruence.
  - eapply NewRaftState_barred; [|exact Hn]. destruct Hb as [Hid _ _ _]. by rewrite Hi, Hg.
Qed.
End node.

(** [C28] Only the preferred node of a group ever stands for election: a node whose
    id is not the group's id stays a follower and requests no vote in any run, with
    any events, timeouts and restarts, because its election round never leaves 0.
    If the preferred node fails, no other node takes over. *)
Theorem only_preferred_node_campaigns {St} {store : Storage St} {isal : IsaL} {alloc : Allocator}
    {indet0 : Indeterminate} {dur : DurableState St}
    (cfg : RaftConfig St) (u : Uninit) (now : Z) (s0 s : RaftState St)
    (Hid : i32 (cfg_id cfg) <> i32 (cfg_group_id cfg))
    (Hnew : NewRaftState cfg u now = Some s0) (Hrun : rtc life_step s0 s) :
  role_ s = kFollower /\ election_round_ s = 0 /\ requests s = [].
Proof.
  apply NewRaftState_barred in Hnew; [|done].
  induction Hrun as [s|s s1 s2 Hstep _ IH]; [by destruct Hnew|].
  apply IH. by eapply life_step_barred.
Qed.

(** Node 1 of group 0 a thousand seconds after its election timer expired. *)
Section witness.
#[local] Instance demo_layout_election : Layout := {| sizeof_LogEntry := 200; kHeaderSize := 32 |}.
#[local] Instance demo_alloc_election : Allocator := fun _ => true.
#[local] Instance demo_indet_election : Indeterminate := 0.

Definition barred_start : RaftState FileStorage :=
  default (demo_node 1 None) (NewRaftState (demo_config 1 (Some FileStorage_create)) demo_uninit 0).
Definition barred_end : RaftState FileStorage := after EvTick (after (EvClock 1000000000) barred_start).

Lemma only_preferred_node_campaigns_witness :
  election_expired (after (EvClock 1000000000) barred_start) = true /\
  role_ barred_end = kFollower /\ election_round_ barred_end = 0 /\ requests barred_end = [].
Proof.
  split; [vm_compute; reflexivity|].
  apply (only_preferred_node_campaigns (demo_config 1 (Some FileStorage_create)) demo_uninit 0 barred_start barred_end).
  - vm_compute. discriminate.
  - unfold barred_start.
    destruct (NewRaftState (demo_config 1 (Some FileStorage_create)) demo_uninit 0) as [s|] eqn:E; [done|].
    apply (f_equal succeeds) in E. vm_compute in E. discriminate.
  - unfold barred_end. apply (rtc_l _ _ (after (EvClock 1000000000) barred_start)); [|apply rtc_once]; apply LifeEvent.
    + vm_compute. split; [discriminate|reflexivity].
    + apply after_step. vm_compute. reflexivity.
    + vm_compute. split; [discriminate|reflexivity].
    + apply after_step. vm_compute. reflexivity.
Defined.
End witness.
