(* ===== verification/RaftCluster.v ===== *)
(** A cluster of Raft nodes over a network of vote requests and replies, and
    election safety: two nodes never lead in the same term.

    A step handles one event at one node and puts the vote requests it sends, or
    its reply, into the network; loses a message; or stops a node and starts it
    again from its storage. Messages are delivered in any order and at most once.
    All other events (timeouts, proposals, AppendEntries and fragment messages of
    any content, the clock) happen at any time. *)

From stdpp Require Import gmap sets.
From S2P Require Import Prelude Types LogManager Encoder Lrc Grouper Storage PersistQueue Monitors RaftBase RaftEncode RaftCore RaftFrames RaftVote RaftElection.

Inductive Packet :=
| PVote (to : Z) (args : RequestVoteArgs)
| PReply (to : Z) (r : RequestVoteReply).

(** A packet that may still turn into a vote of [v] for [c] in term [t]. *)
Definition is_tok (t c v : Z) (p : Packet) : bool :=
  match p with
  | PVote to args => (to =? v) && (rva_term args =? t) && (rva_candidate_id args =? c)
  | PReply to r => (to =? c) && (rvr_term r =? t) && (rvr_reply_id r =? v) && rvr_vote_granted r
  end.

Definition tok (nt : list Packet) (t c v : Z) : nat := length (filter (fun p => is_tok t c v p = true) nt).

Lemma tok_app a b t c v : tok (a ++ b) t c v = (tok a t c v + tok b t c v)%nat.
Proof. unfold tok. by rewrite filter_app, length_app. Qed.

Lemma tok_cons p l t c v : tok (p :: l) t c v = ((if is_tok t c v p then 1 else 0) + tok l t c v)%nat.
Proof. unfold tok. rewrite filter_cons. destruct (is_tok t c v p); by case_decide. Qed.

Lemma tok_zero nt t c v : (forall p, p ∈ nt -> is_tok t c v p = false) -> tok nt t c v = 0%nat.
Proof.
  intros H. induction nt as [|p nt IH]; [done|]. rewrite tok_cons, (H p) by (by left).
  apply IH. intros q Hq. apply H. by right.
Qed.

Section cluster.
Context {St : Type} {store : Storage St} {isal : IsaL} {alloc : Allocator} {indet0 : Indeterminate}.
Context {dur : DurableState St}.
Abbreviation State := (RaftState St).

Record Cluster := mkCluster { nodes : gmap Z State; net : list Packet }.

Definition clear_sent (s : State) : State := set_sent_ [] s.
Definition packets (s : State) : list Packet := (fun p => PVote p.1 p.2) <$> requests s.

Definition vote_event (ev : Event) : bool :=
  match ev with EvRequestVote _ | EvRequestVoteReply _ => true | _ => false end.

Inductive cluster_step : Cluster -> Cluster -> Prop :=
| StepEvent ns nt i s ev out s' :
    ns !! i = Some s -> small s -> vote_event ev = false -> handle ev (clear_sent s) = Some (out, s') ->
    cluster_step (mkCluster ns nt) (mkCluster (<[i := s']> ns) (nt ++ packets s'))
| StepVote ns n1 n2 i args s r s' :
    ns !! i = Some s -> small s ->
    handle (EvRequestVote args) (clear_sent s) = Some (OutRequestVote r, s') ->
    cluster_step (mkCluster ns (n1 ++ PVote i args :: n2))
      (mkCluster (<[i := s']> ns) ((n1 ++ n2) ++ PReply (rva_candidate_id args) r :: packets s'))
| StepReply ns n1 n2 i r s out s' :
    ns !! i = Some s -> small s -> handle (EvRequestVoteReply r) (clear_sent s) = Some (out, s') ->
    cluster_step (mkCluster ns (n1 ++ PReply i r :: n2))
      (mkCluster (<[i := s']> ns) ((n1 ++ n2) ++ packets s'))
| StepLoss ns n1 p n2 : cluster_step (mkCluster ns (n1 ++ p :: n2)) (mkCluster ns (n1 ++ n2))
| StepRestart ns nt i s st st' cfg u now s' :
    ns !! i = Some s -> storage_ s = Some st -> Reopen st = Some st' ->
    cfg_storage cfg = Some st' -> cfg_id cfg = id_ s -> NewRaftState cfg u now = Some s' ->
    peers_ s' = peers_ s ->
    cluster_step (mkCluster ns nt) (mkCluster (<[i := s']> ns) nt).

(** Every member is a follower that knows the other members, with any term, vote,
    log and election round; nothing is in flight. *)
Record cluster_init (members : gset Z) (c : Cluster) : Prop := {
  ci_net : net c = [];
  ci_dom : dom (nodes c) = members;
  ci_ids : kNotVoted ∉ members;
  ci_node : forall i s, nodes c !! i = Some s ->
    id_ s = i /\ NoDup (peers_ s) /\ list_to_set (peers_ s) = members ∖ {[i]} /\
    durable s /\ role_ s = kFollower
}.

(** ** The invariant.
    [h] records every vote cast: the candidate a voter voted for in a term. *)
Section invariant.
Context (members : gset Z).
Implicit Types (h : gmap (Z * Z) Z) (nt : list Packet) (s : State).

Record node_ok h nt (i : Z) (s : State) : Prop := {
  no_id : id_ s = i;
  no_nodup : NoDup (peers_ s);
  no_peers : list_to_set (peers_ s) = members ∖ {[i]};
  no_durable : durable s;
  no_hist : forall t c, h !! (t, i) = Some c ->
    t <= current_term_ s /\ (t = current_term_ s -> vote_for_ s = c);
  no_vote : vote_for_ s <> kNotVoted -> h !! (current_term_ s, i) = Some (vote_for_ s);
  no_cand : role_ s = kCandidate -> exists S : gset Z, Z.of_nat (size S) = vote_me_cnt_ s /\
    forall v, v ∈ S -> h !! (current_term_ s, v) = Some i /\ tok nt (current_term_ s) i v = 0%nat;
  no_win : winner (role_ s) -> exists S : gset Z, livenessLevel s + 1 <= Z.of_nat (size S) /\
    forall v, v ∈ S -> h !! (current_term_ s, v) = Some i
}.

(** A packet belongs to a node whose term it does not exceed. *)
Definition packet_ok h (ns : gmap Z State) (p : Packet) : Prop :=
  match p with
  | PVote _ args => exists s, ns !! rva_candidate_id args = Some s /\ rva_term args <= current_term_ s
  | PReply to r => rvr_vote_granted r = true ->
      h !! (rvr_term r, rvr_reply_id r) = Some to /\
      exists s, ns !! to = Some s /\ rvr_term r <= current_term_ s
  end.

Record inv h (c : Cluster) : Prop := {
  in_dom : dom (nodes c) = members;
  in_hist : forall t v x, h !! (t, v) = Some x -> v ∈ members /\ x <> kNotVoted;
  in_node : forall i s, nodes c !! i = Some s -> node_ok h (net c) i s;
  in_net : forall p, p ∈ net c -> packet_ok h (nodes c) p;
  in_tok : forall t c' v, (tok (net c) t c' v <= 1)%nat
}.

Lemma packet_ok_mono h h' ns i s s' p :
  h ⊆ h' -> ns !! i = Some s -> current_term_ s <= current_term_ s' ->
  packet_ok h ns p -> packet_ok h' (<[i := s']> ns) p.
Proof.
  intros Hh Hi Ht. destruct p as [to args|to r]; cbn.
  - intros (x & Hx & Hle). destruct (decide (rva_candidate_id args = i)) as [He|Hne].
    + exists s'. rewrite He, lookup_insert_eq. rewrite He in Hx. split; [done|]. assert (x = s) as -> by congruence. lia.
    + exists x. by rewrite lookup_insert_ne by congruence.
  - intros Hp Hg. destruct (Hp Hg) as (Hv & x & Hx & Hle). split; [by eapply lookup_weaken|].
    destruct (decide (to = i)) as [He|Hne].
    + exists s'. rewrite He, lookup_insert_eq. rewrite He in Hx. split; [done|]. assert (x = s) as -> by congruence. lia.
    + exists x. by rewrite lookup_insert_ne by congruence.
Qed.

(** One node moves on; the votes and packets of the others stay. *)
Lemma inv_node h h' ns nt nt' i s s' :
  inv h (mkCluster ns nt) -> ns !! i = Some s -> current_term_ s <= current_term_ s' -> h ⊆ h' ->
  (forall t v x, h' !! (t, v) = Some x -> h !! (t, v) = Some x \/ (v = i /\ x <> kNotVoted)) ->
  node_ok h' nt' i s' ->
  (forall p, p ∈ nt' -> p ∈ nt \/ packet_ok h' (<[i := s']> ns) p) ->
  (forall t c v, c <> i -> (tok nt' t c v <= tok nt t c v)%nat) ->
  (forall t v, (tok nt' t i v <= 1)%nat) ->
  inv h' (mkCluster (<[i := s']> ns) nt').
Proof.
  intros [Hdom Hhist Hnode Hnet Htok] Hi Ht Hh Hnew Hok Hp Htk Htki. cbn in *. split; cbn.
  - rewrite dom_insert_L, <- Hdom. apply subseteq_union_1_L, singleton_subseteq_l. by eapply elem_of_dom_2.
  - intros t v x Hx. destruct (Hnew _ _ _ Hx) as [Hx'|[-> Hx']]; [by eapply Hhist|].
    split; [|done]. rewrite <- Hdom. by eapply elem_of_dom_2.
  - intros j sj. destruct (decide (i = j)) as [<-|Hne].
    { rewrite lookup_insert_eq. by intros [= <-]. }
    rewrite lookup_insert_ne by done. intros Hj. destruct (Hnode _ _ Hj) as [Hid Hnd Hpe Hd Hhi Hvo Hca Hwi].
    split; try done.
    + intros t c Hc. destruct (Hnew _ _ _ Hc) as [Hc'|[-> _]]; [by apply Hhi|done].
    + intros Hv. eapply lookup_weaken; [by apply Hvo|done].
    + intros Hr. destruct (Hca Hr) as (S & HS & Hall). exists S. split; [done|]. intros v Hv.
      destruct (Hall v Hv) as [H1 H2]. split; [by eapply lookup_weaken|].
      pose proof (Htk (current_term_ sj) j v (not_eq_sym Hne)). lia.
    + intros Hr. destruct (Hwi Hr) as (S & HS & Hall). exists S. split; [done|]. intros v Hv.
      eapply lookup_weaken; [by apply Hall|done].
  - intros p Hpin. destruct (Hp _ Hpin) as [Hold|]; [|done]. by eapply packet_ok_mono; [| | |apply Hnet].
  - intros t c v. destruct (decide (c = i)) as [->|Hne]; [apply Htki|]. etrans; [by apply Htk|apply Htok].
Qed.

(** ** One node *)

Lemma liveness_same s s' : peers_ s' = peers_ s -> livenessLevel s' = livenessLevel s.
Proof. intros Hp. unfold livenessLevel. by rewrite Hp. Qed.

(** Within a term: the candidate's and the winner's votes stay counted. *)
Lemma node_same_term h h' nt nt' i s s' :
  node_ok h nt i s -> h ⊆ h' -> peers_ s' = peers_ s -> current_term_ s' = current_term_ s ->
  vote_me_cnt_ s' = vote_me_cnt_ s -> role_le (role_ s) (role_ s') ->
  (forall t v, (tok nt' t i v <= tok nt t i v)%nat) ->
  (role_ s' = kCandidate -> exists S : gset Z, Z.of_nat (size S) = vote_me_cnt_ s' /\
    forall v, v ∈ S -> h' !! (current_term_ s', v) = Some i /\ tok nt' (current_term_ s') i v = 0%nat) /\
  (winner (role_ s') -> exists S : gset Z, livenessLevel s' + 1 <= Z.of_nat (size S) /\
    forall v, v ∈ S -> h' !! (current_term_ s', v) = Some i).
Proof.
  intros [_ _ _ _ _ _ Hca Hwi] Hh Hp Ht Hc Hr Htk. rewrite Ht, Hc, (liveness_same _ _ Hp).
  assert (role_ s' = kCandidate -> role_ s = kCandidate) as H1.
  { intros He. destruct Hr as [?|[?|[_ [?|?]]]]; congruence. }
  assert (winner (role_ s') -> winner (role_ s)) as H2.
  { intros [He|He]; destruct Hr as [Hr|[?|[? _]]]; unfold winner in *; rewrite ?He in *; try done; rewrite <- Hr; auto. }
  split.
  - intros He. destruct (Hca (H1 He)) as (S & HS & Hall). exists S. split; [done|]. intros v Hv.
    destruct (Hall v Hv) as [Hhv Hz]. split; [by eapply lookup_weaken|].
    pose proof (Htk (current_term_ s) v). lia.
  - intros He. destruct (Hwi (H2 He)) as (S & HS & Hall). exists S. split; [done|]. intros v Hv.
    eapply lookup_weaken; [by apply Hall|done].
Qed.

(** A new term: neither candidate nor winner. *)
Lemma node_follower s : role_ s = kFollower -> role_ s <> kCandidate /\ ~ winner (role_ s).
Proof. intros ->. split; [done|]. by intros []. Qed.

Lemma node_quiet h nt nt' i s s' :
  node_ok h nt i s -> quiet (clear_sent s) s' -> durable s' ->
  (forall t v, (tok nt' t i v <= tok nt t i v)%nat) -> node_ok h nt' i s'.
Proof.
  intros Hn [(Hi & Hg & Hp) Hq _ Ht Hs Hw] Hd Htk. pose proof Hn as [Hid Hnd Hpe _ Hhi Hvo _ _].
  cbn in Hi, Hg, Hp, Hq, Ht, Hs, Hw.
  assert (current_term_ s' = current_term_ s \/ current_term_ s < current_term_ s') as [He|He] by lia.
  - destruct (Hs He) as (Hv & Hc & Hr).
    destruct (node_same_term h h nt nt' i s s') as [H1 H2]; try done.
    split; try done; try congruence; rewrite ?He, ?Hv; done.
  - destruct (Hw He) as [Hv Hr]. destruct (node_follower s' Hr) as [H1 H2].
    split; try (done || congruence).
    intros t c Hc. destruct (Hhi _ _ Hc). split; [lia|]. intros. lia.
Qed.

Lemma node_grants h nt nt' i s s' args :
  node_ok h nt i s -> grants args (clear_sent s) s' -> durable s' -> kNotVoted ∉ members -> i ∈ members ->
  (forall t v x, h !! (t, v) = Some x -> x <> kNotVoted) ->
  (forall t v, (tok nt' t i v <= tok nt t i v)%nat) ->
  let h' := <[(rva_term args, i) := rva_candidate_id args]> h in
  h ⊆ h' /\ rva_candidate_id args <> kNotVoted /\ node_ok h' nt' i s'.
Proof.
  intros Hn [(Hi & Hg & Hp) Hm Hq _ Hta Ht Hv Hs Hw] Hd Hnv Him Hhnv Htk. pose proof Hn as [Hid Hnd Hpe _ Hhi Hvo _ _].
  cbn in Hi, Hg, Hp, Hq, Ht, Hs, Hw, Hm. cbv zeta. set (c := rva_candidate_id args) in *. rewrite <- Hta in *.
  assert (c <> kNotVoted) as Hc.
  { intros ->. apply orb_prop in Hm as [Hm%Z.eqb_eq|Hm%bool_decide_eq_true].
    - unfold clear_sent in Hm. cbn in Hm. congruence.
    - cbn in Hm. assert (kNotVoted ∈ (list_to_set (peers_ s) : gset Z)) as Hin by (by apply elem_of_list_to_set).
      rewrite Hpe in Hin. by apply elem_of_difference in Hin as [? _]. }
  assert (h ⊆ <[(current_term_ s', i) := c]> h) as Hsub.
  { apply map_subseteq_spec. intros [t v] x Hx. destruct (decide ((t, v) = (current_term_ s', i))) as [[= -> ->]|Hne].
    - rewrite lookup_insert_eq. destruct (Hhi _ _ Hx) as [Hle Hve].
      assert (current_term_ s' = current_term_ s) as He by lia.
      destruct (Hs He) as ([H0|H0] & _); rewrite <- (Hve He); [|by rewrite H0].
      by destruct (Hhnv _ _ _ Hx); rewrite <- (Hve He).
    - by rewrite lookup_insert_ne. }
  split; [done|split; [done|]].
  assert (forall t x, <[(current_term_ s', i) := c]> h !! (t, i) = Some x ->
    t <= current_term_ s' /\ (t = current_term_ s' -> vote_for_ s' = x)) as Hhi'.
  { intros t x. destruct (decide (t = current_term_ s')) as [->|Hne].
    - rewrite lookup_insert_eq. intros [= <-]. done.
    - rewrite lookup_insert_ne by congruence. intros Hx. destruct (Hhi _ _ Hx). split; [lia|done]. }
  assert (<[(current_term_ s', i) := c]> h !! (current_term_ s', i) = Some (vote_for_ s')) as Hvo'.
  { by rewrite lookup_insert_eq, Hv. }
  assert (current_term_ s' = current_term_ s \/ current_term_ s < current_term_ s') as [He|He] by lia.
  - destruct (Hs He) as (_ & Hcn & Hr).
    destruct (node_same_term h (<[(current_term_ s', i) := c]> h) nt nt' i s s') as [H1 H2]; try done.
    split; congruence || done.
  - destruct (node_follower s' (Hw He)) as [H1 H2].
    split; done || congruence.
Qed.

Lemma node_counts h nt nt' i s s' r :
  node_ok h nt i s -> counts r (clear_sent s) s' -> durable s' ->
  h !! (current_term_ s, rvr_reply_id r) = Some i ->
  (0 < tok nt (current_term_ s) i (rvr_reply_id r))%nat ->
  tok nt' (current_term_ s) i (rvr_reply_id r) = 0%nat ->
  (forall t v, (tok nt' t i v <= tok nt t i v)%nat) -> node_ok h nt' i s'.
Proof.
  intros [Hid Hnd Hpe _ Hhi Hvo Hca _] [(Hi & Hg & Hp) Hrole Hgr Hrt Ht Hv Hq Hc Hwon] Hd Hh Hpos Hz Htk.
  cbn in Hi, Hg, Hp, Hrole, Hrt, Ht, Hv, Hc, Hwon. destruct (Hca Hrole) as (S & HS & Hall).
  set (v := rvr_reply_id r) in *.
  assert (v ∉ S) as Hnot by (intros Hin; destruct (Hall v Hin); lia).
  assert (Z.of_nat (size ({[v]} ∪ S)) = vote_me_cnt_ s') as Hsz.
  { rewrite size_union, size_singleton by (apply disjoint_singleton_l; done). lia. }
  assert (forall w, w ∈ {[v]} ∪ S -> h !! (current_term_ s', w) = Some i /\ tok nt' (current_term_ s') i w = 0%nat) as HS'.
  { rewrite Ht. intros w [->%elem_of_singleton|Hw]%elem_of_union; [done|].
    destruct (Hall w Hw). pose proof (Htk (current_term_ s) w). split; [done|lia]. }
  split; rewrite ?Ht, ?Hv; try (done || congruence).
  - intros _. exists ({[v]} ∪ S). split; [done|]. by rewrite <- Ht.
  - intros Hwin. destruct Hwon as [Hr|[_ Hle]]; [destruct Hwin; congruence|].
    exists ({[v]} ∪ S). rewrite Hsz, (liveness_same _ _ Hp), <- Ht. split; [exact Hle|].
    intros w Hw. by apply HS'.
Qed.

Lemma node_campaign h nt nt' i s s' :
  node_ok h nt i s -> campaign (clear_sent s) s' -> durable s' ->
  tok nt' (current_term_ s') i i = 0%nat ->
  let h' := <[(current_term_ s', i) := i]> h in h ⊆ h' /\ node_ok h' nt' i s'.
Proof.
  intros [Hid Hnd Hpe _ Hhi Hvo _ _] [(Hi & Hg & Hp) Ht Hv Hro] Hd Hz.
  cbn in Hi, Hg, Hp, Ht, Hv. cbv zeta.
  assert (h !! (current_term_ s', i) = None) as Hnew.
  { destruct (h !! (current_term_ s', i)) as [c|] eqn:E; [|done]. destruct (Hhi _ _ E). lia. }
  split; [by apply insert_subseteq|].
  assert (forall v, v ∈ ({[i]} : gset Z) -> <[(current_term_ s', i) := i]> h !! (current_term_ s', v) = Some i) as HS.
  { intros v ->%elem_of_singleton. by rewrite lookup_insert_eq. }
  split; try (done || congruence).
  - intros t c. destruct (decide (t = current_term_ s')) as [->|Hne].
    + rewrite lookup_insert_eq. intros [= <-]. split; [done|congruence].
    + rewrite lookup_insert_ne by congruence. intros Hc. destruct (Hhi _ _ Hc). split; [lia|done].
  - intros _. rewrite lookup_insert_eq. congruence.
  - intros Hr. exists {[i]}. rewrite size_singleton. destruct Hro as [(_ & Hc & _)|[[?|?] _]]; [|congruence..].
    split; [lia|]. intros v Hvin. split; [by apply HS|]. by apply elem_of_singleton in Hvin as ->.
  - intros Hw. exists {[i]}. rewrite size_singleton. destruct Hro as [(Hr & _)|(_ & Hle & _)].
    { destruct Hw; congruence. }
    rewrite (liveness_same _ _ Hp). split; [exact Hle|exact HS].
Qed.

Lemma node_restart h nt i s st st' cfg u now s' :
  node_ok h nt i s -> storage_ s = Some st -> Reopen st = Some st' -> cfg_storage cfg = Some st' ->
  cfg_id cfg = id_ s -> NewRaftState cfg u now = Some s' -> peers_ s' = peers_ s ->
  current_term_ s' = current_term_ s /\ node_ok h nt i s'.
Proof.
  intros [Hid Hnd Hpe Hd Hhi Hvo _ _] Hst Hre Hcfg Hci Hn Hp. destruct (Hd st Hst) as [Hps Hon].
  apply ds_reopen in Hre. apply NewRaftState_spec in Hn as (Hd' & Hi & _ & Hr & _ & _ & _ & Hres).
  destruct (Hres st' Hcfg) as [Ht Hv]; [by rewrite Hre, Hon, Hps|].
  rewrite Hre, Hon, Hps in Ht, Hv. cbn in Ht, Hv. split; [done|].
  destruct (node_follower s' Hr) as [H1 H2]. split; rewrite ?Ht, ?Hv; done || congruence.
Qed.

(** ** Every step keeps the invariant *)
Context (Hmembers : kNotVoted ∉ members).

Lemma durable_step ev s out s' :
  durable s -> small s -> handle ev (clear_sent s) = Some (out, s') -> durable s'.
Proof. intros Hd Hsm H. by apply advances_handle in H as [_ _ _ _ _ Hdd]; [apply Hdd|]. Qed.

Lemma no_packets s s' : requests s' = requests (clear_sent s) -> packets s' = [].
Proof. intros H. unfold packets. by rewrite H. Qed.

Lemma inv_quiet h ns nt nt' i s s' :
  inv h (mkCluster ns nt) -> ns !! i = Some s -> quiet (clear_sent s) s' -> durable s' ->
  (forall p, p ∈ nt' -> p ∈ nt \/ packet_ok h (<[i := s']> ns) p) ->
  (forall t c v, (tok nt' t c v <= tok nt t c v)%nat) ->
  inv h (mkCluster (<[i := s']> ns) nt').
Proof.
  intros Hinv Hi Hq Hd Hp Htk. apply (inv_node h h ns nt nt' i s s'); auto.
  - by destruct Hq as [_ _ _ Ht _ _].
  - eapply node_quiet; [by eapply (in_node _ _ Hinv)|done|done|auto].
  - intros t v. etrans; [apply Htk|apply (in_tok _ _ Hinv)].
Qed.

(** The requests of a new campaign: one token per peer, for the new term only. *)
Lemma tok_campaign (l : list (Z * RequestVoteArgs)) (me T t c v : Z) :
  NoDup l.*1 ->
  (forall to args, (to, args) ∈ l -> to <> me /\ rva_term args = T /\ rva_candidate_id args = me) ->
  let n := tok ((fun p => PVote p.1 p.2) <$> l) t c v in
  (n <= 1)%nat /\ (t <> T \/ c <> me \/ v = me -> n = 0%nat).
Proof.
  intros Hnd Hl. cbv zeta. induction l as [|[to args] l IH]; [split; [cbn; lia|done]|].
  cbn [fmap list_fmap fst snd] in *. apply NoDup_cons in Hnd as [Hnot Hnd].
  destruct IH as [IH1 IH2]; [done|intros; apply Hl; by right|].
  destruct (Hl to args) as (Hto & HT & Hc); [by left|]. rewrite tok_cons. cbn [is_tok fst snd]. rewrite HT, Hc.
  destruct (Z.eqb_spec to v) as [->|]; cbn [andb]; [|by split].
  destruct (Z.eqb_spec T t) as [->|]; cbn [andb]; [|by split].
  destruct (Z.eqb_spec me c) as [->|]; cbn [andb]; [|by split].
  rewrite (tok_zero _ t c v).
  - split; [lia|]. intros [?|[?|?]]; congruence.
  - intros p ([to' args'] & -> & Hin)%list_elem_of_fmap. cbn. destruct (Z.eqb_spec to' v) as [->|]; [|done].
    destruct Hnot. apply list_elem_of_fmap. by exists (v, args').
Qed.

Lemma inv_campaign h ns nt i s s' :
  inv h (mkCluster ns nt) -> ns !! i = Some s -> campaign (clear_sent s) s' -> durable s' ->
  exists h', h ⊆ h' /\ inv h' (mkCluster (<[i := s']> ns) (nt ++ packets s')).
Proof.
  intros Hinv Hi Hc Hd. pose proof (in_node _ _ Hinv _ _ Hi) as Hn. pose proof Hn as [Hid Hnd _ _ _ _ _ _].
  assert (i <> kNotVoted) as Hne.
  { intros ->. apply Hmembers. rewrite <- (in_dom _ _ Hinv). by eapply elem_of_dom_2. }
  pose proof Hc as [(Hi' & _ & Hp) Ht _ Hro]. cbn in Hi', Hp, Ht.
  assert (exists l, packets s' = (fun p => PVote p.1 p.2) <$> l /\ NoDup l.*1 /\
    forall to args, (to, args) ∈ l -> to <> i /\ rva_term args = current_term_ s' /\ rva_candidate_id args = i)
    as (l & Hl & Hndl & Hall).
  { destruct Hro as [(_ & _ & l & Hrq & Hsub & Hall)|(_ & _ & Hrq)].
    - exists l. unfold packets. rewrite Hrq. split_and!; [done| |].
      + eapply sublist_NoDup; [|exact Hsub]. done.
      + cbn in Hall. by rewrite <- Hid.
    - exists []. unfold packets. rewrite Hrq. split_and!; [done|constructor|]. intros ? ? []%elem_of_nil. }
  assert (forall v, tok nt (current_term_ s') i v = 0%nat) as Hold.
  { intros v. apply tok_zero. intros p Hpin. apply (in_net _ _ Hinv) in Hpin. cbn in Hpin.
    destruct p as [to args|to r]; cbn in *.
    - destruct (Z.eqb_spec (rva_candidate_id args) i) as [He|]; [|by rewrite andb_false_r].
      destruct Hpin as (x & Hx & Hle). rewrite He, Hi in Hx. injection Hx as <-.
      rewrite (proj2 (Z.eqb_neq (rva_term args) _)) by lia. by rewrite andb_false_r.
    - destruct (Z.eqb_spec to i) as [->|]; [|done]. cbn.
      destruct (rvr_vote_granted r); [|by rewrite andb_false_r].
      destruct Hpin as (_ & x & Hx & Hle); [done|]. rewrite Hi in Hx. injection Hx as <-.
      by rewrite (proj2 (Z.eqb_neq (rvr_term r) _)) by lia. }
  destruct (node_campaign h nt (nt ++ packets s') i s s') as [Hsub Hok]; try done.
  { rewrite tok_app, Hold, Hl. apply (tok_campaign l i (current_term_ s')); auto. }
  exists (<[(current_term_ s', i) := i]> h). split; [done|].
  apply (inv_node h _ ns nt _ i s s'); try done.
  - lia.
  - intros t v x. rewrite lookup_insert_Some. intros [[[= <- <-] <-]|[_ ?]]; [by right|by left].
  - intros p [?|Hp']%elem_of_app; [by left|right]. rewrite Hl in Hp'.
    apply list_elem_of_fmap in Hp' as ([to args] & -> & Hin). destruct (Hall _ _ Hin) as (_ & HT & Hcd).
    cbn. rewrite Hcd. exists s'. rewrite lookup_insert_eq. split; [done|lia].
  - intros t c v Hci. rewrite tok_app, Hl.
    destruct (tok_campaign l i (current_term_ s') t c v) as [_ Hz]; [done|done|]. rewrite Hz by auto. lia.
  - intros t v. rewrite tok_app, Hl.
    destruct (tok_campaign l i (current_term_ s') t i v) as [H1 Hz]; [done|done|].
    destruct (decide (t = current_term_ s')) as [->|Hnt]; [rewrite Hold; lia|].
    rewrite Hz by auto. pose proof (in_tok _ _ Hinv t i v) as H2. cbn [net] in H2. lia.
Qed.

Lemma tok_middle n1 p n2 t c v :
  tok (n1 ++ p :: n2) t c v = ((if is_tok t c v p then 1 else 0) + tok (n1 ++ n2) t c v)%nat.
Proof. rewrite !tok_app, tok_cons. lia. Qed.

Lemma inv_grants h ns n1 n2 i s s' args r :
  inv h (mkCluster ns (n1 ++ PVote i args :: n2)) -> ns !! i = Some s ->
  grants args (clear_sent s) s' -> r = mkRequestVoteReply (current_term_ s') true (id_ s) (group_id_ s) ->
  durable s' ->
  exists h', h ⊆ h' /\
    inv h' (mkCluster (<[i := s']> ns) ((n1 ++ n2) ++ PReply (rva_candidate_id args) r :: packets s')).
Proof.
  intros Hinv Hi Hg Hr Hd. pose proof (in_node _ _ Hinv _ _ Hi) as Hn. cbn [net] in Hn.
  pose proof Hg as [_ _ Hq _ Hta Hle _ _ _]. cbn in Hle. pose proof (no_id _ _ _ _ Hn) as Hid.
  rewrite (no_packets s s' Hq).
  assert (forall t c v, tok ((n1 ++ n2) ++ [PReply (rva_candidate_id args) r]) t c v =
                        tok (n1 ++ PVote i args :: n2) t c v) as Htk.
  { intros t c v. rewrite tok_app, tok_middle, tok_cons, Hr, Hta, Hid. cbn. rewrite andb_true_r.
    destruct (Z.eqb_spec (rva_candidate_id args) c), (Z.eqb_spec (rva_term args) t), (Z.eqb_spec i v); cbn; lia. }
  assert (i ∈ members) as Him.
  { rewrite <- (in_dom _ _ Hinv). by eapply elem_of_dom_2. }
  destruct (node_grants h (n1 ++ PVote i args :: n2) ((n1 ++ n2) ++ [PReply (rva_candidate_id args) r]) i s s' args)
    as (Hsub & Hc & Hok); try done.
  { intros t v x Hx. by apply (in_hist _ _ Hinv) in Hx as [_ ?]. }
  { intros t v. by rewrite Htk. }
  eexists. split; [exact Hsub|]. apply (inv_node h _ ns _ _ i s s' Hinv); try done.
  - intros t v x. rewrite lookup_insert_Some. intros [[[= <- <-] <-]|[_ ?]]; [by right|by left].
  - intros p [Hp|[->|[]%elem_of_nil]%elem_of_cons]%elem_of_app.
    { left. apply elem_of_app in Hp as [?|?]; apply elem_of_app; [by left|by right; right]. }
    right. intros _. rewrite Hr, Hta, Hid. cbn. split; [by rewrite lookup_insert_eq|].
    assert (packet_ok h ns (PVote i args)) as (x & Hx & Hlx).
    { apply (in_net _ _ Hinv). apply elem_of_app. right. by left. }
    destruct (decide (rva_candidate_id args = i)) as [He|Hne].
    + rewrite He, lookup_insert_eq. exists s'. split; [done|lia].
    + rewrite lookup_insert_ne by done. by exists x.
  - intros t c v _. by rewrite Htk.
  - intros t v. rewrite Htk. apply (in_tok _ _ Hinv).
Qed.

Lemma inv_counts h ns n1 n2 i s s' r :
  inv h (mkCluster ns (n1 ++ PReply i r :: n2)) -> ns !! i = Some s ->
  counts r (clear_sent s) s' -> durable s' ->
  inv h (mkCluster (<[i := s']> ns) ((n1 ++ n2) ++ packets s')).
Proof.
  intros Hinv Hi Hc Hd. pose proof (in_node _ _ Hinv _ _ Hi) as Hn. cbn [net] in Hn.
  pose proof Hc as [_ _ Hgr Hrt Ht _ Hq _ _]. cbn in Hrt, Ht. rewrite (no_packets s s' Hq), app_nil_r.
  assert (packet_ok h ns (PReply i r)) as Hp.
  { apply (in_net _ _ Hinv). apply elem_of_app. right. by left. }
  destruct (Hp Hgr) as (Hh & _). rewrite Hrt in Hh.
  assert (is_tok (current_term_ s) i (rvr_reply_id r) (PReply i r) = true) as Htok.
  { cbn. by rewrite Hrt, Hgr, !Z.eqb_refl. }
  pose proof (in_tok _ _ Hinv (current_term_ s) i (rvr_reply_id r)) as Hone. cbn [net] in Hone.
  rewrite tok_middle, Htok in Hone.
  assert (forall t c v, (tok (n1 ++ n2) t c v <= tok (n1 ++ PReply i r :: n2) t c v)%nat) as Htk.
  { intros t c v. rewrite tok_middle. lia. }
  apply (inv_node h h ns _ _ i s s' Hinv); auto.
  - lia.
  - eapply node_counts; [exact Hn|exact Hc|done|done| | |auto].
    + rewrite tok_middle, Htok. lia.
    + lia.
  - intros p Hpin. left. apply elem_of_app in Hpin as [?|?]; apply elem_of_app; [by left|by right; right].
  - intros t v. etrans; [apply Htk|apply (in_tok _ _ Hinv)].
Qed.

Lemma inv_step h c c' : inv h c -> cluster_step c c' -> exists h', h ⊆ h' /\ inv h' c'.
Proof.
  intros Hinv Hstep. destruct Hstep as [ns nt i s ev out s' Hi Hsm Hev H|ns n1 n2 i args s r s' Hi Hsm H
    |ns n1 n2 i r s out s' Hi Hsm H|ns n1 p n2|ns nt i s st st' cfg u now s' Hi Hst Hre Hcfg Hci Hn Hp].
  all: try (pose proof (no_durable _ _ _ _ (in_node _ _ Hinv _ _ Hi)) as Hd0).
  - pose proof (durable_step _ _ _ _ Hd0 Hsm H) as Hd. apply handle_elects in H; [|done].
    destruct H as [ev Hq _|args _ _|r _ _|Hc _ _]; try done; [|by eapply inv_campaign].
    exists h. split; [done|]. rewrite (no_packets s s' (qu_requests _ _ Hq)), app_nil_r.
    eapply inv_quiet; eauto.
  - pose proof (durable_step _ _ _ _ Hd0 Hsm H) as Hd. apply handle_elects in H; [|done].
    inversion H as [ev Hq Hout|args' Hg Hout|r' _ _|_ _ _]; subst; [|by injection Hout as ->; eapply inv_grants].
    specialize (Hout r eq_refl). exists h. split; [done|]. rewrite (no_packets s s' (qu_requests _ _ Hq)).
    eapply inv_quiet; [exact Hinv|done|done|done| |].
    + intros p [Hp|[->|[]%elem_of_nil]%elem_of_cons]%elem_of_app; [left|right].
      * apply elem_of_app in Hp as [?|?]; apply elem_of_app; [by left|by right; right].
      * cbn. by rewrite Hout.
    + intros t c v. rewrite tok_app, tok_middle, tok_cons. cbn [is_tok]. rewrite Hout, andb_false_r. cbn. lia.
  - pose proof (durable_step _ _ _ _ Hd0 Hsm H) as Hd. apply handle_elects in H; [|done].
    inversion H as [ev Hq Hout|args' _ _|r' Hc _|_ _ _]; subst; exists h; (split; [done|]).
    + rewrite (no_packets s s' (qu_requests _ _ Hq)), app_nil_r. eapply inv_quiet; [exact Hinv|done|done|done| |].
      * intros p Hp. left. apply elem_of_app in Hp as [?|?]; apply elem_of_app; [by left|by right; right].
      * intros t c v. rewrite tok_middle. lia.
    + by eapply inv_counts.
  - exists h. split; [done|]. destruct Hinv as [Hdom Hhist Hnode Hnet Htok]. cbn [nodes net] in *. split; cbn [nodes net]; try done.
    + intros i s Hi. destruct (Hnode i s Hi) as [Hid Hnd Hpe Hd Hhi Hvo Hca Hwi]. split; try done.
      intros Hr. destruct (Hca Hr) as (S & HS & Hall). exists S. split; [done|]. intros v Hv.
      destruct (Hall v Hv) as [Hh Hz]. split; [done|]. rewrite tok_middle in Hz. lia.
    + intros q Hq. apply Hnet. apply elem_of_app in Hq as [?|?]; apply elem_of_app; [by left|by right; right].
    + intros t c v. pose proof (Htok t c v) as H1. rewrite tok_middle in H1. lia.
  - exists h. split; [done|].
    destruct (node_restart h nt i s st st' cfg u now s') as [Ht Hok]; try done.
    { by apply (in_node _ _ Hinv). }
    apply (inv_node h h ns nt nt i s s' Hinv); auto; [lia|]. intros t v. apply (in_tok _ _ Hinv).
Qed.

Lemma inv_steps h c c' : inv h c -> rtc cluster_step c c' -> exists h', h ⊆ h' /\ inv h' c'.
Proof.
  intros Hinv Hrun. revert h Hinv. induction Hrun as [c|c c1 c2 H1 _ IH]; intros h Hinv; [by exists h|].
  destruct (inv_step _ _ _ Hinv H1) as (h1 & Hs1 & Hi1). destruct (IH _ Hi1) as (h2 & Hs2 & Hi2).
  exists h2. split; [by etrans|done].
Qed.

(** The votes the nodes start with. *)
Definition initial_votes (ns : gmap Z State) : gmap (Z * Z) Z :=
  list_to_map (omap (fun p => if decide (vote_for_ p.2 = kNotVoted) then None
                              else Some ((current_term_ p.2, p.1), vote_for_ p.2)) (map_to_list ns)).

Lemma initial_votes_spec ns t v x :
  initial_votes ns !! (t, v) = Some x <->
  exists s, ns !! v = Some s /\ current_term_ s = t /\ vote_for_ s = x /\ x <> kNotVoted.
Proof.
  unfold initial_votes. rewrite <- elem_of_list_to_map.
  - rewrite list_elem_of_omap. split.
    + intros ([i s] & Hin & H). apply elem_of_map_to_list in Hin. cbn in H. case_decide; [done|].
      injection H as <- <- <-. by exists s.
    + intros (s & Hs & <- & <- & Hne). exists (v, s). split; [by apply elem_of_map_to_list|].
      cbn. by rewrite decide_False.
  - pose proof (NoDup_fst_map_to_list ns) as Hnd. revert Hnd. induction (map_to_list ns) as [|[i s] l IH]; [constructor|].
    cbn. intros [Hnot Hnd]%NoDup_cons. case_decide; [by apply IH|]. cbn. apply NoDup_cons. split; [|by apply IH].
    intros ([k y] & Hk & Hy)%list_elem_of_fmap. cbn in Hk. subst k.
    apply list_elem_of_omap in Hy as ([j s'] & Hj & Hs'). cbn in Hs'. case_decide; [done|].
    injection Hs' as _ -> _. apply Hnot. apply list_elem_of_fmap. by exists (i, s').
Qed.

Lemma inv_init c : cluster_init members c -> inv (initial_votes (nodes c)) c.
Proof.
  intros [Hnet Hdom Hids Hnode]. split.
  - done.
  - intros t v x (s & Hs & _ & _ & Hne)%initial_votes_spec. split; [|done]. rewrite <- Hdom. by eapply elem_of_dom_2.
  - intros i s Hi. destruct (Hnode i s Hi) as (Hid & Hnd & Hpe & Hd & Hr).
    destruct (node_follower s Hr) as [H1 H2]. split; try done.
    + intros t c' (s' & Hs' & <- & <- & Hne)%initial_votes_spec. assert (s' = s) as -> by congruence. split; [lia|done].
    + intros Hv. apply initial_votes_spec. by exists s.
  - rewrite Hnet. intros p []%elem_of_nil.
  - rewrite Hnet. intros. cbn. lia.
Qed.

(** Two quorums of an odd cluster share a voter. *)
Lemma quorums_meet (A B : gset Z) (n : Z) :
  A ⊆ members -> B ⊆ members -> Z.odd (Z.of_nat (size members)) = true ->
  n = (Z.of_nat (size members) - 1) / 2 ->
  n + 1 <= Z.of_nat (size A) -> n + 1 <= Z.of_nat (size B) -> exists v, v ∈ A /\ v ∈ B.
Proof.
  intros HA HB Hodd Hn Ha Hb. destruct (decide (A ∩ B ≡ ∅)) as [He|Hne].
  - exfalso. assert (A ## B) as Hd by (by apply disjoint_intersection).
    assert (size (A ∪ B) <= size members)%nat as Hle by (apply subseteq_size, union_least; done).
    rewrite size_union in Hle by done. apply Zodd_bool_iff, Zodd_ex in Hodd as [k Hk].
    rewrite Hk in Hn. replace (2 * k + 1 - 1) with (k * 2) in Hn by lia. rewrite Z.div_mul in Hn by lia. lia.
  - apply set_choose in Hne as [v Hv]. exists v. by apply elem_of_intersection in Hv.
Qed.

Lemma livenessLevel_members h nt i s :
  node_ok h nt i s -> i ∈ members -> livenessLevel s = (Z.of_nat (size members) - 1) / 2.
Proof.
  intros [_ Hnd Hpe _ _ _ _ _] Hi. unfold livenessLevel. f_equal.
  rewrite <- (size_list_to_set (C := gset Z) (peers_ s)) by done. rewrite Hpe.
  rewrite size_difference by (by apply singleton_subseteq_l). rewrite size_singleton.
  assert (size members <> 0)%nat; [|lia]. intros He%size_empty_inv. by apply (He i), elem_of_empty in Hi.
Qed.
End invariant.

(** ** Executing a run *)
Inductive Move := MEvent (i : Z) (ev : Event) | MDeliver (n : nat).

Definition smallb (s : State) : bool := (0 <=? current_term_ s) && (current_term_ s <? 2 ^ 32 - 1).

Definition exec_move (m : Move) (c : Cluster) : option Cluster :=
  match m with
  | MEvent i ev =>
      s ← nodes c !! i;
      if vote_event ev || negb (smallb s) then None else
      r ← handle ev (clear_sent s);
      Some (mkCluster (<[i := snd r]> (nodes c)) (net c ++ packets (snd r)))
  | MDeliver n =>
      p ← net c !! n;
      let rest := take n (net c) ++ drop (S n) (net c) in
      match p with
      | PVote i args =>
          s ← nodes c !! i;
          if negb (smallb s) then None else
          r ← handle (EvRequestVote args) (clear_sent s);
          match fst r with
          | OutRequestVote reply =>
              Some (mkCluster (<[i := snd r]> (nodes c))
                      (rest ++ PReply (rva_candidate_id args) reply :: packets (snd r)))
          | _ => None
          end
      | PReply i reply =>
          s ← nodes c !! i;
          if negb (smallb s) then None else
          r ← handle (EvRequestVoteReply reply) (clear_sent s);
          Some (mkCluster (<[i := snd r]> (nodes c)) (rest ++ packets (snd r)))
      end
  end.

Fixpoint exec (ms : list Move) (c : Cluster) : option Cluster :=
  match ms with [] => Some c | m :: ms => c ← exec_move m c; exec ms c end.

Lemma smallb_small s : smallb s = true -> small s.
Proof. unfold smallb, small. intros [H1%Z.leb_le H2%Z.ltb_lt]%andb_prop. lia. Qed.

Lemma exec_move_step m c c' : exec_move m c = Some c' -> cluster_step c c'.
Proof.
  destruct c as [ns nt]. destruct m as [i ev|n]; cbn.
  - intros (s & Hs & H)%option.bind_Some.
    destruct (vote_event ev) eqn:Hev, (smallb s) eqn:Hsm; cbn in H; try done.
    apply option.bind_Some in H as ([out s'] & Hh & [= <-]).
    apply (StepEvent ns nt i s ev out s'); auto using smallb_small.
  - intros (p & Hp & H)%option.bind_Some.
    rewrite <- (take_drop_middle nt n p Hp) at 1. destruct p as [i args|i reply].
    all: apply option.bind_Some in H as (s & Hs & H); destruct (smallb s) eqn:Hsm; cbn in H; try done.
    all: apply option.bind_Some in H as ([out s'] & Hh & H); cbn in H.
    + destruct out as [| |r| |]; try done. injection H as <-.
      apply (StepVote ns _ _ i args s r s'); auto using smallb_small.
    + injection H as <-. apply (StepReply ns _ _ i reply s out s'); auto using smallb_small.
Qed.

Lemma exec_steps ms : forall c, succeeds (exec ms c) = true -> rtc cluster_step c (default c (exec ms c)).
Proof.
  induction ms as [|m ms IH]; intros c; cbn [exec]; [intros _; apply rtc_refl|].
  destruct (exec_move m c) as [c1|] eqn:E; cbn; [|done]. intros H.
  eapply rtc_l; [by eapply exec_move_step|]. specialize (IH c1 H).
  by destruct (exec ms c1).
Qed.
End cluster.

(** [C1] Election safety: in a cluster with an odd number of members, in any run
    with any timeouts, lost and reordered messages and restarts, two nodes that
    lead in the same term (at any two moments of the run) are the same node. *)
Theorem election_safety {St} {store : Storage St} {isal : IsaL} {alloc : Allocator}
    {indet0 : Indeterminate} {dur : DurableState St}
    (members : gset Z) (c0 c1 c2 : Cluster) (i j : Z) (s1 s2 : RaftState St)
    (Hodd : Z.odd (Z.of_nat (size members)) = true) (Hinit : cluster_init members c0)
    (H01 : rtc cluster_step c0 c1) (H12 : rtc cluster_step c1 c2)
    (Hi : nodes c1 !! i = Some s1) (Hj : nodes c2 !! j = Some s2)
    (Hlead1 : role_ s1 = kLeader) (Hlead2 : role_ s2 = kLeader)
    (Hterm : current_term_ s1 = current_term_ s2) : i = j.
Proof.
  pose proof (ci_ids _ _ Hinit) as Hids. apply inv_init in Hinit.
  destruct (inv_steps members Hids _ _ _ Hinit H01) as (h1 & _ & Hinv1).
  destruct (inv_steps members Hids _ _ _ Hinv1 H12) as (h2 & Hsub & Hinv2).
  pose proof (in_node _ _ _ Hinv1 _ _ Hi) as Hn1. pose proof (in_node _ _ _ Hinv2 _ _ Hj) as Hn2.
  destruct (no_win _ _ _ _ _ Hn1) as (A & HA & HAll); [by right|].
  destruct (no_win _ _ _ _ _ Hn2) as (B & HB & HBll); [by right|].
  rewrite (livenessLevel_members _ _ _ _ _ Hn1) in HA by (rewrite <- (in_dom _ _ _ Hinv1); by eapply elem_of_dom_2).
  rewrite (livenessLevel_members _ _ _ _ _ Hn2) in HB by (rewrite <- (in_dom _ _ _ Hinv2); by eapply elem_of_dom_2).
  destruct (quorums_meet members A B ((Z.of_nat (size members) - 1) / 2)) as (v & Hva & Hvb); [| |exact Hodd|reflexivity|exact HA|exact HB|].
  - intros v Hv. by apply HAll, (in_hist _ _ _ Hinv1) in Hv as [? _].
  - intros v Hv. by apply HBll, (in_hist _ _ _ Hinv2) in Hv as [? _].
  - apply HAll in Hva. apply HBll in Hvb. rewrite <- Hterm in Hvb.
    eapply lookup_weaken in Hva; [|exact Hsub]. congruence.
Qed.

(** ** A cluster of three in which node 0 is elected *)
Section witness.
#[local] Instance demo_layout_cluster : Layout := {| sizeof_LogEntry := 200; kHeaderSize := 32 |}.
#[local] Instance demo_alloc_cluster : Allocator := fun _ => true.
#[local] Instance demo_indet_cluster : Indeterminate := 0.

Definition cl_node (i : Z) : RaftState FileStorage :=
  default (demo_node i None) (NewRaftState (demo_config i (Some FileStorage_create)) demo_uninit 0).

Lemma cl_node_new i : succeeds (NewRaftState (demo_config i (Some FileStorage_create)) demo_uninit 0) = true ->
  NewRaftState (demo_config i (Some FileStorage_create)) demo_uninit 0 = Some (cl_node i).
Proof. unfold cl_node. by destruct (NewRaftState _ _ _). Qed.

Definition cl_members : gset Z := {[0; 1; 2]}.
Definition cl_start : Cluster := mkCluster (<[0 := cl_node 0]> (<[1 := cl_node 1]> {[2 := cl_node 2]})) [].

(** Node 0 times out and asks for votes, node 1 votes, node 0 counts. *)
Definition cl_moves : list Move := [MEvent 0 EvTick; MDeliver 0; MDeliver 1].
Definition cl_end : Cluster := default cl_start (exec cl_moves cl_start).

Lemma cl_start_init : cluster_init cl_members cl_start.
Proof.
  split; [done| |by apply (bool_decide_unpack _); vm_compute|].
  - vm_compute. reflexivity.
  - assert (forall i, i ∈ [0; 1; 2] -> let s := cl_node i in
      id_ s = i /\ NoDup (peers_ s) /\ list_to_set (peers_ s) = cl_members ∖ {[i]} /\ durable s /\ role_ s = kFollower) as H.
    { intros i Hi. assert (NewRaftState (demo_config i (Some FileStorage_create)) demo_uninit 0 = Some (cl_node i)) as Hn.
      { apply cl_node_new. repeat (apply elem_of_cons in Hi as [->|Hi]; [by vm_compute|]). by apply not_elem_of_nil in Hi. }
      apply NewRaftState_spec in Hn as (Hd & Hid & _ & Hr & _). cbv zeta. split; [exact Hid|].
      repeat (apply elem_of_cons in Hi as [->|Hi];
        [split_and!; [apply (bool_decide_unpack _); by vm_compute|by vm_compute|done|done]|]).
      by apply not_elem_of_nil in Hi. }
    intros i s. unfold cl_start. cbn [nodes]. rewrite !lookup_insert_Some, lookup_singleton_Some.
    intros [[<- <-]|[_ [[<- <-]|[_ [<- <-]]]]]; apply H; apply (bool_decide_unpack _); vm_compute; exact I.
Qed.

Lemma cl_elected : rtc cluster_step cl_start cl_end.
Proof. apply exec_steps. vm_compute. reflexivity. Qed.

Lemma election_safety_witness : exists s,
  nodes cl_end !! 0 = Some s /\ role_ s = kLeader /\
  forall j s', nodes cl_end !! j = Some s' -> role_ s' = kLeader -> current_term_ s' = current_term_ s -> 0 = j.
Proof.
  destruct (nodes cl_end !! 0) as [s|] eqn:Hs.
  - assert (role_ s = kLeader) as Hr.
    { assert (role_ <$> nodes cl_end !! 0 = Some kLeader) as H by (vm_compute; reflexivity).
      rewrite Hs in H. by injection H. }
    exists s. split; [done|]. split; [done|]. intros j s' Hj Hr' Ht.
    apply (election_safety cl_members cl_start cl_end cl_end 0 j s s' ltac:(by vm_compute) cl_start_init cl_elected
      (rtc_refl _ _)); [exact Hs|exact Hj|exact Hr|exact Hr'|by rewrite Ht].
  - apply (f_equal succeeds) in Hs. vm_compute in Hs. discriminate.
Defined.

(** ** An even cluster: four nodes, two leaders *)
Definition even_config (i : Z) : RaftConfig FileStorage :=
  mkRaftConfig i 0 ((fun j => (j, true)) <$> filter (fun j => j <> i) [0; 1; 2; 3]) (Some FileStorage_create)
    1000 1500 true 4 false 0 0 0 0.
Definition even_node (i : Z) : RaftState FileStorage :=
  set_election_round_ 20 (default (demo_node i None) (NewRaftState (even_config i) demo_uninit 0)).
Definition even_start : Cluster :=
  mkCluster (<[0 := even_node 0]> (<[1 := even_node 1]> (<[2 := even_node 2]> {[3 := even_node 3]}))) [].

(** Nodes 0 and 1 time out, node 2 votes for 0 and node 3 for 1; both count. *)
Definition even_moves : list Move :=
  [MEvent 0 EvTick; MEvent 1 EvTick; MDeliver 1; MDeliver 4; MDeliver 4; MDeliver 4].
Definition even_end : Cluster := default even_start (exec even_moves even_start).

Lemma even_start_init : cluster_init {[0; 1; 2; 3]} even_start.
Proof.
  split; [done|by vm_compute|by apply (bool_decide_unpack _); vm_compute|].
  assert (forall i, i ∈ [0; 1; 2; 3] -> let s := even_node i in
    id_ s = i /\ NoDup (peers_ s) /\ list_to_set (peers_ s) = ({[0; 1; 2; 3]} : gset Z) ∖ {[i]} /\
    durable s /\ role_ s = kFollower) as H.
  { intros i Hi. assert (exists s, NewRaftState (even_config i) demo_uninit 0 = Some s /\
      even_node i = set_election_round_ 20 s) as (s & Hn & He).
    { unfold even_node. destruct (NewRaftState (even_config i) demo_uninit 0) as [s|] eqn:E; [by exists s|].
      apply (f_equal succeeds) in E. revert E.
      repeat (apply elem_of_cons in Hi as [->|Hi]; [by vm_compute|]). by apply not_elem_of_nil in Hi. }
    apply NewRaftState_spec in Hn as (Hd & Hid & _ & Hr & _). cbv zeta.
    split; [rewrite He; exact Hid|]. split; [|split; [|split; [rewrite He; exact Hd|rewrite He; exact Hr]]].
    all: repeat (apply elem_of_cons in Hi as [->|Hi]; [apply (bool_decide_unpack _); by vm_compute|]).
    all: by apply not_elem_of_nil in Hi. }
  intros i s. unfold even_start. cbn [nodes]. rewrite !lookup_insert_Some, lookup_singleton_Some.
  intros [[<- <-]|[_ [[<- <-]|[_ [[<- <-]|[_ [<- <-]]]]]]]; apply H; apply (bool_decide_unpack _); vm_compute; exact I.
Qed.

(** The vote threshold is a majority only for odd clusters: the threshold of a
    group of four is two votes, and there is a run of four followers, eligible by
    their election round, in which nodes 0 and 1 both lead in term 1. (Freshly
    created nodes have round 0, where only one node of a group is eligible; the
    run shows that this restriction, and not the vote count, keeps even clusters
    safe.) *)
Theorem election_unsafe_in_even_clusters :
  cluster_init {[0; 1; 2; 3]} even_start /\ rtc cluster_step even_start even_end /\
  (fun s => (role_ s, current_term_ s)) <$> nodes even_end !! 0 = Some (kLeader, 1) /\
  (fun s => (role_ s, current_term_ s)) <$> nodes even_end !! 1 = Some (kLeader, 1).
Proof.
  split; [exact even_start_init|]. split; [apply exec_steps; vm_compute; reflexivity|].
  split; vm_compute; reflexivity.
Qed.
End witness.
