(* ===== verification/StripeStore.v ===== *)
(** From a client's put to a client's get in LRC mode: [RaftStore::StripePut]
    (src/multi-raft/raft_store_stripe.cc) and the composition of the components a
    value passes through. The put is proposed as a [StripeWriteCommand] whose value
    is encoded; the leader keeps all fragments in its log entry and sends every peer
    the key, the placement and the fragments of that peer; the bridge and [ApplyFsm]
    of every node store the metadata and the node's own fragments; a get collects
    the data fragments and concatenates them.

    The waiting loop of [StripePut] runs beside the Raft node: it is a function of
    the commit indices it observes. The elapsed times it answers are left out. *)

From S2P Require Import Prelude Types Bytes StripeFormat KvFormat Engine LogManager Encoder Lrc Grouper Storage Serializer StripeApply StripeRead PersistQueue Monitors RaftBase RaftEncode RaftCore.

(** ** StripePut *)

(** [value_offset] is an [int]. *)
Definition stripe_command (group_id : Z) (user_key user_value : Slice) (mode : EncodingMode) : CommandData_t :=
  mkCommandData (i32 (4 + 8 + 1 + 8 + slice_size user_key + 8))
    (StripeWriteCommand_Serialize (mkStripeWriteCommand group_id user_key user_value mode)).

Section put.
Context {St : Type} {isal : IsaL} {alloc : Allocator}.

(** The index to wait for; [None] in the result is the answer [kNotALeader]. *)
Definition StripePut_propose (group_id : Z) (user_key user_value : Slice) (mode : EncodingMode) : M (RaftState St) (option Z) :=
  s <- get ;;
  if negb (role_eqb (Role s) kLeader) then ret None else
  pr <- Propose (stripe_command group_id user_key user_value mode) ;;
  ret (if is_leader pr then Some (propose_index pr) else None).
End put.

(** The 50 observations of the commit index. *)
Definition StripePut_wait (target : Z) (commit_index : nat -> Z) : ErrorType :=
  if existsb (fun retry => target <=? commit_index retry) (seq 0 50) then KvFormat.kOk else kRequestExecTimeout.

(** ** The fragments of an entry *)

(** The entry has the fragments [D i] for the ids [ids]. *)
Definition carries (D : Z -> Slice) (ids : list Z) (e : LogEntry) : Prop :=
  Fragments e = D <$> ids /\ FragIds e = ids.

Lemma foldl_AddFragmentWithId (D : Z -> Slice) ids e :
  (forall i, i ∈ ids -> valid (D i) = true) ->
  foldl (fun e '(fid, frag) => AddFragmentWithId fid frag e) e (zip ids (D <$> ids)) =
  set_FragIds (FragIds e ++ ids) (set_Fragments (Fragments e ++ (D <$> ids)) e).
Proof.
  revert e. induction ids as [|i ids IH]; intros e Hv; cbn [fmap list_fmap zip zip_with foldl].
  - rewrite !app_nil_r. by destruct e.
  - unfold AddFragmentWithId at 2. rewrite Hv by left.
    rewrite IH by (intros; apply Hv; by right). destruct e. cbn. by rewrite <- !app_assoc.
Qed.

Lemma foldl_AddFragment frags e : FragIds e = [] -> Fragments e = [] -> Forall (fun f => valid f = true) frags ->
  foldl (fun e frag => AddFragment frag e) e frags =
  set_FragIds (seqZ 0 (Z.of_nat (length frags))) (set_Fragments frags e).
Proof.
  intros Hi Hf. induction frags as [|f frags IH] using rev_ind; intros Hv; [destruct e; cbn in *; by subst|].
  apply Forall_app in Hv as [Hv Hfv]. apply Forall_cons in Hfv as [Hfv _].
  rewrite foldl_app, IH by done. cbn [foldl]. unfold AddFragment, AddFragmentWithId. rewrite Hfv.
  rewrite length_app. cbn [length]. rewrite Nat2Z.inj_add, (seqZ_app 0) by lia. by destruct e.
Qed.

Lemma frag_map_of_fun (D : Z -> Slice) ids m i :
  frag_map_of ((fun i => (i, D i)) <$> ids) m !! i = if decide (i ∈ ids) then Some (D i) else m !! i.
Proof.
  revert m. induction ids as [|j ids IH]; intros m; [done|]. cbn [fmap list_fmap frag_map_of foldl fst snd].
  unfold frag_map_of in IH. rewrite IH. destruct (decide (i ∈ ids)).
  - rewrite decide_True; [done|by right].
  - destruct (decide (i = j)) as [->|Hne].
    + rewrite lookup_insert_eq, decide_True; [done|left].
    + rewrite lookup_insert_ne, decide_False by (done || rewrite elem_of_cons; tauto). done.
Qed.

Lemma complete_ids (ids : list Z) (frags : list Slice) :
  length frags = length ids -> imap (fun i _ => default (Z.of_nat i) (ids !! i)) frags = ids.
Proof.
  intros Hl. apply list_eq. intros j. rewrite list_lookup_imap. destruct (ids !! j) as [x|] eqn:E.
  - destruct (lookup_lt_is_Some_2 frags j) as [y ->]; [rewrite Hl; by eapply lookup_lt_Some|]. done.
  - by rewrite lookup_ge_None_2 by (rewrite Hl; by apply lookup_ge_None_1).
Qed.


Lemma carries_sent D ids e : carries D ids e ->
  sent_ids e = ids /\ zip (sent_ids e) (Fragments e) = (fun i => (i, D i)) <$> ids.
Proof.
  intros [Hf Hi]. assert (sent_ids e = ids) as Hs.
  { unfold sent_ids. rewrite Hf, Hi. apply complete_ids, length_fmap. }
  split; [done|]. rewrite Hs, Hf. clear. induction ids as [|i ids IH]; cbn; [done|]. by rewrite IH.
Qed.

(** ** The bytes of the command *)
Lemma command_layout group_id key value mode : exists pre mid,
  StripeWriteCommand_Serialize (mkStripeWriteCommand group_id key value mode) = pre ++ key ++ mid ++ value /\
  length pre = 21%nat /\ length mid = 8%nat /\ take 4 pre = kStripeMagic.
Proof.
  exists (kStripeMagic ++ AppendU32 group_id ++ [mode_to_byte mode] ++ AppendU32 (slice_size key)), (AppendU32 (slice_size value)).
  unfold StripeWriteCommand_Serialize. cbn [swc_group_id swc_user_key swc_user_value swc_encoding_mode].
  unfold AppendU32. split_and!; [by rewrite <- !app_assoc| |apply length_le|done].
  rewrite !length_app, !length_le. done.
Qed.

Section command.
Context (group_id : Z) (key value : Slice) (mode : EncodingMode).
Let cmd := StripeWriteCommand_Serialize (mkStripeWriteCommand group_id key value mode).

Lemma command_size : slice_size cmd = 29 + slice_size key + slice_size value.
Proof.
  unfold cmd. destruct (command_layout group_id key value mode) as (pre & mid & -> & Hp & Hm & _).
  unfold slice_size. rewrite !length_app, Hp, Hm. lia.
Qed.

Lemma command_key : sub_slice cmd 21 (slice_size key) = key.
Proof.
  unfold cmd. destruct (command_layout group_id key value mode) as (pre & mid & -> & Hp & _ & _).
  unfold sub_slice, slice_size. rewrite Nat2Z.id, (drop_app_length' pre _ 21) by done. apply take_app_length.
Qed.

Lemma command_value : drop (Z.to_nat (29 + slice_size key)) cmd = value.
Proof.
  unfold cmd. destruct (command_layout group_id key value mode) as (pre & mid & -> & Hp & Hm & _).
  rewrite (app_assoc key mid value), (app_assoc pre (key ++ mid) value).
  apply drop_app_length'. unfold slice_size. rewrite !length_app, Hp, Hm. lia.
Qed.

Lemma command_magic : starts_with kStripeMagic cmd = true.
Proof.
  unfold cmd. destruct (command_layout group_id key value mode) as (pre & mid & -> & Hp & _ & Ht).
  unfold starts_with. apply bool_decide_eq_true_2. rewrite take_app_le by lia. done.
Qed.
End command.

(** ** The entries of the nodes *)

(** The entry in the leader's log once [Propose] has set its index. *)
Definition logged_entry (command : CommandData_t) (term idx : Z)
    (lrc : ChunkInfo * list FragmentPlacement * list Slice) : LogEntry :=
  SetChunkInfo (SetRaftIndex idx lrc.1.1) (SetIndex idx (proposed_entry command term (Some lrc))).

(** The entry a node applies: the leader its own, a peer the one it received. *)
Definition node_entry (g : LrcComplementaryGrouper) (leader idx : Z) (ent : LogEntry) (n : Z) : option LogEntry :=
  if n =? leader then Some ent else
  frag_ids ← GetFragmentsForNode n g;
  e ← lrc_new_peer_entry ent idx frag_ids;
  Some (received e).

(** What the bridge and [ApplyFsm] see of the entry of node [n]. *)
Record node_view (D : Z -> Slice) (key : Slice) (size idx : Z) (ci : ChunkInfo) (pl : list FragmentPlacement) (n : Z)
    (e : LogEntry) : Prop := {
  nv_meta : ExtractApplyMeta e = Some (key, size);
  nv_lrc : IsLrcEncoded e = true;
  nv_ok : apply_ok e key size;
  nv_limits : within_limits e;
  nv_index : Index e = idx;
  nv_chunk : GetChunkInfo e = ci;
  nv_placement : Placement e = pl;
  nv_frags : exists ids, carries D ids e /\ forall fp, fp ∈ pl -> node_id fp = n -> frag_id fp ∈ ids
}.

Section entries.
Context (p : LrcParams) (g : LrcComplementaryGrouper) (N : Z) (pl : list FragmentPlacement).
Context (Hps : placement_spec N (lrc_k p) g pl) (HN : 0 <= N <= 64).
Context (F : list Slice) (fs : nat) (HF : Forall (fun f => length f = fs) F) (Hfs : (0 < fs)%nat /\ Z.of_nat fs < 2 ^ 20).
Context (HFl : Z.of_nat (length F) = 2 * N).
Context (gid idx term grp : Z) (key value : Slice).
Context (Hidx : is_u32 idx) (Hgrp : 0 <= grp < 2 ^ 31).
Context (Hk : is_u32 (lrc_k p)) (Hl : 0 < lrc_l p < 2 ^ 32) (Hr : is_u32 (lrc_r p)).
Context (Hkey : valid key = true) (Hstri : 21 <= slice_size key -> starts_with kStripeMagic key = false).
Context (Hsize : 29 + slice_size key + slice_size value < 2 ^ 31).
Let D i := nth (Z.to_nat i) F [].
Let ci := mkChunkInfo (lrc_k p) idx (lrc_l p) (lrc_r p) grp (slice_size key) (slice_size value).
Let ci0 := mkChunkInfo (lrc_k p) 0 (lrc_l p) (lrc_r p) grp (slice_size key) (slice_size value).
Let ent := logged_entry (stripe_command gid key value kLrc) term idx (ci0, pl, F).

Lemma fragment_D i : 0 <= i < 2 * N -> arr_get F i = Some (D i) /\ length (D i) = fs.
Proof.
  intros Hi. destruct (lookup_lt_is_Some_2 F (Z.to_nat i)) as [x Hx]; [lia|].
  unfold D. rewrite (nth_lookup_Some _ _ [] _ Hx). unfold arr_get. rewrite decide_True by lia.
  split; [done|]. rewrite Forall_forall in HF. apply HF. by eapply list_elem_of_lookup_2.
Qed.

Lemma valid_D i : 0 <= i < 2 * N -> valid (D i) = true.
Proof. intros Hi. destruct (fragment_D i Hi) as [_ Hl']. destruct (D i); [cbn in Hl'; lia|done]. Qed.

(** What an entry with the right members is to the bridge, for any fragments of the
    size of a stripe's. *)
Lemma entry_facts (E : Z -> Slice) (e : LogEntry) (ids : list Z) :
  ExtractApplyMeta e = Some (key, slice_size value) -> GetChunkInfo e = ci -> Placement e = pl -> Index e = idx ->
  carries E ids e -> (length ids <= 256)%nat -> (forall i, i ∈ ids -> is_u32 i /\ length (E i) = fs) ->
  IsLrcEncoded e = true /\ apply_ok e key (slice_size value) /\ within_limits e.
Proof.
  intros Hm Hci Hpl Hi Hc Hlen Hids. pose proof (carries_sent E ids e Hc) as [Hsent _]. destruct Hc as [Hcf Hci'].
  pose proof (ps_length _ _ _ _ Hps). pose proof (slice_size_nonneg value). pose proof (slice_size_nonneg key).
  assert (Forall (fun f => slice_size f < 2 ^ 20) (Fragments e)) as Hsz.
  { rewrite Hcf. apply Forall_fmap, Forall_forall. intros i Hin. cbn.
    destruct (Hids i Hin) as [_ Hd]. unfold slice_size. lia. }
  split_and!; [|split|].
  - unfold IsLrcEncoded, ChunkInfo_IsLrcEncoded. rewrite Hci. cbn. by rewrite !bool_decide_true by lia.
  - by rewrite Hi.
  - split; [done|]. unfold is_u32. lia.
  - rewrite Hci. split; unfold is_int, is_u32 in *; cbn; lia.
  - rewrite Hpl. apply Forall_forall. intros fp Hin. destruct (ps_range _ _ _ _ Hps fp Hin) as (? & ? & ?).
    split; unfold is_int; lia.
  - rewrite Hpl, Hcf, length_fmap. unfold is_u32. lia.
  - rewrite Hsent. apply Forall_forall. intros i Hin. by apply Hids.
  - eapply Forall_impl; [exact Hsz|]. cbn. intros f Hf. pose proof (slice_size_nonneg f). unfold is_u32. lia.
  - lia.
  - split; [rewrite Hcf, length_fmap; by unfold kMaxFragments|exact Hsz|rewrite Hpl; lia].
Qed.

(** The view of an entry that carries its node's fragments. *)
Lemma entry_view (n : Z) (e : LogEntry) (ids : list Z) :
  ExtractApplyMeta e = Some (key, slice_size value) -> GetChunkInfo e = ci -> Placement e = pl -> Index e = idx ->
  carries D ids e -> (length ids <= 256)%nat -> (forall i, i ∈ ids -> 0 <= i < 2 * N) ->
  (forall fp, fp ∈ pl -> node_id fp = n -> frag_id fp ∈ ids) ->
  node_view D key (slice_size value) idx ci pl n e.
Proof.
  intros Hm Hci Hpl Hi Hc Hlen Hids Hfp.
  destruct (entry_facts D e ids Hm Hci Hpl Hi Hc Hlen) as (Hl' & Hok & Hlim).
  { intros i Hin. specialize (Hids i Hin). split; [unfold is_u32; lia|]. by apply fragment_D. }
  split; try done. by exists ids.
Qed.

Let cmd := StripeWriteCommand_Serialize (mkStripeWriteCommand gid key value kLrc).

Lemma F_eq : F = D <$> seqZ 0 (2 * N).
Proof.
  apply list_eq. intros i. rewrite list_lookup_fmap. destruct (decide (Z.of_nat i < 2 * N)) as [Hi|Hi].
  - rewrite lookup_seqZ_lt by done. cbn [fmap option_fmap option_map]. unfold D. rewrite Z.add_0_l, Nat2Z.id.
    apply lookup_nth_lt. lia.
  - rewrite lookup_seqZ_ge by lia. apply lookup_ge_None_2. lia.
Qed.

Lemma ent_eq : ent = mkLogEntry term idx kNormal ci (29 + slice_size key) (slice_size cmd) cmd [] [] F (seqZ 0 (2 * N)) pl.
Proof.
  unfold ent, logged_entry, proposed_entry. cbn [fst snd].
  rewrite foldl_AddFragment, HFl; [|done..|].
  - unfold stripe_command, cmd. cbn [cd_command_data cd_start_fragment_offset]. pose proof (slice_size_nonneg key). pose proof (slice_size_nonneg value).
    replace (4 + 8 + 1 + 8 + slice_size key + 8) with (29 + slice_size key) by lia.
    rewrite i32_small by (unfold is_int; lia). done.
  - rewrite F_eq. apply Forall_fmap, Forall_forall. intros i Hi%elem_of_seqZ. apply valid_D. lia.
Qed.

Lemma extract_meta (e : LogEntry) skip :
  Type_ e = kNormal -> GetChunkInfo e = ci -> sub_slice (command_data_ e) skip (slice_size key) = key ->
  skip + slice_size key <= slice_size (command_data_ e) ->
  skip = (if (21 <=? slice_size (command_data_ e)) && starts_with kStripeMagic (command_data_ e) then 21 else 0) ->
  ExtractApplyMeta e = Some (key, slice_size value).
Proof.
  intros Ht Hci Hsub Hle Hskip. unfold ExtractApplyMeta, IsLrcEncoded, CommandData, is_kNormal, ChunkInfo_IsLrcEncoded.
  rewrite Ht, Hci. unfold ci. cbn [GetLrcGroupId GetL GetKeySize GetTotalSize]. rewrite !bool_decide_true by (done || lia).
  assert (0 < slice_size key) by (destruct key; [done|unfold slice_size; cbn [length]; lia]).
  pose proof (slice_size_nonneg value).
  assert (valid (command_data_ e) = true) as ->.
  { destruct (command_data_ e); [|done]. exfalso. revert Hle Hskip. change (slice_size []) with 0. cbn. lia. }
  rewrite (proj2 (Z.eqb_neq _ _)) by lia. cbn [andb negb orb].
  rewrite <- Hskip, Hsub, (proj2 (Z.leb_le _ _)) by done. done.
Qed.

Lemma leader_view n : node_view D key (slice_size value) idx ci pl n ent.
Proof.
  pose proof ent_eq as He. pose proof (slice_size_nonneg value).
  pose proof (command_size gid key value kLrc) as Hcs. fold cmd in Hcs.
  apply (entry_view n ent (seqZ 0 (2 * N))); rewrite ?He; try done.
  - apply (extract_meta _ 21); try done; cbn [command_data_].
    + apply command_key.
    + rewrite Hcs. lia.
    + rewrite (proj2 (Z.leb_le _ _)) by (pose proof (slice_size_nonneg key); lia). unfold cmd. by rewrite command_magic.
  - split; [|done]. apply F_eq.
  - rewrite length_seqZ. lia.
  - intros i Hi%elem_of_seqZ. lia.
  - intros fp Hin _. apply elem_of_seqZ. destruct (ps_range _ _ _ _ Hps fp Hin) as (_ & ? & _). lia.
Qed.

Lemma key_only : key_only_entry ent idx = mkLogEntry term idx kNormal ci 0 (slice_size value) key [] [] [] [] pl.
Proof.
  unfold key_only_entry. rewrite ent_eq. unfold CommandData, is_kNormal.
  cbn [GetChunkInfo Type_ command_data_ Term Placement]. unfold ci. cbn [GetKeySize GetTotalSize].
  rewrite bool_decide_true by done. pose proof (command_size gid key value kLrc) as Hcs. fold cmd in Hcs.
  assert (0 < slice_size key) by (destruct key; [done|unfold slice_size; cbn [length]; lia]).
  pose proof (slice_size_nonneg value).
  rewrite (proj2 (Z.ltb_lt _ _)), (u32_small (21 + slice_size key)), Hcs, (proj2 (Z.leb_le _ _)) by (unfold is_u32; lia).
  cbn [andb]. unfold cmd. by rewrite command_key.
Qed.

Lemma peer_view n : 0 <= n < N -> exists frag_ids e, GetFragmentsForNode n g = Some frag_ids /\
  lrc_new_peer_entry ent idx frag_ids = Some e /\ node_view D key (slice_size value) idx ci pl n (received e).
Proof.
  intros Hn. destruct (ps_node _ _ _ _ Hps n Hn) as (frag_ids & Hg & Hlen & Hrange & Hfp).
  set (ids := merge_sort (≤) frag_ids). assert (ids ≡ₚ frag_ids) as Hperm by apply merge_sort_Permutation.
  assert (forall i, i ∈ ids -> 0 <= i < 2 * N) as Hids by (intros i; rewrite Hperm; apply Hrange).
  assert (omap (arr_get (Fragments ent)) ids = D <$> ids) as Homap.
  { rewrite ent_eq. cbn [Fragments]. clear -Hids HF Hfs HFl. induction ids as [|i ids IH]; [done|].
    cbn. destruct (fragment_D i) as [-> _]; [apply Hids; left|]. f_equal. apply IH. intros; apply Hids; by right. }
  exists frag_ids. eexists. split; [exact Hg|]. split.
  - unfold lrc_new_peer_entry. fold ids. rewrite Homap, bool_decide_false; [|].
    + rewrite foldl_AddFragmentWithId by (intros; by apply valid_D, Hids). done.
    + intros He. apply fmap_nil_inv in He. rewrite He in Hperm. apply Permutation_nil_l in Hperm. by subst.
  - rewrite key_only. unfold received. cbn [Term Index Type_ GetChunkInfo StartOffset CommandLength].
    apply (entry_view n _ ids); try done.
    + apply (extract_meta _ 0); try done.
      * change (sub_slice key 0 (slice_size key) = key). unfold sub_slice, slice_size. rewrite Nat2Z.id. apply firstn_all.
      * change (0 = if (21 <=? slice_size key) && starts_with kStripeMagic key then 21 else 0).
        destruct (Z.leb_spec 21 (slice_size key)); [by rewrite Hstri|done].
    + split; [done|]. cbn. destruct (carries_sent D ids (set_FragIds ids (set_Fragments (D <$> ids) LogEntry_default))) as [Hs _]; [done|].
      rewrite <- Hs at 2. done.
    + rewrite Hperm, Hlen. lia.
    + intros fp Hin Hno. rewrite Hperm. by apply Hfp.
Qed.





Lemma node_entry_view leader n : 0 <= n < N ->
  exists e, node_entry g leader idx ent n = Some e /\ node_view D key (slice_size value) idx ci pl n e.
Proof.
  intros Hn. unfold node_entry. destruct (n =? leader); [exists ent; split; [done|apply leader_view]|].
  destruct (peer_view n Hn) as (frag_ids & e & -> & He & Hv). cbn [mbind option_bind]. rewrite He. by exists (received e).
Qed.
End entries.

(** ** Applying the entry at a node *)
Definition lrc_meta (key : Slice) (gid idx size : Z) (ci : ChunkInfo) (pl : list FragmentPlacement) : StripeLogMeta :=
  mkStripeLogMeta key idx idx gid size kLrc (i32 (GetK ci)) (i32 (GetL ci)) (i32 (GetR ci)) 0 pl.

Section apply_node.
Context {isal : IsaL} {sh : Shuffle} {DB : Type} {engine : StorageEngine DB}.

(** The bridge and the apply thread of node [n], for one entry. *)
Definition apply_at (gid N n : Z) (e : LogEntry) (kv : KvNode DB) : option (KvNode DB) :=
  m ← apply_message gid e; Handle (mkApplyFsm gid n kLrc N) m kv.

(** The pairs one node writes: of the fragments placed on it, those it received. *)
Lemma lrc_batch_pairs D ids (f : ApplyFsm) m key ci pl size q v :
  af_enc_mode f = kLrc -> mac_entry_id m = mac_stripe_id m ->
  (forall fp, fp ∈ pl -> is_u32 (node_id fp) /\ is_u32 (frag_id fp)) ->
  (q, v) ∈ lrc_batch f m key ci pl (frag_map_of ((fun i => (i, D i)) <$> ids) ∅) size <->
  (q = StripeMetaDbKey (af_group_id f) key /\
   v = StripeLogMeta_Serialize (lrc_meta key (af_group_id f) (mac_stripe_id m) size ci pl)) \/
  exists fp, fp ∈ pl /\ node_id fp = af_node_id f /\ frag_id fp ∈ ids /\
    q = FragDbKey (af_group_id f) (mac_stripe_id m) (frag_id fp) /\ v = D (frag_id fp).
Proof.
  intros Hf Hm Hrange. unfold lrc_batch. rewrite Hf, Hm, elem_of_cons, list_elem_of_omap. apply Morphisms_Prop.or_iff_morphism.
  - split; [by intros [= -> ->]|by intros [-> ->]].
  - apply Morphisms_Prop.ex_iff_morphism. intros fp. split.
    + intros [Hin Hx]. destruct (Hrange fp Hin) as [Hn Hfr]. rewrite !u32_small in Hx by done.
      destruct (Z.eqb_spec (node_id fp) (af_node_id f)) as [Hno|]; [|done].
      rewrite frag_map_of_fun in Hx. case_decide; [|done]. by injection Hx as <- <-.
    + intros (Hin & Hno & Hids & -> & ->). split; [done|]. destruct (Hrange fp Hin) as [Hn Hfr].
      rewrite !u32_small, Hno, Z.eqb_refl, frag_map_of_fun, decide_True by auto. done.
Qed.

Context (Heng : engine_ok DB).

Lemma apply_carried D ids key size idx ci pl n e gid N (kv : KvNode DB) :
  ExtractApplyMeta e = Some (key, size) -> IsLrcEncoded e = true -> apply_ok e key size -> Index e = idx ->
  GetChunkInfo e = ci -> Placement e = pl -> carries D ids e ->
  (forall fp, fp ∈ pl -> is_u32 (node_id fp) /\ is_u32 (frag_id fp)) ->
  (forall batch, snd (db_write (kv_db kv) batch) = true) ->
  exists kv', apply_at gid N n e kv = Some kv' /\
    db_get (kv_db kv') (StripeMetaDbKey gid key) = Some (StripeLogMeta_Serialize (lrc_meta key gid idx size ci pl)) /\
    (forall fp, fp ∈ pl -> node_id fp = n -> db_get (kv_db kv') (FragDbKey gid idx (frag_id fp)) =
       if decide (frag_id fp ∈ ids) then Some (D (frag_id fp)) else db_get (kv_db kv) (FragDbKey gid idx (frag_id fp))) /\
    (forall q, q <> StripeMetaDbKey gid key -> (forall fp, fp ∈ pl -> node_id fp = n -> q <> FragDbKey gid idx (frag_id fp)) ->
       db_get (kv_db kv') q = db_get (kv_db kv) q).
Proof.
  intros Hm Hl Hok Hi Hci Hpl Hc Hrange Hw. unfold apply_at.
  destruct (Handle_lrc (mkApplyFsm gid n kLrc N) gid e key size kv Hm Hl Hok) as (m & -> & Hs & He & Hh).
  cbn [mbind option_bind]. rewrite Hh. eexists. split; [done|].
  destruct (carries_sent D ids e Hc) as [_ Hz]. rewrite Hz, Hi, Hci, Hpl. clear Hh Hz.
  pose proof (fun q v => lrc_batch_pairs D ids (mkApplyFsm gid n kLrc N) m key ci pl size q v
    eq_refl ltac:(congruence) Hrange) as Hb. rewrite Hs, Hi in Hb. cbn [af_group_id af_node_id] in Hb.
  set (batch := lrc_batch _ _ _ _ _ _ _) in *. set (kv' := UpdateAppliedIndex _ _).
  assert (forall q, db_get (kv_db kv') q = match batch_value batch q with Some v => Some v | None => db_get (kv_db kv) q end) as Hget.
  { assert (kv_db kv' = fst (db_write (kv_db kv) batch)) as ->
      by (unfold kv', UpdateAppliedIndex; by destruct (_ <? _)).
    apply (eo_write Heng). rewrite <- (Hw batch). by destruct (db_write _ _). }
  split_and!.
  - rewrite Hget, (batch_value_unique _ _ (StripeLogMeta_Serialize (lrc_meta key gid idx size ci pl))); [done| |].
    + apply Hb. by left.
    + intros w [[_ Hv]|(fp & _ & _ & _ & Hq & _)]%Hb; [done|].
      by assert (KMeta gid key = KFrag gid idx (frag_id fp)) by (by apply db_key_inj).
  - intros fp Hin Hno. case_decide as Hids.
    + rewrite Hget, (batch_value_unique _ _ (D (frag_id fp))); [done| |].
      * apply Hb. right. by exists fp.
      * intros w [[Hq _]|(fp' & _ & _ & _ & Hq & ->)]%Hb.
        -- by assert (KFrag gid idx (frag_id fp) = KMeta gid key) by (by apply db_key_inj).
        -- by assert (KFrag gid idx (frag_id fp) = KFrag gid idx (frag_id fp')) as [= ->] by (by apply db_key_inj).
    + rewrite Hget, batch_value_None; [done|].
      intros q' v [[-> _]|(fp' & _ & _ & Hids' & -> & _)]%Hb Heq.
      * by assert (KFrag gid idx (frag_id fp) = KMeta gid key) by (by apply db_key_inj).
      * assert (KFrag gid idx (frag_id fp) = KFrag gid idx (frag_id fp')) as [= Hff] by (by apply db_key_inj).
        by rewrite Hff in Hids.
  - intros q Hq Hfr. rewrite Hget, batch_value_None; [done|].
    intros q' v [[-> _]|(fp & Hin & Hno & _ & -> & _)]%Hb Heq; [by apply Hq|by apply (Hfr fp)].
Qed.

Lemma apply_view D key size idx ci pl n e gid N (kv : KvNode DB) :
  node_view D key size idx ci pl n e ->
  (forall fp, fp ∈ pl -> is_u32 (node_id fp) /\ is_u32 (frag_id fp)) ->
  (forall batch, snd (db_write (kv_db kv) batch) = true) ->
  exists kv', apply_at gid N n e kv = Some kv' /\
    db_get (kv_db kv') (StripeMetaDbKey gid key) = Some (StripeLogMeta_Serialize (lrc_meta key gid idx size ci pl)) /\
    (forall fp, fp ∈ pl -> node_id fp = n -> db_get (kv_db kv') (FragDbKey gid idx (frag_id fp)) = Some (D (frag_id fp))) /\
    (forall q, q <> StripeMetaDbKey gid key -> (forall fp, fp ∈ pl -> node_id fp = n -> q <> FragDbKey gid idx (frag_id fp)) ->
       db_get (kv_db kv') q = db_get (kv_db kv) q).
Proof.
  intros [Hm Hl Hok _ Hi Hci Hpl (ids & Hc & Hids)] Hrange Hw.
  destruct (apply_carried D ids key size idx ci pl n e gid N kv Hm Hl Hok Hi Hci Hpl Hc Hrange Hw)
    as (kv' & Ha & Hmeta & Hfrag & Hother).
  exists kv'. split_and!; try done. intros fp Hin Hno. rewrite Hfrag, decide_True by auto. done.
Qed.
End apply_node.

(** ** Put and get *)

(** A grouper the constructor accepted, groups that partition the nodes, and kernels
    that satisfy their documentation for the two levels of the code. *)
Record cluster_ok {isal : IsaL} (gf_mul : Z -> Z -> Z) (gr g : LrcComplementaryGrouper) : Prop := {
  cl_groups : groups_ok gr;
  cl_map : exists fuel, BuildNodeToFragmentsMapping (S fuel) gr = Some g;
  cl_params : LrcEncoder_ok (lrc_params_ gr) = true;
  cl_k : lrc_k (lrc_params_ gr) <= kMaxK;
  cl_r : lrc_r (lrc_params_ gr) <= kMaxM;
  cl_global : IsaL_spec gf_mul (lrc_k (lrc_params_ gr)) (lrc_k (lrc_params_ gr) + lrc_r (lrc_params_ gr));
  cl_local : IsaL_spec gf_mul (local_k (lrc_params_ gr)) (local_k (lrc_params_ gr) + 1)
}.

(** The puts considered: the key and the value are not empty and fit the command,
    a fragment stays below 1 MiB, the key does not look like a long [STRI] command
    and is not the key of one of the stripe's own fragments. *)
Record put_ok (k gid idx : Z) (key value : Slice) : Prop := {
  pu_group : is_u32 gid /\ gid <> u32 (-1);
  pu_index : is_u32 idx;
  pu_key : valid key = true;
  pu_stri : 21 <= slice_size key -> starts_with kStripeMagic key = false;
  pu_value : valid value = true /\ bytes value;
  pu_size : 29 + slice_size key + slice_size value < 2 ^ 31 /\ slice_size value <= k * (2 ^ 20 - 1);
  pu_collision : forall f, key <> FragDbKey gid idx f
}.

(** A store that holds nothing under the stripe's fragment keys and accepts the next
    batch. *)
Record fresh {DB} `{StorageEngine DB} (gid idx : Z) (kv : KvNode DB) : Prop := {
  fr_frag : forall f, db_get (kv_db kv) (FragDbKey gid idx f) = None;
  fr_meta : forall f, db_get (kv_db kv) (StripeMetaDbKey gid (FragDbKey gid idx f)) = None;
  fr_write : forall batch, snd (db_write (kv_db kv) batch) = true
}.

(** [Propose] encodes the bytes of a command behind its offset. *)
Lemma propose_lrc_encodes {St : Type} {isal : IsaL} (gf_mul : Z -> Z -> Z) (gr g : LrcComplementaryGrouper) (s : RaftState St)
    (command : CommandData_t) (payload : Slice) :
  let p := lrc_params_ gr in
  let off := cd_start_fragment_offset command in
  let size := slice_size (cd_command_data command) in
  cluster_ok gf_mul gr g -> 0 <= id_ s < N_ gr -> 0 <= off <= size -> drop (Z.to_nat off) (cd_command_data command) = payload ->
  valid payload = true -> bytes payload -> slice_size payload <= lrc_k p * (2 ^ 20 - 1) ->
  exists grp pl F fs,
    propose_lrc command g s =
      Some (Some (mkChunkInfo (lrc_k p) 0 (lrc_l p) (lrc_r p) grp (u32 (off - 29)) (u32 (size - off)), pl, F)) /\
    placement_spec (N_ gr) (lrc_k p) g pl /\ 0 <= grp < 2 * N_ gr /\ Z.of_nat (length F) = 2 * N_ gr /\
    Forall (fun f => length f = fs) F /\ (0 < fs)%nat /\ Z.of_nat fs < 2 ^ 20 /\
    exists pad, concat (take (Z.to_nat (lrc_k p)) F) = payload ++ pad.
Proof.
  intros p off size Hc Hleader Hoff Hpay Hv Hb Hfrag.
  destruct Hc as [Hgr [fuel Hmap] Hp Hk Hr HIg HIl]. fold p in Hp, Hk, Hr, HIg, HIl.
  destruct (mapping_placement gr fuel Hgr) as (g' & pl & Hmap' & _ & Hp' & Hps). fold p in Hp', Hps.
  assert (g' = g) as -> by congruence.
  destruct (EncodeStripe_ok p Hp Hk Hr HIg HIl payload Hb) as (st & Hst & Hd & Hlo & Hgl & (fs & pad & Hcat & Hpad & Hfs & Hall) & _).
  pose proof (lrc_params_facts p Hp) as Hpf. pose proof (go_r _ Hgr) as Hgor. fold p in Hgor.
  assert (0 < slice_size payload) by (destruct payload; [done|unfold slice_size; cbn [length]; lia]).
  assert (0 < lrc_k p) by lia. unfold kMaxK, kMaxM in *.
  exists (GetLrcGroupIdForNode (id_ s) g), pl, (all_frags st), fs. split_and!; try done.
  - unfold propose_lrc. rewrite (ps_vector _ _ _ _ Hps). cbn [mbind option_bind].
    fold off size. rewrite Hp', (proj2 (Z.ltb_ge _ _)), (proj2 (Z.ltb_ge _ _)), Hp by lia. cbn [orb negb].
    rewrite Hpay, Hst. cbn [mbind option_bind]. assert (lrc_l p <= lrc_k p) by nia.
    by rewrite (u32_small (lrc_k p)), (u32_small (lrc_l p)), (u32_small (lrc_r p)) by (unfold is_u32; lia).
  - by apply (ps_group _ _ _ _ Hps).
  - by apply (ps_group _ _ _ _ Hps).
  - unfold all_frags. rewrite !length_app, Hd, Hlo, Hgl. lia.
  - assert (1 <= (slice_size payload + lrc_k p - 1) / lrc_k p) by (apply Z.div_le_lower_bound; lia). lia.
  - assert ((slice_size payload + lrc_k p - 1) / lrc_k p < 2 ^ 20) by (apply Z.div_lt_upper_bound; lia). lia.
  - exists (replicate pad 0). unfold all_frags. rewrite take_app_length' by done. done.
Qed.

Section put_get.
Context {St : Type} {isal : IsaL} (gf_mul : Z -> Z -> Z) (gr g : LrcComplementaryGrouper).
Context (s : RaftState St) (gid idx term : Z) (key value : Slice).
Context (Hc : cluster_ok gf_mul gr g) (Hput : put_ok (lrc_k (lrc_params_ gr)) gid idx key value).
Context (Hleader : 0 <= id_ s < N_ gr).
Local Abbreviation p := (lrc_params_ gr).
Local Abbreviation k := (lrc_k p).
Local Abbreviation N := (N_ gr).

(** What [Propose] computes before it takes the lock. *)
Lemma propose_lrc_ok : exists grp pl F fs,
  propose_lrc (stripe_command gid key value kLrc) g s =
    Some (Some (mkChunkInfo k 0 (lrc_l p) (lrc_r p) grp (slice_size key) (slice_size value), pl, F)) /\
  placement_spec N k g pl /\ 0 <= grp < 2 * N /\ Z.of_nat (length F) = 2 * N /\
  Forall (fun f => length f = fs) F /\ (0 < fs)%nat /\ Z.of_nat fs < 2 ^ 20 /\
  exists pad, concat (take (Z.to_nat k) F) = value ++ pad.
Proof.
  destruct Hput as [_ _ Hkey _ [Hv Hb] [Hsz Hfrag] _]. pose proof (slice_size_nonneg key). pose proof (slice_size_nonneg value).
  assert (cd_start_fragment_offset (stripe_command gid key value kLrc) = 29 + slice_size key) as Hoff
    by (cbn [cd_start_fragment_offset stripe_command]; rewrite i32_small; unfold is_int; lia).
  pose proof (command_size gid key value kLrc) as Hcs.
  destruct (propose_lrc_encodes gf_mul gr g s (stripe_command gid key value kLrc) value Hc Hleader) as (grp & pl & F & fs & Hpr & Hrest).
  - rewrite Hoff. cbn [cd_command_data stripe_command]. rewrite Hcs. lia.
  - rewrite Hoff. cbn [cd_command_data stripe_command]. by rewrite command_value.
  - done.
  - done.
  - done.
  - exists grp, pl, F, fs. split; [|exact Hrest]. rewrite Hpr, Hoff. cbn [cd_command_data stripe_command]. rewrite Hcs.
    replace (29 + slice_size key - 29) with (slice_size key) by lia.
    replace (29 + slice_size key + slice_size value - (29 + slice_size key)) with (slice_size value) by lia.
    by rewrite (u32_small (slice_size key)), (u32_small (slice_size value)) by (unfold is_u32; lia).
Qed.

Lemma sizes : 0 < k <= 16 /\ 0 < lrc_l p <= 16 /\ 0 <= lrc_r p <= 32 /\ 2 * N = k + lrc_l p + lrc_r p.
Proof.
  pose proof (lrc_params_facts p (cl_params _ _ _ Hc)). pose proof (go_r _ (cl_groups _ _ _ Hc)).
  pose proof (cl_k _ _ _ Hc). pose proof (cl_r _ _ _ Hc). unfold kMaxK, kMaxM in *. nia.
Qed.

Section stored.
Context (grp : Z) (pl : list FragmentPlacement) (F : list Slice) (fs : nat) (pad : Slice).
Context (Hps : placement_spec N k g pl) (Hgrp : 0 <= grp < 2 * N) (HF : Z.of_nat (length F) = 2 * N)
  (Hfs : Forall (fun f => length f = fs) F) (Hfs0 : (0 < fs)%nat) (Hfs1 : Z.of_nat fs < 2 ^ 20)
  (Hcat : concat (take (Z.to_nat k) F) = value ++ pad).
Let ci := mkChunkInfo k idx (lrc_l p) (lrc_r p) grp (slice_size key) (slice_size value).
Let ci0 := mkChunkInfo k 0 (lrc_l p) (lrc_r p) grp (slice_size key) (slice_size value).
Let ent := logged_entry (stripe_command gid key value kLrc) term idx (ci0, pl, F).
Let meta := lrc_meta key gid idx (slice_size value) ci pl.
Let D i := nth (Z.to_nat i) F [].

Lemma stored_stripe : stripe_of meta (take (Z.to_nat k) F) value.
Proof.
  pose proof sizes as (? & ? & ? & ?). destruct Hput as [[? _] ? _ _ _ [? ?] _].
  pose proof (slice_size_nonneg value). pose proof (slice_size_nonneg key).
  assert (length (take (Z.to_nat k) F) = Z.to_nat k) as Hl by (rewrite length_take; lia).
  destruct (ps_data _ _ _ _ Hps) as (datas & others & Hpl & Hid & Hkd & Hko).
  assert (data_placement pl = datas) as Hdp by (rewrite Hpl; by apply data_placement_prefix).
  pose proof (ps_length _ _ _ _ Hps).
  split; unfold meta, lrc_meta; cbn [slm_encoding_mode slm_k slm_original_size slm_placement GetK ci];
    rewrite ?i32_small by (unfold is_int; lia).
  - split; cbn [slm_user_key slm_stripe_id slm_entry_id slm_group_id slm_original_size slm_encoding_mode slm_k slm_l slm_r
      slm_m slm_placement GetK GetL GetR ci]; rewrite ?i32_small by (unfold is_int; lia);
      unfold short, is_u64, is_u32, is_int in *; try lia; [done|].
    apply Forall_forall. intros fp Hin. destruct (ps_range _ _ _ _ Hps fp Hin) as (? & ? & ?). split; unfold is_int; lia.
  - done.
  - rewrite Hl. unfold kMaxK. lia.
  - done.
  - exists fs. by apply Forall_take.
  - by exists pad.
  - by rewrite Hdp.
  - rewrite Hdp. apply Forall_forall. intros fp Hin. apply (ps_range _ _ _ _ Hps fp). rewrite Hpl. apply elem_of_app. by left.
Qed.

(** The node's own fragments, or nothing when it has not applied the entry. *)
Definition applied_at {sh : Shuffle} {DB} {engine : StorageEngine DB} (kv0 : Z -> KvNode DB) (n : Z) : option (KvNode DB) :=
  e ← node_entry g (id_ s) idx ent n; apply_at gid N n e (kv0 n).

Context {sh : Shuffle} {DB : Type} {engine : StorageEngine DB} (Heng : engine_ok DB).
Context (kv0 : Z -> KvNode DB) (Hfresh : forall n, 0 <= n < N -> fresh gid idx (kv0 n)).

Lemma applied_at_ok n : 0 <= n < N -> exists kv', applied_at kv0 n = Some kv' /\
  db_get (kv_db kv') (StripeMetaDbKey gid key) = Some (StripeLogMeta_Serialize meta) /\
  (forall fp, fp ∈ pl -> node_id fp = n -> db_get (kv_db kv') (FragDbKey gid idx (frag_id fp)) = Some (D (frag_id fp))) /\
  frags_clean gid meta (take (Z.to_nat k) F) kv'.
Proof.
  intros Hn. pose proof sizes as (? & ? & ? & ?). destruct Hput as [_ Hi Hk Hst _ [Hsz _] Hcol].
  destruct (node_entry_view p g N pl Hps ltac:(lia) F fs Hfs ltac:(lia) HF gid idx term grp key value
    Hi ltac:(lia) ltac:(unfold is_u32; lia) ltac:(lia) ltac:(unfold is_u32; lia) Hk Hst Hsz (id_ s) n Hn) as (e & He & Hv).
  assert (forall fp, fp ∈ pl -> is_u32 (node_id fp) /\ is_u32 (frag_id fp)) as Hr.
  { intros fp Hin. destruct (ps_range _ _ _ _ Hps fp Hin) as (? & ? & ?). unfold is_u32. lia. }
  destruct (Hfresh n Hn) as [Hff Hfm Hfw].
  destruct (apply_view Heng _ _ _ _ _ _ _ _ gid N (kv0 n) Hv Hr Hfw) as (kv' & Hkv & Hmeta & Hfrag & Hother).
  exists kv'. unfold applied_at, ent, ci0. rewrite He. split_and!; try done.
  intros f Hf. unfold meta, lrc_meta. cbn [slm_stripe_id]. unfold meta, lrc_meta in Hf. cbn [slm_k GetK ci] in Hf. split.
  - rewrite Hother; [apply Hfm| |].
    + intros Heq. assert (KMeta gid (FragDbKey gid idx f) = KMeta gid key) as [= Hbad] by (by apply db_key_inj).
      by apply (Hcol f).
    + intros fp _ _ Heq. by assert (KMeta gid (FragDbKey gid idx f) = KFrag gid idx (frag_id fp)) by (by apply db_key_inj).
  - intros x Hx. rewrite i32_small in Hf by (unfold is_int; lia).
    destruct (decide (Exists (fun fp => node_id fp = n /\ frag_id fp = f) pl)) as [(fp & Hin & Hno & <-)%Exists_exists|Hno].
    + rewrite (Hfrag fp Hin Hno) in Hx. injection Hx as <-. rewrite lookup_take_lt by lia. apply lookup_nth_lt. lia.
    + rewrite Hother, Hff in Hx; [done| |].
      * intros Heq. by assert (KFrag gid idx f = KMeta gid key) by (by apply db_key_inj).
      * intros fp Hin Hnode Heq. apply Hno, Exists_exists. exists fp. split_and!; [done|done|].
        by assert (KFrag gid idx f = KFrag gid idx (frag_id fp)) as [= ->] by (by apply db_key_inj).
Qed.

(** A cluster some of whose nodes have applied the entry. *)
Context (kvs : Z -> KvNode DB) (rpc : Z -> Z -> bool) (reader : Z) (Hreader : 0 <= reader < N).
Context (Hkvs : forall n, 0 <= n < N -> kvs n = kv0 n \/ applied_at kv0 n = Some (kvs n)).

Definition cluster (n : Z) : gmap Z (KvNode DB) := if decide (0 <= n < N) then {[gid := kvs n]} else ∅.

Lemma cluster_clean n kv : cluster n !! gid = Some kv -> frags_clean gid meta (take (Z.to_nat k) F) kv.
Proof.
  unfold cluster. case_decide as Hn; [|by rewrite lookup_empty]. rewrite lookup_singleton_eq. intros [= <-].
  destruct (Hkvs n Hn) as [->|Ha].
  - destruct (Hfresh n Hn) as [Hff Hfm _]. intros f _. split; [apply Hfm|]. intros x. by rewrite Hff.
  - destruct (applied_at_ok n Hn) as (kv' & Ha' & _ & _ & Hcl). by assert (kvs n = kv') as -> by congruence.
Qed.

Lemma cluster_has fp : fp ∈ pl ->
  has_frag gid meta (kvs (node_id fp)) (frag_id fp) = true <-> applied_at kv0 (node_id fp) = Some (kvs (node_id fp)).
Proof.
  intros Hin. destruct (ps_range _ _ _ _ Hps fp Hin) as (Hn & _). unfold has_frag.
  destruct (applied_at_ok _ Hn) as (kv' & Ha & _ & Hfrag & _). destruct (Hfresh _ Hn) as [Hff _ _].
  change (slm_stripe_id meta) with idx. split.
  - destruct (Hkvs _ Hn) as [->|]; [|done]. by rewrite Hff.
  - intros Ha'. assert (kvs (node_id fp) = kv') as -> by congruence. by rewrite (Hfrag fp).
Qed.

Lemma cluster_served fp : fp ∈ pl -> served cluster rpc gid meta reader 0 (kvs reader) fp = true <->
  (node_id fp = reader \/ rpc reader (node_id fp) = true) /\ applied_at kv0 (node_id fp) = Some (kvs (node_id fp)).
Proof.
  intros Hin. rewrite <- cluster_has by done. destruct (ps_range _ _ _ _ Hps fp Hin) as (Hn & _).
  unfold served, cluster. rewrite decide_True, lookup_singleton_eq by done.
  destruct (Z.eqb_spec (node_id fp) reader) as [->|Hne].
  - split; [intros ?; split; [by left|done]|by intros [_ ?]].
  - change (negb ((0 <? 0) && (applied_index_ (kvs (node_id fp)) <? 0))) with true. cbn [andb].
    rewrite andb_true_iff. intuition congruence.
Qed.

Lemma cluster_get client sequence :
  applied_at kv0 reader = Some (kvs reader) ->
  exists ok : bool,
    DealWithGet cluster rpc 1 reader true (mkRequest kGet client sequence gid key []) =
      Some (if ok then (KvFormat.kOk, FormatFullEntryValueForStorage value) else (kKeyNotExist, [])) /\
    (ok = true <-> forall fp, fp ∈ pl -> kind fp = kData ->
       (node_id fp = reader \/ rpc reader (node_id fp) = true) /\
       applied_at kv0 (node_id fp) = Some (kvs (node_id fp))).
Proof.
  intros Ha. pose proof sizes as (? & ? & ? & ?). destruct Hput as [[_ Hgid] _ _ _ _ _ _].
  destruct (applied_at_ok reader Hreader) as (kv' & Ha' & Hmeta & _ & Hcl).
  assert (kvs reader = kv') as <- by congruence.
  destruct (ps_data _ _ _ _ Hps) as (datas & others & Hpl & _ & Hkd & Hko).
  exists (forallb (served cluster rpc gid meta reader 0 (kvs reader)) datas). split.
  - unfold DealWithGet. cbn [rq_group_id rq_key]. rewrite (proj2 (Z.eqb_neq _ _) Hgid).
    unfold GetNodeForGroup, cluster at 1. rewrite decide_True, lookup_singleton_eq by done. cbn [negb].
    rewrite (TryStripeGet_served cluster rpc gid meta _ value stored_stripe Hgid cluster_clean 0 reader);
      [|lia|done|done|done].
    cbn [mbind option_bind gvq_read_index]. change (slm_placement meta) with pl.
    rewrite Hpl, data_placement_prefix by done. by destruct (forallb _ _).
  - rewrite forallb_forall. split.
    + intros Hall fp Hin Hk. apply cluster_served; [done|]. apply Hall, list_elem_of_In.
      rewrite Hpl in Hin. apply elem_of_app in Hin as [Hin|Hin]; [done|]. rewrite Forall_forall in Hko. by destruct (Hko fp Hin).
    + intros Hall fp Hin%list_elem_of_In. assert (fp ∈ pl) by (rewrite Hpl; apply elem_of_app; by left).
      apply cluster_served; [done|]. apply Hall; [done|]. rewrite Forall_forall in Hkd. by apply Hkd.
Qed.
End stored.
End put_get.

(** ** The messages of a put *)
Section propose.
Context {St : Type} {isal : IsaL} {alloc : Allocator}.
Context (Halloc : forall n, new_array_ok n = true).
Abbreviation State := (RaftState St).

(** The message that carries the entry [e] proposed at [idx] to [peer]. *)
Definition carries_entry (s : State) (idx : Z) (e : LogEntry) (peer : Z) (m : Msg) : Prop :=
  exists prev_term prev_k, m = MsgAppendEntries peer
    (mkAppendEntriesArgs (CurrentTerm s) (group_id_ s) (id_ s) (idx - 1) prev_term prev_k (CommitIndex s) 1 [e]).

Section peers.
Context (idx : Z) (ent : LogEntry) (g : LrcComplementaryGrouper) (Hidx : 1 <= idx < 2 ^ 32).

Definition peer_ready (s : State) (peer : Z) : Prop := exists frag_ids e,
  GetFragmentsForNode peer g = Some frag_ids /\ lrc_new_peer_entry ent idx frag_ids = Some e /\
  arr_get (rpc_clients_ s) peer = Some true.

Definition peer_message (s : State) (peer : Z) (m : Msg) : Prop := exists frag_ids e,
  GetFragmentsForNode peer g = Some frag_ids /\ lrc_new_peer_entry ent idx frag_ids = Some e /\
  carries_entry s idx e peer m.

Lemma replicate_lrc_peer_run (s : State) peer :
  peer_ready s peer -> (1 < idx -> is_Some (GetSingleLogEntry (lm_ s) (idx - 1))) ->
  exists m, replicate_lrc_peer idx ent g peer s = Some (tt, set_sent_ (sent_ s ++ [m]) s) /\ peer_message s peer m.
Proof.
  intros (ids & e & Hg & He & Hrpc) Hprev. unfold replicate_lrc_peer.
  rewrite (bind_lift _ _ _ _ Hg), He, bind_get, (u32_small (idx - 1)) by (unfold is_u32; lia).
  assert (exists pt, (if 0 <? idx - 1 then e0 <- lift (GetSingleLogEntry (lm_ s) (idx - 1)) ;; ret (Term e0) else ret 0) s = Some (pt, s)) as [pt Hpt].
  { destruct (Z.ltb_spec 0 (idx - 1)); [|by eexists]. destruct Hprev as [x Hx]; [lia|].
    rewrite (bind_lift _ _ _ _ Hx). by eexists. }
  rewrite (bind_run _ _ _ _ _ Hpt). unfold rpc_send, has_rpc, emit. rewrite bind_assoc, bind_get, (bind_lift _ _ _ _ Hrpc).
  rewrite bind_assert by done. eexists. split; [reflexivity|]. exists ids, e. split_and!; [done|done|]. by exists pt, (GetLastEncodingK (idx - 1) s).
Qed.

Lemma replicate_peers_run (me : Z) (peers : list Z) : forall (s : State),
  (forall p, p ∈ peers -> p <> me -> peer_ready s p) -> (1 < idx -> is_Some (GetSingleLogEntry (lm_ s) (idx - 1))) ->
  exists ms, forM_ peers (fun peer => when (negb (peer =? me)) (replicate_lrc_peer idx ent g peer)) s =
    Some (tt, set_sent_ (sent_ s ++ ms) s) /\ Forall2 (peer_message s) (filter (fun p => p <> me) peers) ms.
Proof.
  induction peers as [|peer peers IH]; intros s Hready Hprev; cbn [forM_].
  - exists []. rewrite app_nil_r. split; [by destruct s|constructor].
  - destruct (decide (peer = me)) as [->|Hne].
    + rewrite Z.eqb_refl, filter_cons_False by (intros ?; done). cbn [negb when]. rewrite bind_ret. apply IH; [|done].
      intros p Hp. apply Hready. by right.
    + rewrite (proj2 (Z.eqb_neq _ _)), filter_cons_True by done. cbn [negb when].
      destruct (replicate_lrc_peer_run s peer) as (m & Hm & Hpm); [apply Hready; [left|done]|done|].
      rewrite (bind_run _ _ _ _ _ Hm).
      destruct (IH (set_sent_ (sent_ s ++ [m]) s)) as (ms & -> & Hms); [intros p Hp; apply Hready; by right|done|].
      exists (m :: ms). split; [cbn; by rewrite <- app_assoc|by constructor].
Qed.

Lemma ReplicateNewProposeEntry_run (s : State) :
  GetSingleLogEntry (lm_ s) idx = Some ent -> lrc_grouper_ s = Some g -> encoding_mode_ s = 2 -> IsLrcEncoded ent = true ->
  (forall p, p ∈ peers_ s -> p <> id_ s -> peer_ready s p) -> (1 < idx -> is_Some (GetSingleLogEntry (lm_ s) (idx - 1))) ->
  exists s' ms, ReplicateNewProposeEntry idx s = Some (tt, s') /\ lm_ s' = lm_ s /\ sent_ s' = sent_ s ++ ms /\
    Forall2 (peer_message s) (filter (fun p => p <> id_ s) (peers_ s)) ms.
Proof.
  intros Hg Hgr Hmode Hlrc Hready Hprev. unfold ReplicateNewProposeEntry.
  rewrite bind_get, Hg, Hgr, Hmode, Hlrc. change ((2 =? 2) && true) with true. cbn match.
  unfold UpdateLastEncodingK. rewrite bind_modify. set (s1 := set_last_encoding_ _ s).
  destruct (replicate_peers_run (id_ s) (peers_ s) s1) as (ms & Hms & Hall); [exact Hready|exact Hprev|].
  rewrite (bind_run _ _ _ _ _ Hms). unfold resetReplicateTimer. rewrite bind_get. eexists _, ms.
  split; [reflexivity|]. split; [done|]. split; [done|exact Hall].
Qed.
End peers.

Lemma rep_set_last (lm : LogManager) (l : list LogEntry) e f :
  represents lm (l ++ [e]) -> Index (f e) = Index e ->
  represents (set_entry (Z.of_nat (length l) + 1) f lm) (l ++ [f e]).
Proof.
  intros Hr Hf. pose proof (rep_get_nat lm _ Hr (length l)) as Hg.
  rewrite list_lookup_middle in Hg by done. unfold set_entry. rewrite Hg.
  replace (l ++ [f e]) with (<[length l := f e]> (l ++ [e])) by (by rewrite insert_app_r_alt, Nat.sub_diag by lia).
  apply rep_overwrite; [done|rewrite length_app; cbn; lia|].
  rewrite Hf. apply (rep_index lm _ Hr (length l)). by apply list_lookup_middle.
Qed.

(** [Propose] in LRC mode: the entry is logged and every peer is sent its own. *)
Lemma Propose_lrc_run (command : CommandData_t) (g : LrcComplementaryGrouper) (s : State) (l : list LogEntry)
    (lrc : ChunkInfo * list FragmentPlacement * list Slice) :
  let idx := Z.of_nat (length l) + 1 in
  let ent := logged_entry command (CurrentTerm s) idx lrc in
  role_ s = kLeader -> encoding_mode_ s = 2 -> lrc_grouper_ s = Some g -> represents (lm_ s) l ->
  Z.of_nat (length l) < 2 ^ 27 -> propose_lrc command g s = Some (Some lrc) -> IsLrcEncoded ent = true ->
  (forall p, p ∈ peers_ s -> p <> id_ s -> peer_ready idx ent g s p) ->
  exists s' ms, Propose command s = Some (mkProposeResult idx (CurrentTerm s) true, s') /\
    represents (lm_ s') (l ++ [ent]) /\ sent_ s' = sent_ s ++ ms /\
    Forall2 (peer_message idx ent g s) (filter (fun p => p <> id_ s) (peers_ s)) ms.
Proof.
  intros idx ent Hrole Hmode Hgr Hrep Hcap Hpr Hlrc Hready. unfold Propose. rewrite bind_get, Hmode, Hgr.
  change (2 =? 2) with true. cbn match. rewrite bind_assoc, (bind_lift _ _ _ _ Hpr), bind_ret.
  unfold Role. rewrite Hrole. change (negb (role_eqb kLeader kLeader)) with false. cbn match.
  destruct (rep_append_atomic (lm_ s) l (proposed_entry command (CurrentTerm s) (Some lrc)) Halloc Hrep Hcap) as (lm1 & -> & Hr1).
  fold idx in Hr1 |- *. rewrite bind_modify. change (negb (bool_decide (LogManager.kOk = LogManager.kOk))) with false. cbn match.
  destruct lrc as [[ci pl] F]. unfold update_lm at 1. rewrite bind_modify, bind_get.
  pose proof (rep_set_last lm1 l _ (SetChunkInfo (SetRaftIndex idx ci)) Hr1 eq_refl) as Hr2. fold idx in Hr2.
  change (SetChunkInfo (SetRaftIndex idx ci) (SetIndex idx (proposed_entry command (CurrentTerm s) (Some (ci, pl, F))))) with ent in Hr2.
  set (lm2 := set_entry idx (SetChunkInfo (SetRaftIndex idx ci)) lm1) in *.
  pose proof (rep_get_nat lm2 _ Hr2 (length l)) as Hg. rewrite list_lookup_middle in Hg by done. fold idx in Hg.
  set (s1 := set_lm_ _ _). change (lm_ s1) with lm2. rewrite Hg.
  assert (exists s2, (match persist_queue_ s1 with Some q => modify (set_persist_queue_ (Some (Push ent idx q))) | None => ret tt end) s1
    = Some (tt, s2) /\ exists q, s2 = set_persist_queue_ q s1) as (s2 & Hs2 & q & ->).
  { destruct (persist_queue_ s1) as [q|] eqn:Hq; eexists; (split; [reflexivity|]); [by eexists|].
    exists None. by rewrite <- Hq; destruct s1. }
  rewrite (bind_run _ _ _ _ _ Hs2), bind_modify. set (s2 := set_commit_start_time_ _ _).
  destruct (ReplicateNewProposeEntry_run idx ent g ltac:(lia) s2) as (s' & ms & Hrun & Hlm & Hsent & Hall); try done.
  { intros Hi. change (lm_ s2) with lm2. destruct l as [|x l'] using rev_ind; [cbn in idx; lia|].
    rewrite (rep_get lm2 _ Hr2). apply arr_get_is_Some. unfold idx. rewrite !length_app. cbn [length]. lia. }
  rewrite (bind_run _ _ _ _ _ Hrun). exists s', ms. split_and!; [done|by rewrite Hlm|done|exact Hall].
Qed.
(** What holds of the entry built for a peer holds of the one sent to it. *)
Lemma peer_messages_hold (idx : Z) (ent : LogEntry) (g : LrcComplementaryGrouper) (s : State) (P : Z -> LogEntry -> Prop) (ms : list Msg) :
  Forall2 (peer_message idx ent g s) (filter (fun q => q <> id_ s) (peers_ s)) ms ->
  (forall q, q ∈ peers_ s -> q <> id_ s -> exists frag_ids e,
     GetFragmentsForNode q g = Some frag_ids /\ lrc_new_peer_entry ent idx frag_ids = Some e /\ P q e) ->
  Forall2 (fun q m => exists e, carries_entry s idx e q m /\ P q e) (filter (fun q => q <> id_ s) (peers_ s)) ms.
Proof.
  intros Hall HP.
  assert (Forall (fun q => q <> id_ s /\ q ∈ peers_ s) (filter (fun q => q <> id_ s) (peers_ s))) as Hin
    by (apply Forall_forall; intros q Hq%list_elem_of_filter; tauto).
  eapply Forall2_Forall_impl; [exact Hall|exact Hin|].
  intros q m (ids & e & Hids & He & Hm) [Hne Hq]. destruct (HP q Hq Hne) as (ids' & e' & Hids' & He' & HPe).
  assert (ids' = ids) as -> by congruence.
  assert (e' = e) as -> by (apply (inj Some); etrans; [symmetry; exact He'|exact He]). by exists e.
Qed.
End propose.

(** What a client makes of the value of a successful answer. *)
Definition client_value (stored : Slice) : option Slice :=
  d ← DecodeString stored;
  match GetKeyFromPrefixLengthFormat (ds_frag d) with Ok (v, _) => Some v | _ => None end.

Lemma client_value_ok value : slice_size value < 2 ^ 31 -> client_value (FormatFullEntryValueForStorage value) = Some value.
Proof.
  intros Hv. unfold client_value, FormatFullEntryValueForStorage.
  rewrite DecodeString_header by (unfold is_int, is_u32; lia). cbn [mbind option_bind ds_frag].
  pose proof (reads_prefix_key value Hv []) as Hr. rewrite app_nil_r in Hr. by rewrite Hr.
Qed.

(** [C2] A value that is put in LRC mode is the value a get returns, end to end, as long
    as the nodes apply what the proposal itself gave them: the leader its own entry
    and every peer the entry in the message the proposal sends it ([node_entry]; an
    entry sent again later is another one, see [retransmission_misfiles]). The value
    fits, that is its fragments are smaller than 1 MiB ([put_ok]), and the stores have
    nothing of this key yet ([fresh]). Then every node that applies the entry stores
    the metadata and its own fragments, and a get at any node that has applied it
    answers exactly the value that was put, or that there is none. It answers the
    value if and only if every node that stores a data fragment has applied the entry
    and can be reached: the parities are not used. *)
Theorem lrc_put_get {St : Type} {isal : IsaL} {sh : Shuffle} {DB : Type} {engine : StorageEngine DB}
    (gf_mul : Z -> Z -> Z) (gr g : LrcComplementaryGrouper) (s : RaftState St) (gid idx term : Z) (key value : Slice)
    (kv0 : Z -> KvNode DB) (Hc : cluster_ok gf_mul gr g) (Heng : engine_ok DB)
    (Hput : put_ok (lrc_k (lrc_params_ gr)) gid idx key value) (Hleader : 0 <= id_ s < N_ gr)
    (Hfresh : forall n, 0 <= n < N_ gr -> fresh gid idx (kv0 n)) :
  exists lrc, propose_lrc (stripe_command gid key value kLrc) g s = Some (Some lrc) /\
    let ent := logged_entry (stripe_command gid key value kLrc) term idx lrc in
    let applied n := e ← node_entry g (id_ s) idx ent n; apply_at gid (N_ gr) n e (kv0 n) in
    (forall n, 0 <= n < N_ gr -> is_Some (applied n)) /\
    forall (kvs : Z -> KvNode DB) (rpc : Z -> Z -> bool) (reader client sequence : Z),
      0 <= reader < N_ gr -> (forall n, 0 <= n < N_ gr -> kvs n = kv0 n \/ applied n = Some (kvs n)) ->
      applied reader = Some (kvs reader) ->
      exists (ok : bool) (stored : Slice),
        DealWithGet (fun n => if decide (0 <= n < N_ gr) then {[gid := kvs n]} else ∅) rpc 1 reader true
          (mkRequest kGet client sequence gid key []) = Some (if ok then (KvFormat.kOk, stored) else (kKeyNotExist, [])) /\
        client_value stored = Some value /\
        (ok = true <-> forall fp, fp ∈ lrc.1.2 -> kind fp = kData ->
           (node_id fp = reader \/ rpc reader (node_id fp) = true) /\ applied (node_id fp) = Some (kvs (node_id fp))).
Proof.
  destruct (propose_lrc_ok gf_mul gr g s gid idx key value Hc Hput Hleader)
    as (grp & pl & F & fs & Hpr & Hps & Hgrp & HF & Hfs & Hfs0 & Hfs1 & pad & Hcat).
  eexists. split; [exact Hpr|]. cbv zeta. split.
  - intros n Hn. destruct (applied_at_ok gf_mul gr g s gid idx term key value Hc Hput grp pl F fs Hps Hgrp HF Hfs Hfs0 Hfs1
      Heng kv0 Hfresh n Hn) as (kv' & Hkv & _). by exists kv'.
  - intros kvs rpc reader client sequence Hreader Hkvs Ha.
    destruct (cluster_get gf_mul gr g s gid idx term key value Hc Hput Hleader grp pl F fs pad Hps Hgrp HF Hfs Hfs0 Hfs1 Hcat
      Heng kv0 Hfresh kvs rpc reader Hreader Hkvs client sequence Ha) as (ok & Hget & Hok).
    exists ok, (FormatFullEntryValueForStorage value). split_and!; [exact Hget| |exact Hok].
    apply client_value_ok. destruct Hput as [_ _ _ _ _ [Hsz _] _]. pose proof (slice_size_nonneg key). lia.
Qed.

(** [C3] A put reaches the whole group. Run at the leader in LRC mode, the put appends
    the encoded entry at the next index and answers that index, and sends each peer
    exactly one message: an AppendEntries request behind the preceding index whose
    only entry is the one the peer applies once it received it (the entry of
    [lrc_put_get]), within the limits of the wire format. *)
Theorem StripePut_replicates {St : Type} {isal : IsaL} {alloc : Allocator}
    (gf_mul : Z -> Z -> Z) (gr g : LrcComplementaryGrouper) (s : RaftState St) (l : list LogEntry) (gid : Z) (key value : Slice)
    (Halloc : forall n, new_array_ok n = true) (Hc : cluster_ok gf_mul gr g)
    (Hput : put_ok (lrc_k (lrc_params_ gr)) gid (Z.of_nat (length l) + 1) key value)
    (Hrole : role_ s = kLeader) (Hmode : encoding_mode_ s = 2) (Hgr : lrc_grouper_ s = Some g)
    (Hlog : represents (lm_ s) l) (Hcap : Z.of_nat (length l) < 2 ^ 27) (Hid : 0 <= id_ s < N_ gr)
    (Hpeers : forall p, p ∈ peers_ s -> 0 <= p < N_ gr /\ arr_get (rpc_clients_ s) p = Some true) :
  exists lrc s' ms, propose_lrc (stripe_command gid key value kLrc) g s = Some (Some lrc) /\
    let idx := Z.of_nat (length l) + 1 in
    let ent := logged_entry (stripe_command gid key value kLrc) (CurrentTerm s) idx lrc in
    StripePut_propose gid key value kLrc s = Some (Some idx, s') /\
    represents (lm_ s') (l ++ [ent]) /\ sent_ s' = sent_ s ++ ms /\
    Forall2 (fun peer m => exists e, carries_entry s idx e peer m /\ within_limits e /\
               node_entry g (id_ s) idx ent peer = Some (received e))
      (filter (fun p => p <> id_ s) (peers_ s)) ms.
Proof.
  set (idx := Z.of_nat (length l) + 1) in *.
  destruct (propose_lrc_ok gf_mul gr g s gid idx key value Hc Hput Hid)
    as (grp & pl & F & fs & Hpr & Hps & Hgrp & HF & Hfs & Hfs0 & Hfs1 & _).
  pose proof (sizes gf_mul gr g Hc) as (? & ? & ? & ?). pose proof (pu_index _ _ _ _ _ Hput) as Hi.
  pose proof (pu_key _ _ _ _ _ Hput) as Hk. pose proof (pu_stri _ _ _ _ _ Hput) as Hst.
  destruct (pu_size _ _ _ _ _ Hput) as [Hsz _].
  eexists. set (ent := logged_entry (stripe_command gid key value kLrc) (CurrentTerm s) idx
    (mkChunkInfo (lrc_k (lrc_params_ gr)) 0 (lrc_l (lrc_params_ gr)) (lrc_r (lrc_params_ gr)) grp (slice_size key) (slice_size value), pl, F)).
  pose proof (leader_view (lrc_params_ gr) g (N_ gr) pl Hps ltac:(lia) F fs Hfs ltac:(lia) HF gid idx (CurrentTerm s) grp key value
    Hi ltac:(lia) ltac:(unfold is_u32; lia) ltac:(lia) ltac:(unfold is_u32; lia) Hk Hst Hsz (id_ s)) as Hlead. fold ent in Hlead.
  pose proof (peer_view (lrc_params_ gr) g (N_ gr) pl Hps ltac:(lia) F fs Hfs ltac:(lia) HF gid idx (CurrentTerm s) grp key value
    Hi ltac:(lia) ltac:(unfold is_u32; lia) ltac:(lia) ltac:(unfold is_u32; lia) Hk Hst Hsz) as Hview. fold ent in Hview.
  destruct (Propose_lrc_run Halloc (stripe_command gid key value kLrc) g s l _ Hrole Hmode Hgr Hlog Hcap Hpr)
    as (s' & ms & Hrun & Hrep & Hsent & Hall).
  - apply (nv_lrc _ _ _ _ _ _ _ _ Hlead).
  - intros p Hp _. destruct (Hpeers p Hp) as [Hpn Hrpc]. destruct (Hview p Hpn) as (ids & e & Hids & He & _). by exists ids, e.
  - exists s', ms. split; [exact Hpr|]. cbv zeta. split_and!; [|exact Hrep|exact Hsent|].
    + unfold StripePut_propose, Role. rewrite bind_get, Hrole. change (negb (role_eqb kLeader kLeader)) with false. cbn match.
      by rewrite (bind_run _ _ _ _ _ Hrun).
    + apply (peer_messages_hold idx ent g); [exact Hall|]. intros q Hq Hne. destruct (Hpeers q Hq) as [Hqn _].
      destruct (Hview q Hqn) as (ids & e & Hids & He & Hv). exists ids, e. split; [exact Hids|]. split; [exact He|].
      split; [destruct (nv_limits _ _ _ _ _ _ _ _ Hv); by split|].
      unfold node_entry. rewrite (proj2 (Z.eqb_neq _ _) Hne), Hids. cbn [mbind option_bind].
      change (lrc_new_peer_entry ent idx ids ≫= (fun e => Some (received e)) = Some (received e)). by rewrite He.
Qed.

(** Three nodes with LRC(2, 1, 3); the leader is node 0. *)
Section witness.
#[local] Existing Instance Gf256.isal.
#[local] Instance no_shuffle : Shuffle := fun _ l => l.

Definition grouper3 : LrcComplementaryGrouper :=
  mkGrouper 3 (mkLrcParams 2 1 3) [mkLocalGroup 0 [0; 1; 2] false] [] ∅.
Definition grouper3_mapped : LrcComplementaryGrouper :=
  Eval vm_compute in default grouper3 (BuildNodeToFragmentsMapping 1 grouper3).
Definition pl3 : list FragmentPlacement := Eval vm_compute in default [] (GetNodePlacementsVector grouper3_mapped).
Definition empty_kv (n : Z) : KvNode (gmap Slice Slice) := mkKvNode ∅ 0.

Lemma gf256_spec_2_5 : IsaL_spec Gf256.mul 2 5.
Proof. apply Gf256.spec_of_check. vm_compute. reflexivity. Qed.

Lemma cluster3_ok : cluster_ok Gf256.mul grouper3 grouper3_mapped.
Proof.
  split; [|by exists 0%nat|done|done|done|exact gf256_spec_2_5|exact gf256_spec_2_3].
  split; try (vm_compute; reflexivity || discriminate). repeat constructor; vm_compute; discriminate.
Qed.

Lemma put3_ok : put_ok 2 3 1 [107] [1; 2; 3].
Proof. split; unfold is_u32, slice_size; cbn; done || (try lia). split; [done|]. exact bytes_123. Qed.

Lemma empty_fresh n : fresh 3 1 (empty_kv n).
Proof. split; intros; [apply lookup_empty..|done]. Qed.

Lemma lrc_put_get_witness : exists (kvs : Z -> KvNode (gmap Slice Slice)) (stored : Slice),
  DealWithGet (fun n => if decide (0 <= n < 3) then {[3 := kvs n]} else ∅) (fun _ _ => true) 1 2 true
    (mkRequest kGet 0 0 3 [107] []) = Some (KvFormat.kOk, stored) /\
  client_value stored = Some [1; 2; 3].
Proof.
  destruct (lrc_put_get Gf256.mul grouper3 grouper3_mapped (demo_node (St := unit) 0 None) 3 1 1 [107] [1; 2; 3] empty_kv)
    as (lrc & Hpr & Happ & Hget).
  - exact cluster3_ok.
  - exact gmap_engine_ok.
  - exact put3_ok.
  - cbn. lia.
  - intros n _. apply empty_fresh.
  - set (ent := logged_entry _ _ _ _) in *.
    set (applied n := e ← node_entry grouper3_mapped 0 1 ent n; apply_at 3 3 n e (empty_kv n)).
    change (forall n, 0 <= n < 3 -> is_Some (applied n)) in Happ. set (kvs n := default (empty_kv n) (applied n)).
    assert (forall n, 0 <= n < 3 -> applied n = Some (kvs n)) as Hkvs.
    { intros n Hn. unfold kvs. destruct (Happ n Hn) as [kv ->]. done. }
    destruct (Hget kvs (fun _ _ => true) 2 0 0) as (ok & stored & Hd & Hv & Hok).
    + cbn. lia.
    + intros n Hn. right. by apply Hkvs.
    + by apply Hkvs.
    + exists kvs, stored. split; [|exact Hv]. destruct ok; [exact Hd|].
      assert (false = true) as Hf; [|discriminate Hf]. apply Hok. intros fp Hin _. split; [by right|]. apply Hkvs.
      assert (lrc.1.2 = pl3) as Hpl by (vm_compute in Hpr; injection Hpr as <-; reflexivity). rewrite Hpl in Hin.
      assert (Forall (fun fp => 0 <= node_id fp < 3) pl3) as Hr by (apply (bool_decide_unpack _); vm_compute; exact I).
      rewrite Forall_forall in Hr. by apply Hr.
Defined.

(** Node 0 of the group of three, as a leader in LRC mode with an empty log. *)
Definition leader3 : RaftState unit :=
  set_lrc_grouper_ (Some grouper3_mapped) (set_encoding_mode_ 2 (set_role_ kLeader (demo_node 0 None))).

Lemma StripePut_replicates_witness : exists s' ms,
  StripePut_propose (alloc := fun _ => true) 3 [107] [1; 2; 3] kLrc leader3 = Some (Some 1, s') /\
  sent_ s' = ms /\ length ms = 2%nat.
Proof.
  destruct (StripePut_replicates (alloc := fun _ => true) Gf256.mul grouper3 grouper3_mapped leader3 [] 3 [107] [1; 2; 3])
    as (lrc & s' & ms & _ & Hrun & _ & Hsent & Hall).
  - reflexivity.
  - exact cluster3_ok.
  - exact put3_ok.
  - reflexivity.
  - reflexivity.
  - reflexivity.
  - split; [apply LogSpec.wf_ctor; lia|reflexivity].
  - reflexivity.
  - vm_compute. split; [discriminate|reflexivity].
  - intros p Hp. assert (Forall (fun p => 0 <= p < 3 /\ arr_get (rpc_clients_ leader3) p = Some true) (peers_ leader3)) as Hf
      by (apply (bool_decide_unpack _); vm_compute; exact I).
    rewrite Forall_forall in Hf. by apply Hf.
  - exists s', ms. split; [exact Hrun|]. split; [exact Hsent|]. apply Forall2_length in Hall. rewrite <- Hall. reflexivity.
Defined.
End witness.

(** ** Retransmission *)

(** The entry a peer gets when the first message was lost: the one of
    [sendAppendEntriesLrc], whose fragments are numbered by position. *)
Definition retried_entry (leader idx : Z) (ent : LogEntry) (n : Z) : option LogEntry :=
  if n =? leader then Some ent else received <$> lrc_peer_entry ent idx n.


Section retransmission.
#[local] Existing Instance Gf256.isal.
#[local] Existing Instance no_shuffle.

(** Seven nodes with LRC(4, 2, 8); the leader is node 0. *)
Definition grouper7_mapped : LrcComplementaryGrouper :=
  Eval vm_compute in default grouper7 (BuildNodeToFragmentsMapping 1 grouper7).
Definition demo_value : Slice := [1; 2; 3; 4; 5; 6; 7; 8].
Definition demo_put : CommandData_t := stripe_command 3 [107] demo_value kLrc.

(** The group once every node [n] has applied the entry [f n]. *)
Definition demo_group (f : Z -> option LogEntry) (n : Z) : gmap Z (KvNode (gmap Slice Slice)) :=
  match e ← f n; apply_at 3 7 n e (empty_kv n) with
  | Some kv => if decide (0 <= n < 7) then {[3 := kv]} else ∅
  | None => ∅
  end.

Definition demo_get (f : Z -> option LogEntry) : option (ErrorType * option Slice) :=
  r ← DealWithGet (demo_group f) (fun _ _ => true) 1 0 true (mkRequest kGet 0 0 3 [107] []);
  Some (r.1, client_value r.2).


(** A lost message corrupts the value. When the entry reaches the peers with the
    proposal's own messages, a get answers the value that was put. When the message
    to the node of data fragment 1 is lost and the entry reaches it by a later
    [sendAppendEntriesLrc], the get answers other bytes, without an error. When all
    messages are lost, it answers that there is no value. *)
Example retransmission_corrupts : exists lrc,
  propose_lrc demo_put grouper7_mapped (demo_node (St := unit) 0 None) = Some (Some lrc) /\
  let ent := logged_entry demo_put 1 1 lrc in
  let sent n := node_entry grouper7_mapped 0 1 ent n in
  demo_get sent = Some (KvFormat.kOk, Some demo_value) /\
  (exists peer other, demo_get (fun n => if n =? peer then retried_entry 0 1 ent n else sent n) =
     Some (KvFormat.kOk, Some other) /\ other <> demo_value) /\
  demo_get (retried_entry 0 1 ent) = Some (kKeyNotExist, None).
Proof.
  eexists. split; [vm_compute; reflexivity|]. cbv zeta. split_and!; [vm_compute; reflexivity| |vm_compute; reflexivity].
  exists 1. eexists. split; [vm_compute; reflexivity|discriminate].
Qed.
End retransmission.
