(* ===== verification/Transport.v ===== *)
(** Messages of the Raft groups on the wire: the RPC client of a node
    (src/raft/rcf_rpc.h) and the unified RPC service that routes a request to the
    group it names (src/raft/raft_unified_rpc_server.cc). The batched transport is in
    BatchTransport.v.

    [None] is a failed assertion, a null dereference or the reading of memory that
    was never written; an RPC failure is an absent result. The connections, their
    pools and the statistics that are only printed are left out. *)

From S2P Require Import Prelude Types Bytes LogManager Encoder Lrc Grouper Storage Serializer PersistQueue Monitors RaftBase RaftEncode RaftCore.

(** The members a default-constructed reply leaves unset. *)
Class Unset := {
  unset_vote : RequestVoteReply;
  unset_append : AppendEntriesReply;
  unset_fragments : RequestFragmentsReply
}.

(** ** The unified service *)
Section service.
Context {St : Type} {store : Storage St} {isal : IsaL} {alloc : Allocator} {indet0 : Indeterminate}
  {img : Image} {un : Unset}.
Abbreviation State := (RaftState St).

(** [raft_states_]: every registered group has a state of its own. *)
Definition RaftUnifiedRPCService := gmap Z State.
Implicit Types (svc : RaftUnifiedRPCService) (s : State).

Definition RegisterRaftState (group_id : Z) s svc : RaftUnifiedRPCService := <[group_id := s]> svc.
Definition UnregisterRaftState (group_id : Z) svc : RaftUnifiedRPCService := delete group_id svc.
Definition GetRaftState (group_id : Z) svc : option State := svc !! group_id.

(** The group whose state handles a request: the one named, else the first. *)
Definition target_raft (group_id : Z) svc : option Z :=
  match GetRaftState group_id svc with
  | Some _ => Some group_id
  | None => head (sorted_keys svc)
  end.

(** [target_raft->Process(&args, &reply)], or [none] when no group is registered. *)
Definition process {A} (group_id : Z) (handler : M State A) (none : A) svc : option (A * RaftUnifiedRPCService) :=
  match target_raft group_id svc with
  | None => Some (none, svc)
  | Some g => s ← svc !! g; r ← handler s; Some (fst r, <[g := snd r]> svc)
  end.

Definition no_vote : RequestVoteReply := mkRequestVoteReply 0 false (rvr_reply_id unset_vote) 0.
Definition no_append : AppendEntriesReply :=
  mkAppendEntriesReply 0 false (aer_expect_index unset_append) (aer_reply_id unset_append) 0
    (aer_chunk_info_cnt unset_append) [].
Definition no_fragments : RequestFragmentsReply :=
  mkRequestFragmentsReply (rfr_reply_id unset_fragments) (rfr_term unset_fragments)
    (rfr_start_index unset_fragments) (rfr_success unset_fragments) (rfr_entry_cnt unset_fragments) [].

Definition service_RequestVote (arg_buf : Slice) svc : option (Slice * RaftUnifiedRPCService) :=
  match Deserialize_RequestVoteArgs arg_buf with
  | Ok (args, _) =>
      r ← process (rva_group_id args) (ProcessRequestVote args) no_vote svc;
      Some (Serialize_RequestVoteReply (fst r), snd r)
  | _ => None
  end.

Definition service_AppendEntries (arg_buf : Slice) svc : option (Slice * RaftUnifiedRPCService) :=
  match Deserialize_AppendEntriesArgs arg_buf with
  | Ok (args, _) =>
      r ← process (aea_group_id args) (ProcessAppendEntries args) no_append svc;
      Some (Serialize_AppendEntriesReply (fst r), snd r)
  | _ => None
  end.

Definition service_RequestFragments (arg_buf : Slice) svc : option (Slice * RaftUnifiedRPCService) :=
  match Deserialize_RequestFragmentsArgs arg_buf with
  | Ok (args, _) =>
      r ← process (rfa_group_id args) (ProcessRequestFragments args) no_fragments svc;
      bs ← Serialize_RequestFragmentsReply (fst r);
      Some (bs, snd r)
  | _ => None
  end.

(** The callback of a group notification answers whether it returned normally. *)
Definition service_GroupNotification {S} (callback : option (GroupNotificationArgs -> M S bool)) (arg_buf : Slice) (st : S)
    : option (Slice * S) :=
  match Deserialize_GroupNotificationArgs arg_buf with
  | Ok (args, _) =>
      r ← match callback with Some f => f args st | None => Some (true, st) end;
      Some (Serialize_GroupNotificationReply (mkGroupNotificationReply (b2z (fst r)) (u32 (-1))), snd r)
  | _ => None
  end.

(** ** The server of a node
    [us_bound] says whether the RCF server has its port; [starts] whether RCF starts it
    or throws. The number of threads follows the groups registered at that moment. *)
Record RaftUnifiedRpcServer := mkRaftUnifiedRpcServer { us_running_ : bool; us_bound : bool; us_threads : Z }.
Definition RaftUnifiedRpcServer_ctor : RaftUnifiedRpcServer := mkRaftUnifiedRpcServer false false 0.
Definition rpc_threads (groups : Z) : Z := Z.max 16 (i32 (u64 (groups * 2))).

(** Answers whether the exception of RCF was passed on. *)
Definition UnifiedRpcServer_Start (starts : bool) svc (srv : RaftUnifiedRpcServer) : bool * RaftUnifiedRpcServer :=
  if us_running_ srv then (false, srv) else
  let threads := rpc_threads (Z.of_nat (size svc)) in
  if starts then (false, mkRaftUnifiedRpcServer true true threads) else (true, mkRaftUnifiedRpcServer false false threads).
Definition UnifiedRpcServer_Stop (srv : RaftUnifiedRpcServer) : RaftUnifiedRpcServer :=
  if us_running_ srv then mkRaftUnifiedRpcServer false false (us_threads srv) else srv.

(** ** The client of one peer *)
Record RCFRpcClient := mkRCFRpcClient { stopped_ : bool; pool_valid_ : bool; pool_idx_ : Z }.

Definition kPoolSize : Z := 4.

Definition stop (c : RCFRpcClient) : RCFRpcClient := mkRCFRpcClient true false (pool_idx_ c).
Definition recover (c : RCFRpcClient) : RCFRpcClient := mkRCFRpcClient false false (pool_idx_ c).

(** The connection to use next; the pool is filled on first use. *)
Definition getPooledConn (c : RCFRpcClient) : Z * RCFRpcClient :=
  (pool_idx_ c mod kPoolSize, mkRCFRpcClient (stopped_ c) true (u64 (pool_idx_ c + 1))).

Definition request_bytes (m : Msg) : option Slice :=
  match m with
  | MsgRequestVote _ args => Some (Serialize_RequestVoteArgs args)
  | MsgAppendEntries _ args => Serialize_AppendEntriesArgs args
  | MsgRequestFragments _ args => Some (Serialize_RequestFragmentsArgs args)
  end.

(** [sendMessage] and [sendAsyncMessage]: the connection and the bytes sent, if any. *)
Definition sendMessage (m : Msg) (c : RCFRpcClient) : option (option (Z * Slice) * RCFRpcClient) :=
  if stopped_ c then Some (None, c) else
  let '(conn, c) := getPooledConn c in
  bs ← request_bytes m;
  Some (Some (conn, bs), c).

(** The completion of a call; [None] for the result is an RPC failure. *)
Definition OnRequestVoteComplete (ret : option Slice) s : option State :=
  match ret with
  | None => Some s
  | Some buf => match Deserialize_RequestVoteReply buf with
                | Ok (reply, _) => snd <$> HandleRequestVoteReply reply s
                | _ => None
                end
  end.

Definition OnAppendEntriesComplete (ret : option Slice) s : option State :=
  match ret with
  | None => Some s
  | Some buf => match Deserialize_AppendEntriesReply buf with
                | Ok (reply, _) => snd <$> HandleAppendEntriesReply reply s
                | _ => None
                end
  end.

Definition OnRequestFragmentsComplete (ret : option Slice) s : option State :=
  match ret with
  | None => Some s
  | Some buf => match Deserialize_RequestFragmentsReply buf with
                | Ok (reply, _) => snd <$> HandleRequestFragmentsReply reply s
                | _ => None
                end
  end.

Definition service (m : Msg) : Slice -> RaftUnifiedRPCService -> option (Slice * RaftUnifiedRPCService) :=
  match m with
  | MsgRequestVote _ _ => service_RequestVote
  | MsgAppendEntries _ _ => service_AppendEntries
  | MsgRequestFragments _ _ => service_RequestFragments
  end.

Definition OnComplete (m : Msg) : option Slice -> State -> option State :=
  match m with
  | MsgRequestVote _ _ => OnRequestVoteComplete
  | MsgAppendEntries _ _ => OnAppendEntriesComplete
  | MsgRequestFragments _ _ => OnRequestFragmentsComplete
  end.

(** A call that succeeds: the request is sent, the peer serves it, the caller takes
    the reply. The buffers are longer than what is written into them; [pad] and
    [pad'] are the bytes that follow. *)
Definition rpc_call (pad pad' : Slice) (m : Msg) (c : RCFRpcClient) (caller : State) svc
    : option (State * RaftUnifiedRPCService) :=
  r ← sendMessage m c;
  match fst r with
  | None => Some (caller, svc)
  | Some (_, req) =>
      a ← service m (req ++ pad) svc;
      caller' ← OnComplete m (Some (fst a ++ pad')) caller;
      Some (caller', snd a)
  end.
End service.

(** ** A call delivers the message *)
Section delivery.
Context {St : Type} {store : Storage St} {isal : IsaL} {alloc : Allocator} {indet0 : Indeterminate}
  {img : Image} {un : Unset}.
Abbreviation State := (RaftState St).
Implicit Types (svc : RaftUnifiedRPCService (St := St)) (s caller : State).

Definition msg_group (m : Msg) : Z :=
  match m with
  | MsgRequestVote _ a => rva_group_id a
  | MsgAppendEntries _ a => aea_group_id a
  | MsgRequestFragments _ a => rfa_group_id a
  end.

(** The event the message is for its receiver, and the one its reply is for the
    sender. Entries arrive as [arrived] and [received] state; a reply with entries that
    carry buffers has a defined reading only where a foreign pointer is harmless. *)
Definition request_event (m : Msg) : Event :=
  match m with
  | MsgRequestVote _ a => EvRequestVote a
  | MsgAppendEntries _ a => EvAppendEntries (with_entries (arrived <$> aea_entries a) a)
  | MsgRequestFragments _ a => EvRequestFragments a
  end.

Definition reply_event (out : Output) : option Event :=
  match out with
  | OutRequestVote r => Some (EvRequestVoteReply r)
  | OutAppendEntries r => Some (EvAppendEntriesReply r)
  | OutRequestFragments r =>
      if existsb has_buffers (rfr_fragments r) && negb foreign_free then None else
      Some (EvRequestFragmentsReply
        (mkRequestFragmentsReply (rfr_reply_id r) (rfr_term r) (rfr_start_index r) (rfr_success r)
           (rfr_entry_cnt r) (received <$> rfr_fragments r)))
  | OutNone | OutPropose _ => None
  end.

(** The members of a message and of a reply have their C++ types and its counts are
    right; the entries of a fragment reply keep the limits of the wire format. *)
Definition msg_ok (m : Msg) : Prop :=
  match m with
  | MsgRequestVote _ a => vote_args_ok a
  | MsgAppendEntries _ a => append_args_ok a
  | MsgRequestFragments _ a => fragments_args_ok a
  end.
Definition reply_ok (out : Output) : Prop :=
  match out with
  | OutRequestVote r => vote_reply_ok r
  | OutAppendEntries r => append_reply_ok r
  | OutRequestFragments r => fragments_reply_ok r
  | OutNone | OutPropose _ => True
  end.

(** The group that serves a message: the one it names or, if the node does not run that
    one, the one with the smallest id. *)
Definition serves (g group_id : Z) svc : Prop :=
  g = group_id \/ svc !! group_id = None /\ forall g', is_Some (svc !! g') -> g <= g'.

Lemma target_raft_serves g group_id svc s : svc !! g = Some s -> serves g group_id svc -> target_raft group_id svc = Some g.
Proof.
  intros Hs [->|[Hn Hle]]; unfold target_raft, GetRaftState; [by rewrite Hs|]. rewrite Hn.
  assert (g ∈ sorted_keys svc) as Hin by (apply elem_of_sorted_keys; eauto). pose proof (sorted_keys_sorted svc) as Hsort.
  assert (forall x, x ∈ sorted_keys svc -> g <= x) as Hall by (intros x Hx%elem_of_sorted_keys; by apply Hle).
  destruct (sorted_keys svc) as [|x l]; [by apply elem_of_nil in Hin|]. cbn. f_equal.
  apply StronglySorted_cons in Hsort as [Hlt _]. rewrite Forall_forall in Hlt. apply elem_of_cons in Hin as [->|Hin]; [done|].
  specialize (Hlt g Hin). specialize (Hall x ltac:(by left)). lia.
Qed.

Lemma process_target {A} g group_id (h : M State A) none svc s : svc !! g = Some s -> serves g group_id svc ->
  process group_id h none svc = (r ← h s; Some (fst r, <[g := snd r]> svc)).
Proof. intros Hs Hg. unfold process. rewrite (target_raft_serves _ _ _ _ Hs Hg). by cbn; rewrite Hs. Qed.

Lemma process_registered {A} g (h : M State A) none svc s :
  svc !! g = Some s -> process g h none svc = (r ← h s; Some (fst r, <[g := snd r]> svc)).
Proof. intros Hs. apply process_target; [done|by left]. Qed.

Lemma handle_run {A} (h : M State A) (out : A -> Output) s :
  (r <- h ;; ret (out r)) s = (r ← h s; Some (out (fst r), snd r)).
Proof. unfold bind, ret. by destruct (h s) as [[a s']|]. Qed.

Lemma handle_done {A} (h : M State A) s : snd <$> (h ;;; ret OutNone) s = snd <$> h s.
Proof. unfold bind, ret. by destruct (h s) as [[a s']|]. Qed.

(** The reply the peer's handler computes is the one the caller handles. *)
Lemma vote_reply_delivered pad' r s : vote_reply_ok r ->
  OnRequestVoteComplete (Some (Serialize_RequestVoteReply r ++ pad')) s = snd <$> handle (EvRequestVoteReply r) s.
Proof. intros Hr. cbn. rewrite (reads_vote_reply r Hr pad'). symmetry. apply handle_done. Qed.

Lemma append_reply_delivered (Hpad : is_u32 padding32) pad' r s : append_reply_ok r ->
  OnAppendEntriesComplete (Some (Serialize_AppendEntriesReply r ++ pad')) s = snd <$> handle (EvAppendEntriesReply r) s.
Proof. intros Hr. cbn. rewrite (reads_append_reply Hpad r Hr pad'). symmetry. apply handle_done. Qed.

Lemma fragments_reply_delivered (HI : image_ok) pad' r caller : fragments_reply_ok r ->
  exists bs, Serialize_RequestFragmentsReply r = Some bs /\
    OnRequestFragmentsComplete (Some (bs ++ pad')) caller =
      (ev ← reply_event (OutRequestFragments r); snd <$> handle ev caller).
Proof.
  intros Hr. destruct (read_fragments_reply HI r pad' Hr) as (bs & Hs & Hd). exists bs. split; [done|].
  cbn [OnRequestFragmentsComplete reply_event]. rewrite Hd. destruct (_ && _); [done|]. symmetry. apply handle_done.
Qed.

Lemma sendMessage_running m c : stopped_ c = false ->
  sendMessage m c = (bs ← request_bytes m; Some (Some (pool_idx_ c mod kPoolSize, bs), snd (getPooledConn c))).
Proof. intros Hc. unfold sendMessage. by rewrite Hc. Qed.

(** [C29] Delivery through the transport is delivery of the message itself. A successful
    call of a running client to a node that runs some group has the effect of two
    events: one group of the node handles the message, with every entry as the wire
    format leaves it, and the sender handles the reply that group gives. The group is
    the one the message names, or the node's first group if it does not run that one.
    The other groups of the node are untouched, and the call has no result exactly when
    one of the two handlers has none or the reply holds entries with buffers whose
    foreign pointers the reader cannot release. *)
Theorem rpc_call_delivers (pad pad' : Slice) (m : Msg) (c : RCFRpcClient) (caller s : State) (g : Z) svc
    (HI : image_ok) (Hpad : is_u32 padding32) (Hc : stopped_ c = false) (Hm : msg_ok m)
    (Hs : svc !! g = Some s) (Hg : serves g (msg_group m) svc)
    (Hr : forall out s', handle (request_event m) s = Some (out, s') -> reply_ok out) :
  rpc_call pad pad' m c caller svc =
    (r ← handle (request_event m) s;
     ev ← reply_event (fst r);
     caller' ← handle ev caller;
     Some (snd caller', <[g := snd r]> svc)).
Proof.
  unfold rpc_call. rewrite (sendMessage_running _ _ Hc).
  destruct m as [to a|to a|to a]; cbn [request_bytes service request_event handle msg_group OnComplete] in *.
  - cbn [mbind option_bind fst snd]. unfold service_RequestVote. rewrite (reads_vote_args a Hm pad).
    rewrite (process_target _ _ _ _ _ _ Hs Hg), handle_run. rewrite handle_run in Hr.
    destruct (ProcessRequestVote a s) as [[r s']|]; cbn [mbind option_bind fst snd reply_event] in *; [|done].
    rewrite vote_reply_delivered by (by apply (Hr _ _ eq_refl)). by destruct (handle _ caller) as [[]|].
  - rewrite (Serialize_AppendEntriesArgs_run a Hm). cbn [mbind option_bind fst snd].
    unfold service_AppendEntries. rewrite (read_append_arrived HI Hpad a pad Hm).
    change (aea_group_id (with_entries _ a)) with (aea_group_id a).
    rewrite (process_target _ _ _ _ _ _ Hs Hg), handle_run. rewrite handle_run in Hr.
    destruct (ProcessAppendEntries _ s) as [[r s']|]; cbn [mbind option_bind fst snd reply_event] in *; [|done].
    rewrite append_reply_delivered by first [done|by apply (Hr _ _ eq_refl)]. by destruct (handle _ caller) as [[]|].
  - cbn [mbind option_bind fst snd]. unfold service_RequestFragments. rewrite (reads_fragments_args a Hm pad).
    rewrite (process_target _ _ _ _ _ _ Hs Hg), handle_run. rewrite handle_run in Hr.
    destruct (ProcessRequestFragments a s) as [[r s']|]; cbn [mbind option_bind fst snd] in *; [|done].
    destruct (fragments_reply_delivered HI pad' r caller (Hr _ _ eq_refl)) as (bs & -> & Hd).
    cbn [mbind option_bind fst snd]. rewrite Hd. destruct (reply_event _) as [ev|]; [|done]. cbn [mbind option_bind].
    by destruct (handle ev caller) as [[]|].
Qed.
End delivery.

(** ** Witnesses and a run *)
Section runs.
#[local] Instance demo_alloc_transport : Allocator := fun _ => true.
#[local] Instance demo_unset : Unset :=
  {| unset_vote := mkRequestVoteReply 0 false 0 0; unset_append := mkAppendEntriesReply 0 false 0 0 0 0 [];
     unset_fragments := mkRequestFragmentsReply 0 0 0 false 0 [] |}.
(** A machine on which the sender's pointers in a reply do no harm. *)
#[local] Instance harmless_image : Image :=
  {| address _ _ := 4096; padding _ _ := [0; 0; 0; 0; 0; 0; 0]; padding32 := 7; foreign_free := true |}.
(** The content of a variable that was never set. *)
#[local] Instance garbage : Indeterminate := 77.

Abbreviation Node := (RaftState MemStorage).

(** Node [id] of the group [g] in term 2, with one entry, of term 1, that is not
    committed. *)
Definition entry_with (bytes : Slice) : LogEntry :=
  SetCommandData bytes (SetIndex 1 (SetTerm 1 LogEntry_default)).
Definition group_node (g id : Z) (role : RaftRole) (bytes : Slice) : Node :=
  let s := demo_node id None in
  set_role_ role (set_current_term_ 2 (set_lm_ (snd (AppendLogEntry (entry_with bytes) (LogManager_ctor 4)))
    (mkRaftState (id_ s) g (role_ s) (current_term_ s) (vote_for_ s) (commit_index_ s) (last_applied_ s) (lm_ s)
      (storage_ s) (live_monitor_ s) (encoded_stripe_ s) (last_encoding_ s)
      (mkPreLeaderStripeStore 0 0 [] (replicate 10 false) 0 0) (peers_ s) (raft_peer_ s) (rpc_clients_ s)
      (election_timer_ s) (heartbeat_timer_ s) (preleader_timer_ s) (replicate_timer_ s)
      (electionTimeLimitMin_ s) (electionTimeLimitMax_ s) (election_time_out_ s) (heartbeatTimeInterval s) (rng_ s)
      (commit_start_time_ s) (commit_elapse_time_ s) (recovery_ctx_ s) (recover_records_ s)
      (alive_servers_of_last_point_ s) (preleader_timepoint_ s) (preleader_recover_ent_cnt_ s) (vote_me_cnt_ s)
      (rsm_ s) (election_round_ s) (N_physical_nodes_ s) (dynamic_k_ s) (encoding_mode_ s)
      (batch_system_bridge_ s) (bridge_group_id_ s) (bridge_node_id_ s) (lrc_grouper_ s) (persist_queue_ s)
      (now_ s) (sent_ s)))).

(** The groups 0 and 2 at node 0. *)
Definition host : RaftUnifiedRPCService :=
  {[0 := group_node 0 0 kLeader [7; 7]; 2 := group_node 2 0 kFollower [1; 2; 3]]}.

(** A new leader can take over the log of another group. The fragment request of
    group 2 names no group ([args.group_id] is never set), so a peer that also runs
    group 0 lets group 0 answer; group 2 accepts the reply, overwrites its own entry
    with that of group 0 and becomes leader. The peer's state of group 2, which has
    the right entry, is never asked. *)
Theorem recovery_takes_other_group :
  exists (collecting : Node) (m : Msg) (leader : Node) (host' : RaftUnifiedRPCService),
  collectFragments (group_node 2 2 kPreLeader [1; 2; 3]) = Some (tt, collecting) /\
  head (sent_ collecting) = Some m /\ host !! msg_group m = None /\
  rpc_call [] [] m (mkRCFRpcClient false false 0) collecting host = Some (leader, host') /\
  group_id_ leader = 2 /\ role_ leader = kLeader /\
  (CommandData <$> GetSingleLogEntry (lm_ leader) 1) = Some [7; 7] /\
  (CommandData <$> (s ← host !! 2; GetSingleLogEntry (lm_ s) 1)) = Some [1; 2; 3] /\
  host' !! 2 = host !! 2.
Proof.
  do 4 eexists. split; [vm_compute; reflexivity|]. split; [vm_compute; reflexivity|].
  split; [vm_compute; reflexivity|]. split; [vm_compute; reflexivity|].
  split_and!; vm_compute; reflexivity.
Qed.

Lemma harmless_image_ok : image_ok.
Proof. split; intros; cbn [address harmless_image]; [lia|done]. Qed.

(** A machine on which they do harm. *)
Definition harmful_image : Image :=
  {| address _ _ := 4096; padding _ _ := [0; 0; 0; 0; 0; 0; 0]; padding32 := 7; foreign_free := false |}.

(** A vote request of group 2, an entry sent to group 2, and the fragment request of a
    group that the node does not run, which group 0 answers. *)
Definition demo_vote : Msg := MsgRequestVote 0 (mkRequestVoteArgs 3 2 1 1 2 0).
Definition demo_entries : Msg :=
  MsgAppendEntries 0 (mkAppendEntriesArgs 2 2 2 1 1 0 0 1 [SetIndex 2 (SetTerm 2 (entry_with [5; 6]))]).
Definition demo_fragments : Msg := MsgRequestFragments 0 (mkRequestFragmentsArgs 7 2 2 1 1).

Lemma demo_entry_ok : entry_ok (SetIndex 2 (SetTerm 2 (entry_with [5; 6]))).
Proof. split; try split; cbn; unfold is_u32, is_int, fits, slice_size; cbn; try lia; repeat constructor; cbn; lia. Qed.

Lemma demo_served : serves 2 2 host /\ serves 0 7 host.
Proof.
  split; [left; reflexivity|right]. split; [reflexivity|]. unfold host. intros g' Hg.
  apply (lookup_insert_is_Some (M := gmap Z)) in Hg as [<-|[_ Hg]]; [lia|].
  apply (lookup_singleton_is_Some (M := gmap Z)) in Hg. lia.
Qed.

Lemma demo_fragments_ok : fragments_reply_ok (mkRequestFragmentsReply 0 2 1 true 1 [entry_with [7; 7]]).
Proof.
  split; cbn; unfold is_u32, is_int; try lia. apply Forall_singleton. split; [|split; cbn; [lia|constructor|lia]].
  split; try split; cbn; unfold is_u32, is_int, fits, slice_size; cbn; try lia; repeat constructor; cbn; lia.
Qed.

Lemma rpc_call_delivers_witness : exists voter caller follower leader answering caller',
  rpc_call [9] [] demo_vote (mkRCFRpcClient false false 0) (group_node 2 2 kCandidate [1; 2; 3]) host =
    Some (caller, <[2 := voter]> host) /\ vote_for_ voter = 2 /\ current_term_ caller = 3 /\
  rpc_call [] [9] demo_entries (mkRCFRpcClient false false 0) (group_node 2 2 kLeader [1; 2; 3]) host =
    Some (leader, <[2 := follower]> host) /\
  (CommandData <$> GetSingleLogEntry (lm_ follower) 2) = Some [5; 6] /\
  rpc_call [] [] demo_fragments (mkRCFRpcClient false false 0) (group_node 7 2 kPreLeader [1; 2; 3]) host =
    Some (caller', <[0 := answering]> host) /\
  rpc_call (img := harmful_image) [] [] demo_fragments (mkRCFRpcClient false false 0) (group_node 7 2 kPreLeader [1; 2; 3]) host = None.
Proof.
  do 6 eexists. split.
  { rewrite (rpc_call_delivers [9] [] demo_vote _ _ (group_node 2 0 kFollower [1; 2; 3]) 2 host).
    - vm_compute. reflexivity.
    - exact harmless_image_ok.
    - cbn. unfold is_u32. lia.
    - reflexivity.
    - split; cbn; unfold is_u32, is_int; lia.
    - reflexivity.
    - apply demo_served.
    - intros out s' Hh. vm_compute in Hh. injection Hh as <- _. split; cbn; unfold is_u32; lia. }
  split; [vm_compute; reflexivity|]. split; [vm_compute; reflexivity|]. split.
  { rewrite (rpc_call_delivers [] [9] demo_entries _ _ (group_node 2 0 kFollower [1; 2; 3]) 2 host).
    - vm_compute. reflexivity.
    - exact harmless_image_ok.
    - cbn. unfold is_u32. lia.
    - reflexivity.
    - split; cbn; unfold is_u32; try lia. apply Forall_cons. split; [exact demo_entry_ok|apply Forall_nil; exact I].
    - reflexivity.
    - apply demo_served.
    - intros out s' Hh. vm_compute in Hh. injection Hh as <- _. split; cbn; unfold is_u32, is_int; try lia.
      repeat constructor; cbn; unfold is_u32, is_int; cbn; lia. }
  split; [vm_compute; reflexivity|]. split.
  { rewrite (rpc_call_delivers [] [] demo_fragments _ _ (group_node 0 0 kLeader [7; 7]) 0 host).
    - vm_compute. reflexivity.
    - exact harmless_image_ok.
    - cbn. unfold is_u32. lia.
    - reflexivity.
    - split; cbn; unfold is_u32; lia.
    - reflexivity.
    - apply demo_served.
    - intros out s' Hh. vm_compute in Hh. injection Hh as <- _. apply demo_fragments_ok. }
  rewrite (rpc_call_delivers (img := harmful_image) [] [] demo_fragments _ _ (group_node 0 0 kLeader [7; 7]) 0 host).
  - vm_compute. reflexivity.
  - split; intros; cbn [address padding harmful_image]; [lia|done].
  - cbn. unfold is_u32. lia.
  - reflexivity.
  - split; cbn; unfold is_u32; lia.
  - reflexivity.
  - apply demo_served.
  - intros out s' Hh. vm_compute in Hh. injection Hh as <- _. apply demo_fragments_ok.
Defined.
End runs.
