(* ===== verification/BatchTransport.v ===== *)
(** The batched transport of a node (src/raft/batch_transport.cc) and its sender
    (src/raft/batch_rpc_sender.cc).

    Every operation holds the lock of the destination's queue, so it is one atomic
    step. [batches_] records the calls of [SendBatch] and [local_] the local
    deliveries, in order; [now] is the clock in microseconds. The order in which a
    flush visits the destinations is the hash table's; here it is ascending. *)

From S2P Require Import Prelude Types Bytes LogManager Encoder Lrc Grouper Storage Serializer PersistQueue Monitors RaftBase RaftEncode RaftCore Transport.

Inductive RaftRpcType := kRequestVote | kAppendEntries | kRequestFragments.
#[export] Instance RaftRpcType_eq_dec : EqDecision RaftRpcType.
Proof. solve_decision. Defined.

Record RaftRpcMessage := mkRaftRpcMessage {
  rm_type : RaftRpcType; rm_group_id : Z; rm_from : Z; rm_to : Z; serialized_data : Slice
}.

(** ** Messages.
    [fresh n] is the content of a new buffer of [n] bytes. *)
Section messages.
Context {img : Image} (fresh : Z -> Slice).

(** The buffer of [size] bytes after [bs] was written at its start. *)
Definition fill (size : Z) (bs : Slice) : Slice := bs ++ drop (length bs) (fresh size).

Definition CreateRequestVote (group_id from to : Z) (args : RequestVoteArgs) : RaftRpcMessage :=
  mkRaftRpcMessage kRequestVote group_id from to (fill 24 (Serialize_RequestVoteArgs args)).
Definition CreateAppendEntries (group_id from to : Z) (args : AppendEntriesArgs) : option RaftRpcMessage :=
  bs ← Serialize_AppendEntriesArgs args;
  Some (mkRaftRpcMessage kAppendEntries group_id from to (fill (size_AppendEntriesArgs args) bs)).
Definition CreateRequestFragments (group_id from to : Z) (args : RequestFragmentsArgs) : RaftRpcMessage :=
  mkRaftRpcMessage kRequestFragments group_id from to (fill 20 (Serialize_RequestFragmentsArgs args)).

(** A message of another type leaves the arguments as they were. *)
Definition read_args {A} (ty : RaftRpcType) (r : Reader A) (msg : RaftRpcMessage) (args : A) : option A :=
  if bool_decide (rm_type msg = ty)
  then match r (serialized_data msg) with Ok (a, _) => Some a | _ => None end
  else Some args.
Definition ToRequestVoteArgs := read_args kRequestVote Deserialize_RequestVoteArgs.
Definition ToAppendEntriesArgs := read_args kAppendEntries Deserialize_AppendEntriesArgs.
Definition ToRequestFragmentsArgs := read_args kRequestFragments Deserialize_RequestFragmentsArgs.
End messages.

(** ** The transport *)
Record Config := mkConfig {
  batch_size : Z; flush_interval : Z; max_buffer_size : Z; enable_local_delivery : bool
}.
Record SendQueue := mkSendQueue { buffer : list RaftRpcMessage; last_flush_time : Z }.
Record TransportStats := mkTransportStats {
  total_sent_messages : Z; total_sent_batches : Z; total_local_deliveries : Z; total_queue_flushes : Z
}.
Record BatchTransport := mkBatchTransport {
  config_ : Config;
  send_queues_ : gmap Z SendQueue;
  running_ : bool;
  stats_ : TransportStats;
  rpc_sender_ : bool;
  local_callback_ : bool;
  self_id_ : Z;
  batches_ : list (Z * list RaftRpcMessage);
  local_ : list RaftRpcMessage
}.

Section transport.
Implicit Types (t : BatchTransport) (msg : RaftRpcMessage).

Definition BatchTransport_ctor (config : Config) (has_sender has_callback : bool) (self_id : Z) : BatchTransport :=
  mkBatchTransport config ∅ false (mkTransportStats 0 0 0 0) has_sender has_callback self_id [] [].

Definition set_queue_of (to : Z) (q : SendQueue) t : BatchTransport :=
  mkBatchTransport (config_ t) (<[to := q]> (send_queues_ t)) (running_ t) (stats_ t) (rpc_sender_ t)
    (local_callback_ t) (self_id_ t) (batches_ t) (local_ t).
Definition set_stats (st : TransportStats) t : BatchTransport :=
  mkBatchTransport (config_ t) (send_queues_ t) (running_ t) st (rpc_sender_ t)
    (local_callback_ t) (self_id_ t) (batches_ t) (local_ t).
Definition set_running (b : bool) t : BatchTransport :=
  mkBatchTransport (config_ t) (send_queues_ t) b (stats_ t) (rpc_sender_ t)
    (local_callback_ t) (self_id_ t) (batches_ t) (local_ t).

(** [rpc_sender_->SendBatch(to, messages)], when there is a sender. *)
Definition send_batch (to : Z) (messages : list RaftRpcMessage) t : BatchTransport :=
  mkBatchTransport (config_ t) (send_queues_ t) (running_ t) (stats_ t) (rpc_sender_ t) (local_callback_ t) (self_id_ t)
    (if rpc_sender_ t then batches_ t ++ [(to, messages)] else batches_ t) (local_ t).

Definition count_sent (messages flushes : Z) t : BatchTransport :=
  let st := stats_ t in
  set_stats (mkTransportStats (u64 (total_sent_messages st + messages)) (u64 (total_sent_batches st + 1))
    (total_local_deliveries st) (u64 (total_queue_flushes st + flushes))) t.

(** The buffer is swapped out and sent; [FlushQueueInternal] skips an empty one. *)
Definition swap_and_send (to now : Z) (q : SendQueue) t : BatchTransport :=
  count_sent (Z.of_nat (length (buffer q))) 1 (send_batch to (buffer q) (set_queue_of to (mkSendQueue [] now) t)).

Definition FlushQueueInternal (to now : Z) (q : SendQueue) t : BatchTransport :=
  match buffer q with [] => t | _ => swap_and_send to now q t end.

Definition FlushNode (now to : Z) t : BatchTransport :=
  match send_queues_ t !! to with None => t | Some q => FlushQueueInternal to now q t end.

Definition Flush (now : Z) t : BatchTransport :=
  foldl (fun t to => FlushNode now to t) t (sorted_keys (send_queues_ t)).

(** One round of [FlushThreadMain]. *)
Definition flush_if_due (now to : Z) t : BatchTransport :=
  match send_queues_ t !! to with
  | None => t
  | Some q => if flush_interval (config_ t) <=? ElapseMilliseconds now (last_flush_time q)
              then FlushQueueInternal to now q t else t
  end.
Definition FlushThread_round (now : Z) t : BatchTransport :=
  if running_ t then foldl (fun t to => flush_if_due now to t) t (sorted_keys (send_queues_ t)) else t.

Definition Start t : BatchTransport := if running_ t then t else set_running true t.
Definition Stop (now : Z) t : BatchTransport := if running_ t then Flush now (set_running false t) else t.

(** The part of [Enqueue] that buffers: a full buffer is sent first, one that
    reaches the batch size afterwards. *)
Definition enqueue_buffered (to now : Z) msg (q : SendQueue) t : BatchTransport :=
  let t := if max_buffer_size (config_ t) <=? Z.of_nat (length (buffer q)) then swap_and_send to now q t else t in
  let q := default q (send_queues_ t !! to) in
  let q := mkSendQueue (buffer q ++ [msg]) (last_flush_time q) in
  let t := set_queue_of to q t in
  if batch_size (config_ t) <=? Z.of_nat (length (buffer q)) then swap_and_send to now q t else t.

Definition Enqueue (to : Z) msg (now : Z) t : BatchTransport :=
  if enable_local_delivery (config_ t) && local_callback_ t && (to =? self_id_ t) then
    let st := stats_ t in
    mkBatchTransport (config_ t) (send_queues_ t) (running_ t)
      (mkTransportStats (total_sent_messages st) (total_sent_batches st) (u64 (total_local_deliveries st + 1))
         (total_queue_flushes st))
      (rpc_sender_ t) (local_callback_ t) (self_id_ t) (batches_ t) (local_ t ++ [msg])
  else
  let t := match send_queues_ t !! to with Some _ => t | None => set_queue_of to (mkSendQueue [] now) t end in
  let q := default (mkSendQueue [] now) (send_queues_ t !! to) in
  if bool_decide (rm_type msg = kAppendEntries) then count_sent 1 0 (send_batch to [msg] t)
  else enqueue_buffered to now msg q t.
End transport.

(** ** Runs *)
Inductive TransportOp :=
| OpEnqueue (to : Z) (msg : RaftRpcMessage)
| OpFlush
| OpFlushNode (to : Z)
| OpFlushThread
| OpStart
| OpStop.

Definition transport_step (now : Z) (op : TransportOp) (t : BatchTransport) : BatchTransport :=
  match op with
  | OpEnqueue to msg => Enqueue to msg now t
  | OpFlush => Flush now t
  | OpFlushNode to => FlushNode now to t
  | OpFlushThread => FlushThread_round now t
  | OpStart => Start t
  | OpStop => Stop now t
  end.

Definition transport_run (ops : list (Z * TransportOp)) (t : BatchTransport) : BatchTransport :=
  foldl (fun t op => transport_step op.1 op.2 t) t ops.

(** What was handed to the transport for [to], what it handed to the sender and what
    it still holds. *)
Definition enqueued (to : Z) (ops : list (Z * TransportOp)) : list RaftRpcMessage :=
  omap (fun op => match op.2 with OpEnqueue d m => if d =? to then Some m else None | _ => None end) ops.
Definition sent_to (to : Z) (t : BatchTransport) : list RaftRpcMessage :=
  concat (snd <$> filter (fun b => b.1 = to) (batches_ t)).
Definition buffered (to : Z) (t : BatchTransport) : list RaftRpcMessage :=
  match send_queues_ t !! to with Some q => buffer q | None => [] end.

Definition append_msgs (l : list RaftRpcMessage) : list RaftRpcMessage := filter (fun m => rm_type m = kAppendEntries) l.
Definition other_msgs (l : list RaftRpcMessage) : list RaftRpcMessage := filter (fun m => rm_type m <> kAppendEntries) l.

(** ** The invariant for one destination, [sofar] being what was enqueued to it *)
Section invariant.
Context (config : Config) (to : Z).
Implicit Types (t : BatchTransport) (l sofar : list RaftRpcMessage).

Record fifo sofar t : Prop := {
  ff_sender : rpc_sender_ t = true;
  ff_batch : config_ t = config /\ 1 <= batch_size (config_ t);
  ff_remote : enable_local_delivery (config_ t) && local_callback_ t && (to =? self_id_ t) = false;
  ff_buffer : append_msgs (buffered to t) = [];
  ff_appends : append_msgs (sent_to to t) = append_msgs sofar;
  ff_others : other_msgs (sent_to to t ++ buffered to t) = other_msgs sofar;
  ff_small : Z.of_nat (length (buffered to t)) < batch_size (config_ t)
}.

(** A step that leaves the destination alone. *)
Definition apart t t' : Prop :=
  rpc_sender_ t' = rpc_sender_ t /\ config_ t' = config_ t /\ local_callback_ t' = local_callback_ t /\
  self_id_ t' = self_id_ t /\ buffered to t' = buffered to t /\ sent_to to t' = sent_to to t.

Lemma fifo_apart sofar t t' : apart t t' -> fifo sofar t -> fifo sofar t'.
Proof.
  intros (H1 & H2 & H3 & H4 & H5 & H6) [? ? ? ? ? ? ?]. split; rewrite ?H1, ?H2, ?H3, ?H4, ?H5, ?H6; done.
Qed.

Lemma sent_to_send d l t : rpc_sender_ t = true ->
  sent_to to (send_batch d l t) = sent_to to t ++ (if d =? to then l else []).
Proof.
  intros Hs. unfold sent_to, send_batch. cbn [batches_]. rewrite Hs, filter_app, fmap_app, concat_app, filter_cons. cbn [fst].
  destruct (Z.eqb_spec d to); case_decide; try done; cbn; by rewrite ?app_nil_r.
Qed.

Lemma buffered_set d q t : buffered to (set_queue_of d q t) = if d =? to then buffer q else buffered to t.
Proof.
  unfold buffered, set_queue_of. cbn. destruct (Z.eqb_spec d to) as [->|Hd].
  - by rewrite lookup_insert_eq.
  - by rewrite lookup_insert_ne.
Qed.

(** Moving the whole buffer of a queue to the sender. *)
Lemma swap_and_send_fifo d now q sofar t :
  send_queues_ t !! d = Some q -> (fifo sofar t) -> fifo sofar (swap_and_send d now q t).
Proof.
  intros Hq Hf. assert (rpc_sender_ t = true) as Hs by apply Hf.
  assert (sent_to to (swap_and_send d now q t) = sent_to to t ++ (if d =? to then buffer q else [])) as Hsent
    by (unfold swap_and_send; apply (sent_to_send d (buffer q) (set_queue_of d (mkSendQueue [] now) t) Hs)).
  assert (buffered to (swap_and_send d now q t) = if d =? to then [] else buffered to t) as Hbuf
    by apply buffered_set.
  destruct (Z.eqb_spec d to) as [->|Hd].
  - assert (buffered to t = buffer q) as Hb by (unfold buffered; by rewrite Hq).
    destruct Hf as [? ? ? Hnil Happ Hoth Hsm]. rewrite Hb in *.
    split; try done; rewrite ?Hsent, ?Hbuf; try done.
    + unfold append_msgs in *. rewrite filter_app, Hnil, app_nil_r. done.
    + by rewrite app_nil_r.
    + cbn. lia.
  - apply (fifo_apart _ t); [|done]. rewrite app_nil_r in Hsent. done.
Qed.

Lemma FlushNode_fifo now d sofar t : fifo sofar t -> fifo sofar (FlushNode now d t).
Proof.
  intros Hf. unfold FlushNode. destruct (send_queues_ t !! d) as [q|] eqn:Hq; [|done].
  unfold FlushQueueInternal. destruct (buffer q) eqn:Hb; [done|]. by apply swap_and_send_fifo.
Qed.

Lemma flush_if_due_fifo now d sofar t : fifo sofar t -> fifo sofar (flush_if_due now d t).
Proof.
  intros Hf. unfold flush_if_due. destruct (send_queues_ t !! d) as [q|] eqn:Hq; [|done].
  destruct (_ <=? _); [|done]. unfold FlushQueueInternal. destruct (buffer q); [done|]. by apply swap_and_send_fifo.
Qed.

Lemma foldl_fifo (f : BatchTransport -> Z -> BatchTransport) sofar ds : forall t,
  (forall d t, fifo sofar t -> fifo sofar (f t d)) -> fifo sofar t -> fifo sofar (foldl f t ds).
Proof. induction ds as [|d ds IH]; intros t Hf Ht; [done|]. cbn. apply IH; [done|]. by apply Hf. Qed.

Lemma other_single m : rm_type m <> kAppendEntries -> other_msgs [m] = [m] /\ append_msgs [m] = [].
Proof. intros Hm. unfold other_msgs, append_msgs. rewrite !filter_cons. by repeat case_decide. Qed.

Lemma append_single m : rm_type m = kAppendEntries -> other_msgs [m] = [] /\ append_msgs [m] = [m].
Proof. intros Hm. unfold other_msgs, append_msgs. rewrite !filter_cons. by repeat case_decide. Qed.

(** A message put behind the buffer of [to]. *)
Lemma enqueue_fifo now m q sofar t :
  rm_type m <> kAppendEntries -> send_queues_ t !! to = Some q -> fifo sofar t ->
  fifo (sofar ++ [m]) (enqueue_buffered to now m q t).
Proof.
  intros Hm Hq Hf. unfold enqueue_buffered.
  set (t1 := if _ <=? _ then swap_and_send to now q t else t).
  assert (fifo sofar t1 /\ exists q1, send_queues_ t1 !! to = Some q1) as [Hf1 [q1 Hq1]].
  { unfold t1. destruct (_ <=? _); [|eauto]. split; [by apply swap_and_send_fifo|].
    eexists. cbn. apply lookup_insert_eq. }
  rewrite Hq1. cbn [default from_option id]. set (q2 := mkSendQueue _ _). set (t2 := set_queue_of to q2 t1).
  assert (buffered to t1 = buffer q1) as Hb1 by (unfold buffered; by rewrite Hq1).
  assert (buffered to t2 = buffer q1 ++ [m]) as Hb2 by (unfold t2; rewrite buffered_set, Z.eqb_refl; done).
  destruct (other_single m Hm) as [Ho Ha]. destruct Hf1 as [H1 H2 H3 H4 H5 H6 H7]. rewrite Hb1 in *.
  assert (append_msgs (buffered to t2) = []) as Hnil
    by (rewrite Hb2; unfold append_msgs in *; by rewrite filter_app, H4, Ha).
  assert (append_msgs (sent_to to t2) = append_msgs (sofar ++ [m])) as Happ
    by (unfold append_msgs in *; by rewrite filter_app, Ha, app_nil_r).
  assert (other_msgs (sent_to to t2 ++ buffered to t2) = other_msgs (sofar ++ [m])) as Hoth.
  { rewrite Hb2, app_assoc. unfold other_msgs in *. rewrite filter_app, (filter_app _ sofar), Ho.
    f_equal. exact H6. }
  destruct (Z.leb_spec (batch_size (config_ t2)) (Z.of_nat (length (buffer q2)))) as [Hle|Hlt].
  - assert (sent_to to (swap_and_send to now q2 t2) = sent_to to t2 ++ buffer q2) as Hsent
      by (pose proof (sent_to_send to (buffer q2) (set_queue_of to (mkSendQueue [] now) t2) H1) as X;
          rewrite Z.eqb_refl in X; exact X).
    assert (buffered to (swap_and_send to now q2 t2) = []) as Hbuf
      by (unfold swap_and_send; change (buffered to (set_queue_of to (mkSendQueue [] now) t2) = []);
          by rewrite buffered_set, Z.eqb_refl).
    assert (buffered to t2 = buffer q2) as Hq2 by (rewrite Hb2; done).
    rewrite Hq2 in *. split; try done; rewrite ?Hsent, ?Hbuf; try done.
    + unfold append_msgs in *. by rewrite filter_app, Hnil, app_nil_r.
    + by rewrite app_nil_r.
    + cbn. lia.
  - split; try done. rewrite Hb2. exact Hlt.
Qed.
(** *** Other destinations *)
Lemma apart_trans t1 t2 t3 : apart t1 t2 -> apart t2 t3 -> apart t1 t3.
Proof. intros (?&?&?&?&?&?) (?&?&?&?&?&?). split_and!; congruence. Qed.

Lemma apart_set d q t : d <> to -> apart t (set_queue_of d q t).
Proof. intros Hd. split_and!; try done. by rewrite buffered_set, (proj2 (Z.eqb_neq _ _)). Qed.

Lemma apart_send d l t : d <> to -> apart t (send_batch d l t).
Proof.
  intros Hd. split_and!; try done. destruct (rpc_sender_ t) eqn:Hs.
  - by rewrite (sent_to_send _ _ _ Hs), (proj2 (Z.eqb_neq _ _)), app_nil_r.
  - unfold sent_to, send_batch. cbn [batches_]. by rewrite Hs.
Qed.

Lemma apart_swap d now q t : d <> to -> apart t (swap_and_send d now q t).
Proof.
  intros Hd. eapply apart_trans; [by apply (apart_set d (mkSendQueue [] now))|].
  exact (apart_send d (buffer q) (set_queue_of d (mkSendQueue [] now) t) Hd).
Qed.

Lemma apart_enqueue d m now t : d <> to -> apart t (Enqueue d m now t).
Proof.
  intros Hd. unfold Enqueue. destruct (_ && _); [by split_and!|]. cbv zeta.
  set (t1 := match send_queues_ t !! d with Some _ => t | None => _ end).
  assert (apart t t1) as H1.
  { unfold t1. destruct (send_queues_ t !! d); [by split_and!|by apply apart_set]. }
  eapply apart_trans; [exact H1|]. case_bool_decide.
  - exact (apart_send d [m] t1 Hd).
  - unfold enqueue_buffered. destruct (max_buffer_size _ <=? _), (batch_size _ <=? _);
      repeat first [by split_and!|eapply apart_trans; [|by apply apart_swap]|eapply apart_trans; [|by apply apart_set]].
Qed.

(** *** This destination *)
Lemma Enqueue_fifo now m sofar t : fifo sofar t -> fifo (sofar ++ [m]) (Enqueue to m now t).
Proof.
  intros Hf. unfold Enqueue. rewrite (ff_remote _ _ Hf). cbv zeta.
  set (t1 := match send_queues_ t !! to with Some _ => t | None => _ end).
  assert (fifo sofar t1 /\ exists q, send_queues_ t1 !! to = Some q) as [Hf1 [q Hq]].
  { unfold t1. destruct (send_queues_ t !! to) eqn:E; [eauto|].
    split; [|eexists; apply lookup_insert_eq].
    assert (buffered to (set_queue_of to (mkSendQueue [] now) t) = buffered to t) as Hb
      by (rewrite buffered_set, Z.eqb_refl; unfold buffered; by rewrite E).
    destruct Hf. by split; rewrite ?Hb. }
  rewrite Hq. cbn [default from_option id]. case_bool_decide as Hm.
  - destruct (append_single m Hm) as [Ho Ha]. destruct Hf1 as [H1 H2 H3 H4 H5 H6 H7].
    assert (sent_to to (count_sent 1 0 (send_batch to [m] t1)) = sent_to to t1 ++ [m]) as Hs
      by (pose proof (sent_to_send to [m] t1 H1) as X; rewrite Z.eqb_refl in X; exact X).
    split; try done; rewrite ?Hs.
    + unfold append_msgs in *. by rewrite !filter_app, H5, Ha.
    + unfold other_msgs in *. rewrite !filter_app, Ho in *. by rewrite !app_nil_r.
  - by apply enqueue_fifo.
Qed.

Lemma step_fifo now op sofar t :
  fifo sofar t ->
  fifo (sofar ++ enqueued to [(now, op)]) (transport_step now op t).
Proof.
  intros Hf. destruct op as [d m| |d| | |]; cbn; rewrite ?app_nil_r.
  - destruct (Z.eqb_spec d to) as [->|Hd]; cbn; [by apply Enqueue_fifo|].
    rewrite app_nil_r. by eapply fifo_apart; [apply apart_enqueue|].
  - apply foldl_fifo; [|done]. intros. by apply FlushNode_fifo.
  - by apply FlushNode_fifo.
  - unfold FlushThread_round. destruct (running_ t); [|done].
    apply foldl_fifo; [|done]. intros. by apply flush_if_due_fifo.
  - unfold Start. destruct (running_ t); [done|]. by eapply fifo_apart; [|exact Hf]; split_and!.
  - unfold Stop. destruct (running_ t); [|done].
    apply foldl_fifo; [intros; by apply FlushNode_fifo|]. by eapply fifo_apart; [|exact Hf]; split_and!.
Qed.

Lemma run_fifo ops : forall sofar t, fifo sofar t -> fifo (sofar ++ enqueued to ops) (transport_run ops t).
Proof.
  induction ops as [|[now op] ops IH]; intros sofar t Hf; [by rewrite app_nil_r|].
  change ((now, op) :: ops) with ([(now, op)] ++ ops). unfold enqueued at 1. rewrite omap_app, app_assoc.
  apply (IH _ (transport_step now op t)). by apply step_fifo.
Qed.

(** *** Flushing empties the queue *)
Lemma FlushNode_empties now d t : d = to \/ buffered to t = [] -> buffered to (FlushNode now d t) = [].
Proof.
  intros H. unfold FlushNode, FlushQueueInternal. destruct (send_queues_ t !! d) as [q|] eqn:Hq.
  - destruct (buffer q) as [|m l] eqn:Hb.
    + destruct H as [->|H]; [unfold buffered; by rewrite Hq|done].
    + unfold swap_and_send. change (buffered to (set_queue_of d (mkSendQueue [] now) t) = []). rewrite buffered_set.
      destruct (Z.eqb_spec d to); [done|]. by destruct H.
  - destruct H as [->|H]; [unfold buffered; by rewrite Hq|done].
Qed.

Lemma Flush_empties now t : buffered to (Flush now t) = [].
Proof.
  unfold Flush. assert (to ∈ sorted_keys (send_queues_ t) \/ buffered to t = []) as H.
  { unfold buffered. destruct (send_queues_ t !! to) eqn:E; [|by right]. left. apply elem_of_sorted_keys. eauto. }
  revert H. generalize (sorted_keys (send_queues_ t)) as ds. intros ds. revert t.
  induction ds as [|d ds IH]; intros t H; cbn.
  - destruct H as [H|H]; [by apply elem_of_nil in H|done].
  - apply IH. destruct H as [H|H].
    + apply elem_of_cons in H as [<-|H]; [right; apply FlushNode_empties; by left|by left].
    + right. apply FlushNode_empties. by right.
Qed.
End invariant.

(** [C30] The transport is a queue per destination, with a fast lane. In any run, what
    the sender was given for a remote node consists of every AppendEntries message,
    in order, and of every other message except those still buffered, in order:
    nothing is lost, repeated or reordered within the two kinds. Less than one batch
    is buffered, and stopping the transport sends the rest. *)
Theorem BatchTransport_fifo (config : Config) (has_callback : bool) (self_id to now : Z)
    (ops : list (Z * TransportOp))
    (Hbatch : 1 <= batch_size config)
    (Hremote : enable_local_delivery config && has_callback && (to =? self_id) = false) :
  let t := transport_run ops (BatchTransport_ctor config true has_callback self_id) in
  append_msgs (sent_to to t) = append_msgs (enqueued to ops) /\
  other_msgs (sent_to to t) ++ buffered to t = other_msgs (enqueued to ops) /\
  Z.of_nat (length (buffered to t)) < batch_size config /\
  (running_ t = true -> other_msgs (sent_to to (Stop now t)) = other_msgs (enqueued to ops)).
Proof.
  intros t. assert (fifo config to [] (BatchTransport_ctor config true has_callback self_id)) as H0.
  { assert (buffered to (BatchTransport_ctor config true has_callback self_id) = []) as Hb
      by (unfold buffered; cbn; by rewrite lookup_empty).
    split; rewrite ?Hb; try done. cbn. lia. }
  assert (forall ops', fifo config to (enqueued to ops') (transport_run ops' (BatchTransport_ctor config true has_callback self_id)))
    as Hrun by (intros ops'; by apply (run_fifo config to ops' [])).
  assert (forall l, append_msgs l = [] -> other_msgs l = l) as Hall.
  { unfold append_msgs, other_msgs. induction l as [|m l IH]; [done|]. rewrite !filter_cons.
    repeat case_decide; try done. intros Hl. f_equal. by apply IH. }
  destruct (Hrun ops) as [_ Hcfg _ Hnil Happ Hoth Hsm]. fold t in Hcfg, Hnil, Happ, Hoth, Hsm.
  split; [done|]. split; [|split].
  - rewrite <- (Hall _ Hnil). unfold other_msgs in *. by rewrite <- filter_app.
  - by rewrite (proj1 Hcfg) in Hsm.
  - intros Hr. destruct (Hrun (ops ++ [(now, OpStop)])) as [_ _ _ _ _ Hoth' _].
    unfold transport_run in Hoth'. rewrite foldl_app in Hoth'. cbn in Hoth'. fold t in Hoth'. change (foldl _ _ ops) with t in Hoth'.
    unfold enqueued in Hoth'. rewrite omap_app in Hoth'. cbn in Hoth'. rewrite app_nil_r in Hoth'.
    unfold Stop in *. rewrite Hr in *. rewrite Flush_empties, app_nil_r in Hoth'. exact Hoth'.
Qed.

Lemma BatchTransport_fifo_witness :
  let vote := mkRaftRpcMessage kRequestVote 1 0 2 [1] in
  let append := mkRaftRpcMessage kAppendEntries 1 0 2 [2] in
  let t := transport_run [(0, OpEnqueue 2 vote); (1, OpEnqueue 2 append)]
             (BatchTransport_ctor (mkConfig 32 1 1024 true) true false 0) in
  sent_to 2 t = [append] /\ buffered 2 t = [vote] /\ Z.of_nat (length (buffered 2 t)) < 32.
Proof.
  cbv zeta. split; [vm_compute; reflexivity|]. split; [vm_compute; reflexivity|].
  apply (BatchTransport_fifo (mkConfig 32 1 1024 true) false 0 2 5
    [(0, OpEnqueue 2 (mkRaftRpcMessage kRequestVote 1 0 2 [1])); (1, OpEnqueue 2 (mkRaftRpcMessage kAppendEntries 1 0 2 [2]))]).
  - cbn. lia.
  - reflexivity.
Defined.

(** ** The content of a message survives *)
Lemma read_args_created {A} ty (r : Reader A) bs a0 a gid from to size fresh :
  reads r bs a -> read_args ty r (mkRaftRpcMessage ty gid from to (fill fresh size bs)) a0 = Some a.
Proof. intros Hr. unfold read_args, fill. cbn. rewrite bool_decide_eq_true_2 by done. by rewrite Hr. Qed.

Lemma CreateRequestVote_read `{Image} fresh gid from to a a0 :
  vote_args_ok a -> ToRequestVoteArgs (CreateRequestVote fresh gid from to a) a0 = Some a.
Proof. intros. by apply read_args_created, reads_vote_args. Qed.

Lemma CreateRequestFragments_read `{Image} fresh gid from to a a0 :
  fragments_args_ok a -> ToRequestFragmentsArgs (CreateRequestFragments fresh gid from to a) a0 = Some a.
Proof. intros. by apply read_args_created, reads_fragments_args. Qed.

Lemma CreateAppendEntries_read `{Image} fresh gid from to a a0 (HI : image_ok) (Hpad : is_u32 padding32) :
  append_args_ok a -> Forall within_limits (aea_entries a) ->
  exists msg, CreateAppendEntries fresh gid from to a = Some msg /\
    ToAppendEntriesArgs msg a0 = Some (with_entries (received <$> aea_entries a) a).
Proof.
  intros Ha Hw. unfold CreateAppendEntries. rewrite (Serialize_AppendEntriesArgs_run a Ha).
  eexists. split; [done|]. apply read_args_created. intros rest. by apply read_append_received.
Qed.

(** ** The sender.
    [dispatched] are the calls started: the connection, the type, the group and the
    bytes. The statistics of failed calls are left out. *)
Record AsyncBatchRpcSender := mkAsyncBatchRpcSender {
  addr_map_ : list Z;
  global_pool_idx_ : Z;
  rpcs_in_flight_ : Z;
  total_batches_sent : Z;
  total_messages_sent : Z
}.

Definition AsyncBatchRpcSender_Init (self_id : Z) (peers : list Z) : AsyncBatchRpcSender :=
  mkAsyncBatchRpcSender (filter (fun id => id <> self_id) peers) 0 0 0 0.

(** [GetPooledConn], for a node that has a pool. *)
Definition sender_conn (s : AsyncBatchRpcSender) : Z * AsyncBatchRpcSender :=
  (global_pool_idx_ s mod kPoolSize,
   mkAsyncBatchRpcSender (addr_map_ s) (u64 (global_pool_idx_ s + 1)) (rpcs_in_flight_ s) (total_batches_sent s)
     (total_messages_sent s)).

Definition set_in_flight (n : Z) (s : AsyncBatchRpcSender) : AsyncBatchRpcSender :=
  mkAsyncBatchRpcSender (addr_map_ s) (global_pool_idx_ s) n (total_batches_sent s) (total_messages_sent s).

Fixpoint dispatch_all (messages : list RaftRpcMessage) (s : AsyncBatchRpcSender)
    : list (Z * RaftRpcType * Z * Slice) * AsyncBatchRpcSender :=
  match messages with
  | [] => ([], s)
  | m :: messages =>
      let '(conn, s) := sender_conn s in
      let '(calls, s) := dispatch_all messages s in
      ((conn, rm_type m, rm_group_id m, serialized_data m) :: calls, s)
  end.

Definition SendBatch (to : Z) (messages : list RaftRpcMessage) (s : AsyncBatchRpcSender)
    : list (Z * RaftRpcType * Z * Slice) * AsyncBatchRpcSender :=
  match messages with
  | [] => ([], s)
  | _ =>
      let n := Z.of_nat (length messages) in
      let s := set_in_flight (u64 (rpcs_in_flight_ s + n)) s in
      if negb (bool_decide (to ∈ addr_map_ s)) then ([], set_in_flight (u64 (rpcs_in_flight_ s - n)) s) else
      let '(calls, s) := dispatch_all messages s in
      (calls, mkAsyncBatchRpcSender (addr_map_ s) (global_pool_idx_ s) (rpcs_in_flight_ s)
                (u64 (total_batches_sent s + 1)) (u64 (total_messages_sent s + n)))
  end.

(** Every completion, failed or not, ends with this. *)
Definition call_completed (s : AsyncBatchRpcSender) : AsyncBatchRpcSender :=
  set_in_flight (u64 (rpcs_in_flight_ s - 1)) s.

(** [SendBatchAndTrack] answers the calls under way before the batch. *)
Definition SendBatchAndTrack (to : Z) (messages : list RaftRpcMessage) (s : AsyncBatchRpcSender)
    : Z * (list (Z * RaftRpcType * Z * Slice) * AsyncBatchRpcSender) :=
  match messages with
  | [] => (rpcs_in_flight_ s, ([], s))
  | _ => (rpcs_in_flight_ s, SendBatch to messages s)
  end.

(** A thread in [WaitUntilInflightBelow]: it tests the condition, sleeps when it does
    not hold, and tests again when it is woken. *)
Inductive Waiter := Checking | Asleep | Returned.
Definition wait_check (target : Z) (s : AsyncBatchRpcSender) : Waiter :=
  if rpcs_in_flight_ s <=? target then Returned else Asleep.
Definition notify_all (w : Waiter) : Waiter := match w with Asleep => Checking | _ => w end.
Definition DecrementInflightAndNotify (s : AsyncBatchRpcSender) (w : Waiter) : AsyncBatchRpcSender * Waiter :=
  (call_completed s, if rpcs_in_flight_ s <=? 1 then notify_all w else w).

(** What happens while it waits: calls are sent and complete, the thread runs. *)
Inductive waiting (target : Z) : AsyncBatchRpcSender * Waiter -> AsyncBatchRpcSender * Waiter -> Prop :=
| wait_send to messages s w : waiting target (s, w) (snd (SendBatch to messages s), w)
| wait_complete s w : waiting target (s, w) (call_completed s, w)
| wait_test s : waiting target (s, Checking) (s, wait_check target s).

(** The completions do not go through [DecrementInflightAndNotify]: a thread that
    sleeps is not woken by them, even when no call is under way any more. *)
Lemma completions_do_not_wake target x y : rtc (waiting target) x y -> snd x = Asleep -> snd y = Asleep.
Proof. induction 1 as [|x y z Hxy _ IH]; [done|]. intros Hx. apply IH. by destruct Hxy. Qed.

Lemma notified_waiter_returns s target w s' w' : rpcs_in_flight_ s = 1 -> 0 <= target -> w = Asleep ->
  DecrementInflightAndNotify s w = (s', w') -> w' = Checking /\ wait_check target s' = Returned.
Proof.
  intros Hs Ht -> [= <- <-]. unfold wait_check. cbn. rewrite Hs. cbn. rewrite (proj2 (Z.leb_le _ _)) by done. done.
Qed.

(** Replies go to the handler of the group they name; a reply with fragments names no
    group and goes to every handler. *)
Section replies.
Context {St : Type} {store : Storage St} {isal : IsaL} {alloc : Allocator} {indet0 : Indeterminate}.
Implicit Types (handlers : gmap Z (RaftState St)).

Definition SetTransportHandler (gid : Z) (s : RaftState St) handlers : gmap Z (RaftState St) := <[gid := s]> handlers.
Definition RemoveTransportHandler (gid : Z) handlers : gmap Z (RaftState St) := delete gid handlers.

Definition deliver_to (gid : Z) (h : M (RaftState St) unit) handlers : option (gmap Z (RaftState St)) :=
  match handlers !! gid with
  | None => Some handlers
  | Some s => r ← h s; Some (<[gid := snd r]> handlers)
  end.

Definition sender_RequestVoteReply (reply : RequestVoteReply) handlers :=
  deliver_to (rvr_group_id reply) (HandleRequestVoteReply reply) handlers.
Definition sender_AppendEntriesReply (reply : AppendEntriesReply) handlers :=
  deliver_to (aer_group_id reply) (HandleAppendEntriesReply reply) handlers.
Definition sender_RequestFragmentsReply (reply : RequestFragmentsReply) handlers : option (gmap Z (RaftState St)) :=
  foldl (fun acc gid => handlers ← acc; deliver_to gid (HandleRequestFragmentsReply reply) handlers)
    (Some handlers) (sorted_keys handlers).
End replies.

(** ** The manager of a node's transport *)
Record RaftBatchTransportManager := mkRaftBatchTransportManager {
  transport_ : BatchTransport; batch_sender_ : AsyncBatchRpcSender; manager_self_id_ : Z
}.
Definition RaftBatchTransportManager_Init (self_id : Z) (peers : list Z) : RaftBatchTransportManager :=
  mkRaftBatchTransportManager (BatchTransport_ctor (mkConfig 32 1 1024 true) true false self_id)
    (AsyncBatchRpcSender_Init self_id peers) self_id.
Definition manager_Start (m : RaftBatchTransportManager) : RaftBatchTransportManager :=
  mkRaftBatchTransportManager (Start (transport_ m)) (batch_sender_ m) (manager_self_id_ m).
Definition manager_Stop (now : Z) (m : RaftBatchTransportManager) : RaftBatchTransportManager :=
  mkRaftBatchTransportManager (Stop now (transport_ m)) (batch_sender_ m) (manager_self_id_ m).
