(* ===== verification/RaftNode.v ===== *)
(** The Raft node of a group (src/raft/raft_node.cc): the object that owns the Raft
    state, its storage and the RPC clients, starts the threads and guards every
    access after it was stopped.

    The two threads are [ticker_round] and [sync_round], one iteration each. Pointers
    to the private server, the unified service and the bridge are the flags that say
    whether they are set. Atomic flags start as [false]. *)

From S2P Require Import Prelude Types LogManager Encoder Lrc Grouper Storage PersistQueue Monitors RaftBase RaftEncode RaftCore Transport.

Definition kElectionTimeoutMin : Z := 1000.
Definition kElectionTimeoutMax : Z := 1500.

Record NodeConfig (St : Type) := mkNodeConfig {
  nc_node_id_me : Z;
  nc_servers : list Z;
  nc_storage : option St;
  nc_rsm : bool;
  nc_N_physical_nodes : Z;
  nc_dynamic_k : Z;
  nc_encoding_mode : Z
}.
Arguments mkNodeConfig {St}.
Arguments nc_node_id_me {St}.
Arguments nc_servers {St}.
Arguments nc_storage {St}.
Arguments nc_rsm {St}.
Arguments nc_N_physical_nodes {St}.
Arguments nc_dynamic_k {St}.
Arguments nc_encoding_mode {St}.

Section node.
Context {St : Type} {store : Storage St} {isal : IsaL} {alloc : Allocator} {indet0 : Indeterminate}.
Abbreviation State := (RaftState St).

Record RaftNode := mkRaftNode {
  node_config_ : NodeConfig St;
  node_storage_ : option St;
  raft_state_ : option State;
  rcf_server_ : option bool;
  rcf_clients_ : gmap Z RCFRpcClient;
  unified_rpc_service_ : bool;
  node_bridge_ : bool;
  batch_system_group_id_ : Z;
  batch_system_node_id_ : Z;
  exit_ : bool;
  started_ : bool;
  destroyed_ : bool;
  disconnected_ : bool
}.
Implicit Types (n : RaftNode).

Definition set_raft_state (s : option State) n : RaftNode :=
  mkRaftNode (node_config_ n) (node_storage_ n) s (rcf_server_ n) (rcf_clients_ n) (unified_rpc_service_ n)
    (node_bridge_ n) (batch_system_group_id_ n) (batch_system_node_id_ n) (exit_ n) (started_ n) (destroyed_ n)
    (disconnected_ n).
Definition set_links (server : option bool) (clients : gmap Z RCFRpcClient) (disconnected : bool) n : RaftNode :=
  mkRaftNode (node_config_ n) (node_storage_ n) (raft_state_ n) server clients (unified_rpc_service_ n)
    (node_bridge_ n) (batch_system_group_id_ n) (batch_system_node_id_ n) (exit_ n) (started_ n) (destroyed_ n)
    disconnected.
Definition set_flags (exit started destroyed : bool) n : RaftNode :=
  mkRaftNode (node_config_ n) (node_storage_ n) (raft_state_ n) (rcf_server_ n) (rcf_clients_ n)
    (unified_rpc_service_ n) (node_bridge_ n) (batch_system_group_id_ n) (batch_system_node_id_ n) exit started
    destroyed (disconnected_ n).

Definition RaftNode_ctor (cfg : NodeConfig St) : RaftNode :=
  mkRaftNode cfg (nc_storage cfg) None None ∅ false false 0 0 false false false false.

Definition SetUnifiedRpcService n : RaftNode :=
  mkRaftNode (node_config_ n) (node_storage_ n) (raft_state_ n) (rcf_server_ n) (rcf_clients_ n) true
    (node_bridge_ n) (batch_system_group_id_ n) (batch_system_node_id_ n) (exit_ n) (started_ n) (destroyed_ n)
    (disconnected_ n).

Definition SetRsmAndApplyMailbox (group_id node_id : Z) n : RaftNode :=
  mkRaftNode (node_config_ n) (node_storage_ n) (raft_state_ n) (rcf_server_ n) (rcf_clients_ n)
    (unified_rpc_service_ n) true group_id node_id (exit_ n) (started_ n) (destroyed_ n) (disconnected_ n).

(** The clients of the other servers; [insert] keeps one that is there. *)
Definition create_clients n : gmap Z RCFRpcClient :=
  foldr (fun id m => if id =? nc_node_id_me (node_config_ n) then m
                     else match m !! id with Some _ => m | None => <[id := mkRCFRpcClient false false 0]> m end)
    (rcf_clients_ n) (nc_servers (node_config_ n)).

(** The configuration [Init] gives to [NewRaftState]; in Multi-Raft mode the state
    machine is the bridge. *)
Definition raft_config (clients : gmap Z RCFRpcClient) n : RaftConfig St :=
  let cfg := node_config_ n in
  let unified := unified_rpc_service_ n in
  mkRaftConfig (nc_node_id_me cfg) 0 ((fun id => (id, true)) <$> sorted_keys clients) (node_storage_ n)
    kElectionTimeoutMin kElectionTimeoutMax (negb unified && nc_rsm cfg) (nc_N_physical_nodes cfg)
    (unified && node_bridge_ n) (batch_system_group_id_ n) (batch_system_node_id_ n)
    (nc_dynamic_k cfg) (nc_encoding_mode cfg).

Definition RaftNode_Init (u : Uninit) (now : Z) n : option RaftNode :=
  let clients := create_clients n in
  s ← NewRaftState (raft_config clients n) u now;
  let server := if unified_rpc_service_ n then rcf_server_ n else Some true in
  Some (set_flags false (started_ n) false (set_links server clients false (set_raft_state (Some s) n))).

Definition RaftNode_Start n : option RaftNode :=
  if started_ n then Some n else
  match raft_state_ n with
  | None => Some (set_flags false true (destroyed_ n) n)
  | Some s => r ← Init s; Some (set_flags false true (destroyed_ n) (set_raft_state (Some (snd r)) n))
  end.

Definition Exit n : RaftNode :=
  mkRaftNode (node_config_ n) None None None (rcf_clients_ n) (unified_rpc_service_ n) (node_bridge_ n)
    (batch_system_group_id_ n) (batch_system_node_id_ n) true (started_ n) true (disconnected_ n).

Definition Disconnect n : RaftNode :=
  set_links ((fun _ => false) <$> rcf_server_ n) (stop <$> rcf_clients_ n) true n.
Definition Reconnect n : RaftNode :=
  set_links ((fun _ => true) <$> rcf_server_ n) (recover <$> rcf_clients_ n) false n.

Definition SetGroupId (gid : Z) (s : State) : State :=
  mkRaftState (id_ s) gid (role_ s) (current_term_ s) (vote_for_ s) (commit_index_ s) (last_applied_ s) (lm_ s)
    (storage_ s) (live_monitor_ s) (encoded_stripe_ s) (last_encoding_ s) (preleader_stripe_store_ s)
    (peers_ s) (raft_peer_ s) (rpc_clients_ s) (election_timer_ s) (heartbeat_timer_ s) (preleader_timer_ s)
    (replicate_timer_ s) (electionTimeLimitMin_ s) (electionTimeLimitMax_ s) (election_time_out_ s)
    (heartbeatTimeInterval s) (rng_ s) (commit_start_time_ s) (commit_elapse_time_ s) (recovery_ctx_ s)
    (recover_records_ s) (alive_servers_of_last_point_ s) (preleader_timepoint_ s) (preleader_recover_ent_cnt_ s)
    (vote_me_cnt_ s) (rsm_ s) (election_round_ s) (N_physical_nodes_ s) (dynamic_k_ s) (encoding_mode_ s)
    (batch_system_bridge_ s) (bridge_group_id_ s) (bridge_node_id_ s) (lrc_grouper_ s) (persist_queue_ s)
    (now_ s) (sent_ s).

(** Answers the state registered with the unified service, if any. *)
Definition PostInit (group_id : Z) (has_service : bool) n : option State * RaftNode :=
  match raft_state_ n with
  | None => (None, n)
  | Some s => let s := SetGroupId group_id s in
              (if has_service then Some s else None, set_raft_state (Some s) n)
  end.

(** What the guarded accessors see. *)
Definition getRaftState n : option State := raft_state_ n.
Definition live_state n : option State := if destroyed_ n then None else raft_state_ n.

Definition IsDisconnected n : bool := disconnected_ n.
Definition IsLeader n : bool := match live_state n with Some s => role_eqb (Role s) kLeader | None => false end.
Definition ClusterServerNum n : Z := match live_state n with Some s => GetClusterServerNumber s | None => 0 end.
Definition GetDynamicK n : Z := match live_state n with Some s => dynamic_k_ s | None => 0 end.
Definition RaftNode_LastIndex n : Z := match live_state n with Some s => LastLogEntryIndex (lm_ s) | None => 0 end.
Definition RaftNode_CommitLatency (raft_index : Z) n : Z :=
  match live_state n with Some s => CommitLatency raft_index s | None => 0 end.

Definition with_live {A} (none : A) (h : M State A) : M RaftNode A := fun n =>
  match live_state n with
  | None => Some (none, n)
  | Some s => r ← h s; Some (fst r, set_raft_state (Some (snd r)) n)
  end.

Definition RaftNode_Propose (cmd : CommandData_t) : M RaftNode ProposeResult :=
  with_live (mkProposeResult 0 0 false) (Propose cmd).
Definition RaftNode_SetDynamicK (k : Z) : M RaftNode unit := with_live tt (SetDynamicK k).
Definition RaftNode_SetLrcGrouper (g : option LrcComplementaryGrouper) : M RaftNode unit := with_live tt (SetLrcGrouper g).

Definition ticker_round : M RaftNode unit := with_live tt Tick.
Definition sync_round : M RaftNode unit :=
  with_live tt (s <- get ;; match storage_ s with None => ret tt | Some st => update_storage Sync end).
End node.
Arguments RaftNode St : clear implicits.
