(* ===== verification/Queue.v ===== *)
(** The bounded queue between the Raft node and the key-value server
    (src/kv/concurrent_queue.h, src/kv/channel.h), for its one producer and one consumer.

    A call is split wherever the other side can see the difference: around the load
    and the change of [size_], around the taking of the other side's lock, and around
    the wait. A side that finds the queue full (empty) decides to wait while it holds
    its lock; the wait gives the lock up and puts it to sleep; and it sleeps until the
    other side's [notify_all] wakes it, takes its lock again and tests again. A wake-up
    without a notification, which the language allows, is a step of its own, and the
    results on progress do not count on it. *)

From S2P Require Import Prelude.

Section queue.
Context {A : Type}.
Implicit Types (x y : A) (l : list A).

(** Where a push stands: it holds [enq_mtx] and is to load [size_]; it has seen a full
    queue; it sleeps on [not_full_condition_]; it was woken and needs the lock; it has
    seen room; it has stored its element, not counted it; it has counted it and waits
    for [deq_mtx] to notify the consumer. *)
Inductive Producer :=
| PushIdle | PushLocked (x : A) | PushFull (x : A) | PushWaiting (x : A) | PushWoken (x : A)
| PushReady (x : A) | PushStored | PushNotify.
(** Where a pop stands, in the same way; [try] tells [TryPop] from [Pop]. *)
Inductive Consumer :=
| PopIdle | PopLocked (try : bool) | PopEmpty | PopWaiting | PopWoken
| PopReady | PopTaken (x : A) | PopNotify (x : A).

Record ConcurrentQueue := mkConcurrentQueue {
  elems : list A;
  capacity_ : Z;
  head_ : Z;
  tail_ : Z;
  size_ : Z;
  producer : Producer;
  consumer : Consumer
}.
Implicit Types (q : ConcurrentQueue).

(** [elems] is [capacity_] default elements. *)
Definition ConcurrentQueue_ctor (blank : A) (capacity : Z) : ConcurrentQueue :=
  mkConcurrentQueue (replicate (Z.to_nat capacity) blank) capacity 0 0 0 PushIdle PopIdle.

Definition set_producer (p : Producer) q : ConcurrentQueue :=
  mkConcurrentQueue (elems q) (capacity_ q) (head_ q) (tail_ q) (size_ q) p (consumer q).
Definition set_consumer (c : Consumer) q : ConcurrentQueue :=
  mkConcurrentQueue (elems q) (capacity_ q) (head_ q) (tail_ q) (size_ q) (producer q) c.

(** Who holds [enq_mtx] and [deq_mtx]. *)
Definition enq_locked q : bool :=
  match producer q with PushIdle | PushWaiting _ | PushWoken _ => false | _ => true end.
Definition deq_locked q : bool :=
  match consumer q with PopIdle | PopWaiting | PopWoken => false | _ => true end.

(** What [notify_all] of each condition does to the side that may sleep on it. *)
Definition not_full_notify_all q : ConcurrentQueue :=
  match producer q with PushWaiting x => set_producer (PushWoken x) q | _ => q end.
Definition not_empty_notify_all q : ConcurrentQueue :=
  match consumer q with PopWaiting => set_consumer PopWoken q | _ => q end.

(** *** [Push] *)
Definition push_start x q : option ConcurrentQueue :=
  match producer q with PushIdle => Some (set_producer (PushLocked x) q) | _ => None end.

(** The load of the loop's condition. *)
Definition push_test q : option ConcurrentQueue :=
  match producer q with
  | PushLocked x => Some (set_producer (if size_ q =? capacity_ q then PushFull x else PushReady x) q)
  | _ => None
  end.

(** [wait] gives the lock up and sleeps in one step; once woken it takes the lock again. *)
Definition push_wait q : option ConcurrentQueue :=
  match producer q with PushFull x => Some (set_producer (PushWaiting x) q) | _ => None end.
Definition push_wake q : option ConcurrentQueue :=
  match producer q with PushWoken x => Some (set_producer (PushLocked x) q) | _ => None end.

Definition push_store q : option ConcurrentQueue :=
  match producer q with
  | PushReady x =>
      es ← arr_set (elems q) (tail_ q) x;
      Some (mkConcurrentQueue es (capacity_ q) (head_ q) ((tail_ q + 1) mod capacity_ q) (size_ q) PushStored (consumer q))
  | _ => None
  end.

Definition push_count q : option ConcurrentQueue :=
  match producer q with
  | PushStored =>
      Some (mkConcurrentQueue (elems q) (capacity_ q) (head_ q) (tail_ q) (size_ q + 1)
              (if size_ q =? 0 then PushNotify else PushIdle) (consumer q))
  | _ => None
  end.

(** With [deq_mtx] free for a moment: notify, and return. *)
Definition push_notify q : option ConcurrentQueue :=
  match producer q with
  | PushNotify => if deq_locked q then None else Some (set_producer PushIdle (not_empty_notify_all q))
  | _ => None
  end.

(** *** [Pop] and [TryPop] *)
Definition pop_start (try : bool) q : option ConcurrentQueue :=
  match consumer q with PopIdle => Some (set_consumer (PopLocked try) q) | _ => None end.

(** An empty queue is waited for by [Pop]; [TryPop] returns false. *)
Definition pop_test q : option ConcurrentQueue :=
  match consumer q with
  | PopLocked try =>
      Some (set_consumer (if size_ q =? 0 then if try then PopIdle else PopEmpty else PopReady) q)
  | _ => None
  end.
Definition TryPop_empty q : bool :=
  match consumer q with PopLocked true => size_ q =? 0 | _ => false end.

Definition pop_wait q : option ConcurrentQueue :=
  match consumer q with PopEmpty => Some (set_consumer PopWaiting q) | _ => None end.
Definition pop_wake q : option ConcurrentQueue :=
  match consumer q with PopWoken => Some (set_consumer (PopLocked false) q) | _ => None end.

Definition pop_take q : option ConcurrentQueue :=
  match consumer q with
  | PopReady =>
      x ← arr_get (elems q) (head_ q);
      Some (mkConcurrentQueue (elems q) (capacity_ q) ((head_ q + 1) mod capacity_ q) (tail_ q) (size_ q)
              (producer q) (PopTaken x))
  | _ => None
  end.

(** The element, when the pop returns at once. *)
Definition pop_count q : option (option A * ConcurrentQueue) :=
  match consumer q with
  | PopTaken x =>
      let full := size_ q =? capacity_ q in
      Some (if full then None else Some x,
            mkConcurrentQueue (elems q) (capacity_ q) (head_ q) (tail_ q) (size_ q - 1) (producer q)
              (if full then PopNotify x else PopIdle))
  | _ => None
  end.

(** With [enq_mtx] free for a moment: notify, and return the element. *)
Definition pop_notify q : option (A * ConcurrentQueue) :=
  match consumer q with
  | PopNotify x => if enq_locked q then None else Some (x, set_consumer PopIdle (not_full_notify_all q))
  | _ => None
  end.

(** ** Runs.
    A step of a call that is under way, with the element it returns. *)
Inductive queue_step : ConcurrentQueue -> option A -> ConcurrentQueue -> Prop :=
| StepPushTest q q' : push_test q = Some q' -> queue_step q None q'
| StepPushWait q q' : push_wait q = Some q' -> queue_step q None q'
| StepPushWake q q' : push_wake q = Some q' -> queue_step q None q'
| StepStore q q' : push_store q = Some q' -> queue_step q None q'
| StepPushCount q q' : push_count q = Some q' -> queue_step q None q'
| StepPushNotify q q' : push_notify q = Some q' -> queue_step q None q'
| StepPopTest q q' : pop_test q = Some q' -> queue_step q None q'
| StepPopWait q q' : pop_wait q = Some q' -> queue_step q None q'
| StepPopWake q q' : pop_wake q = Some q' -> queue_step q None q'
| StepTake q q' : pop_take q = Some q' -> queue_step q None q'
| StepPopCount q r q' : pop_count q = Some (r, q') -> queue_step q r q'
| StepPopNotify q x q' : pop_notify q = Some (x, q') -> queue_step q (Some x) q'.

(** Calls of [Push], and what calls of [Pop] and [TryPop] returned. *)
Inductive queue_run : ConcurrentQueue -> list A -> list A -> ConcurrentQueue -> Prop :=
| RunNil q : queue_run q [] [] q
| RunPush q1 ins outs q2 x q3 :
    queue_run q1 ins outs q2 -> push_start x q2 = Some q3 -> queue_run q1 (ins ++ [x]) outs q3
| RunPop q1 ins outs q2 try q3 :
    queue_run q1 ins outs q2 -> pop_start try q2 = Some q3 -> queue_run q1 ins outs q3
| RunStep q1 ins outs q2 o q3 :
    queue_run q1 ins outs q2 -> queue_step q2 o q3 -> queue_run q1 ins (outs ++ option_list o) q3
| RunSpurious q1 ins outs q2 q3 :
    queue_run q1 ins outs q2 -> q3 = not_full_notify_all q2 \/ q3 = not_empty_notify_all q2 ->
    queue_run q1 ins outs q3.

(** ** The list a queue stands for *)
Definition pending q : Z := match producer q with PushStored => 1 | _ => 0 end.
Definition taken q : list A := match consumer q with PopTaken x | PopNotify x => [x] | _ => [] end.
Definition uncounted q : Z := match consumer q with PopTaken _ => 1 | _ => 0 end.
(** The element of a push that is still to be stored. *)
Definition offered q : list A :=
  match producer q with PushLocked x | PushFull x | PushWaiting x | PushWoken x | PushReady x => [x] | _ => [] end.

(** The elements between head and tail. *)
Definition live q : Z := size_ q + pending q - uncounted q.

(** [n] elements of the ring from [h] on. *)
Definition ring (es : list A) (c h n : Z) : list A := omap (fun i => arr_get es ((h + i) mod c)) (seqZ 0 n).
Definition stored q : list A := ring (elems q) (capacity_ q) (head_ q) (live q).
(** What went in and did not come out. *)
Definition contents q : list A := taken q ++ stored q ++ offered q.

(** The room a push that has seen some uses, and the element a pop that has seen one takes. *)
Definition room_used q : Z := match producer q with PushReady _ | PushStored => 1 | _ => 0 end.
Definition size_used q : Z := match consumer q with PopReady | PopTaken _ => 1 | _ => 0 end.

Record queue_ok q : Prop := {
  qo_len : Z.of_nat (length (elems q)) = capacity_ q;
  qo_cap : 1 <= capacity_ q;
  qo_head : 0 <= head_ q < capacity_ q;
  qo_tail : tail_ q = (head_ q + live q) mod capacity_ q;
  qo_size : size_used q <= size_ q;
  qo_room : size_ q + room_used q <= capacity_ q;
  qo_push : match producer q with PushNotify => size_ q <= 1 | _ => True end;
  qo_pop : match consumer q with PopNotify _ => capacity_ q - 1 <= size_ q | _ => True end;
  (* with room for two the sides are never both on their way to notify *)
  qo_locks : match producer q, consumer q with PushNotify, PopNotify _ => capacity_ q = 1 | _, _ => True end;
  (* who waits has a reason, or a notification is on its way *)
  qo_full : match producer q, consumer q with
            | (PushFull _ | PushWaiting _), PopNotify _ => True
            | (PushFull _ | PushWaiting _), _ => size_ q = capacity_ q
            | _, _ => True
            end;
  qo_empty : match consumer q, producer q with
             | (PopEmpty | PopWaiting), PushNotify => True
             | (PopEmpty | PopWaiting), _ => size_ q = 0
             | _, _ => True
             end
}.

Lemma omap_ext_in {B C} (f g : B -> option C) (l : list B) : (forall i, i ∈ l -> f i = g i) -> omap f l = omap g l.
Proof.
  induction l as [|i l IH]; intros H; [done|]. cbn. rewrite H by left.
  rewrite IH; [done|]. intros j Hj. apply H. by right.
Qed.

Lemma omap_fmap {B C D} (f : C -> option D) (g : B -> C) (l : list B) : omap f (g <$> l) = omap (fun i => f (g i)) l.
Proof. induction l as [|i l IH]; [done|]. cbn. by rewrite <- IH. Qed.

Lemma ring_push es es' c h n x :
  Z.of_nat (length es) = c -> 0 <= n < c -> arr_set es ((h + n) mod c) x = Some es' ->
  ring es' c h (n + 1) = ring es c h n ++ [x].
Proof.
  intros Hl Hn Hs. unfold ring. rewrite seqZ_snoc, omap_app by lia. f_equal.
  - apply omap_ext_in. intros i Hi%elem_of_seqZ. eapply arr_get_set_ne, Hs. intros He.
    assert (-1 < (h + i) / c - (h + n) / c < 1); zdm; nia.
  - cbn. by rewrite (arr_get_set_eq _ _ _ _ Hs).
Qed.

Lemma ring_pop es c h n x :
  0 <= h < c -> 0 < n -> arr_get es h = Some x -> ring es c h n = x :: ring es c ((h + 1) mod c) (n - 1).
Proof.
  intros Hh Hn Hx. unfold ring. rewrite seqZ_cons by lia. cbn. rewrite Z.add_0_r, Z.mod_small, Hx by lia. f_equal.
  change (Z.succ 0) with (1 + 0). rewrite <- (fmap_add_seqZ 1 0 (Z.pred n)), omap_fmap. replace (n - 1) with (Z.pred n) by lia.
  apply omap_ext_in. intros i _. rewrite Zplus_mod_idemp_l. f_equal. f_equal. lia.
Qed.

Lemma ctor_ok blank cap : 1 <= cap -> queue_ok (ConcurrentQueue_ctor blank cap).
Proof.
  intros Hc. split; cbn; try done; try lia. rewrite length_replicate. lia.
Qed.

(** What the steps keep: the queue stays in order, and as a list it appends what comes
    in and takes what goes out from the front. *)
Definition simulates q (i o : option A) q' : Prop :=
  queue_ok q' /\ capacity_ q' = capacity_ q /\ contents q ++ option_list i = option_list o ++ contents q'.

(** Takes a queue and its invariant apart in front of one step. *)
Ltac queue_start q :=
  destruct q as [es c h t n p k]; intros H [Hl Hc Hh Ht Hsz Hr Hpu Hpo Hlk Hfu Hem];
  unfold live, pending, uncounted, room_used, size_used in *; cbn in *.
(** The conditions of the invariant after it that follow by arithmetic; what is left is
    the rest and the contents. *)
Ltac queue_invariant :=
  split_and!; [split; unfold live, pending, uncounted, room_used, size_used in *; cbn in *; try done; try lia|done|];
  unfold contents, stored, live, pending, uncounted, taken, offered in *; cbn in *; rewrite ?app_nil_r; try done.

(** The same elements of the ring, by arithmetic. *)
Ltac queue_same :=
  repeat match goal with
  | |- _ :: _ = _ :: _ => f_equal
  | |- _ ++ _ = _ ++ _ => f_equal
  | |- ring _ _ _ _ = ring _ _ _ _ => f_equal; lia
  end.

Lemma push_start_ok q x q' : push_start x q = Some q' -> queue_ok q -> simulates q (Some x) None q'.
Proof.
  queue_start q. unfold push_start in H. cbn in H. destruct p; try done. injection H as <-. destruct k; queue_invariant;
    by rewrite <- ?app_assoc.
Qed.

Lemma push_test_ok q q' : push_test q = Some q' -> queue_ok q -> simulates q None None q'.
Proof.
  queue_start q. unfold push_test in H. cbn in H. destruct p; try done. injection H as <-.
  destruct (Z.eqb_spec n c); destruct k; queue_invariant.
Qed.

Lemma push_wait_ok q q' : push_wait q = Some q' -> queue_ok q -> simulates q None None q'.
Proof. queue_start q. unfold push_wait in H. cbn in H. destruct p; try done. injection H as <-. destruct k; queue_invariant. Qed.

Lemma push_wake_ok q q' : push_wake q = Some q' -> queue_ok q -> simulates q None None q'.
Proof. queue_start q. unfold push_wake in H. cbn in H. destruct p; try done. injection H as <-. destruct k; queue_invariant. Qed.

Lemma push_store_ok q q' : push_store q = Some q' -> queue_ok q -> simulates q None None q'.
Proof.
  queue_start q. unfold push_store in H. cbn in H. destruct p as [| | | | |x| |]; try done.
  apply option.bind_Some in H as (es' & Hes & [= <-]). cbn in *. rewrite <- (arr_set_length _ _ _ _ Hes) in Hl.
  set (u := match k with PopTaken _ => 1 | _ => 0 end) in *.
  assert (ring es' c h (n + 1 - u) = ring es c h (n + 0 - u) ++ [x]) as Hring.
  { replace (n + 1 - u) with (n + 0 - u + 1) by lia. apply ring_push; [by rewrite <- (arr_set_length _ _ _ _ Hes)| |by rewrite <- Ht].
    unfold u. destruct k; lia. }
  assert ((t + 1) mod c = (h + (n + 1 - u)) mod c) by (rewrite Ht, Zplus_mod_idemp_l; f_equal; lia).
  unfold u in *. clear u. destruct k; queue_invariant; by rewrite Hring.
Qed.

Lemma push_count_ok q q' : push_count q = Some q' -> queue_ok q -> simulates q None None q'.
Proof.
  queue_start q. unfold push_count in H. cbn in H. destruct p; try done. injection H as <-.
  destruct (Z.eqb_spec n 0); destruct k; queue_invariant; try (rewrite Ht; f_equal; lia);
    queue_same.
Qed.

Lemma push_notify_ok q q' : push_notify q = Some q' -> queue_ok q -> simulates q None None q'.
Proof.
  queue_start q. unfold push_notify in H. cbn in H. destruct p; try done. destruct k; try done; injection H as <-; queue_invariant.
Qed.

Lemma pop_start_ok try q q' : pop_start try q = Some q' -> queue_ok q -> simulates q None None q'.
Proof. queue_start q. unfold pop_start in H. cbn in H. destruct k; try done. injection H as <-. destruct p; queue_invariant. Qed.

Lemma pop_test_ok q q' : pop_test q = Some q' -> queue_ok q -> simulates q None None q'.
Proof.
  queue_start q. unfold pop_test in H. cbn in H. destruct k as [|try| | | | | |]; try done. injection H as <-.
  destruct (Z.eqb_spec n 0); destruct try, p; queue_invariant.
Qed.

Lemma pop_wait_ok q q' : pop_wait q = Some q' -> queue_ok q -> simulates q None None q'.
Proof. queue_start q. unfold pop_wait in H. cbn in H. destruct k; try done. injection H as <-. destruct p; queue_invariant. Qed.

Lemma pop_wake_ok q q' : pop_wake q = Some q' -> queue_ok q -> simulates q None None q'.
Proof. queue_start q. unfold pop_wake in H. cbn in H. destruct k; try done. injection H as <-. destruct p; queue_invariant. Qed.

Lemma pop_take_ok q q' : pop_take q = Some q' -> queue_ok q -> simulates q None None q'.
Proof.
  queue_start q. unfold pop_take in H. cbn in H. destruct k; try done. apply option.bind_Some in H as (x & Hx & [= <-]). cbn in *.
  set (v := match p with PushStored => 1 | _ => 0 end) in *. assert (0 <= v) by (unfold v; destruct p; lia).
  pose proof (ring_pop es c h (n + v - 0) x Hh ltac:(lia) Hx) as Hring. replace (n + v - 0 - 1) with (n + v - 1) in Hring by lia.
  assert (t = ((h + 1) mod c + (n + v - 1)) mod c) by (rewrite Ht, Zplus_mod_idemp_l; f_equal; lia).
  pose proof (Z.mod_pos_bound (h + 1) c ltac:(lia)).
  unfold v in *. clear v. destruct p; queue_invariant; by rewrite Hring.
Qed.

Lemma pop_count_ok q r q' : pop_count q = Some (r, q') -> queue_ok q -> simulates q None r q'.
Proof.
  queue_start q. unfold pop_count in H. cbn in H. destruct k as [| | | | | |x|]; try done. injection H as <- <-.
  destruct (Z.eqb_spec n c); destruct p; queue_invariant; try (rewrite Ht; f_equal; lia);
    queue_same.
Qed.

Lemma pop_notify_ok q x q' : pop_notify q = Some (x, q') -> queue_ok q -> simulates q None (Some x) q'.
Proof.
  queue_start q. unfold pop_notify in H. cbn in H. destruct k as [| | | | | | |y]; try done.
  destruct p; try done; injection H as <- <-; queue_invariant.
Qed.

Lemma spurious_ok q q' : q' = not_full_notify_all q \/ q' = not_empty_notify_all q -> queue_ok q -> simulates q None None q'.
Proof. queue_start q. destruct H as [-> | ->]; destruct p, k; queue_invariant. Qed.

(** A queue step is the step of a list. *)
Lemma queue_step_ok q o q' : queue_step q o q' -> queue_ok q -> simulates q None o q'.
Proof.
  intros []; eauto using push_test_ok, push_wait_ok, push_wake_ok, push_store_ok, push_count_ok, push_notify_ok,
    pop_test_ok, pop_wait_ok, pop_wake_ok, pop_take_ok, pop_count_ok, pop_notify_ok.
Qed.

Lemma queue_run_ok q ins outs q' : queue_run q ins outs q' -> queue_ok q ->
  queue_ok q' /\ capacity_ q' = capacity_ q /\ contents q ++ ins = outs ++ contents q'.
Proof.
  induction 1 as [q|q ins outs q2 x q3 _ IH Hs|q ins outs q2 try q3 _ IH Hs|q ins outs q2 o q3 _ IH Hs|q ins outs q2 q3 _ IH Hs];
    intros Hok; [by rewrite app_nil_r|..]; destruct (IH Hok) as (Hok2 & Hc & He).
  - destruct (push_start_ok _ _ _ Hs Hok2) as (Hok3 & Hc3 & He3). cbn in He3.
    split_and!; [done|congruence|]. by rewrite app_assoc, He, <- app_assoc, He3.
  - destruct (pop_start_ok _ _ _ Hs Hok2) as (Hok3 & Hc3 & He3). rewrite app_nil_r in He3. cbn in He3.
    split_and!; [done|congruence|]. by rewrite He, He3.
  - destruct (queue_step_ok _ _ _ Hs Hok2) as (Hok3 & Hc3 & He3). rewrite app_nil_r in He3.
    split_and!; [done|congruence|]. by rewrite He, He3, app_assoc.
  - destruct (spurious_ok _ _ Hs Hok2) as (Hok3 & Hc3 & He3). rewrite app_nil_r in He3. cbn in He3.
    split_and!; [done|congruence|]. by rewrite He, He3.
Qed.

(** The ring holds what is counted. *)
Lemma ring_length es c h n : Z.of_nat (length es) = c -> 1 <= c -> 0 <= n -> Z.of_nat (length (ring es c h n)) = n.
Proof.
  intros Hl Hc Hn. unfold ring. rewrite <- (Z2Nat.id n Hn) at 2. f_equal. rewrite <- (length_seqZ 0 n).
  generalize (seqZ 0 n). intros l. induction l as [|i l IH]; [done|]. cbn.
  destruct (arr_get_is_Some es ((h + i) mod c)) as [x Hx]; [rewrite Hl; apply Z.mod_pos_bound; lia|]. rewrite Hx. cbn. by f_equal.
Qed.

Lemma stored_length q : queue_ok q -> Z.of_nat (length (stored q)) = live q /\ live q <= capacity_ q.
Proof.
  intros [Hl Hc _ _ Hsz Hr _ _ _ _ _]. assert (0 <= live q <= capacity_ q) as Hlv.
  { unfold live, pending, uncounted, room_used, size_used in *. destruct (producer q), (consumer q); lia. }
  unfold stored. rewrite ring_length by lia. lia.
Qed.

(** *** Progress.
    How far the sides are from the ends of their calls; a sleeping side is about to
    start over, and a wake-up costs less than the call that sends it. *)
Definition push_work q : Z :=
  match producer q with
  | PushIdle => 0 | PushNotify => 10 | PushStored => 11 | PushReady _ => 12
  | PushWaiting _ => 10 | PushFull _ => 11 | PushLocked _ => 13 | PushWoken _ => 14
  end.
Definition pop_work q : Z :=
  match consumer q with
  | PopIdle => 0 | PopNotify _ => 10 | PopTaken _ => 11 | PopReady => 12
  | PopWaiting => 10 | PopEmpty => 11 | PopLocked _ => 13 | PopWoken => 14
  end.
Definition work q : Z := push_work q + pop_work q.

Lemma queue_step_work q o q' : queue_step q o q' -> 0 <= work q' < work q.
Proof.
  intros Hs. unfold work, push_work, pop_work.
  destruct Hs as [q q' H|q q' H|q q' H|q q' H|q q' H|q q' H|q q' H|q q' H|q q' H|q q' H|q r q' H|q x q' H];
    destruct q as [es c h t n p k];
    unfold push_test, push_wait, push_wake, push_store, push_count, push_notify, pop_test, pop_wait, pop_wake,
      pop_take, pop_count, pop_notify, deq_locked, enq_locked in H; cbn in H;
    destruct p, k; try discriminate H.
  all: try (apply option.bind_Some in H as (y & _ & H)); simplify_eq; cbn.
  all: try destruct (n =? 0); try destruct (n =? c); try destruct try; cbn; lia.
Qed.

Lemma store_possible q x : queue_ok q -> producer q = PushReady x -> exists q', push_store q = Some q'.
Proof.
  intros Hok Hp. unfold push_store. rewrite Hp, arr_set_in; [by eexists|].
  rewrite (qo_len _ Hok), (qo_tail _ Hok). apply Z.mod_pos_bound. pose proof (qo_cap _ Hok). lia.
Qed.

Lemma take_possible q : queue_ok q -> consumer q = PopReady -> exists q', pop_take q = Some q'.
Proof.
  intros Hok Hp. unfold pop_take. rewrite Hp.
  destruct (arr_get_is_Some (elems q) (head_ q)) as [y Hy]; [by rewrite (qo_len _ Hok); apply Hok|].
  rewrite Hy. by eexists.
Qed.

(** No call that is under way can go on. *)
Definition at_rest q : Prop := forall o q', ~ queue_step q o q'.

(** With room for two elements the sides rest only when they have nothing to do: a push
    sleeps only in front of a full queue and a pop only in front of an empty one. *)
Lemma at_rest_ok q : queue_ok q -> 2 <= capacity_ q -> at_rest q ->
  (producer q = PushIdle \/ (exists x, producer q = PushWaiting x) /\ size_ q = capacity_ q) /\
  (consumer q = PopIdle \/ consumer q = PopWaiting /\ size_ q = 0).
Proof.
  intros Hok Hc Hrest. destruct (producer q) as [|x|x|x|x|x| |] eqn:Ep, (consumer q) as [|try| | | | |y|y] eqn:Ek;
    pose proof (qo_locks _ Hok) as Hlk; pose proof (qo_full _ Hok) as Hfu; pose proof (qo_empty _ Hok) as Hem;
    rewrite ?Ep in Hlk, Hfu, Hem; rewrite ?Ek in Hlk; rewrite ?Ek in Hfu; rewrite ?Ek in Hem; try lia; try (by eauto 6); exfalso.
  all: try (destruct (store_possible q x Hok Ep) as [q' Hq']; eapply Hrest, StepStore, Hq').
  all: try (destruct (take_possible q Hok Ek) as [q' Hq']; eapply Hrest, StepTake, Hq').
  all: try (eapply Hrest, StepPushTest; unfold push_test; by rewrite Ep).
  all: try (eapply Hrest, StepPushWait; unfold push_wait; by rewrite Ep).
  all: try (eapply Hrest, StepPushWake; unfold push_wake; by rewrite Ep).
  all: try (eapply Hrest, StepPushCount; unfold push_count; by rewrite Ep).
  all: try (eapply Hrest, StepPushNotify; unfold push_notify, deq_locked; by rewrite Ep, Ek).
  all: try (eapply Hrest, StepPopTest; unfold pop_test; by rewrite Ek).
  all: try (eapply Hrest, StepPopWait; unfold pop_wait; by rewrite Ek).
  all: try (eapply Hrest, StepPopWake; unfold pop_wake; by rewrite Ek).
  all: try (eapply Hrest, StepPopCount; unfold pop_count; by rewrite Ek).
  all: try (eapply Hrest, StepPopNotify; unfold pop_notify, enq_locked; by rewrite Ep, Ek).
Qed.
End queue.
Arguments ConcurrentQueue A : clear implicits.

(** [C39] The bounded queue, for its one producer and one consumer, under every
    interleaving and with spurious wake-ups: what was pushed is what pops returned,
    then the element a pop has in hand, then what the ring stores, then the element
    of a push that has not stored it yet, in this order; the ring stores at most the
    capacity; and a [TryPop] says false only if nothing is stored and counted. With
    a capacity of two or more no wake-up is lost and nothing deadlocks: each step of a
    call under way brings the calls nearer to their ends, and when none is possible a
    push can only be asleep in front of a full queue and a pop in front of an empty
    one. *)
Theorem ConcurrentQueue_fifo {A} (blank : A) (capacity : Z) (ins outs : list A) (q : ConcurrentQueue A)
    (Hcap : 1 <= capacity) (Hrun : queue_run (ConcurrentQueue_ctor blank capacity) ins outs q) :
  ins = outs ++ taken q ++ stored q ++ offered q /\ Z.of_nat (length (stored q)) <= capacity /\
  (TryPop_empty q = true -> taken q = [] /\ (stored q = [] \/ producer q = PushStored)) /\
  (2 <= capacity ->
    (forall o q', queue_step q o q' -> 0 <= work q' < work q) /\
    (at_rest q ->
      (producer q = PushIdle \/
         (exists x, producer q = PushWaiting x) /\ Z.of_nat (length (stored q)) = capacity) /\
      (consumer q = PopIdle \/ consumer q = PopWaiting /\ stored q = []))).
Proof.
  destruct (queue_run_ok _ _ _ _ Hrun (ctor_ok blank capacity Hcap)) as (Hok & Hc & He). cbn in Hc.
  destruct (stored_length q Hok) as [Hlen Hle]. rewrite Hc in Hle.
  split_and!; [exact He|lia| |].
  - unfold TryPop_empty, taken. destruct (consumer q) as [|[|]| | | | | |] eqn:Ek; try done. intros Hz%Z.eqb_eq. split; [done|].
    destruct (producer q) eqn:Ep; auto; left; apply length_zero_iff_nil; unfold live, pending, uncounted in Hlen;
      rewrite Ep, Ek in Hlen; lia.
  - intros H2. split; [intros o q'; apply queue_step_work|]. intros Hrest.
    destruct (at_rest_ok q Hok ltac:(lia) Hrest) as [Hp Hk]. unfold live, pending, uncounted in Hlen. split.
    + destruct Hp as [Hp|[[x Hp] Hs]]; [by left|right]. split; [by exists x|].
      destruct Hk as [Hk|[Hk Hk']]; rewrite Hp, Hk in Hlen; lia.
    + destruct Hk as [Hk|[Hk Hs]]; [by left|right]. split; [done|]. apply length_zero_iff_nil.
      destruct Hp as [Hp|[[x Hp] Hp']]; rewrite Hp, Hk in Hlen; lia.
Qed.

(** A pop sleeps in front of an empty queue of capacity two and a push has counted its
    element: the next step notifies. *)
Definition waking_queue : ConcurrentQueue Z := mkConcurrentQueue [7; 0] 2 0 1 1 PushNotify PopWaiting.

Lemma waking_run : queue_run (ConcurrentQueue_ctor 0 2) [7] [] waking_queue.
Proof.
  apply (RunStep _ [7] [] (mkConcurrentQueue [7; 0] 2 0 1 0 PushStored PopWaiting) None); [|by apply StepPushCount].
  apply (RunStep _ [7] [] (mkConcurrentQueue [0; 0] 2 0 0 0 (PushReady 7) PopWaiting) None); [|by apply StepStore].
  apply (RunStep _ [7] [] (mkConcurrentQueue [0; 0] 2 0 0 0 (PushLocked 7) PopWaiting) None); [|by apply StepPushTest].
  apply (RunPush _ [] [] (mkConcurrentQueue [0; 0] 2 0 0 0 PushIdle PopWaiting) 7); [|reflexivity].
  apply (RunStep _ [] [] (mkConcurrentQueue [0; 0] 2 0 0 0 PushIdle PopEmpty) None); [|by apply StepPopWait].
  apply (RunStep _ [] [] (mkConcurrentQueue [0; 0] 2 0 0 0 PushIdle (PopLocked false)) None); [|by apply StepPopTest].
  apply (RunPop _ [] [] (ConcurrentQueue_ctor 0 2) false); [apply RunNil|reflexivity].
Qed.

Lemma ConcurrentQueue_fifo_witness :
  [7] = [] ++ taken waking_queue ++ stored waking_queue ++ offered waking_queue /\ ~ at_rest waking_queue.
Proof.
  destruct (ConcurrentQueue_fifo 0 2 [7] [] waking_queue ltac:(lia) waking_run) as (H1 & _ & _ & H2).
  split; [exact H1|]. intros Hrest. destruct (H2 ltac:(lia)) as [_ Hr]. destruct (proj1 (Hr Hrest)) as [H|[[x H] _]]; discriminate H.
Defined.

(** A queue of capacity one, which is what the default constructors of the queue
    and of the channel build, can deadlock: a push that has counted its element and a
    pop that has just taken it each hold their own lock and wait for the other's. No
    step is possible any more, no call and no spurious wake-up helps, and the element
    is in the hands of the blocked pop. *)
Theorem ConcurrentQueue_one_deadlocks {A} (blank x : A) :
  exists q : ConcurrentQueue A, queue_run (ConcurrentQueue_ctor blank 1) [x] [] q /\ taken q = [x] /\ at_rest q /\
    (forall y, push_start y q = None) /\ (forall try, pop_start try q = None) /\
    not_full_notify_all q = q /\ not_empty_notify_all q = q.
Proof.
  exists (mkConcurrentQueue [x] 1 0 0 0 PushNotify (PopNotify x)). split_and!; [|done| |done..].
  - apply (RunStep _ [x] [] (mkConcurrentQueue [x] 1 0 0 1 PushNotify (PopTaken x)) None); [|by apply StepPopCount].
    apply (RunStep _ [x] [] (mkConcurrentQueue [x] 1 0 0 1 PushNotify PopReady) None); [|by apply StepTake].
    apply (RunStep _ [x] [] (mkConcurrentQueue [x] 1 0 0 1 PushNotify (PopLocked false)) None); [|by apply StepPopTest].
    apply (RunPop _ [x] [] (mkConcurrentQueue [x] 1 0 0 1 PushNotify PopIdle) false); [|reflexivity].
    apply (RunStep _ [x] [] (mkConcurrentQueue [x] 1 0 0 0 PushStored PopIdle) None); [|by apply StepPushCount].
    apply (RunStep _ [x] [] (mkConcurrentQueue [blank] 1 0 0 0 (PushReady x) PopIdle) None); [|by apply StepStore].
    apply (RunStep _ [x] [] (mkConcurrentQueue [blank] 1 0 0 0 (PushLocked x) PopIdle) None); [|by apply StepPushTest].
    apply (RunPush _ [] [] (ConcurrentQueue_ctor blank 1) x); [apply RunNil|reflexivity].
  - intros o q' Hs. inversion Hs; cbn in *; simplify_eq; discriminate.
Qed.
