(* ===== verification/KvServer.v ===== *)
(** The key-value server of a group (src/kv/kv_server.cc, src/kv/rpc.h,
    src/kv/channel.h): the thread that applies committed entries, the answers to
    clients, and the gathering of a value from its fragments.

    [None] is a null dereference, a failed assertion or a read past the end of a
    value. The channel is the list its queue stands for (Queue.v). Time enters
    through [polls], the states of the server a waiting thread sees. *)

From S2P Require Import Prelude Types Bytes KvFormat Engine LogManager Encoder Lrc Grouper Storage StripeApply PersistQueue Monitors RaftBase RaftEncode RaftCore Transport RaftNode Queue.

(** ** channel.h *)
Definition Channel : Type := ConcurrentQueue LogEntry.
Definition NewChannel (capacity : Z) : Channel := ConcurrentQueue_ctor LogEntry_default capacity.
(** [ApplyLogEntry] calls [Push]; the steps of Queue.v run the call. *)
Definition Channel_ApplyLogEntry (entry : LogEntry) (c : Channel) : option Channel := push_start entry c.

(** ** The server *)
Record KvRequestApplyResult := mkKvRequestApplyResult {
  kar_raft_term : Z; kar_err : ErrorType; kar_value : Slice; kar_elapse_time : Z
}.

Section server.
Context {DB : Type} `{StorageEngine DB}.

Record KvServer := mkKvServer {
  kv_node : KvNode DB;
  applied_cmds_ : gmap Z KvRequestApplyResult;
  kv_exit_ : bool;
  kv_id_ : Z;
  kv_peers_ : list Z;
  channel_ : list LogEntry
}.
Implicit Types (kv : KvServer).

Definition set_kv_node (n : KvNode DB) kv : KvServer :=
  mkKvServer n (applied_cmds_ kv) (kv_exit_ kv) (kv_id_ kv) (kv_peers_ kv) (channel_ kv).

(** [NewKvServer] and its variants: the stubs are those of the other nodes. *)
Definition NewKvServer (db : DB) (config : list Z) (node_id : Z) : option KvServer :=
  if bool_decide (node_id ∈ config)
  then Some (mkKvServer (mkKvNode db 0) ∅ false node_id (filter (fun id => id <> node_id) config) [])
  else None.

Definition LastApplyIndex kv : Z := applied_index_ (kv_node kv).
Definition AddKVPeer (node_id : Z) kv : KvServer :=
  mkKvServer (kv_node kv) (applied_cmds_ kv) (kv_exit_ kv) (kv_id_ kv)
    (if bool_decide (node_id ∈ kv_peers_ kv) then kv_peers_ kv else kv_peers_ kv ++ [node_id]) (channel_ kv).
Definition GetKVPeerServerStub (node_id : Z) kv : bool := bool_decide (node_id ∈ kv_peers_ kv).

(** ** Applying.
    [junk] is the request that is filled in, [elapse] the measured time. *)
Definition apply_request (req : Request) (db : DB) : option DB :=
  match rq_type req with
  | kPut => Some (fst (db_put db (rq_key req) (rq_value req)))
  | kDelete => Some (fst (db_delete db (rq_key req)))
  | _ => None
  end.

Definition apply_entry (junk : Request) (server_num elapse : Z) (ent : LogEntry) kv : option KvServer :=
  match RaftEntryToRequest junk (kv_id_ kv) server_num ent with
  | Ok req =>
      db ← apply_request req (kv_db (kv_node kv));
      let ar := mkKvRequestApplyResult (Term ent) KvFormat.kOk [] elapse in
      Some (mkKvServer (mkKvNode db (Index ent))
              (match applied_cmds_ kv !! Index ent with Some _ => applied_cmds_ kv
               | None => <[Index ent := ar]> (applied_cmds_ kv) end)
              (kv_exit_ kv) (kv_id_ kv) (kv_peers_ kv) (channel_ kv))
  | _ => None
  end.

(** One round of [ApplyRequestCommandThread]. *)
Definition ApplyRequestCommand_round (junk : Request) (server_num elapse : Z) kv : option KvServer :=
  if kv_exit_ kv then Some kv else
  match channel_ kv with
  | [] => Some kv
  | ent :: rest =>
      apply_entry junk server_num elapse ent
        (mkKvServer (kv_node kv) (applied_cmds_ kv) (kv_exit_ kv) (kv_id_ kv) (kv_peers_ kv) rest)
  end.

Definition CheckEntryCommitted (pr : ProposeResult) (elapse0 : KvRequestApplyResult) kv : bool * KvRequestApplyResult :=
  match applied_cmds_ kv !! propose_index pr with
  | None => (false, elapse0)
  | Some ar =>
      (true, if kar_raft_term ar =? propose_term pr then ar
             else mkKvRequestApplyResult (kar_raft_term ar) kEntryDeleted [] (kar_elapse_time ar))
  end.

(** ** Gathering a value *)
Section gather.
Context {isal : IsaL}.

Record Gather := mkGather { decode_input : EncodingResults; g_value : Slice; g_err : ErrorType; g_done : bool }.

(** The value in a decoded slice or in a full entry. *)
Definition read_value (s : Slice) : option Slice :=
  match GetKeyFromPrefixLengthFormat s with Ok (v, _) => Some v | _ => None end.

Definition call_back (k m : Z) (resp : GetValueResponse) (g : Gather) : option Gather :=
  if negb (bool_decide (gvr_err resp = KvFormat.kOk)) then Some g else
  fmt ← DecodeString (gvr_value resp);
  if (ds_k fmt =? 1) && (ds_m fmt =? 0) then
    v ← read_value (ds_frag fmt);
    Some (mkGather (decode_input g) v KvFormat.kOk true)
  else
    let input := if (ds_k fmt =? k) && (ds_m fmt =? m)
                 then std_insert (ds_frag_id fmt) (ds_frag fmt) (decode_input g) else decode_input g in
    if negb (g_done g) && (u64 k <=? Z.of_nat (size input)) then
      r ← DecodeSlice input k m;
      match r with
      | Some results => v ← read_value results; Some (mkGather input v KvFormat.kOk true)
      | None => Some (mkGather input (g_value g) kKVDecodeFail (g_done g))
      end
    else Some (mkGather input (g_value g) (g_err g) (g_done g)).

(** One iteration of the loop over the stubs; it ends once the value is there. *)
Definition ask_peer (answer : Z -> GetValueResponse) (replied_id k m : Z) (acc : option Gather) (id : Z) : option Gather :=
  g ← acc;
  if g_done g || (id =? replied_id) then Some g
  else if bool_decide (gvr_err (answer id) = KvFormat.kOk) then call_back k m (answer id) g else Some g.

(** Answers the value and the error of the results. *)
Definition DoValueGatheringTask (answer : Z -> GetValueResponse) (replied_id k m : Z) (input : EncodingResults)
    (value : Slice) kv : option (Slice * ErrorType) :=
  g ← foldl (ask_peer answer replied_id k m) (Some (mkGather input value KvFormat.kOk false)) (kv_peers_ kv);
  Some (g_value g, if negb (g_done g) && bool_decide (g_err g = KvFormat.kOk) then kRequestExecTimeout else g_err g).

(** The first of the polled states that has applied the read index. *)
Fixpoint wait_applied (read_index : Z) (polls : list KvServer) : option KvServer :=
  match polls with
  | [] => None
  | kv :: polls => if read_index <=? LastApplyIndex kv then Some kv else wait_applied read_index polls
  end.

Definition with_read (read_index : Z) (err : ErrorType) (value : Slice) (r : Response) : Response :=
  mkResponse (rs_type r) (rs_client_id r) (rs_sequence r) (rs_group_id r) err (rs_raft_term r) value read_index
    (rs_reply_server_id r) (rs_leader_hint r) (rs_apply_elapse_time r) (rs_commit_elapse_time r).

(** Answers the response and the pair that is put into the store at the end, if any;
    the store may have changed in between. *)
Definition ExecuteGetOperation (read_index : Z) (polls : list KvServer) (answer : Z -> GetValueResponse)
    (request : Request) (resp : Response) : option (Response * option (Slice * Slice)) :=
  match wait_applied read_index polls with
  | None => Some (with_read read_index kRequestExecTimeout (rs_value resp) resp, None)
  | Some kv =>
      match db_get (kv_db (kv_node kv)) (rq_key request) with
      | None => Some (with_read read_index kKeyNotExist (rs_value resp) resp, None)
      | Some value =>
          format ← DecodeString value;
          if ds_k format =? 1 then Some (with_read read_index KvFormat.kOk value resp, None) else
          res ← DoValueGatheringTask answer (rs_reply_server_id resp) (ds_k format) (ds_m format)
                  {[ds_frag_id format := ds_frag format]} value kv;
          let full := FormatFullEntryValueForStorage res.1 in
          Some (with_read read_index KvFormat.kOk full resp, Some (rq_key request, full))
      end
  end.

(** [db_->Put(request->key, insert_full_entry)]. *)
Definition write_back (w : option (Slice * Slice)) kv : KvServer :=
  match w with
  | None => kv
  | Some (key, full) => set_kv_node (DB_Put key full (kv_node kv)) kv
  end.
End gather.

(** ** Answering clients *)
Section requests.
Context {St : Type} {store : Storage St} {isal : IsaL}.

Definition with_header (request : Request) (term id : Z) (r : Response) : Response :=
  mkResponse (rq_type request) (rq_client_id request) (rq_sequence request) (rs_group_id r) (rs_err r) term
    (rs_value r) (rs_read_index r) id (rs_leader_hint r) 0 0.
Definition with_err (err : ErrorType) (r : Response) : Response :=
  mkResponse (rs_type r) (rs_client_id r) (rs_sequence r) (rs_group_id r) err (rs_raft_term r) (rs_value r)
    (rs_read_index r) (rs_reply_server_id r) (rs_leader_hint r) (rs_apply_elapse_time r) (rs_commit_elapse_time r).
Definition with_elapse0 (r : Response) : Response :=
  mkResponse (rs_type r) (rs_client_id r) (rs_sequence r) (rs_group_id r) (rs_err r) (rs_raft_term r) (rs_value r)
    (rs_read_index r) (rs_reply_server_id r) (rs_leader_hint r) 0 0.

(** [DealWithRequest] of the server: [raft_] is the node it points to, if any. The
    abort of a leader is a crash. Answers the response and the pair written back. *)
Definition KvServer_DealWithRequest (raft_ : option (RaftNode St)) (polls : list KvServer)
    (answer : Z -> GetValueResponse) (request : Request) (resp : Response) kv
    : option (Response * option (Slice * Slice)) :=
  rn ← raft_;
  if IsDisconnected rn then Some (with_err kRequestExecTimeout (with_elapse0 resp), None) else
  s ← getRaftState rn;
  let resp := with_header request (CurrentTerm s) (kv_id_ kv) resp in
  match rq_type request with
  | kDetectLeader => Some (with_err (if IsLeader rn then KvFormat.kOk else kNotALeader) resp, None)
  | kAbort => if IsLeader rn then None else Some (with_err kNotALeader resp, None)
  | kPut | kDelete => Some (with_err kNotALeader resp, None)
  | kGet => ExecuteGetOperation (RaftNode_LastIndex rn) polls answer request resp
  | kUnnamedType _ => Some (resp, None)
  end.

(** [GetValue] of the service: it spins until the read index is applied, so it only
    returns on a state that has. *)
Definition KvServerRPCService_GetValue (request : GetValueRequest) kv : option GetValueResponse :=
  if LastApplyIndex kv <? gvq_read_index request then None else
  Some (match db_get (kv_db (kv_node kv)) (gvq_key request) with
        | Some value => mkGetValueResponse value KvFormat.kOk (kv_id_ kv)
        | None => mkGetValueResponse [] kKeyNotExist (kv_id_ kv)
        end).

(** Start, exit and the connection of the node. *)
Definition KvServer_Start {alloc : Allocator} {indet0 : Indeterminate} (raft_ : option (RaftNode St)) : option (RaftNode St) :=
  rn ← raft_; RaftNode_Start rn.
Definition KvServer_Exit (raft_ : option (RaftNode St)) kv : option (RaftNode St * KvServer) :=
  rn ← raft_;
  Some (Exit rn, mkKvServer (kv_node kv) (applied_cmds_ kv) true (kv_id_ kv) (kv_peers_ kv) (channel_ kv)).
Definition KvServer_Disconnect (raft_ : option (RaftNode St)) : option (RaftNode St) := Disconnect <$> raft_.
Definition KvServer_Reconnect (raft_ : option (RaftNode St)) : option (RaftNode St) := Reconnect <$> raft_.
Definition SetRaftNode (rn : option (RaftNode St)) : option (RaftNode St) :=
  match rn with
  | Some n => match raft_state_ n with
              | Some s => Some (set_raft_state (Some (set_rsm_ (Some []) s)) n)
              | None => Some n
              end
  | None => None
  end.
End requests.
End server.
Arguments KvServer DB : clear implicits.

(** ** A get that gathers fragments *)
Lemma union_snoc (x y : Z) (l : list Z) : {[y]} ∪ ({[x]} ∪ list_to_set l) =@{gset Z} {[x]} ∪ list_to_set (l ++ [y]).
Proof. apply set_eq. intros z. rewrite !elem_of_union, !elem_of_singleton, !elem_of_list_to_set, elem_of_app, list_elem_of_singleton. tauto. Qed.

Lemma filter_snoc_NoDup {A} (P : A -> Prop) `{forall x, Decision (P x)} x y (l : list A) :
  NoDup (x :: l ++ [y]) -> NoDup (x :: filter P l ++ [y]).
Proof.
  intros Hn. eapply sublist_NoDup; [exact Hn|].
  apply sublist_skip, sublist_app; [apply sublist_filter|done].
Qed.

Section gathering.
Context {DB : Type} {engine : StorageEngine DB} {isal : IsaL} {gf_mul : Z -> Z -> Z} {k m : Z}
  (HI : IsaL_spec gf_mul k (k + m)) (Hk : 2 <= k <= kMaxK) (Hm : 0 <= m <= kMaxM)
  (v : Slice) (Hb : bytes v) (Hv : short_string v)
  (M : EncodingResults) (HM : EncodeSlice (MakePrefixLengthKey v) k m ∅ = Some (true, M)).

(** What node [i] stores under the key. *)
Definition stored_record (k m i : Z) (M : EncodingResults) : option Slice := (fun f => value_header k m i ++ f) <$> M !! i.

Lemma bytes_prefix_key s : bytes s -> bytes (MakePrefixLengthKey s).
Proof. intros Hs. unfold MakePrefixLengthKey. apply Forall_app. split; [apply le_bytes|done]. Qed.

Lemma M_decodes : (forall i, is_Some (M !! i) <-> 0 <= i < k + m) /\
  forall F : EncodingResults, F ⊆ M -> k <= Z.of_nat (size F) ->
    exists r, DecodeSlice F k m = Some (Some r) /\ read_value r = Some v.
Proof.
  destruct (EncodeSlice_code gf_mul k m _ HI ltac:(lia) Hm (bytes_prefix_key v Hb))
    as (M' & rows & fs & pad & HM' & Hdom & _ & _ & _ & _ & _ & _ & _ & Hdec).
  rewrite HM in HM'. injection HM' as <-. split; [done|]. intros F HF Hsz. eexists. split; [by apply Hdec|].
  unfold read_value. by rewrite (reads_prefix_key v Hv).
Qed.

Lemma decode_record i f : 0 <= i < k + m ->
  DecodeString (value_header k m i ++ f) = Some (mkDecodedString k m i f).
Proof. intros Hi. unfold kMaxK, kMaxM in *. apply DecodeString_header; unfold is_int, is_u32; lia. Qed.

Context (me : Z) (record : Slice) (answer : Z -> GetValueResponse).

Definition reachable (answer : Z -> GetValueResponse) (peers : list Z) : list Z :=
  filter (fun i => gvr_err (answer i) = KvFormat.kOk) peers.

Lemma call_back_record i f resp (F : EncodingResults) :
  0 <= i < k + m -> gvr_err resp = KvFormat.kOk -> gvr_value resp = value_header k m i ++ f -> F !! i = None ->
  call_back k m resp (mkGather F record KvFormat.kOk false) =
    let input := <[i := f]> F in
    if k <=? Z.of_nat (size input) then
      r ← DecodeSlice input k m;
      match r with
      | Some results => w ← read_value results; Some (mkGather input w KvFormat.kOk true)
      | None => Some (mkGather input record kKVDecodeFail false)
      end
    else Some (mkGather input record KvFormat.kOk false).
Proof.
  intros Hi He Hg HF. unfold call_back. rewrite bool_decide_eq_true_2 by done. cbn [negb].
  rewrite Hg, (decode_record i f Hi). cbn [mbind option_bind ds_k ds_m ds_frag ds_frag_id decode_input g_done g_value g_err negb].
  rewrite (proj2 (Z.eqb_neq k 1)) by lia. cbn [andb]. rewrite !Z.eqb_refl. cbn [andb].
  rewrite std_insert_fresh by done. rewrite u64_small by (unfold kMaxK in *; lia). done.
Qed.

(** The gathering after the stubs of [asked]: the fragments of [me] and of those that
    answered, until there are [k]. *)
Definition gathered (asked : list Z) (g : Gather) : Prop :=
  if k <=? 1 + Z.of_nat (length (reachable answer asked))
  then g_done g = true /\ g_value g = v /\ g_err g = KvFormat.kOk
  else exists F, g = mkGather F record KvFormat.kOk false /\ F ⊆ M /\
    dom F = {[me]} ∪ list_to_set (reachable answer asked) /\ NoDup (me :: reachable answer asked).

Lemma size_gathered (F : EncodingResults) l :
  dom F = {[me]} ∪ list_to_set l -> NoDup (me :: l) -> Z.of_nat (size F) = 1 + Z.of_nat (length l).
Proof.
  intros Hd Hn. rewrite <- size_dom, Hd. change ({[me]} ∪ list_to_set l) with (list_to_set (me :: l) : gset Z).
  rewrite size_list_to_set by done. cbn. lia.
Qed.

Lemma ask_peer_gathered asked id g :
  (gvr_err (answer id) = KvFormat.kOk -> Some (gvr_value (answer id)) = stored_record k m id M) ->
  0 <= id < k + m -> NoDup (me :: asked ++ [id]) -> gathered asked g ->
  exists g', ask_peer answer me k m (Some g) id = Some g' /\ gathered (asked ++ [id]) g'.
Proof.
  intros Hans Hid Hnd Hg. destruct M_decodes as [Hdom Hdec].
  assert (id <> me /\ id ∉ asked) as [Hne Hni].
  { apply NoDup_cons in Hnd as [H1 H2]. apply NoDup_app in H2 as (_ & H2 & _).
    split; [intros ->; apply H1, elem_of_app; right; by left|]. intros Hin. apply (H2 id Hin). by left. }
  unfold ask_peer. cbn [mbind option_bind]. rewrite (proj2 (Z.eqb_neq _ _) Hne), orb_false_r.
  unfold gathered in *. unfold reachable in *. rewrite filter_app, length_app, filter_cons, filter_nil.
  destruct (Z.leb_spec k (1 + Z.of_nat (length (filter (fun i => gvr_err (answer i) = KvFormat.kOk) asked)))) as [Hle|Hlt].
  { destruct Hg as (Hd & Hw). rewrite Hd. exists g. split; [done|].
    rewrite (proj2 (Z.leb_le _ _)) by (case_decide; cbn; lia). done. }
  destruct Hg as (F & -> & HF & HdF & Hn). cbn [g_done]. case_decide as Hok.
  2: { rewrite bool_decide_eq_false_2 by done. eexists. split; [done|]. rewrite app_nil_r. cbn [length]. rewrite Nat.add_0_r.
       rewrite (proj2 (Z.leb_gt _ _)) by lia. eauto. }
  rewrite bool_decide_eq_true_2 by done.
  specialize (Hans Hok). unfold stored_record in Hans. destruct (M !! id) as [f|] eqn:Hf; [|done]. cbn in Hans. injection Hans as Hans.
  assert (F !! id = None) as HFid.
  { apply not_elem_of_dom. rewrite HdF, elem_of_union, elem_of_singleton, elem_of_list_to_set, list_elem_of_filter. tauto. }
  rewrite (call_back_record id f _ F) by done.
  assert (<[id := f]> F ⊆ M) as HF' by (by apply insert_subseteq_l).
  assert (dom (<[id := f]> F) = {[me]} ∪ list_to_set (filter (fun i => gvr_err (answer i) = KvFormat.kOk) asked ++ [id])) as Hd'.
  { rewrite dom_insert_L, HdF. apply union_snoc. }
  assert (NoDup (me :: filter (fun i => gvr_err (answer i) = KvFormat.kOk) asked ++ [id])) as Hn' by (by apply filter_snoc_NoDup).
  pose proof (size_gathered _ _ Hd' Hn') as Hsz. rewrite length_app in Hsz. cbn [length] in Hsz.
  cbn [length]. cbv zeta.
  destruct (Z.leb_spec k (Z.of_nat (size (<[id := f]> F)))) as [Hge|Hlt'].
  - destruct (Hdec _ HF' Hge) as (r & Hr & Hrv). rewrite Hr. cbn [mbind option_bind]. rewrite Hrv.
    eexists. split; [done|]. rewrite (proj2 (Z.leb_le _ _)) by lia. done.
  - eexists. split; [done|]. rewrite (proj2 (Z.leb_gt _ _)) by lia. eauto 6.
Qed.

Lemma gather_all peers : forall asked g,
  (forall i, i ∈ peers -> gvr_err (answer i) = KvFormat.kOk -> Some (gvr_value (answer i)) = stored_record k m i M) ->
  Forall (fun i => 0 <= i < k + m) peers -> NoDup (me :: asked ++ peers) -> gathered asked g ->
  exists g', foldl (ask_peer answer me k m) (Some g) peers = Some g' /\ gathered (asked ++ peers) g'.
Proof.
  induction peers as [|id peers IH]; intros asked g Ha Hr Hn Hg; [rewrite app_nil_r; eauto|].
  apply Forall_cons in Hr as [Hid Hr]. rewrite (cons_middle id), app_assoc in Hn.
  destruct (ask_peer_gathered asked id g) as (g' & E & Hg'); [apply Ha; by left|done| |done|].
  { change (me :: (asked ++ [id]) ++ peers) with ((me :: asked ++ [id]) ++ peers) in Hn. by apply NoDup_app in Hn as [Hn _]. }
  destruct (IH (asked ++ [id]) g') as (g2 & E2 & Hg2); [intros i Hi; apply Ha; by right|done|done|done|].
  exists g2. cbn [foldl]. rewrite E, E2. by rewrite (cons_middle id), app_assoc.
Qed.
End gathering.

(** [C38] What a get answers when the node holds a fragment. Let the nodes store the
    fragments of a value [v] encoded for [k + m] nodes. If at least [k - 1] of the
    other nodes answer then the get answers [v]. If fewer answer then the gathering
    fails, but the get still answers [kOk], with the stored fragment record of the
    node itself as the value. Either way that answer is put into the store under the
    key, in place of whatever was applied in the meantime. *)
Theorem ExecuteGet_gathers {DB : Type} {engine : StorageEngine DB} {isal : IsaL} (gf_mul : Z -> Z -> Z) (k m me : Z)
    (v : Slice) (M : EncodingResults) (kv : KvServer DB) (polls : list (KvServer DB)) (answer : Z -> GetValueResponse)
    (read_index : Z) (req : Request) (resp : Response)
    (HI : IsaL_spec gf_mul k (k + m)) (Hk : 2 <= k <= kMaxK) (Hm : 0 <= m <= kMaxM) (Hb : bytes v) (Hv : short_string v)
    (HM : EncodeSlice (MakePrefixLengthKey v) k m ∅ = Some (true, M)) (Heng : engine_ok DB)
    (Hwait : wait_applied read_index polls = Some kv)
    (Hdb : db_get (kv_db (kv_node kv)) (rq_key req) = stored_record k m me M)
    (Hpeers : NoDup (me :: kv_peers_ kv)) (Hrange : Forall (fun i => 0 <= i < k + m) (me :: kv_peers_ kv))
    (Hans : forall i, i ∈ kv_peers_ kv -> gvr_err (answer i) = KvFormat.kOk -> Some (gvr_value (answer i)) = stored_record k m i M)
    (Hresp : rs_reply_server_id resp = me) :
  exists record, stored_record k m me M = Some record /\
    let w := if k <=? 1 + Z.of_nat (length (reachable answer (kv_peers_ kv))) then v else record in
    let full := FormatFullEntryValueForStorage w in
    ExecuteGetOperation read_index polls answer req resp =
      Some (with_read read_index KvFormat.kOk full resp, Some (rq_key req, full)) /\
    forall (later : KvServer DB) (d' : DB), db_put (kv_db (kv_node later)) (rq_key req) full = (d', true) ->
      db_get (kv_db (kv_node (write_back (Some (rq_key req, full)) later))) (rq_key req) = Some full.
Proof.
  destruct (M_decodes HI Hk Hm v Hb Hv M HM) as [Hdom _].
  apply Forall_cons in Hrange as [Hme Hrange]. destruct (proj2 (Hdom me) Hme) as [f Hf].
  assert (stored_record k m me M = Some (value_header k m me ++ f)) as Hrec by (unfold stored_record; by rewrite Hf).
  exists (value_header k m me ++ f). split; [done|]. cbv zeta. split.
  2: { intros later d' Hput. unfold write_back, DB_Put. cbn [set_kv_node kv_node kv_db]. rewrite Hput. cbn [fst kv_db].
       rewrite (eo_put Heng _ _ _ _ Hput). by rewrite decide_True. }
  unfold ExecuteGetOperation. rewrite Hwait, Hdb, Hrec, (decode_record Hk Hm me f Hme). cbn [mbind option_bind ds_k ds_m ds_frag_id ds_frag].
  rewrite (proj2 (Z.eqb_neq k 1)) by lia. rewrite Hresp. unfold DoValueGatheringTask.
  destruct (gather_all HI Hk Hm v Hb Hv M HM me (value_header k m me ++ f) answer (kv_peers_ kv) []
    (mkGather {[me := f]} (value_header k m me ++ f) KvFormat.kOk false)) as (g & -> & Hg); [done|done|done| |].
  { unfold gathered. cbn. rewrite (proj2 (Z.leb_gt _ _)) by lia. eexists. split; [done|]. split_and!.
    - by apply map_singleton_subseteq_l.
    - rewrite dom_singleton_L. by rewrite (right_id_L ∅ (∪)).
    - apply NoDup_singleton. }
  cbn [mbind option_bind fst snd app] in *. unfold gathered in Hg.
  destruct (k <=? _); [by destruct Hg as (_ & -> & _)|]. by destruct Hg as (F & -> & _).
Qed.

(** ** The apply thread *)
Section apply_thread.
Context {DB : Type} {engine : StorageEngine DB} (Heng : engine_ok DB).
Context (Hok : forall (d : DB) key value, (db_put d key value).2 = true /\ (db_delete d key).2 = true).
Implicit Types (kv : KvServer DB).

Fixpoint apply_rounds (junk : Request) (server_num : Z) (elapses : list Z) kv : option (KvServer DB) :=
  match elapses with
  | [] => Some kv
  | e :: elapses => kv' ← ApplyRequestCommand_round junk server_num e kv; apply_rounds junk server_num elapses kv'
  end.

(** The value of a key after a sequence of requests. *)
Definition value_after (key : Slice) (reqs : list Request) (old : option Slice) : option Slice :=
  foldl (fun o req => if decide (rq_key req = key)
                      then (if bool_decide (rq_type req = kPut) then Some (rq_value req) else None) else o) old reqs.

Definition is_write (req : Request) : Prop := rq_type req = kPut \/ rq_type req = kDelete.

Lemma apply_request_get req (d : DB) : is_write req ->
  exists d', apply_request req d = Some d' /\ forall key, db_get d' key = value_after key [req] (db_get d key).
Proof.
  destruct (Hok d (rq_key req) (rq_value req)) as [Hp Hd]. unfold apply_request, value_after. cbn.
  intros [->| ->].
  - rewrite bool_decide_eq_true_2 by done. destruct (db_put d _ _) as [d' b] eqn:E. cbn in Hp. subst b.
    exists d'. split; [done|]. intros key. rewrite (eo_put Heng _ _ _ _ E). repeat case_decide; congruence.
  - rewrite bool_decide_eq_false_2 by done. destruct (db_delete d _) as [d' b] eqn:E. cbn in Hd. subst b.
    exists d'. split; [done|]. intros key. rewrite (eo_delete Heng _ _ _ E). repeat case_decide; congruence.
Qed.

Lemma apply_rounds_run junk server_num elapses : forall kv reqs,
  kv_exit_ kv = false -> length elapses = length (channel_ kv) -> NoDup (Index <$> channel_ kv) ->
  Forall (fun ent => applied_cmds_ kv !! Index ent = None) (channel_ kv) ->
  Forall2 (fun ent req => RaftEntryToRequest junk (kv_id_ kv) server_num ent = Ok req /\ is_write req) (channel_ kv) reqs ->
  exists kv', apply_rounds junk server_num elapses kv = Some kv' /\ channel_ kv' = [] /\
    LastApplyIndex kv' = default (LastApplyIndex kv) (Index <$> last (channel_ kv)) /\
    (forall key, db_get (kv_db (kv_node kv')) key = value_after key reqs (db_get (kv_db (kv_node kv)) key)) /\
    Forall (fun ent => exists e, applied_cmds_ kv' !! Index ent = Some (mkKvRequestApplyResult (Term ent) KvFormat.kOk [] e)) (channel_ kv) /\
    (forall idx, idx ∉ Index <$> channel_ kv -> applied_cmds_ kv' !! idx = applied_cmds_ kv !! idx).
Proof.
  induction elapses as [|e elapses IH]; intros kv reqs Hx Hl Hnd Hfresh Hreqs.
  - destruct (channel_ kv) as [|] eqn:Ech; [|done]. inversion Hreqs; subst. exists kv. rewrite Ech. by split_and!.
  - destruct (channel_ kv) as [|ent rest] eqn:Ech; [done|].
    inversion Hreqs as [|? req ? reqs' [Hreq Hw] Hrest]; subst. cbn in Hnd.
    apply NoDup_cons in Hnd as [Hni Hnd]. apply Forall_cons in Hfresh as [Hf Hfresh].
    cbn [apply_rounds]. unfold ApplyRequestCommand_round. rewrite Hx, Ech. unfold apply_entry. cbn [kv_id_ kv_node].
    rewrite Hreq. cbn [applied_cmds_]. rewrite Hf.
    destruct (apply_request_get req (kv_db (kv_node kv)) Hw) as (d' & -> & Hd'). cbn [mbind option_bind].
    set (kv1 := mkKvServer _ _ _ _ _ _).
    destruct (IH kv1 reqs') as (kv' & -> & H1 & H2 & H3 & H4 & H5); [done|cbn in *; lia|done| |done|].
    { cbn [channel_ applied_cmds_ kv1]. rewrite Forall_forall in Hfresh. apply Forall_forall. intros x Hin.
      rewrite lookup_insert_ne; [by apply Hfresh|]. intros He. apply Hni. rewrite He. by apply list_elem_of_fmap_2. }
    cbn [channel_ applied_cmds_ kv_node kv_db kv1] in *. exists kv'. split_and!; [done|done| | | |].
    + rewrite H2. destruct rest; [done|]. rewrite last_cons_cons. by destruct (last (l :: rest)) eqn:El; [|by apply last_None in El].
    + intros key. rewrite H3, Hd'. done.
    + apply Forall_cons. split; [|done]. exists e. rewrite H5 by done. apply lookup_insert_eq.
    + intros idx Hi. cbn in Hi. apply not_elem_of_cons in Hi as [Hi1 Hi2]. rewrite H5 by done. by apply lookup_insert_ne.
Qed.
End apply_thread.

(** The apply thread. The committed entries in the channel are applied in order,
    one per round: the store ends with the last value put to each key, or none if it
    was deleted last, the applied index is that of the last entry, and the channel is
    empty. A proposer that then asks for its entry is told whether the entry at its
    index has been applied, and with [kEntryDeleted] instead of [kOk] when that entry
    is of another term. *)
Theorem ApplyRequestCommandThread_spec {DB : Type} {engine : StorageEngine DB} (junk : Request) (server_num : Z)
    (elapses : list Z) (kv : KvServer DB) (reqs : list Request) (none : KvRequestApplyResult) (Heng : engine_ok DB)
    (Hok : forall (d : DB) key value, (db_put d key value).2 = true /\ (db_delete d key).2 = true)
    (Hrun : kv_exit_ kv = false) (Hlen : length elapses = length (channel_ kv))
    (Hidx : NoDup (Index <$> channel_ kv)) (Hnew : applied_cmds_ kv = ∅)
    (Hreqs : Forall2 (fun ent req => RaftEntryToRequest junk (kv_id_ kv) server_num ent = Ok req /\ is_write req)
               (channel_ kv) reqs) :
  exists kv', apply_rounds junk server_num elapses kv = Some kv' /\ channel_ kv' = [] /\
    LastApplyIndex kv' = default (LastApplyIndex kv) (Index <$> last (channel_ kv)) /\
    (forall key, db_get (kv_db (kv_node kv')) key = value_after key reqs (db_get (kv_db (kv_node kv)) key)) /\
    (forall ent term b, ent ∈ channel_ kv -> exists e,
       CheckEntryCommitted (mkProposeResult (Index ent) term b) none kv' =
         (true, mkKvRequestApplyResult (Term ent) (if Term ent =? term then KvFormat.kOk else kEntryDeleted) [] e)) /\
    (forall idx term b, idx ∉ Index <$> channel_ kv -> CheckEntryCommitted (mkProposeResult idx term b) none kv' = (false, none)).
Proof.
  destruct (apply_rounds_run Heng Hok junk server_num elapses kv reqs) as (kv' & -> & H1 & H2 & H3 & H4 & H5);
    [done|done|done| |done|].
  { rewrite Hnew. apply Forall_forall. intros ent _. apply lookup_empty. }
  exists kv'. split_and!; [done..| |].
  - intros ent term b Hin. rewrite Forall_forall in H4. destruct (H4 ent Hin) as [e He]. exists e.
    unfold CheckEntryCommitted. cbn [propose_index propose_term]. rewrite He. cbn. by destruct (Term ent =? term).
  - intros idx term b Hni. unfold CheckEntryCommitted. cbn [propose_index]. by rewrite H5, Hnew, lookup_empty.
Qed.

(** ** Witnesses *)
Section witnesses.
#[local] Existing Instance Gf256.isal.
Abbreviation Store := (gmap Slice Slice).

(** Node 0 of three stores the fragment 0 of [1; 2; 3]; node 1 answers, node 2 does not. *)
Definition demo_frags : EncodingResults :=
  match EncodeSlice (MakePrefixLengthKey [1; 2; 3]) 2 1 ∅ with Some (_, M) => M | None => ∅ end.
Definition demo_record (i : Z) : Slice := default [] (stored_record 2 1 i demo_frags).
Definition demo_kv_server : KvServer Store :=
  mkKvServer (mkKvNode {[ [107] := demo_record 0 ]} 5) ∅ false 0 [2; 1] [].
Definition demo_answer (i : Z) : GetValueResponse :=
  if i =? 1 then mkGetValueResponse (demo_record 1) KvFormat.kOk 1 else mkGetValueResponse [] kRPCCallFailed 0.
Definition demo_get : Request := mkRequest kGet 7 0 3 [107] [].
Definition demo_response : Response := mkResponse kGet 7 0 3 kNotALeader 0 [] 0 0 0 0 0.

Lemma demo_frags_encoded : EncodeSlice (MakePrefixLengthKey [1; 2; 3]) 2 1 ∅ = Some (true, demo_frags).
Proof. vm_compute. reflexivity. Qed.

Lemma ExecuteGet_gathers_witness :
  ExecuteGetOperation 5 [demo_kv_server] demo_answer demo_get demo_response =
    Some (with_read 5 KvFormat.kOk (FormatFullEntryValueForStorage [1; 2; 3]) demo_response,
          Some ([107], FormatFullEntryValueForStorage [1; 2; 3])).
Proof.
  destruct (ExecuteGet_gathers Gf256.mul 2 1 0 [1; 2; 3] demo_frags demo_kv_server [demo_kv_server] demo_answer 5
    demo_get demo_response gf256_spec_2_3) as (record & _ & H & _).
  - unfold kMaxK; lia.
  - unfold kMaxM; lia.
  - exact bytes_123.
  - unfold short_string, slice_size. cbn. lia.
  - exact demo_frags_encoded.
  - exact gmap_engine_ok.
  - reflexivity.
  - vm_compute. reflexivity.
  - apply (bool_decide_unpack _). vm_compute. exact I.
  - apply (bool_decide_unpack _). vm_compute. exact I.
  - intros i Hi Ha. unfold demo_answer in *. destruct (Z.eqb_spec i 1) as [->|]; [|discriminate]. vm_compute. reflexivity.
  - reflexivity.
  - exact H.
Defined.

(** A put and a delete of it, committed in the terms 1 and 2. *)
Definition demo_put : Request := mkRequest kPut 7 1 3 [107] [1; 2].
Definition demo_delete : Request := mkRequest kDelete 7 2 3 [107] [].
Definition committed (idx term : Z) (req : Request) : LogEntry :=
  SetCommandData (RequestToRawBytes req) (SetIndex idx (SetTerm term LogEntry_default)).
Definition demo_backlog : KvServer Store :=
  mkKvServer (mkKvNode ∅ 0) ∅ false 0 [1; 2] [committed 1 1 demo_put; committed 2 2 demo_delete].
Definition demo_no_result : KvRequestApplyResult := mkKvRequestApplyResult 0 kNotALeader [] 0.

Lemma ApplyRequestCommandThread_spec_witness : exists kv',
  apply_rounds (mkRequest kGet 0 0 3 [] []) 3 [10; 10] demo_backlog = Some kv' /\ LastApplyIndex kv' = 2 /\
  db_get (kv_db (kv_node kv')) [107] = None.
Proof.
  destruct (ApplyRequestCommandThread_spec (mkRequest kGet 0 0 3 [] []) 3 [10; 10] demo_backlog
    [mkRequest kPut 7 1 3 [107] (FormatFullEntryValueForStorage [1; 2]);
     mkRequest kDelete 7 2 3 [107] (FormatFullEntryValueForStorage [])] demo_no_result gmap_engine_ok)
    as (kv' & H1 & _ & H2 & H3 & _).
  - intros d key value. split; reflexivity.
  - reflexivity.
  - reflexivity.
  - apply (bool_decide_unpack _). vm_compute. exact I.
  - reflexivity.
  - apply Forall2_cons. split; [split; [vm_compute; reflexivity|left; reflexivity]|].
    apply Forall2_cons. split; [split; [vm_compute; reflexivity|right; reflexivity]|apply Forall2_nil; exact I].
  - exists kv'. split; [exact H1|]. split; [rewrite H2; reflexivity|]. rewrite H3. vm_compute. reflexivity.
Defined.
End witnesses.
