(* ===== verification/GroupRegistry.v ===== *)
(** The key-value service of a physical node (src/multi-raft/group_registry.cc): one
    service for all groups, which hands a request to the group it names, and the put
    of the store (raft_store_stripe.cc) through the group's Raft node.

    [PhysNode] holds, by group, the key-value server and the Raft node it was given.
    [unset] is the content of a response whose members were never set; [commits] the
    commit indices a waiting put sees; [elapse] the time it measures. *)

From S2P Require Import Prelude Types Bytes StripeFormat KvFormat Engine LogManager Encoder Lrc Grouper Storage StripeApply StripeRead PersistQueue Monitors RaftBase RaftEncode RaftCore StripeStore Transport RaftVote RaftLog RaftNode KvServer.

Section registry.
Context {DB : Type} {engine : StorageEngine DB} {St : Type} {store : Storage St} {isal : IsaL} {alloc : Allocator}
  {indet0 : Indeterminate}.

Record PhysNode := mkPhysNode {
  local_nodes_ : gmap Z (KvServer DB);
  raft_nodes_ : gmap Z (RaftNode St);
  has_store : bool;
  encoding_mode : EncodingMode
}.
Implicit Types (p : PhysNode).

Definition set_raft_node (gid : Z) (rn : RaftNode St) p : PhysNode :=
  mkPhysNode (local_nodes_ p) (<[gid := rn]> (raft_nodes_ p)) (has_store p) (encoding_mode p).

(** [target_node]: none for the group -1. *)
Definition request_target (req : Request) p : option (KvServer DB) :=
  if rq_group_id req =? u32 (-1) then None else local_nodes_ p !! rq_group_id req.

Definition leads (gid : Z) p : bool := match raft_nodes_ p !! gid with Some rn => IsLeader rn | None => false end.
(** [raft_node ? raft_node->getRaftState()->CurrentTerm() : 0]. *)
Definition term_of (gid : Z) p : option Z :=
  match raft_nodes_ p !! gid with Some rn => CurrentTerm <$> getRaftState rn | None => Some 0 end.

(** [RaftStore::StripePut]; answers the error and the two times. *)
Definition StripePut (group_id : Z) (user_key user_value : Slice) (commits : nat -> Z) (elapse : Z) p
    : option (ErrorType * Z * Z * PhysNode) :=
  match raft_nodes_ p !! group_id with
  | None => Some (kNotALeader, 0, 0, p)
  | Some rn =>
      if negb (IsLeader rn) then Some (kNotALeader, 0, 0, p) else
      r ← with_live None (StripePut_propose group_id user_key user_value (encoding_mode p)) rn;
      let p := set_raft_node group_id r.2 p in
      match r.1 with
      | None => Some (kNotALeader, 0, 0, p)
      | Some target =>
          match StripePut_wait target commits with
          | KvFormat.kOk => Some (KvFormat.kOk, elapse, elapse * 3 / 10, p)
          | err => Some (err, elapse, 0, p)
          end
      end
  end.

Definition reply_with (req : Request) (err : ErrorType) (term id hint : Z) (value : Slice) (r : Response) : Response :=
  mkResponse (rs_type r) (rs_client_id r) (rs_sequence r) (rq_group_id req) err term value (rs_read_index r) id hint
    (rs_apply_elapse_time r) (rs_commit_elapse_time r).
(** [type], [client_id] and [sequence] of the request, and the times. *)
Definition echo (req : Request) (apply commit : Z) (r : Response) : Response :=
  mkResponse (rq_type req) (rq_client_id req) (rq_sequence req) (rs_group_id r) (rs_err r) (rs_raft_term r) (rs_value r)
    (rs_read_index r) (rs_reply_server_id r) (rs_leader_hint r) apply commit.

(** The answer of [DealWithRequest] when this node has no server for the group. *)
Definition no_node (unset : Response) (req : Request) : Response :=
  reply_with req kNotALeader 0 (rs_reply_server_id unset) (rs_leader_hint unset) (rs_value unset) unset.

Definition deal_put (unset : Response) (node_id : Z) (req : Request) (commits : nat -> Z) (elapse : Z) p
    : option (Response * PhysNode) :=
  term ← term_of (rq_group_id req) p;
  r ← StripePut (rq_group_id req) (rq_key req) (rq_value req) commits elapse p;
  let '(err, commit, apply, p) := r in
  Some (echo req apply commit (reply_with req err term node_id (rs_leader_hint unset) (rs_value unset) unset), p).

Definition deal_detect (unset : Response) (node_id : Z) (req : Request) p : option Response :=
  term ← term_of (rq_group_id req) p;
  let leader := leads (rq_group_id req) p in
  Some (reply_with req (if leader then KvFormat.kOk else kNotALeader) term node_id
          (if leader then node_id else kNoDetectLeader) (rs_value unset) unset).

(** [get] is the answer of [TryStripeGet] for the key. *)
Definition deal_get (unset : Response) (node_id : Z) (req : Request) (get : option (ErrorType * Slice)) p : option Response :=
  term ← term_of (rq_group_id req) p;
  let answer err value :=
    echo req (rs_apply_elapse_time unset) (rs_commit_elapse_time unset)
      (reply_with req err term node_id (rs_leader_hint unset) value unset) in
  if leads (rq_group_id req) p then r ← get; Some (answer r.1 r.2) else Some (answer kNotALeader (rs_value unset)).

(** [DealWithRequest] of the service. *)
Definition registry_DealWithRequest (unset : Response) (node_id : Z) (req : Request) (commits : nat -> Z) (elapse : Z)
    (get : option (ErrorType * Slice)) p : option (Response * PhysNode) :=
  match request_target req p with
  | None => Some (no_node unset req, p)
  | Some kv =>
      match rq_type req with
      | kDetectLeader => r ← deal_detect unset node_id req p; Some (r, p)
      | kGet => r ← deal_get unset node_id req get p; Some (r, p)
      | _ =>
          if bool_decide (rq_type req = kPut) && has_store p && leads (rq_group_id req) p
          then deal_put unset node_id req commits elapse p
          else
            r ← KvServer_DealWithRequest (raft_nodes_ p !! rq_group_id req) []
                  (fun _ => mkGetValueResponse [] kRPCCallFailed 0) req unset kv;
            Some (reply_with req (rs_err r.1) (rs_raft_term r.1) (rs_reply_server_id r.1) (rs_leader_hint r.1)
                    (rs_value r.1) r.1, p)
      end
  end.
End registry.
Arguments PhysNode DB St : clear implicits.

(** ** An acknowledged put that is lost *)

(** [C31] A put that was lost is acknowledged. The put waits until the commit index
    reaches the index of its entry and never looks at the entry again. Whenever the
    node is deposed while it waits - it accepts a request of a newer leader with an
    entry of another term at that index, and a commit index that reaches it - and the
    put then sees the commit index, the client is answered [kOk], although the node's
    own log holds the other leader's entry in its place. Whatever the logs, the terms
    and the request. *)
Theorem StripePut_acks_lost_write {DB St : Type} {store : Storage St} {isal : IsaL} {alloc : Allocator}
    {indet0 : Indeterminate} {total : TotalStorage St} (p : PhysNode DB St) (gid : Z) (key value : Slice) (elapse : Z)
    (rn rn' : RaftNode St) (proposed : RaftState St) (l : list LogEntry) (args : AppendEntriesArgs) (i j : nat)
    (ent e : LogEntry)
    (Halloc : forall n, new_array_ok n = true)
    (Hrn : raft_nodes_ p !! gid = Some rn) (Hlead : IsLeader rn = true)
    (Hput : with_live None (StripePut_propose gid key value (encoding_mode p)) rn = Some (Some (Z.of_nat (i + j) + 1), rn'))
    (Hst : getRaftState rn' = Some proposed) (Hr : represents (lm_ proposed) l) (Hent : l !! (i + j)%nat = Some ent)
    (Hmon : monitor_ok (live_monitor_ proposed)) (Hsender : 0 <= aea_leader_id args)
    (Hlim : electionTimeLimitMin_ proposed < electionTimeLimitMax_ proposed)
    (Hterm : current_term_ proposed <= aea_term args)
    (Hprev : aea_prev_log_index args = Z.of_nat i)
    (Hmatch : log_has l (last_snapshot_term_ (lm_ proposed)) (aea_prev_log_index args) (aea_prev_log_term args)
                (aea_prev_k args) = true)
    (Hcnt : aea_entry_cnt args = Z.of_nat (length (aea_entries args)))
    (Hix : indexed i (aea_entries args))
    (Hlen : Z.of_nat (length l + length (aea_entries args)) < 2 ^ 27)
    (He : aea_entries args !! j = Some e) (Hconf : Term e <> Term ent)
    (Hcommit : Z.of_nat (i + j) + 1 <= aea_leader_commit args) :
  exists reply deposed x, ProcessAppendEntries args proposed = Some (reply, deposed) /\
    GetSingleLogEntry (lm_ deposed) (Z.of_nat (i + j) + 1) = Some x /\ Term x = Term e /\ x <> ent /\
    forall (commits : nat -> Z) (retry : nat), (retry < 50)%nat -> commits retry = commit_index_ deposed ->
      StripePut gid key value commits elapse p =
        Some (KvFormat.kOk, elapse, elapse * 3 / 10, set_raft_node gid rn' p).
Proof.
  pose proof (lookup_lt_Some _ _ _ Hent) as Hlt. pose proof (lookup_lt_Some _ _ _ He) as Hjt.
  destruct (ProcessAppendEntries_accepted args i l proposed Halloc Hr Hmon Hsender Hlim Hterm Hprev ltac:(lia) Hmatch Hcnt Hix Hlen)
    as (deposed & Hrun & _ & Hr' & _ & Hterms & _ & Hc & _).
  destruct (Hterms j e He) as (x & Hx & Htx).
  destruct (lookup_lt_is_Some_2 (aea_entries args) (length (aea_entries args) - 1)) as [y Hy]; [lia|].
  destruct (Hterms _ _ Hy) as (z & Hz%lookup_lt_Some & _).
  eexists _, deposed, x. split; [exact Hrun|]. split_and!; [by rewrite (rep_get_nat _ _ Hr')|done|congruence|].
  intros commits retry Hretry Hseen. unfold StripePut. rewrite Hrn, Hlead. cbn [negb].
  rewrite Hput. cbn [mbind option_bind fst snd]. unfold StripePut_wait.
  assert (existsb (fun retry => Z.of_nat (i + j) + 1 <=? commits retry) (seq 0 50) = true) as ->; [|done].
  apply existsb_exists. exists retry. split; [apply in_seq; lia|]. apply Z.leb_le. rewrite Hseen, Hc.
  destruct (Z.ltb_spec (commit_index_ proposed) (aea_leader_commit args)); lia.
Qed.

Section lost_put.
#[local] Instance demo_alloc_registry : Allocator := fun _ => true.
#[local] Instance demo_indet_registry : Indeterminate := 0.
#[local] Existing Instance Gf256.isal.

(** Node 0, leader of the group {0, 1, 2} in term 2 with an empty log. *)
Definition put_leader : RaftState MemStorage :=
  set_raft_peer_ ((fun i => if bool_decide (i = 1 \/ i = 2) then Some (SetNextIndex 1 RaftPeer_ctor) else None) <$> seqZ 0 32)
    (set_role_ kLeader (set_current_term_ 2 (demo_node 0 None))).
Definition put_node : RaftNode MemStorage :=
  set_raft_state (Some put_leader) (RaftNode_ctor (mkNodeConfig 0 [0; 1; 2] None false 3 0 0)).
Definition put_host : PhysNode (gmap Slice Slice) MemStorage := mkPhysNode ∅ {[0 := put_node]} true kRsF.

(** The leader of term 3 replicates an entry of its own and says that it is committed. *)
Definition next_leader_entry : LogEntry := SetCommandData [5; 5] (SetIndex 1 (SetTerm 3 LogEntry_default)).
Definition next_leader_request : AppendEntriesArgs := mkAppendEntriesArgs 3 0 1 0 0 0 1 1 [next_leader_entry].

(** The put up to the wait, and the entry it logs. *)
Definition put_waiting : RaftNode MemStorage :=
  Eval vm_compute in
    match with_live None (StripePut_propose 0 [107] [9] kRsF) put_node with Some (_, rn) => rn | None => put_node end.
Definition put_state : RaftState MemStorage := Eval vm_compute in default put_leader (getRaftState put_waiting).
Definition put_logged : LogEntry := Eval vm_compute in default LogEntry_default (GetSingleLogEntry (lm_ put_state) 1).

Lemma put_state_log : represents (lm_ put_state) [put_logged].
Proof.
  split; [|reflexivity]. split; [|reflexivity|reflexivity].
  apply (wf_intro _ [put_logged]); try reflexivity; try (cbn; lia).
  intros [|i] e; cbn; intros [=]; subst; reflexivity.
Qed.

Lemma StripePut_acks_lost_write_witness : exists deposed x,
  ProcessAppendEntries next_leader_request put_state = Some deposed /\
  GetSingleLogEntry (lm_ deposed.2) 1 = Some x /\ Term x = 3 /\ x <> put_logged /\
  CommandData put_logged = cd_command_data (stripe_command 0 [107] [9] kRsF) /\
  StripePut 0 [107] [9] (fun retry => if (retry =? 0)%nat then 0 else commit_index_ deposed.2) 100 put_host =
    Some (KvFormat.kOk, 100, 30, set_raft_node 0 put_waiting put_host).
Proof.
  destruct (StripePut_acks_lost_write put_host 0 [107] [9] 100 put_node put_waiting put_state [put_logged]
    next_leader_request 0 0 put_logged next_leader_entry) as (reply & deposed & x & Hrun & Hx & Ht & Hne & Hok).
  - reflexivity.
  - reflexivity.
  - reflexivity.
  - vm_compute. reflexivity.
  - reflexivity.
  - exact put_state_log.
  - reflexivity.
  - split; cbn; lia.
  - cbn. lia.
  - cbn. lia.
  - cbn. lia.
  - reflexivity.
  - reflexivity.
  - reflexivity.
  - intros [|j] e; cbn; intros [=]; subst; reflexivity.
  - cbn. lia.
  - reflexivity.
  - cbn. lia.
  - cbn. lia.
  - exists (reply, deposed), x. split; [exact Hrun|]. split; [exact Hx|]. split; [exact Ht|]. split; [exact Hne|].
    split; [reflexivity|]. apply (Hok _ 1%nat); [lia|reflexivity].
Defined.
End lost_put.
