(* ===== verification/Client.v ===== *)
(** The key-value client (src/kv/client.cc): hashing keys to groups, finding the
    leader of a group, and routing puts and gets to it.

    The world [W] is whatever the servers are made of; [serve] is the service of a
    node, [None] for a call that fails. An operation runs on the client and the world
    and is [None] when the client dereferences a null stub. *)

From S2P Require Import Prelude Types Bytes StripeFormat KvFormat Engine LogManager Encoder Lrc Grouper Storage StripeApply StripeRead PersistQueue Monitors RaftBase RaftEncode RaftCore StripeStore Transport RaftNode KvServer GroupRegistry.

(** ** Hashing *)
Definition FnvHash (key : Slice) : Z :=
  foldl (fun hash c => u64 (Z.lxor hash c * 1099511628211)) 14695981039346656037 key.

(** [num_groups] is an [int]; the result is a 32-bit id. *)
Definition GetGroupForKey (key : Slice) (num_groups : Z) : Z :=
  if num_groups <=? 0 then 0 else u32 (FnvHash key mod num_groups).

Record KvServiceClient := mkKvServiceClient {
  servers : gset Z;
  client_id : Z;
  num_groups_ : Z;
  group_to_leader_ : gmap Z Z
}.

Record OperationResults := mkOperationResults { or_err : ErrorType; or_apply_elapse_time : Z; or_commit_elapse_time : Z }.

Definition KvServiceClient_ctor (config : list Z) (id : Z) : KvServiceClient :=
  mkKvServiceClient (list_to_set config) id 0 ∅.

Definition SetNumGroups (n : Z) (c : KvServiceClient) : KvServiceClient :=
  mkKvServiceClient (servers c) (client_id c) n (group_to_leader_ c).
Definition set_cache (f : gmap Z Z -> gmap Z Z) (c : KvServiceClient) : KvServiceClient :=
  mkKvServiceClient (servers c) (client_id c) (num_groups_ c) (f (group_to_leader_ c)).

Section client.
Context {W : Type} (serve : Z -> Request -> W -> option Response * W) (unset : Response).
Abbreviation C := (M (KvServiceClient * W)).

Definition the_client : C KvServiceClient := gets fst.
Definition modify_client (f : KvServiceClient -> KvServiceClient) : C unit := modify (fun s => (f s.1, s.2)).

Definition UpdateLeaderCache (group_id leader_id : Z) : C unit := modify_client (set_cache <[group_id := leader_id]>).
Definition InvalidateLeaderCache (group_id : Z) : C unit := modify_client (set_cache (delete group_id)).

(** [GetRPCStub(id)->DealWithRequest(request)]; the stub of an unknown node is null. *)
Definition DealWithRequest (id : Z) (req : Request) : C Response := fun s =>
  if bool_decide (id ∈ servers s.1) then
    let '(r, w) := serve id req s.2 in
    Some (match r with
          | Some resp => resp
          | None => with_err kRPCCallFailed unset
          end, (s.1, w))
  else None.

Definition detect_request (c : KvServiceClient) (group_id : Z) : Request :=
  mkRequest kDetectLeader (client_id c) 0 group_id [] [].

Definition has_hint (resp : Response) : bool :=
  bool_decide (rs_err resp = kNotALeader) && negb (rs_leader_hint resp =? kNoDetectLeader).

Definition ProbeLeader (node_id group_id : Z) : C bool :=
  if node_id =? kNoDetectLeader then ret false else
  c <- the_client ;;
  resp <- DealWithRequest node_id (detect_request c group_id) ;;
  if bool_decide (rs_err resp = KvFormat.kOk) then ret true else
  when (has_hint resp) (UpdateLeaderCache group_id (rs_leader_hint resp)) ;;;
  ret false.

Definition GetPeersForGroup (group_id : Z) : list Z := [].

(** Step 1: the cached leader, if it still leads. *)
Definition try_cached (group_id : Z) : C (option Z) :=
  c <- the_client ;;
  match group_to_leader_ c !! group_id with
  | Some cached =>
      if cached =? kNoDetectLeader then ret None else
      ok <- ProbeLeader cached group_id ;;
      if (ok : bool) then ret (Some cached) else InvalidateLeaderCache group_id ;;; ret None
  | None => ret None
  end.

(** Steps 3 and 4: the peers in order, each with the hint it gives. *)
Fixpoint probe_peers (group_id : Z) (peers : list Z) : C Z :=
  match peers with
  | [] => ret kNoDetectLeader
  | peer :: peers =>
      c <- the_client ;;
      resp <- DealWithRequest peer (detect_request c group_id) ;;
      if bool_decide (rs_err resp = KvFormat.kOk) then UpdateLeaderCache group_id peer ;;; ret peer else
      if has_hint resp then
        ok <- ProbeLeader (rs_leader_hint resp) group_id ;;
        if (ok : bool) then UpdateLeaderCache group_id (rs_leader_hint resp) ;;; ret (rs_leader_hint resp)
        else probe_peers group_id peers
      else probe_peers group_id peers
  end.

Definition DetectLeaderForGroup (group_id : Z) : C Z :=
  cached <- try_cached group_id ;;
  match cached with
  | Some leader => ret leader
  | None =>
      let peers := GetPeersForGroup group_id in
      probe_peers group_id (if bool_decide (peers = []) then [group_id] else peers)
  end.

Definition default_num_groups : C unit :=
  modify_client (fun c => if num_groups_ c <=? 0 then SetNumGroups (i32 (Z.of_nat (size (servers c)))) c else c).

Definition RoutePut (key value : Slice) : C OperationResults :=
  default_num_groups ;;;
  c <- the_client ;;
  let group_id := GetGroupForKey key (num_groups_ c) in
  leader <- DetectLeaderForGroup group_id ;;
  if leader =? kNoDetectLeader then ret (mkOperationResults kNotALeader 0 0) else
  resp <- DealWithRequest leader (mkRequest kPut (client_id c) 0 group_id key value) ;;
  ret (mkOperationResults (rs_err resp) (rs_apply_elapse_time resp) (rs_commit_elapse_time resp)).

(** Answers the value too, when there is one. *)
Definition RouteGet (key : Slice) : C (OperationResults * option Slice) :=
  default_num_groups ;;;
  c <- the_client ;;
  let group_id := GetGroupForKey key (num_groups_ c) in
  leader <- DetectLeaderForGroup group_id ;;
  if leader =? kNoDetectLeader then ret (mkOperationResults kNotALeader 0 0, None) else
  resp <- DealWithRequest leader (mkRequest kGet (client_id c) 0 group_id key []) ;;
  if bool_decide (rs_err resp = KvFormat.kOk) then
    format <- lift (DecodeString (rs_value resp)) ;;
    if ds_k format =? 1 then
      v <- lift (read_value (ds_frag format)) ;;
      ret (mkOperationResults KvFormat.kOk 0 0, Some v)
    else ret (mkOperationResults kKVDecodeFail 0 0, None)
  else ret (mkOperationResults (rs_err resp) (rs_apply_elapse_time resp) 0, None).
End client.

(** ** Where requests go *)
Definition cache_ok (c : KvServiceClient) : Prop := map_Forall (fun g l => l = g) (group_to_leader_ c).

(** The nodes 0, 1, ... are known, one per group. *)
Record client_ok (n : Z) (c : KvServiceClient) : Prop := {
  co_groups : num_groups_ c = n \/ (num_groups_ c <= 0 /\ i32 (Z.of_nat (size (servers c))) = n);
  co_servers : forall i, 0 <= i < n -> i ∈ servers c;
  co_n : 0 < n < 2 ^ 31;
  co_cache : cache_ok c
}.

Lemma GetGroupForKey_range key n : 0 < n < 2 ^ 31 -> 0 <= GetGroupForKey key n < n.
Proof.
  intros Hn. unfold GetGroupForKey. rewrite (proj2 (Z.leb_gt _ _)) by lia.
  pose proof (Z.mod_pos_bound (FnvHash key) n ltac:(lia)). rewrite u32_small by (unfold is_u32; lia). done.
Qed.

(** The client once the number of groups is set. *)
Definition numbered (c : KvServiceClient) : KvServiceClient :=
  if num_groups_ c <=? 0 then SetNumGroups (i32 (Z.of_nat (size (servers c)))) c else c.

Lemma numbered_ok n c : client_ok n c ->
  num_groups_ (numbered c) = n /\ servers (numbered c) = servers c /\ client_id (numbered c) = client_id c /\
  group_to_leader_ (numbered c) = group_to_leader_ c.
Proof.
  intros [Hn _ Hr _]. unfold numbered. destruct (Z.leb_spec (num_groups_ c) 0); split_and!; try reflexivity;
    cbn [num_groups_ SetNumGroups]; destruct Hn as [|[]]; lia.
Qed.

(** What both routes do first. *)
Lemma route_prefix {W A} (serve : Z -> Request -> W -> option Response * W) (unset : Response) n c w key
    (k : KvServiceClient -> Z -> M (KvServiceClient * W) A) : client_ok n c ->
  (default_num_groups ;;; x <- the_client ;;
   leader <- DetectLeaderForGroup serve unset (GetGroupForKey key (num_groups_ x)) ;; k x leader) (c, w) =
  (leader <- DetectLeaderForGroup serve unset (GetGroupForKey key n) ;; k (numbered c) leader) (numbered c, w).
Proof.
  intros Hc. destruct (numbered_ok n c Hc) as (<- & _). done.
Qed.

Section routing.
Context {W : Type} (serve : Z -> Request -> W -> option Response * W) (unset : Response).

(** A probe does not change the world and is never answered with another leader. *)
Definition probe_ok (g : Z) (w : W) : Prop := forall c, exists r,
  serve g (detect_request c g) w = (r, w) /\
  forall resp, r = Some resp -> rs_err resp = kNotALeader -> rs_leader_hint resp = kNoDetectLeader.

Definition answers_ok (g : Z) (c : KvServiceClient) (w : W) : bool :=
  match (serve g (detect_request c g) w).1 with
  | Some resp => bool_decide (rs_err resp = KvFormat.kOk)
  | None => false
  end.

(** One probe of the node of the group. *)
Lemma probe_call g c w : probe_ok g w -> g ∈ servers c -> exists resp,
  DealWithRequest serve unset g (detect_request c g) (c, w) = Some (resp, (c, w)) /\
  bool_decide (rs_err resp = KvFormat.kOk) = answers_ok g c w /\
  (rs_err resp <> KvFormat.kOk -> has_hint resp = false).
Proof.
  intros Hp Hg. destruct (Hp c) as (r & Hr & Hh). unfold DealWithRequest, answers_ok. cbn [fst snd].
  rewrite bool_decide_eq_true_2, Hr by done. eexists. split; [done|]. unfold has_hint.
  destruct r as [resp|]; cbn; [|done]. split; [done|]. intros _. case_bool_decide as He; [|done]. by rewrite (Hh resp eq_refl He).
Qed.

Lemma ProbeLeader_run g c w : probe_ok g w -> g ∈ servers c -> g <> kNoDetectLeader ->
  ProbeLeader serve unset g g (c, w) = Some (answers_ok g c w, (c, w)).
Proof.
  intros Hp Hg Hne. destruct (probe_call g c w Hp Hg) as (resp & Hr & <- & Hh). unfold ProbeLeader.
  rewrite (proj2 (Z.eqb_neq _ _) Hne). unfold bind at 1, the_client, gets. cbn [fst]. unfold bind at 1. rewrite Hr.
  case_bool_decide as He; [done|]. by rewrite (Hh He).
Qed.

Lemma DetectLeaderForGroup_run g c w : probe_ok g w -> g ∈ servers c -> g <> kNoDetectLeader -> cache_ok c ->
  exists cache, DetectLeaderForGroup serve unset g (c, w) =
      Some (if answers_ok g c w then g else kNoDetectLeader, (set_cache (fun _ => cache) c, w)) /\
    map_Forall (fun g l => l = g) cache.
Proof.
  intros Hp Hg Hne Hc.
  assert (forall c', servers c' = servers c -> client_id c' = client_id c -> num_groups_ c' = num_groups_ c ->
    answers_ok g c w = false \/ group_to_leader_ c' = group_to_leader_ c -> cache_ok c' ->
    exists cache, probe_peers serve unset g [g] (c', w) =
      Some (if answers_ok g c w then g else kNoDetectLeader, (set_cache (fun _ => cache) c, w)) /\
      map_Forall (fun g l => l = g) cache) as Hstep.
  { intros c' Hs Hi Hn _ Hc'. destruct (probe_call g c' w Hp) as (resp & Hr & Ha & Hh); [by rewrite Hs|].
    assert (answers_ok g c' w = answers_ok g c w) as Hsame
      by (unfold answers_ok, detect_request; by rewrite Hi).
    cbn [probe_peers]. unfold bind at 1, the_client, gets. cbn [fst]. unfold bind at 1. rewrite Hr, Ha, Hsame.
    destruct (answers_ok g c w) eqn:Eok.
    - exists (<[g := g]> (group_to_leader_ c')). split; [|by apply map_Forall_insert_2].
      unfold UpdateLeaderCache, modify_client, modify, bind, ret, set_cache. cbn. by rewrite Hs, Hi, Hn.
    - exists (group_to_leader_ c'). split; [|done]. rewrite Hh by (rewrite Hsame, ?Eok in Ha; by apply bool_decide_eq_false in Ha).
      unfold ret, set_cache. by destruct c'; cbn in *; subst. }
  unfold DetectLeaderForGroup, try_cached. unfold bind at 1 2, the_client, gets. cbn [fst].
  destruct (group_to_leader_ c !! g) as [cached|] eqn:Ecache.
  - rewrite (Hc g cached Ecache) in *. rewrite (proj2 (Z.eqb_neq _ _) Hne). unfold bind at 1.
    rewrite (ProbeLeader_run g c w Hp Hg Hne). destruct (answers_ok g c w) eqn:Eok.
    + exists (group_to_leader_ c). split; [|done]. unfold ret, set_cache. by destruct c.
    + unfold InvalidateLeaderCache, modify_client, modify, bind, ret. cbn [fst snd]. cbn [GetPeersForGroup].
      rewrite bool_decide_eq_true_2 by done.
      destruct (Hstep (set_cache (delete g) c)) as (cache & Hcache & HF); try done; [by left| |].
      * unfold cache_ok. cbn. by apply map_Forall_delete.
      * exists cache. by rewrite ?Eok in Hcache.
  - unfold ret. cbn [GetPeersForGroup]. rewrite bool_decide_eq_true_2 by done. apply Hstep; try done. by right.
Qed.
End routing.

(** ** A cluster *)
Section cluster.
Context {DB : Type} {engine : StorageEngine DB} {St : Type} {store : Storage St} {isal : IsaL} {alloc : Allocator}
  {indet0 : Indeterminate}.
Context (unset : Response) (commits : nat -> Z) (elapse : Z) (rpc : Z -> Z -> bool) (fuel : nat).
Abbreviation World := (gmap Z (PhysNode DB St)).

Definition registry_of (w : World) (n : Z) : gmap Z (KvNode DB) :=
  match w !! n with Some p => kv_node <$> local_nodes_ p | None => ∅ end.

(** The service of node [id]; a node that is gone or crashes does not answer. *)
Definition cluster_serve (id : Z) (req : Request) (w : World) : option Response * World :=
  match w !! id with
  | None => (None, w)
  | Some p =>
      match registry_DealWithRequest unset id req commits elapse
              (DealWithGet (registry_of w) rpc fuel id (leads (rq_group_id req) p) req) p with
      | Some (resp, p') => (Some resp, <[id := p']> w)
      | None => (None, w)
      end
  end.

Lemma leads_term gid (p : PhysNode DB St) : leads gid p = true -> is_Some (term_of gid p).
Proof.
  unfold leads, term_of, IsLeader, live_state, getRaftState. destruct (raft_nodes_ p !! gid) as [rn|]; [|done].
  destruct (destroyed_ rn); [done|]. destruct (raft_state_ rn); [|done]. eauto.
Qed.

Lemma detect_hosted g c (w : World) p kv : w !! g = Some p -> local_nodes_ p !! g = Some kv -> g <> u32 (-1) ->
  exists r, cluster_serve g (detect_request c g) w = (r, w) /\
    (forall resp, r = Some resp -> rs_err resp = kNotALeader -> rs_leader_hint resp = kNoDetectLeader) /\
    match r with Some resp => bool_decide (rs_err resp = KvFormat.kOk) | None => false end = leads g p.
Proof.
  intros Hw Hl Hg. unfold cluster_serve. rewrite Hw. unfold registry_DealWithRequest, request_target. cbn [detect_request rq_group_id rq_type].
  rewrite (proj2 (Z.eqb_neq _ _) Hg), Hl. unfold deal_detect.
  change (rq_group_id (detect_request c g)) with g.
  pose proof (leads_term g p) as Ht. destruct (term_of g p) as [term|].
  - cbn [mbind option_bind]. eexists. split; [by rewrite insert_id|].
    split; [|destruct (leads g p); reflexivity]. intros resp [= <-]. by destruct (leads g p).
  - cbn [mbind option_bind]. exists None. split; [done|]. split; [done|]. destruct (leads g p); [|done]. by destruct Ht.
Qed.
End cluster.

(** What a get makes of the answer to its request: an error is passed on, and of a
    value only the form with one fragment, which the servers answer, is read. *)
Definition get_answer (resp : Response) : option (OperationResults * option Slice) :=
  if bool_decide (rs_err resp = KvFormat.kOk) then
    d ← DecodeString (rs_value resp);
    if ds_k d =? 1 then v ← read_value (ds_frag d); Some (mkOperationResults KvFormat.kOk 0 0, Some v)
    else Some (mkOperationResults kKVDecodeFail 0 0, None)
  else Some (mkOperationResults (rs_err resp) (rs_apply_elapse_time resp) 0, None).

(** [C33] A client asks one node per group, the one with the group's own number, as long as
    that node has a server for the group (without one the client follows a leader hint
    that was never set, see [unset_hint_crashes_client]). Let [g] be the group of the
    key. Whatever the other nodes would answer - [serve] is the cluster's service at
    node [g] and arbitrary elsewhere - a put finds the leader exactly if node [g] leads
    the group: then the put is node [g]'s answer to it, and otherwise the client is
    told [kNotALeader] and nothing changes, although another node may lead the group.
    A get does the same and reads the value from node [g]'s answer. The leader cache
    never holds another node. *)
Theorem Route_asks_one_node {DB : Type} {engine : StorageEngine DB} {St : Type} {store : Storage St} {isal : IsaL}
    {alloc : Allocator} {indet0 : Indeterminate} (unset : Response) (commits : nat -> Z) (elapse : Z)
    (rpc : Z -> Z -> bool) (fuel : nat) (n : Z) (c : KvServiceClient) (key value : Slice)
    (w : gmap Z (PhysNode DB St)) (p : PhysNode DB St) (kv : KvServer DB)
    (serve : Z -> Request -> gmap Z (PhysNode DB St) -> option Response * gmap Z (PhysNode DB St))
    (Hserve : forall req w, serve (GetGroupForKey key n) req w =
       cluster_serve unset commits elapse rpc fuel (GetGroupForKey key n) req w)
    (Hc : client_ok n c) (Hp : w !! GetGroupForKey key n = Some p)
    (Hhost : local_nodes_ p !! GetGroupForKey key n = Some kv) :
  let g := GetGroupForKey key n in
  let put := cluster_serve unset commits elapse rpc fuel g (mkRequest kPut (client_id c) 0 g key value) w in
  let get := cluster_serve unset commits elapse rpc fuel g (mkRequest kGet (client_id c) 0 g key []) w in
  let answer (r : option Response) := default (with_err kRPCCallFailed unset) r in
  0 <= g < n /\
  (exists c', client_ok n c' /\ RoutePut serve unset key value (c, w) =
     let resp := answer put.1 in
     if leads g p
     then Some (mkOperationResults (rs_err resp) (rs_apply_elapse_time resp) (rs_commit_elapse_time resp), (c', put.2))
     else Some (mkOperationResults kNotALeader 0 0, (c', w))) /\
  (exists c', client_ok n c' /\ RouteGet serve unset key (c, w) =
     if leads g p then a ← get_answer (answer get.1); Some (a, (c', get.2))
     else Some (mkOperationResults kNotALeader 0 0, None, (c', w))).
Proof.
  cbv zeta. set (g := GetGroupForKey key n) in *.
  destruct (numbered_ok n c Hc) as (Hn1 & Hs1 & Hi1 & Hl1). pose proof Hc as [_ Hs Hr Hcache].
  assert (0 <= g < n) as Hg by (by apply GetGroupForKey_range). split; [done|].
  assert (g <> kNoDetectLeader) as Hne by (change kNoDetectLeader with 4294967295; lia).
  assert (forall c', exists r, serve g (detect_request c' g) w = (r, w) /\
    (forall resp, r = Some resp -> rs_err resp = kNotALeader -> rs_leader_hint resp = kNoDetectLeader) /\
    match r with Some resp => bool_decide (rs_err resp = KvFormat.kOk) | None => false end = leads g p) as Hdet
    by (intros c'; rewrite Hserve; exact (detect_hosted unset commits elapse rpc fuel g c' w p kv Hp Hhost Hne)).
  destruct (DetectLeaderForGroup_run serve unset g (numbered c) w) as (cache & Hd & HF);
    [intros c'; destruct (Hdet c') as (r & H1 & H2 & _); exists r; split; [exact H1|exact H2]
     |rewrite Hs1; apply Hs; exact Hg|exact Hne|unfold cache_ok; rewrite Hl1; exact Hcache|].
  assert (answers_ok serve g (numbered c) w = leads g p) as Ha
    by (destruct (Hdet (numbered c)) as (r & Hr1 & _ & Hr3); unfold answers_ok; by rewrite Hr1).
  rewrite Ha in Hd. set (c2 := set_cache (fun _ => cache) (numbered c)) in Hd.
  assert (client_ok n c2) as Hok2 by (split; [by left|intros i Hi; cbn; rewrite Hs1; by apply Hs|done|done]).
  assert (forall req, DealWithRequest serve unset g req (c2, w) =
    let r := cluster_serve unset commits elapse rpc fuel g req w in
    Some (default (with_err kRPCCallFailed unset) r.1, (c2, r.2))) as Hcall.
  { intros req. unfold DealWithRequest. cbn [fst snd]. rewrite bool_decide_eq_true_2 by (cbn; rewrite Hs1; by apply Hs).
    rewrite Hserve. by destruct (cluster_serve _ _ _ _ _ _ req w) as [[resp|] w']. }
  split; exists c2; (split; [done|]); [unfold RoutePut|unfold RouteGet]; cbv zeta; rewrite (route_prefix serve unset n c w key _ Hc);
    fold g; unfold bind at 1; rewrite Hd; (destruct (leads g p); [|done]); rewrite (proj2 (Z.eqb_neq _ _) Hne);
    unfold bind at 1; rewrite Hcall, Hi1, Hn1; fold g; [done|].
  set (r := cluster_serve unset commits elapse rpc fuel g _ w). cbv zeta. unfold get_answer, bind, lift.
  case_bool_decide; [|done]. destruct (DecodeString _) as [d|]; [|done]. cbn [mbind option_bind].
  destruct (ds_k d =? 1); [|done]. by destruct (read_value (ds_frag d)).
Qed.

(** A node that has no server for the group answers with a leader hint that was
    never set, and the client follows the hint: unless the garbage happens to be the
    number of a node, or the number for none, both a put and a get of a key of that
    group dereference a null stub. *)
Theorem unset_hint_crashes_client {DB : Type} {engine : StorageEngine DB} {St : Type} {store : Storage St} {isal : IsaL}
    {alloc : Allocator} {indet0 : Indeterminate} (unset : Response) (commits : nat -> Z) (elapse : Z)
    (rpc : Z -> Z -> bool) (fuel : nat) (n : Z) (c : KvServiceClient) (key value : Slice)
    (w : gmap Z (PhysNode DB St)) (p : PhysNode DB St)
    (Hc : client_ok n c) (Hp : w !! GetGroupForKey key n = Some p)
    (Hhost : local_nodes_ p !! GetGroupForKey key n = None)
    (Hhint : rs_leader_hint unset ∉ servers c) (Hnone : rs_leader_hint unset <> kNoDetectLeader) :
  RoutePut (cluster_serve unset commits elapse rpc fuel) unset key value (c, w) = None /\
  RouteGet (cluster_serve unset commits elapse rpc fuel) unset key (c, w) = None.
Proof.
  set (serve := cluster_serve unset commits elapse rpc fuel). set (g := GetGroupForKey key n) in *.
  destruct (numbered_ok n c Hc) as (Hn1 & Hs1 & _ & Hl1). pose proof Hc as [_ Hs Hr Hcache].
  assert (0 <= g < n) as Hg by (by apply GetGroupForKey_range).
  assert (g <> kNoDetectLeader) as Hne by (change kNoDetectLeader with 4294967295; lia).
  assert (forall c', serve g (detect_request c' g) w = (Some (no_node unset (detect_request c' g)), w)) as Hserve.
  { intros c'. unfold serve, cluster_serve. rewrite Hp. unfold registry_DealWithRequest, request_target.
    change (rq_group_id (detect_request c' g)) with g. change (u32 (-1)) with kNoDetectLeader.
    rewrite (proj2 (Z.eqb_neq _ _) Hne), Hhost. by rewrite insert_id. }
  assert (forall c', servers c' = servers c -> DealWithRequest serve unset g (detect_request c' g) (c', w) =
    Some (no_node unset (detect_request c' g), (c', w))) as Hcall.
  { intros c' Hsc. unfold DealWithRequest. cbn [fst snd]. rewrite bool_decide_eq_true_2 by (rewrite Hsc; by apply Hs). by rewrite Hserve. }
  assert (forall c', has_hint (no_node unset (detect_request c' g)) = true) as Hhas.
  { intros c'. unfold has_hint. cbn. by rewrite (proj2 (Z.eqb_neq _ _) Hnone). }
  assert (forall c', servers c' = servers c -> probe_peers serve unset g [g] (c', w) = None) as Hpeers.
  { intros c' Hsc. cbn [probe_peers]. unfold bind at 1, the_client, gets. cbn [fst]. unfold bind at 1. rewrite Hcall by done.
    rewrite bool_decide_eq_false_2 by done. rewrite Hhas. unfold bind at 1, ProbeLeader. cbn [no_node reply_with rs_leader_hint].
    rewrite (proj2 (Z.eqb_neq _ _) Hnone). unfold bind at 1, the_client, gets. cbn [fst]. unfold bind at 1, DealWithRequest.
    cbn [fst snd]. rewrite bool_decide_eq_false_2; [done|]. by rewrite Hsc. }
  assert (DetectLeaderForGroup serve unset g (numbered c, w) = None) as Hd.
  { unfold DetectLeaderForGroup, try_cached. unfold bind at 1 2, the_client, gets. cbn [fst GetPeersForGroup].
    rewrite bool_decide_eq_true_2 by done. rewrite Hl1. destruct (group_to_leader_ c !! g) as [cached|] eqn:Ecache.
    - rewrite (Hcache g cached Ecache). rewrite (proj2 (Z.eqb_neq _ _) Hne). unfold bind at 1, ProbeLeader.
      rewrite (proj2 (Z.eqb_neq _ _) Hne). unfold bind at 1, the_client, gets. cbn [fst]. unfold bind at 1.
      rewrite Hcall by done. rewrite bool_decide_eq_false_2, Hhas by done.
      unfold when, UpdateLeaderCache, InvalidateLeaderCache, modify_client, modify, bind, ret. cbn [fst snd]. by apply Hpeers.
    - unfold ret. by apply Hpeers. }
  split; [unfold RoutePut|unfold RouteGet]; cbv zeta; rewrite (route_prefix serve unset n c w key _ Hc);
    fold g; unfold bind at 1; by rewrite Hd.
Qed.

(** ** Witnesses *)
Section witnesses.
#[local] Instance demo_alloc_client : Allocator := fun _ => true.
#[local] Instance demo_indet_client : Indeterminate := 0.
#[local] Existing Instance Gf256.isal.
Abbreviation Host := (PhysNode (gmap Slice Slice) MemStorage).

(** Three nodes; the key [97] is of group 1, which node [l] leads. *)
Definition demo_client : KvServiceClient := KvServiceClient_ctor [0; 1; 2] 7.
Definition garbage_response : Response := mkResponse kGet 0 0 0 kNotALeader 0 [] 0 0 4242 0 0.
Definition demo_server (id : Z) : KvServer (gmap Slice Slice) := mkKvServer (mkKvNode ∅ 0) ∅ false id [] [].
Definition demo_host (leader : bool) (id : Z) : Host :=
  mkPhysNode {[1 := demo_server id]}
    {[1 := set_raft_state (Some (if leader then put_leader else demo_node 0 None)) (RaftNode_ctor (mkNodeConfig 0 [0; 1; 2] None false 3 0 0))]}
    true kRsF.
Definition demo_cluster (leader : Z) : gmap Z Host := list_to_map ((fun i => (i, demo_host (i =? leader) i)) <$> [0; 1; 2]).

Lemma demo_client_ok : client_ok 3 demo_client.
Proof.
  split; [right; split; reflexivity| |lia|apply map_Forall_empty].
  intros i Hi. assert (i = 0 \/ i = 1 \/ i = 2) as [-> | [-> | ->]] by lia; apply (bool_decide_unpack _); vm_compute; exact I.
Qed.

(** Node 2 leads the group 1 and the client does not find it; node 1 does and answers. *)
Lemma Route_asks_one_node_witness : exists c',
  leads 1 (demo_host true 2) = true /\
  RoutePut (cluster_serve garbage_response (fun _ => 1) 100 (fun _ _ => true) 3) garbage_response [97] [9]
    (demo_client, demo_cluster 2) = Some (mkOperationResults kNotALeader 0 0, (c', demo_cluster 2)) /\
  fst <$> RouteGet (cluster_serve garbage_response (fun _ => 1) 100 (fun _ _ => true) 3) garbage_response [97]
    (demo_client, demo_cluster 1) = Some (mkOperationResults kKeyNotExist 0 0, None).
Proof.
  set (serve := cluster_serve garbage_response (fun _ => 1) 100 (fun _ _ => true) 3).
  destruct (Route_asks_one_node garbage_response (fun _ => 1) 100 (fun _ _ => true) 3 3 demo_client [97] [9]
    (demo_cluster 2) (demo_host false 1) (demo_server 1) serve (fun _ _ => eq_refl) demo_client_ok eq_refl eq_refl)
    as (_ & (c' & _ & H) & _).
  destruct (Route_asks_one_node garbage_response (fun _ => 1) 100 (fun _ _ => true) 3 3 demo_client [97] [9]
    (demo_cluster 1) (demo_host true 1) (demo_server 1) serve (fun _ _ => eq_refl) demo_client_ok eq_refl eq_refl)
    as (_ & _ & (c'' & _ & H')).
  exists c'. split; [reflexivity|]. split; [exact H|]. rewrite H'. vm_compute. reflexivity.
Defined.

Definition no_groups : Host := mkPhysNode ∅ ∅ true kRsF.

Lemma unset_hint_crashes_client_witness :
  RoutePut (cluster_serve garbage_response (fun _ => 1) 100 (fun _ _ => true) 3) garbage_response [97] [9]
    (demo_client, {[1 := no_groups]}) = None.
Proof.
  refine (proj1 (unset_hint_crashes_client garbage_response (fun _ => 1) 100 (fun _ _ => true) 3 3 demo_client [97] [9]
    {[1 := no_groups]} no_groups demo_client_ok eq_refl eq_refl _ _)).
  - apply (bool_decide_unpack _). vm_compute. exact I.
  - vm_compute. discriminate.
Defined.
End witnesses.
