(* ===== verification/Message.v ===== *)
(** The messages that flow between the actors of a node (src/multi-raft/message.h):
    what is sent to the FSM of a group and to its apply FSM, the topology of a stripe
    and the bundle of fragments of one proposal.

    A callback is the number it is known by, if it is set. [MsgRaftMessage],
    [MsgLocalEncodeRequest] and [MsgLocalEncodeResult] are read by no handler, but
    they travel with the others. *)

From S2P Require Import Prelude Types Encoder StripeApply.

Record ComplementarySet := mkComplementarySet {
  cs_initiator_id : Z;
  cs_complementary_groups : list Z
}.

Record GroupTopology := mkGroupTopology {
  gt_stripe_id : Z;
  gt_entry_id : Z;
  gt_data_groups : list Z;
  gt_global_parity_groups : list Z;
  gt_complementary_sets : list ComplementarySet;
  gt_local_k : Z;
  gt_r : Z;
  gt_has_global_parities : bool
}.

Abbreviation RoutingTable := (gmap Z GroupTopology).

Record ShardBundle := mkShardBundle {
  sb_entry_id : Z;
  sb_stripe_id : Z;
  sb_group_id : Z;
  sb_local_data_shards : list Slice;
  sb_local_parity : Slice;
  sb_global_parities : list Slice;
  sb_original_size : Z;
  sb_all_fragments : list Slice;
  sb_placement : list FragmentPlacement;
  sb_encoding_mode : Z
}.

Inductive PeerMsg :=
| MsgRaftMessage (payload : Slice)
| MsgProposeShard (bundle : ShardBundle) (cb : option Z)
| MsgTick
| MsgShardCommitAck (entry_id from_group : Z)
| MsgStop
| MsgLocalEncodeRequest (entry_id stripe_id from_group target_group : Z) (data_frags : list Slice) (cb : option Z)
| MsgLocalEncodeResult (entry_id stripe_id group_id : Z) (success : bool) (bundle : ShardBundle)
| MsgRoutingTableSync (routes : RoutingTable) (ttl : Z)
| MsgRoutingTableUpdate (stripe_id entry_id : Z) (groups : list Z) (has_global_parities : bool)
    (global_parity_groups : list Z)
| MsgWriteRequest (data : Slice) (cb : option Z)
| MsgGroupIdUpdate (old_group_id new_group_id : Z) (cb : option Z).

Inductive ApplyMsg :=
| ApplyCommitted (m : MsgApplyCommitted)
| MsgApplyStop.
