(* ===== verification/BatchSystem.v ===== *)
(** The batch system of a node (BatchSystem in src/multi-raft/raft_store.h and
    raft_store_batch.cc): a few threads that take the messages out of the mailboxes
    and run the FSM of each group on them.

    A thread is a program counter over the loop of [PeerPollLoop] or [ApplyPollLoop];
    one step takes a batch out of a mailbox, handles one message or moves on, and
    the steps of the threads interleave with the senders, with [Stop] and with late
    registrations. [bounds] is the range of entries a thread visits: its part of the
    partition for the peers, all of them for the apply threads. [po_sent] and
    [po_done] record what was sent and handled, for the statements. *)

From S2P Require Import Prelude Types Bytes StripeFormat KvFormat Engine LogManager Encoder Lrc Grouper Storage StripeApply StripeRead PersistQueue Monitors RaftBase RaftEncode RaftCore StripeStore Message.

(** ** The partition *)
Fixpoint build_parts (n i base rem pos : nat) : list (nat * nat) :=
  match n with
  | O => []
  | S n =>
      let part_len := (base + if i <? rem then 1 else 0)%nat in
      (pos, pos + part_len)%nat :: build_parts n (S i) base rem (pos + part_len)
  end%nat.

(** [BuildPartitions], for the peers or for the apply entries; with no entry every
    part stays [0, 0). [resize] throws on a negative number of threads. *)
Definition BuildPartitions (threads : Z) (total : nat) : option (list (nat * nat)) :=
  if threads <? 0 then None else
  let n := Z.to_nat threads in
  if (threads =? 0) || (total =? 0)%nat then Some (replicate n (0, 0)%nat)
  else Some (build_parts n 0 (total / n) (total mod n) 0).

(** ** The poll loops *)
Section poll.
Context {Msg F G : Type} (is_stop : Msg -> bool) (handle : Msg -> F -> G -> option (F * G)) (max_batch : nat)
  (bounds : nat -> nat -> nat * nat).

Record Entry := mkEntry { en_mb : Mailbox Msg; en_fsm : F }.

Inductive pc :=
| Top
| Visit (idx : nat) (did_work : bool)
| Handling (idx : nat) (batch : list Msg)
| Waiting (idx : nat)
| Exited.

Record Poll := mkPoll {
  po_running : bool;
  po_entries : list Entry;
  po_threads : list pc;
  po_shared : G;
  po_done : list (nat * Msg);
  po_sent : list (nat * Msg)
}.
Implicit Types (s : Poll).

Definition set_pc (t : nat) (c : pc) s : Poll :=
  mkPoll (po_running s) (po_entries s) (<[t := c]> (po_threads s)) (po_shared s) (po_done s) (po_sent s).
Definition set_entry (i : nat) (e : Entry) s : Poll :=
  mkPoll (po_running s) (<[i := e]> (po_entries s)) (po_threads s) (po_shared s) (po_done s) (po_sent s).

(** One message of [HandleBatch]. After a stop message the rest of the batch is
    dropped; the loop does not look at the answer. *)
Definition handle_one (t idx : nat) (m : Msg) (batch : list Msg) s : option Poll :=
  if is_stop m then Some (set_pc t (Visit (S idx) true) s) else
  e ← po_entries s !! idx;
  r ← handle m (en_fsm e) (po_shared s);
  Some (mkPoll (po_running s) (<[idx := mkEntry (en_mb e) r.1]> (po_entries s)) (<[t := Handling idx batch]> (po_threads s))
    r.2 (po_done s ++ [(idx, m)]) (po_sent s)).

(** One step of thread [t]. A wait ends by a message or by its timeout. *)
Definition poll_step (t : nat) s : option Poll :=
  let '(first, last) := bounds t (length (po_entries s)) in
  c ← po_threads s !! t;
  match c with
  | Top => Some (set_pc t (if po_running s then Visit first false else Exited) s)
  | Visit idx did_work =>
      if (idx <? last)%nat then
        e ← po_entries s !! idx;
        let '(batch, mb) := drain max_batch (en_mb e) in
        match batch with
        | [] => Some (set_pc t (Visit (S idx) did_work) s)
        | _ => Some (set_pc t (Handling idx batch) (set_entry idx (mkEntry mb (en_fsm e)) s))
        end
      else Some (set_pc t (if did_work then Top else Waiting first) s)
  | Handling idx [] => Some (set_pc t (Visit (S idx) true) s)
  | Handling idx (m :: batch) => handle_one t idx m batch s
  | Waiting idx => Some (set_pc t (if (idx <? last)%nat then Waiting (S idx) else Top) s)
  | Exited => None
  end.

(** [None]: there is no such entry, or the sender waits for room. *)
Definition send (i : nat) (m : Msg) s : option Poll :=
  e ← po_entries s !! i;
  mb ← push m (en_mb e);
  Some (mkPoll (po_running s) (<[i := mkEntry mb (en_fsm e)]> (po_entries s)) (po_threads s) (po_shared s) (po_done s)
    (po_sent s ++ [(i, m)])).

(** One round of [TickLoop]: a message to every entry, in order. *)
Definition TickLoop_round (tick : Msg) s : option Poll :=
  if po_running s then foldl (fun acc i => s ← acc; send i tick s) (Some s) (seq 0 (length (po_entries s))) else Some s.
Definition IsAnyMailboxNearlyFull s : bool := existsb (fun e => nearly_full (en_mb e)) (po_entries s).

(** [RegisterPeer], [RegisterApply]. *)
Definition register (capacity : Z) (f : F) s : Poll :=
  mkPoll (po_running s) (po_entries s ++ [mkEntry (mkMailbox capacity []) f]) (po_threads s) (po_shared s) (po_done s)
    (po_sent s).
Definition halt s : Poll :=
  mkPoll false (po_entries s) (po_threads s) (po_shared s) (po_done s) (po_sent s).

Inductive act := Send (i : nat) (m : Msg) | Run (t : nat) | Register (capacity : Z) (f : F) | Halt.
Definition do_act (a : act) s : option Poll :=
  match a with
  | Send i m => send i m s
  | Run t => poll_step t s
  | Register c f => Some (register c f s)
  | Halt => Some (halt s)
  end.
Fixpoint do_acts (acts : list act) s : option Poll :=
  match acts with [] => Some s | a :: acts => s ← do_act a s; do_acts acts s end.

(** The state right after [Start], with the registered FSMs. *)
Definition started (threads : nat) (capacity : Z) (fsms : list F) (g : G) : Poll :=
  mkPoll true ((fun f => mkEntry (mkMailbox capacity []) f) <$> fsms) (replicate threads Top) g [] [].
End poll.
Arguments mkEntry {Msg F}.
Arguments en_mb {Msg F}.
Arguments en_fsm {Msg F}.
Arguments Top {Msg}.
Arguments Visit {Msg}.
Arguments Handling {Msg}.
Arguments Waiting {Msg}.
Arguments Exited {Msg}.
Arguments Entry : clear implicits.
Arguments Poll : clear implicits.
Arguments mkPoll {Msg F G}.
Arguments po_running {Msg F G}.
Arguments po_entries {Msg F G}.
Arguments po_threads {Msg F G}.
Arguments po_shared {Msg F G}.
Arguments po_done {Msg F G}.
Arguments po_sent {Msg F G}.
Arguments Send {Msg F}.
Arguments Run {Msg F}.
Arguments Register {Msg F}.
Arguments Halt {Msg F}.

(** The messages of entry [i] among [l], and what its mailbox holds. *)
Definition of_entry {A} (i : nat) (l : list (nat * A)) : list A :=
  omap (fun p => if decide (fst p = i) then Some (snd p) else None) l.
Definition queued {Msg F G} (i : nat) (s : Poll Msg F G) : list Msg :=
  match po_entries s !! i with Some e => q_ (en_mb e) | None => [] end.
(** The messages thread [t] took out of entry [i] and has not handled yet. *)
Definition in_hand {Msg F G} (t i : nat) (s : Poll Msg F G) : list Msg :=
  match po_threads s !! t with Some (Handling idx batch) => if decide (idx = i) then batch else [] | _ => [] end.

Lemma of_entry_snoc {A} (i j : nat) (m : A) l :
  of_entry i (l ++ [(j, m)]) = of_entry i l ++ (if decide (j = i) then [m] else []).
Proof. unfold of_entry. rewrite omap_app. cbn. by case_decide. Qed.

Definition place {Msg} (c : pc (Msg := Msg)) : option nat :=
  match c with Visit idx _ | Handling idx _ => Some idx | _ => None end.

(** ** Stopping *)

(** [Stop] clears [running_] before it pushes the stop messages: threads that see it
    first leave, and nobody makes room in a mailbox that is full. *)
Section stopping.
Context {Msg F G : Type} (is_stop : Msg -> bool) (handle : Msg -> F -> G -> option (F * G)) (max_batch : nat)
  (bounds : nat -> nat -> nat * nat).

Lemma send_all (m : Msg) (f : F) (c : nat) th g done : forall sent k, (k <= c)%nat -> (0 < c)%nat ->
  do_acts is_stop handle max_batch bounds (replicate k (Send 0 m))
    (mkPoll true [mkEntry (mkMailbox (Z.of_nat c) (replicate (c - k) m)) f] th g done sent) =
  Some (mkPoll true [mkEntry (mkMailbox (Z.of_nat c) (replicate c m)) f] th g done (sent ++ replicate k (0%nat, m))).
Proof.
  intros sent k. revert sent. induction k as [|k IH]; intros sent Hk Hc; cbn [replicate do_acts].
  - by rewrite Nat.sub_0_r, app_nil_r.
  - unfold do_act, send, push. cbn -[Z.leb]. rewrite length_replicate, (proj2 (Z.leb_gt _ _)), andb_false_r by lia. cbn.
    change (replicate (c - S k) m ++ [m]) with (replicate (c - S k) m ++ replicate 1 m).
    rewrite <- replicate_add. replace (c - S k + 1)%nat with (c - k)%nat by lia.
    rewrite IH by lia. by rewrite <- app_assoc.
Qed.

Lemma leave t s : po_threads s !! t = Some Top -> po_running s = false ->
  poll_step is_stop handle max_batch bounds t s = Some (set_pc t Exited s).
Proof. intros Ht Hr. unfold poll_step. destruct (bounds _ _). rewrite Ht. cbn. by rewrite Hr. Qed.

(** A mailbox is full when [Stop] is called: both threads may leave before it pushes,
    then the push waits, and no step of a thread is left that could end the wait. *)
Theorem Stop_waits_forever (m stop_msg : Msg) (f : F) (g : G) (c : nat) (Hc : (0 < c)%nat) :
  exists s, do_acts is_stop handle max_batch bounds (replicate c (Send 0 m) ++ [Halt; Run 0; Run 1])
              (started 2 (Z.of_nat c) [f] g) = Some s /\
    send 0 stop_msg s = None /\ forall t, poll_step is_stop handle max_batch bounds t s = None.
Proof.
  pose proof (send_all m f c [Top; Top] g [] [] c) as Hs. rewrite Nat.sub_diag in Hs. cbn in Hs.
  assert (forall l l' s, do_acts is_stop handle max_batch bounds (l ++ l') s =
    (s ← do_acts is_stop handle max_batch bounds l s; do_acts is_stop handle max_batch bounds l' s)) as Happ.
  { induction l as [|a l IH]; intros l' s; [done|]. cbn. destruct (do_act _ _ _ _ a s); [apply IH|done]. }
  rewrite Happ. unfold started. cbn [replicate fmap list_fmap]. rewrite Hs by lia. cbn [mbind option_bind do_acts do_act].
  rewrite leave by done. cbn [mbind option_bind]. rewrite leave by done. cbn. eexists. split; [done|]. split.
  - unfold send, push. cbn -[Z.leb Z.ltb]. rewrite length_replicate, Z.leb_refl, (proj2 (Z.ltb_lt _ _)) by lia. done.
  - intros t. unfold poll_step. destruct (bounds _ _). cbn. by destruct t as [|[|t]].
Qed.
End stopping.

(** ** Order: an entry that one thread alone visits is handled in order *)
Section order.
Context {Msg F G : Type} {is_stop : Msg -> bool} {handle : Msg -> F -> G -> option (F * G)} {max_batch : nat}
  {bounds : nat -> nat -> nat * nat}.
Context (i owner threads : nat).
Hypothesis first_fixed : forall t n n', fst (bounds t n) = fst (bounds t n').
Hypothesis one_owner : forall t n, (t < threads)%nat -> (fst (bounds t n) <= i < snd (bounds t n))%nat -> t = owner.
Implicit Types (s : Poll Msg F G).

Record ordered s : Prop := {
  ord_threads : length (po_threads s) = threads;
  ord_visit : forall t c idx, po_threads s !! t = Some c -> place c = Some idx -> (fst (bounds t 0) <= idx)%nat;
  ord_hand : forall t batch, po_threads s !! t = Some (Handling i batch) -> t = owner;
  ord_fifo : Forall (fun m => is_stop m = false) (of_entry i (po_sent s)) ->
    of_entry i (po_sent s) = of_entry i (po_done s) ++ in_hand owner i s ++ queued i s
}.

Lemma ordered_started capacity fsms g : ordered (started threads capacity fsms g).
Proof.
  split; cbn.
  - apply length_replicate.
  - by intros t c idx [-> _]%lookup_replicate.
  - by intros t b [[= ->] _]%lookup_replicate.
  - intros _. unfold in_hand, queued. cbn.
    destruct (replicate threads Top !! owner) as [c|] eqn:E; [apply lookup_replicate in E as [-> _]|];
      rewrite list_lookup_fmap; by destruct (fsms !! i).
Qed.

(** The thread moves to a place where it holds nothing. *)
Lemma ordered_set_pc t c s :
  ordered s -> in_hand t i s = [] -> (forall idx b, c <> Handling idx b) ->
  (forall idx, place c = Some idx -> (fst (bounds t 0) <= idx)%nat) -> ordered (set_pc t c s).
Proof.
  intros [HT Hv Hh Hf] Hnil Hc Hvis. split; cbn -[of_entry in_hand queued]; [by rewrite length_insert| | |].
  - intros t' c' idx. rewrite list_lookup_insert_Some. intros [(<- & <- & _)|[_ H]]; [by apply Hvis|by eapply Hv].
  - intros t' b. rewrite list_lookup_insert_Some. intros [(_ & -> & _)|[_ H]]; [by destruct (Hc i b)|by eapply Hh].
  - intros HF. rewrite (Hf HF). f_equal. change (queued i (set_pc t c s)) with (queued i s). f_equal. unfold in_hand in *. cbn.
    destruct (decide (t = owner)) as [->|Hne].
    + rewrite Hnil. destruct (decide (owner < length (po_threads s))%nat) as [Hlt|Hge].
      * rewrite list_lookup_insert_eq by done. destruct c; try done. by destruct (Hc idx batch).
      * by rewrite list_insert_ge, Hnil by lia.
    + by rewrite list_lookup_insert_ne.
Qed.

(** Thread [t] now holds [batch] of entry [idx]. *)
Lemma in_hand_insert t idx batch s j :
  (t < length (po_threads s))%nat ->
  match (<[t := Handling idx batch]> (po_threads s)) !! t with
  | Some (Handling idx batch) => if decide (idx = j) then batch else []
  | _ => []
  end = if decide (idx = j) then batch else [].
Proof. intros. by rewrite list_lookup_insert_eq. Qed.

Lemma ordered_drain t idx w e s :
  ordered s -> po_threads s !! t = Some (Visit idx w) -> (idx < snd (bounds t (length (po_entries s))))%nat ->
  po_entries s !! idx = Some e ->
  ordered (set_pc t (Handling idx (take max_batch (q_ (en_mb e))))
             (set_entry idx (mkEntry (drain max_batch (en_mb e)).2 (en_fsm e)) s)).
Proof.
  intros [HT Hv Hh Hf] Ht Hlt He.
  assert (idx = i -> t = owner) as Hown.
  { intros ->. eapply one_owner; [rewrite <- HT; by eapply lookup_lt_Some|]. split; [|exact Hlt]. rewrite (first_fixed _ _ 0%nat). by apply (Hv _ _ _ Ht). }
  pose proof (lookup_lt_Some _ _ _ Ht) as Htl. pose proof (lookup_lt_Some _ _ _ He) as Hel.
  split; cbn -[of_entry in_hand queued]; [by rewrite length_insert| | |].
  - intros t' c idx'. rewrite list_lookup_insert_Some.
    intros [(<- & <- & _)|[_ H]]; [intros [= <-]; by apply (Hv _ _ _ Ht)|by eapply Hv].
  - intros t' b. rewrite list_lookup_insert_Some. intros [(<- & [= ->] & _)|[_ H]]; [by apply Hown|by eapply Hh].
  - intros HF. rewrite (Hf HF). f_equal. unfold in_hand, queued. cbn.
    destruct (decide (idx = i)) as [->|Hne].
    + rewrite <- (Hown eq_refl), Ht, (list_lookup_insert_eq _ t), decide_True, (list_lookup_insert_eq _ i), He by done.
      cbn. by rewrite take_drop.
    + rewrite (list_lookup_insert_ne _ idx i) by done. f_equal.
      destruct (decide (t = owner)) as [<-|Hne'].
      * by rewrite Ht, list_lookup_insert_eq, decide_False by done.
      * by rewrite list_lookup_insert_ne.
Qed.

Lemma ordered_handled t idx m batch e f g s :
  ordered s -> po_threads s !! t = Some (Handling idx (m :: batch)) -> po_entries s !! idx = Some e ->
  ordered (mkPoll (po_running s) (<[idx := mkEntry (en_mb e) f]> (po_entries s))
             (<[t := Handling idx batch]> (po_threads s)) g (po_done s ++ [(idx, m)]) (po_sent s)).
Proof.
  intros [HT Hv Hh Hf] Ht He.
  pose proof (lookup_lt_Some _ _ _ Ht) as Htl. pose proof (lookup_lt_Some _ _ _ He) as Hel.
  split; cbn -[of_entry in_hand queued]; [by rewrite length_insert| | |].
  - intros t' c idx'. rewrite list_lookup_insert_Some.
    intros [(<- & <- & _)|[_ H]]; [intros [= <-]; by apply (Hv _ _ _ Ht)|by eapply Hv].
  - intros t' b. rewrite list_lookup_insert_Some. intros [(<- & [= ->] & _)|[_ H]]; by eapply Hh.
  - intros HF. rewrite (Hf HF), of_entry_snoc, <- app_assoc. f_equal. unfold in_hand, queued. cbn.
    destruct (decide (idx = i)) as [->|Hne].
    + rewrite <- (Hh _ _ Ht), Ht, (list_lookup_insert_eq _ t), (list_lookup_insert_eq _ i), He, !decide_True by done.
      done.
    + rewrite (list_lookup_insert_ne _ idx i) by done. cbn. f_equal.
      destruct (decide (t = owner)) as [<-|Hne'].
      * by rewrite Ht, list_lookup_insert_eq, !decide_False by done.
      * by rewrite list_lookup_insert_ne.
Qed.

Lemma ordered_send j m s s' : ordered s -> send j m s = Some s' -> ordered s'.
Proof.
  intros [HT Hv Hh Hf] H. unfold send in H.
  apply option.bind_Some in H as (e & He & (mb & Hp & [= <-])%option.bind_Some).
  pose proof (lookup_lt_Some _ _ _ He) as Hel.
  split; [done|done|done|]. cbn -[of_entry in_hand queued]. rewrite of_entry_snoc. intros [HF _]%Forall_app.
  rewrite (Hf HF), <- !app_assoc. f_equal. unfold in_hand, queued. cbn. f_equal.
  unfold push in Hp. case_match; [done|]. injection Hp as <-.
  destruct (decide (j = i)) as [->|Hne].
  - by rewrite list_lookup_insert_eq, He.
  - by rewrite list_lookup_insert_ne, app_nil_r.
Qed.

Lemma ordered_register c f s : ordered s -> ordered (register c f s).
Proof.
  intros [HT Hv Hh Hf]. split; [done|done|done|]. cbn -[of_entry in_hand queued]. intros HF. rewrite (Hf HF). f_equal.
  change (in_hand owner i (register c f s)) with (in_hand owner i s). f_equal. unfold queued. cbn. destruct (decide (i < length (po_entries s))%nat) as [Hlt|Hge].
  - by rewrite lookup_app_l.
  - rewrite lookup_app_r, (lookup_ge_None_2 (po_entries s)) by lia.
    destruct (i - length (po_entries s))%nat as [|n]; [done|]. by destruct n.
Qed.

Lemma in_hand_empty t s : (forall batch, po_threads s !! t <> Some (Handling i batch)) -> in_hand t i s = [].
Proof.
  intros H. unfold in_hand. destruct (po_threads s !! t) as [[]|] eqn:E; try done.
  case_decide as Hd; [subst; by destruct (H batch)|done].
Qed.

(** A stop message drops the rest of its batch: then one was sent. *)
Lemma ordered_stopped t idx m batch s :
  ordered s -> po_threads s !! t = Some (Handling idx (m :: batch)) -> is_stop m = true ->
  ordered (set_pc t (Visit (S idx) true) s).
Proof.
  intros Ho Ht Hm. destruct (decide (idx = i)) as [->|Hne].
  - destruct Ho as [HT Hv Hh Hf]. pose proof (Hv _ _ _ Ht eq_refl) as Hge. split; cbn -[of_entry in_hand queued]; [by rewrite length_insert| | |].
    + intros t' c idx. rewrite list_lookup_insert_Some.
      intros [(<- & <- & _)|[_ H]]; [intros [= <-]; lia|by eapply Hv].
    + intros t' b. rewrite list_lookup_insert_Some. intros [(_ & ? & _)|[_ H]]; [done|by eapply Hh].
    + intros HF. pose proof (Hf HF) as E. rewrite E in HF. unfold in_hand in HF.
      rewrite <- (Hh _ _ Ht), Ht, decide_True in HF by done.
      apply Forall_app in HF as [_ [[HF _]%Forall_cons _]%Forall_app]. congruence.
  - apply ordered_set_pc; [done| |done|].
    + apply in_hand_empty. intros b. rewrite Ht. congruence.
    + intros ? [= <-]. pose proof (ord_visit _ Ho _ _ _ Ht eq_refl). lia.
Qed.

Lemma ordered_step t s s' : ordered s -> poll_step is_stop handle max_batch bounds t s = Some s' -> ordered s'.
Proof.
  intros Ho H. unfold poll_step in H. destruct (bounds t _) as [first last] eqn:Eb.
  assert (first = fst (bounds t 0)) as Hfst by (rewrite (first_fixed t 0%nat (length (po_entries s))); by rewrite Eb).
  apply option.bind_Some in H as (c & Ht & H).
  assert (forall c', (forall idx b, c' <> Handling idx b) ->
    (forall idx, place c' = Some idx -> (fst (bounds t 0) <= idx)%nat) ->
    (forall b, c <> Handling i b) \/ c = Handling i [] -> ordered (set_pc t c' s)) as Hmove.
  { intros c' Hc Hv Hb. apply ordered_set_pc; try done. destruct Hb as [Hb| ->].
    - apply in_hand_empty. intros b. rewrite Ht. intros [= ->]. by apply (Hb b).
    - unfold in_hand. rewrite Ht. by case_decide. }
  assert (forall idx, place c = Some idx -> (fst (bounds t 0) <= idx)%nat) as Hge by exact (fun idx => ord_visit _ Ho _ _ idx Ht).
  destruct c as [|idx w|idx [|m batch]|idx|]; [| | | | |done].
  - injection H as <-. apply Hmove; [by destruct (po_running s)| |by left].
    intros idx. destruct (po_running s); [|done]. intros [= <-]. lia.
  - specialize (Hge _ eq_refl). case_match eqn:El.
    + apply Nat.ltb_lt in El. apply option.bind_Some in H as (e & He & H). cbn in H.
      destruct (take max_batch _) as [|m b] eqn:Etake; injection H as <-.
      * apply Hmove; [done| |by left]. intros ? [= <-]. lia.
      * rewrite <- Etake. eapply ordered_drain; [done|done|by rewrite Eb|done].
    + injection H as <-. apply Hmove; [by destruct w|by destruct w|by left].
  - specialize (Hge _ eq_refl). injection H as <-. apply Hmove; [done|intros ? [= <-]; lia|].
    destruct (decide (idx = i)) as [->|]; [by right|left; congruence].
  - unfold handle_one in H. case_match; [injection H as <-; by eapply ordered_stopped|].
    apply option.bind_Some in H as (e & He & (r & _ & [= <-])%option.bind_Some). by eapply ordered_handled.
  - injection H as <-. apply Hmove; [by case_match|by case_match|by left].
Qed.

Lemma ordered_acts acts s s' : ordered s -> do_acts is_stop handle max_batch bounds acts s = Some s' -> ordered s'.
Proof.
  revert s. induction acts as [|a acts IH]; intros s Ho; cbn; [by intros [= <-]|].
  intros (s1 & Ha & H)%option.bind_Some. apply (IH s1); [|done].
  destruct a; cbn in Ha; [by eapply ordered_send|by eapply ordered_step| |]; injection Ha as <-.
  - by apply ordered_register.
  - destruct Ho as [HT Hv Hh Hf]. by split.
Qed.
End order.

(** An FSM that works on its own state only has run on the messages handled. *)
Section fsm.
Context {Msg F G : Type} {is_stop : Msg -> bool} {handle : Msg -> F -> G -> option (F * G)} {max_batch : nat}
  {bounds : nat -> nat -> nat * nat} (h : Msg -> F -> option F).
Hypothesis handle_own : forall m f g, handle m f g = (f' ← h m f; Some (f', g)).
Implicit Types (s : Poll Msg F G).

Fixpoint run_fsm (ms : list Msg) (f : F) : option F :=
  match ms with [] => Some f | m :: ms => f ← h m f; run_fsm ms f end.

Lemma run_fsm_app ms ms' f : run_fsm (ms ++ ms') f = (f ← run_fsm ms f; run_fsm ms' f).
Proof. revert f. induction ms as [|m ms IH]; intros f; cbn; [done|]. by destruct (h m f) as [f'|]; cbn. Qed.

Definition has_run (i : nat) (f : F) s : Prop :=
  exists e, po_entries s !! i = Some e /\ run_fsm (of_entry i (po_done s)) f = Some (en_fsm e).

Lemma has_run_started threads capacity fsms g i f :
  fsms !! i = Some f -> has_run i f (started threads capacity fsms g).
Proof. intros H. eexists. cbn. by rewrite list_lookup_fmap, H. Qed.

Lemma has_run_step i f t s s' :
  has_run i f s -> poll_step is_stop handle max_batch bounds t s = Some s' -> has_run i f s'.
Proof.
  intros (e0 & He0 & Hrun) H. unfold poll_step in H. destruct (bounds t _) as [first last].
  apply option.bind_Some in H as (c & Ht & H).
  destruct c as [|idx w|idx [|m batch]|idx|]; try (injection H as <-; by exists e0); [| |done].
  - case_match; [|injection H as <-; by exists e0].
    apply option.bind_Some in H as (e & He & H). cbn in H. destruct (take max_batch _); injection H as <-; [by exists e0|].
    destruct (decide (idx = i)) as [->|Hne].
    + assert (e = e0) as -> by congruence. eexists. cbn -[of_entry]. rewrite list_lookup_insert_eq by (by eapply lookup_lt_Some).
      by split.
    + exists e0. cbn -[of_entry]. by rewrite list_lookup_insert_ne.
  - unfold handle_one in H. case_match; [injection H as <-; by exists e0|].
    apply option.bind_Some in H as (e & He & (r & Hr & [= <-])%option.bind_Some).
    rewrite handle_own in Hr. apply option.bind_Some in Hr as (f' & Hf' & [= <-]).
    destruct (decide (idx = i)) as [->|Hne].
    + assert (e = e0) as -> by congruence. eexists. cbn -[of_entry]. rewrite list_lookup_insert_eq by (by eapply lookup_lt_Some).
      split; [done|]. rewrite of_entry_snoc, decide_True, run_fsm_app, Hrun by done. cbn. by rewrite Hf'.
    + exists e0. cbn -[of_entry]. by rewrite list_lookup_insert_ne, of_entry_snoc, decide_False, app_nil_r.
Qed.

Lemma has_run_acts acts s s' i f :
  has_run i f s -> do_acts is_stop handle max_batch bounds acts s = Some s' -> has_run i f s'.
Proof.
  revert s. induction acts as [|a acts IH]; intros s Ho; cbn; [by intros [= <-]|].
  intros (s1 & Ha & H)%option.bind_Some. apply (IH s1); [|done].
  destruct a as [j m| |c f1|]; cbn in Ha; [|by eapply has_run_step|injection Ha as <-..].
  - destruct Ho as (e0 & He0 & Hrun). unfold send in Ha.
    apply option.bind_Some in Ha as (e & He & (mb & _ & [= <-])%option.bind_Some).
    destruct (decide (j = i)) as [->|Hne].
    + assert (e = e0) as -> by congruence. eexists. cbn -[of_entry]. by rewrite list_lookup_insert_eq by (by eapply lookup_lt_Some).
    + exists e0. cbn -[of_entry]. by rewrite list_lookup_insert_ne.
  - destruct Ho as (e0 & He0 & Hrun). exists e0. split; [|done]. cbn. by apply lookup_app_l_Some.
  - destruct Ho as (e0 & He0 & Hrun). by exists e0.
Qed.
End fsm.

(** ** The partition gives every entry to one thread *)
Lemma build_parts_lookup n i base rem pos t :
  (t < n)%nat -> build_parts n i base rem pos !! t =
    Some (pos + t * base + Nat.min t (rem - i), pos + S t * base + Nat.min (S t) (rem - i))%nat.
Proof.
  revert i pos t. induction n as [|n IH]; intros i pos t Ht; [lia|]. cbn [build_parts].
  destruct t as [|t]; cbn [lookup list_lookup].
  - destruct (Nat.ltb_spec i rem); f_equal; f_equal; lia.
  - rewrite IH by lia. destruct (Nat.ltb_spec i rem); f_equal; f_equal; lia.
Qed.

Definition part_start (total n t : nat) : nat := (t * (total / n) + Nat.min t (total mod n))%nat.

Lemma part_start_mono total n t t' : (t <= t')%nat -> (part_start total n t <= part_start total n t')%nat.
Proof. unfold part_start. intros. nia. Qed.

Lemma part_start_last total n : n <> 0%nat -> part_start total n n = total.
Proof.
  intros Hn. unfold part_start. pose proof (Nat.mod_upper_bound total n Hn). pose proof (Nat.div_mod_eq total n). nia.
Qed.

Lemma BuildPartitions_lookup threads total parts t :
  BuildPartitions threads total = Some parts -> total <> 0%nat -> (t < Z.to_nat threads)%nat ->
  parts !! t = Some (part_start total (Z.to_nat threads) t, part_start total (Z.to_nat threads) (S t)).
Proof.
  unfold BuildPartitions. intros H Ht Hlt. case_match eqn:E; [done|]. apply Z.ltb_ge in E.
  rewrite (proj2 (Nat.eqb_neq total 0)), orb_false_r in H by done.
  destruct (threads =? 0) eqn:E0; [apply Z.eqb_eq in E0; lia|]. injection H as <-.
  rewrite build_parts_lookup by done. unfold part_start. f_equal. f_equal; lia.
Qed.

(** The thread that gets entry [i]. *)
Lemma part_start_owner total n i :
  (i < part_start total n n)%nat -> exists t, (t < n)%nat /\ (part_start total n t <= i < part_start total n (S t))%nat.
Proof.
  assert (forall m, (i < part_start total n m)%nat -> exists t, (t < m)%nat /\
    (part_start total n t <= i < part_start total n (S t))%nat) as H; [|apply H].
  induction m as [|m IH]; intros Hi; [unfold part_start in Hi; lia|].
  destruct (decide (i < part_start total n m)%nat) as [Hlt|Hge].
  - destruct (IH Hlt) as (t & Ht & H). exists t. split; [lia|done].
  - exists m. split; lia.
Qed.

(** ** The peers: every thread has its part *)

(** [peer_part_start_] and [peer_part_end_] of the thread. *)
Definition peer_bounds (parts : list (nat * nat)) (t n : nat) : nat * nat :=
  match parts !! t with Some part => part | None => (0, n)%nat end.
(** [ApplyPollLoop]: every thread visits every entry there is. *)
Definition apply_bounds (t n : nat) : nat * nat := (0, n)%nat.

Lemma peer_bounds_fixed parts t n n' : fst (peer_bounds parts t n) = fst (peer_bounds parts t n').
Proof. unfold peer_bounds. by destruct (parts !! t). Qed.

(** A part that holds [i] belongs to the thread that owns [i]. *)
Lemma peer_bounds_owner threads total parts i t n :
  BuildPartitions threads total = Some parts -> (t < Z.to_nat threads)%nat ->
  (fst (peer_bounds parts t n) <= i < snd (peer_bounds parts t n))%nat ->
  (i < total)%nat /\ (part_start total (Z.to_nat threads) t <= i < part_start total (Z.to_nat threads) (S t))%nat.
Proof.
  intros HB Ht. unfold peer_bounds. destruct (decide (total = 0%nat)) as [->|Hne].
  - unfold BuildPartitions in HB. case_match; [done|]. rewrite orb_true_r in HB. injection HB as <-.
    rewrite lookup_replicate_2 by done. cbn. lia.
  - rewrite (BuildPartitions_lookup _ _ _ _ HB) by done. cbn [fst snd]. intros Hi. split; [|done].
    pose proof (part_start_mono total (Z.to_nat threads) (S t) (Z.to_nat threads) ltac:(lia)) as Hm.
    rewrite part_start_last in Hm by lia. lia.
Qed.

Lemma part_owner_unique total n i t t' :
  (part_start total n t <= i < part_start total n (S t))%nat ->
  (part_start total n t' <= i < part_start total n (S t'))%nat -> t = t'.
Proof.
  intros Hi Hi'. destruct (Nat.lt_trichotomy t t') as [Hlt|[->|Hlt]]; [|done|].
  - pose proof (part_start_mono total n (S t) t' ltac:(lia)). lia.
  - pose proof (part_start_mono total n (S t') t ltac:(lia)). lia.
Qed.

Section peers.
Context {Msg F G : Type} {is_stop : Msg -> bool} {handle : Msg -> F -> G -> option (F * G)} {max_batch : nat}.
Context (threads : Z) (total : nat) (parts : list (nat * nat)).
Hypothesis partitions : BuildPartitions threads total = Some parts.
Implicit Types (s : Poll Msg F G).
Abbreviation run := (do_acts is_stop handle max_batch (peer_bounds parts)).
Abbreviation ordered_peer i t := (ordered (is_stop := is_stop) (bounds := peer_bounds parts) i t (Z.to_nat threads)).

Lemma ordered_owned i t capacity fsms g acts s :
  (i < total)%nat -> (part_start total (Z.to_nat threads) t <= i < part_start total (Z.to_nat threads) (S t))%nat ->
  run acts (started (Z.to_nat threads) capacity fsms g) = Some s -> ordered_peer i t s.
Proof.
  intros Hi Ht. apply ordered_acts; [intros; by apply peer_bounds_fixed| |by apply ordered_started].
  intros t' n Ht' Hb. destruct (peer_bounds_owner _ _ _ _ _ _ partitions Ht' Hb) as [_ Ho].
  by eapply part_owner_unique.
Qed.

(** An entry outside every part: nobody owns it. *)
Definition untouched (i : nat) s : Prop :=
  ordered_peer i (Z.to_nat threads) s /\ of_entry i (po_done s) = [].

Lemma untouched_hand i s t batch :
  ordered_peer i (Z.to_nat threads) s -> po_threads s !! t <> Some (Handling i batch).
Proof.
  intros Ho Ht. pose proof (ord_hand _ _ _ _ Ho _ _ Ht) as ->. apply lookup_lt_Some in Ht.
  rewrite (ord_threads _ _ _ _ Ho) in Ht. lia.
Qed.

Lemma untouched_acts i acts s s' :
  (total <= i)%nat -> untouched i s -> run acts s = Some s' -> untouched i s'.
Proof.
  intros Hi. revert s. induction acts as [|a acts IH]; intros s [Ho Hd]; cbn; [by intros [= <-]|].
  intros (s1 & Ha & H)%option.bind_Some. apply (IH s1); [|done]. split.
  - apply (ordered_acts (handle := handle) (max_batch := max_batch) _ _ _ (peer_bounds_fixed parts)) with (acts := [a]) (s := s);
      [|done|cbn; by rewrite Ha].
    intros t n Ht Hb. destruct (peer_bounds_owner _ _ _ _ _ _ partitions Ht Hb). lia.
  - destruct a as [j m|t|c f|]; cbn in Ha; [| |by injection Ha as <-..].
    + unfold send in Ha. by apply option.bind_Some in Ha as (e & _ & (mb & _ & [= <-])%option.bind_Some).
    + unfold poll_step in Ha. destruct (peer_bounds parts t _) as [first last].
      apply option.bind_Some in Ha as (c & Ht & Ha).
      destruct c as [|idx w|idx [|m batch]|idx|]; try (by injection Ha as <-); [| |done].
      * case_match; [|by injection Ha as <-]. apply option.bind_Some in Ha as (e & _ & Ha). cbn in Ha.
        by destruct (take _ _); injection Ha as <-.
      * unfold handle_one in Ha. case_match; [by injection Ha as <-|].
        apply option.bind_Some in Ha as (e & _ & (r & _ & [= <-])%option.bind_Some). cbn -[of_entry].
        rewrite of_entry_snoc, Hd, decide_False; [done|]. intros ->. by eapply untouched_hand.
Qed.
End peers.

(** The partition of the peer threads keeps every group in order: however the
    threads, the senders and late registrations interleave, one thread alone takes
    the messages of a registered peer, and what was handled, what it holds and what is
    queued are, in this order, exactly what was sent. *)
Theorem PeerPollLoop_in_order {Msg F G} (is_stop : Msg -> bool) (handle : Msg -> F -> G -> option (F * G))
    (max_batch : nat) (threads : Z) (parts : list (nat * nat)) (capacity : Z) (fsms : list F) (g : G)
    (acts : list (act (Msg := Msg) (F := F))) (s : Poll Msg F G) (i : nat)
    (Hparts : BuildPartitions threads (length fsms) = Some parts) (Hthreads : 0 < threads) (Hi : (i < length fsms)%nat)
    (Hrun : do_acts is_stop handle max_batch (peer_bounds parts) acts (started (Z.to_nat threads) capacity fsms g) = Some s)
    (Hstop : Forall (fun m => is_stop m = false) (of_entry i (po_sent s))) :
  exists t, (t < Z.to_nat threads)%nat /\
    of_entry i (po_sent s) = of_entry i (po_done s) ++ in_hand t i s ++ queued i s /\
    (forall t', t' <> t -> in_hand t' i s = []).
Proof.
  destruct (part_start_owner (length fsms) (Z.to_nat threads) i) as (t & Ht & Hown); [rewrite part_start_last; lia|].
  pose proof (ordered_owned _ _ _ Hparts i t _ _ _ _ _ Hi Hown Hrun) as Ho. exists t. split; [done|].
  split; [by apply Ho|]. intros t' Hne. apply in_hand_empty. intros b Hb. by apply Hne, (ord_hand _ _ _ _ Ho _ _ Hb).
Qed.

(** A group that is registered after [Start] is never served: the partition was
    made for the peers there were, so no message sent to a later one is ever handled,
    and once its mailbox is full the next sender, the tick thread among them, waits
    for ever. *)
Theorem PeerPollLoop_misses_late_peers {Msg F G} (is_stop : Msg -> bool) (handle : Msg -> F -> G -> option (F * G))
    (max_batch : nat) (threads : Z) (parts : list (nat * nat)) (capacity : Z) (fsms : list F) (g : G)
    (acts : list (act (Msg := Msg) (F := F))) (s : Poll Msg F G) (i : nat) (e : Entry Msg F)
    (Hparts : BuildPartitions threads (length fsms) = Some parts)
    (Hrun : do_acts is_stop handle max_batch (peer_bounds parts) acts (started (Z.to_nat threads) capacity fsms g) = Some s)
    (Hi : (length fsms <= i)%nat) (He : po_entries s !! i = Some e)
    (Hstop : Forall (fun m => is_stop m = false) (of_entry i (po_sent s))) :
  of_entry i (po_done s) = [] /\ q_ (en_mb e) = of_entry i (po_sent s) /\
  (forall m, 0 < max_capacity_ (en_mb e) <= Z.of_nat (length (of_entry i (po_sent s))) -> send i m s = None).
Proof.
  assert (untouched (is_stop := is_stop) threads parts i s) as [Ho Hd].
  { apply (untouched_acts _ _ _ Hparts i _ _ _ Hi) in Hrun; [done|]. split; [apply ordered_started|done]. }
  assert (q_ (en_mb e) = of_entry i (po_sent s)) as Hq.
  { rewrite (ord_fifo _ _ _ _ Ho Hstop), Hd. unfold queued. rewrite He.
    rewrite (in_hand_empty _ (Z.to_nat threads)); [done|]. intros b. by eapply untouched_hand. }
  split; [done|]. split; [done|]. intros m [Hc Hfull]. unfold send. rewrite He. cbn [mbind option_bind]. unfold push.
  rewrite Hq, (proj2 (Z.ltb_lt _ _) Hc), (proj2 (Z.leb_le _ _) Hfull). done.
Qed.

(** ** The apply threads *)

(** Single steps: a message for an empty mailbox, the thread that takes it, and its
    handling. *)
Section steps.
Context {Msg F G : Type} (is_stop : Msg -> bool) (handle : Msg -> F -> G -> option (F * G)) (max_batch : nat).
Implicit Types (s : Poll Msg F G).

Lemma send_step i m s capacity f :
  po_entries s !! i = Some (mkEntry (mkMailbox capacity []) f) ->
  exists s', send i m s = Some s' /\ po_entries s' = <[i := mkEntry (mkMailbox capacity [m]) f]> (po_entries s) /\
    po_threads s' = po_threads s /\ po_sent s' = po_sent s ++ [(i, m)] /\ po_done s' = po_done s.
Proof.
  intros He. unfold send. rewrite He. cbn [mbind option_bind en_mb en_fsm].
  assert (push m (mkMailbox capacity []) = Some (mkMailbox capacity [m])) as ->; [|by eexists].
  unfold push. cbn -[Z.leb Z.ltb]. change (Z.of_nat 0) with 0. destruct (Z.ltb_spec 0 capacity), (Z.leb_spec capacity 0); done || lia.
Qed.

Lemma take_step (Hbatch : (0 < max_batch)%nat) t i w m s capacity f :
  po_threads s !! t = Some (Visit i w) -> po_entries s !! i = Some (mkEntry (mkMailbox capacity [m]) f) ->
  exists s', poll_step is_stop handle max_batch apply_bounds t s = Some s' /\
    po_entries s' = <[i := mkEntry (mkMailbox capacity []) f]> (po_entries s) /\
    po_threads s' = <[t := Handling i [m]]> (po_threads s) /\ po_sent s' = po_sent s /\ po_done s' = po_done s.
Proof.
  intros Ht He. unfold poll_step. cbn [apply_bounds]. rewrite Ht. cbn [mbind option_bind].
  rewrite (proj2 (Nat.ltb_lt _ _)), He by (by eapply lookup_lt_Some). cbn [mbind option_bind en_mb en_fsm].
  assert (drain max_batch (mkMailbox capacity [m]) = ([m], mkMailbox capacity [])) as ->; [|by eexists].
  unfold drain. cbn. destruct max_batch as [|[|b]]; done || lia.
Qed.

Lemma handle_step t i m s capacity f f' g :
  po_threads s !! t = Some (Handling i [m]) -> po_entries s !! i = Some (mkEntry (mkMailbox capacity []) f) ->
  is_stop m = false -> handle m f (po_shared s) = Some (f', g) ->
  exists s', poll_step is_stop handle max_batch apply_bounds t s = Some s' /\
    po_entries s' = <[i := mkEntry (mkMailbox capacity []) f']> (po_entries s) /\
    po_threads s' = <[t := Handling i []]> (po_threads s) /\ po_sent s' = po_sent s /\
    po_done s' = po_done s ++ [(i, m)].
Proof.
  intros Ht He Hm Hh. unfold poll_step. cbn [apply_bounds]. rewrite Ht. cbn [mbind option_bind].
  unfold handle_one. rewrite Hm, He. cbn [mbind option_bind en_mb en_fsm]. rewrite Hh. by eexists.
Qed.
End steps.

Section apply.
Context {isal : IsaL} {sh : Shuffle} {DB : Type} {engine : StorageEngine DB}.

(** An apply FSM with the service node it writes to. *)
Definition apply_one (m : ApplyMsg) (fsm : ApplyFsm * KvNode DB) : option (ApplyFsm * KvNode DB) :=
  match m with
  | ApplyCommitted m => kv ← Handle fsm.1 m fsm.2; Some (fsm.1, kv)
  | MsgApplyStop => Some fsm
  end.
Definition apply_is_stop (m : ApplyMsg) : bool := match m with MsgApplyStop => true | _ => false end.
Definition apply_handle (m : ApplyMsg) (fsm : ApplyFsm * KvNode DB) (g : unit) : option ((ApplyFsm * KvNode DB) * unit) :=
  fsm' ← apply_one m fsm; Some (fsm', g).

(** The acts of a batch system with [max_batch], as the apply threads run them. *)
Definition apply_acts (max_batch : nat) := do_acts apply_is_stop apply_handle max_batch apply_bounds.

Lemma apply_fsm_run (f : ApplyFsm) (kv : KvNode DB) ms :
  run_fsm apply_one (ApplyCommitted <$> ms) (f, kv) = (kv' ← HandleBatch f ms kv; Some (f, kv')).
Proof. revert kv. induction ms as [|m ms IH]; intros kv; cbn; [done|]. by destruct (Handle f m kv); cbn. Qed.

(** [C34] With one apply thread a group's store is what its committed entries make of
    it, in the order in which the log handed them over: at every moment the store of
    group [i] is the result of [HandleBatch] on a prefix of what was sent, and the
    rest is still in hand or queued. *)
Theorem ApplyPollLoop_applies_in_order (max_batch : nat) (capacity : Z) (fsms : list (ApplyFsm * KvNode DB))
    (acts : list (act (Msg := ApplyMsg) (F := ApplyFsm * KvNode DB))) s (i : nat) f kv0 ms
    (Hrun : apply_acts max_batch acts (started 1 capacity fsms tt) = Some s) (Hi : fsms !! i = Some (f, kv0))
    (Hsent : of_entry i (po_sent s) = ApplyCommitted <$> ms) :
  exists n kv mb, po_entries s !! i = Some (mkEntry mb (f, kv)) /\ HandleBatch f (take n ms) kv0 = Some kv /\
    ApplyCommitted <$> drop n ms = in_hand 0 i s ++ q_ mb.
Proof.
  assert (ordered (is_stop := apply_is_stop) (bounds := apply_bounds) i 0 1 s) as Ho.
  { eapply ordered_acts, Hrun; [done|lia|apply ordered_started]. }
  destruct (has_run_acts apply_one (fun _ _ _ => eq_refl) acts _ _ i (f, kv0) ltac:(by apply has_run_started) Hrun)
    as ([mb [f' kv]] & He & Hfsm).
  assert (of_entry i (po_sent s) = of_entry i (po_done s) ++ in_hand 0 i s ++ queued i s) as Hfifo.
  { apply Ho. rewrite Hsent. apply Forall_fmap, Forall_forall. done. }
  rewrite Hsent in Hfifo. apply fmap_app_inv in Hfifo as (ds & rs & Hd & Hr & ->).
  rewrite Hd, apply_fsm_run in Hfsm. apply option.bind_Some in Hfsm as (kv' & Hb & [= <- <-]).
  exists (length ds), kv', mb. split; [done|]. rewrite take_app_length, drop_app_length. split; [done|].
  rewrite <- Hr. unfold queued. by rewrite He.
Qed.

(** [C35] Two apply threads, the default, handle the entries of one group in the wrong
    order. Both visit every group: whenever two of them stand at the mailbox of a
    group and it is empty, the two messages that are sent next can be handled second
    first - the one thread takes the first message, the other takes and handles the
    second, and the first is handled then. The store is left as if the entries had
    been committed in the opposite order. *)
Theorem ApplyPollLoop_reorders (max_batch : nat) (s : Poll ApplyMsg (ApplyFsm * KvNode DB) unit) (i t1 t2 : nat) (w1 w2 : bool) (capacity : Z)
    (f : ApplyFsm) (kv0 kv2 kv : KvNode DB) (m1 m2 : MsgApplyCommitted)
    (Hbatch : (0 < max_batch)%nat) (Hne : t1 <> t2)
    (H1 : po_threads s !! t1 = Some (Visit i w1)) (H2 : po_threads s !! t2 = Some (Visit i w2))
    (He : po_entries s !! i = Some (mkEntry (mkMailbox capacity []) (f, kv0)))
    (Hm2 : Handle f m2 kv0 = Some kv2) (Hm1 : Handle f m1 kv2 = Some kv) :
  exists acts s', apply_acts max_batch acts s = Some s' /\
    po_sent s' = po_sent s ++ [(i, ApplyCommitted m1); (i, ApplyCommitted m2)] /\
    po_done s' = po_done s ++ [(i, ApplyCommitted m2); (i, ApplyCommitted m1)] /\
    po_entries s' !! i = Some (mkEntry (mkMailbox capacity []) (f, kv)).
Proof.
  exists [Send i (ApplyCommitted m1); Run t1; Send i (ApplyCommitted m2); Run t2; Run t2; Run t1].
  pose proof (lookup_lt_Some _ _ _ H1). pose proof (lookup_lt_Some _ _ _ H2). pose proof (lookup_lt_Some _ _ _ He).
  unfold apply_acts. cbn [do_acts do_act].
  destruct (send_step i (ApplyCommitted m1) s _ _ He) as (s1 & -> & E1 & T1 & S1 & D1). cbn [mbind option_bind].
  destruct (take_step apply_is_stop apply_handle max_batch Hbatch t1 i w1 (ApplyCommitted m1) s1 capacity (f, kv0))
    as (s2 & -> & E2 & T2 & S2 & D2); [by rewrite T1|by rewrite E1, list_lookup_insert_eq|]. cbn [mbind option_bind].
  destruct (send_step i (ApplyCommitted m2) s2 capacity (f, kv0)) as (s3 & -> & E3 & T3 & S3 & D3);
    [by rewrite E2, E1, list_lookup_insert_eq by (by rewrite ?length_insert)|]. cbn [mbind option_bind].
  destruct (take_step apply_is_stop apply_handle max_batch Hbatch t2 i w2 (ApplyCommitted m2) s3 capacity (f, kv0))
    as (s4 & -> & E4 & T4 & S4 & D4);
    [by rewrite T3, T2, T1, list_lookup_insert_ne|by rewrite E3, list_lookup_insert_eq by (by rewrite E2, E1, ?length_insert)|].
  cbn [mbind option_bind].
  destruct (handle_step apply_is_stop apply_handle max_batch t2 i (ApplyCommitted m2) s4 capacity (f, kv0) (f, kv2) tt)
    as (s5 & -> & E5 & T5 & S5 & D5);
    [by rewrite T4, list_lookup_insert_eq by (by rewrite T3, T2, T1, ?length_insert)
    |by rewrite E4, list_lookup_insert_eq by (by rewrite E3, E2, E1, ?length_insert)|done
    |by unfold apply_handle, apply_one; cbn; rewrite Hm2; destruct (po_shared s4)|]. cbn [mbind option_bind].
  destruct (handle_step apply_is_stop apply_handle max_batch t1 i (ApplyCommitted m1) s5 capacity (f, kv2) (f, kv) tt)
    as (s6 & -> & E6 & T6 & S6 & D6);
    [by rewrite T5, T4, T3, T2, !list_lookup_insert_ne, list_lookup_insert_eq by (done || by rewrite T1)
    |by rewrite E5, list_lookup_insert_eq by (by rewrite E4, E3, E2, E1, ?length_insert)|done
    |by unfold apply_handle, apply_one; cbn; rewrite Hm1; destruct (po_shared s5)|]. cbn [mbind option_bind].
  exists s6. split; [done|]. rewrite S6, S5, S4, S3, S2, S1, D6, D5, D4, D3, D2, D1, <- !app_assoc.
  split_and!; [done..|]. by rewrite E6, list_lookup_insert_eq by (by rewrite E5, E4, E3, E2, E1, ?length_insert).
Qed.
End apply.

(** ** Two apply threads *)
Section reorder.
#[local] Existing Instance Gf256.isal.
#[local] Existing Instance no_shuffle.
Abbreviation Fsm := (ApplyFsm * KvNode (gmap Slice Slice))%type.

(** The entry of the put of [value] under the key "k", committed at [idx] by the
    leader, node 0, of group 3 on seven nodes; and the message for it at node [n]. *)
Definition put_entry (idx : Z) (value : Slice) : option LogEntry :=
  lrc ← propose_lrc (stripe_command 3 [107] value kLrc) grouper7_mapped (demo_node (St := unit) 0 None);
  logged_entry (stripe_command 3 [107] value kLrc) 1 idx <$> lrc.
Definition put_message (idx : Z) (value : Slice) (n : Z) : option MsgApplyCommitted :=
  ent ← put_entry idx value; e ← node_entry grouper7_mapped 0 idx ent n; apply_message 3 e.

Definition old_value : Slice := [1; 2; 3; 4; 5; 6; 7; 8].
Definition new_value : Slice := [9; 9; 9; 9; 9; 9; 9; 9].

Definition apply_fsm (n : Z) : ApplyFsm := mkApplyFsm 3 n kLrc 7.
(** Node [n] after it has applied both entries in order, and in the other order. *)
Definition applied_in_order (n : Z) : option (KvNode (gmap Slice Slice)) :=
  m1 ← put_message 1 old_value n; m2 ← put_message 2 new_value n; HandleBatch (apply_fsm n) [m1; m2] (empty_kv n).

(** Each message is sent, taken and handled before the next is sent. *)
Definition in_turn (m1 m2 : MsgApplyCommitted) : list (act (Msg := ApplyMsg) (F := Fsm)) :=
  [Send 0 (ApplyCommitted m1); Run 0; Run 0; Run 0; Run 0; Run 0; Run 0;
   Send 0 (ApplyCommitted m2); Run 0; Run 0; Run 0].

(** The group's service nodes, and the value a get reads on the leader. *)
Definition group_of (kvs : list (KvNode (gmap Slice Slice))) (n : Z) : gmap Z (KvNode (gmap Slice Slice)) :=
  match arr_get kvs n with Some kv => {[3 := kv]} | None => ∅ end.
Definition get_from (kvs : list (KvNode (gmap Slice Slice))) : option (ErrorType * option Slice) :=
  r ← DealWithGet (group_of kvs) (fun _ _ => true) 1 0 true (mkRequest kGet 0 0 3 [107] []);
  Some (r.1, client_value r.2).

(** Both threads of the leader at the mailbox of its group. *)
Definition demo_visiting : Poll ApplyMsg Fsm unit :=
  mkPoll true [mkEntry (mkMailbox 1024 []) (apply_fsm 0, empty_kv 0)] [Visit 0 false; Visit 0 false] tt [] [].

(** The older of two puts is read on the leader, although every node has applied both
    and the peers in order; in order, the newer value is read. *)
Lemma ApplyPollLoop_reorders_witness : exists m1 m2 acts s' kv0 kv peers,
  put_message 1 old_value 0 = Some m1 /\ put_message 2 new_value 0 = Some m2 /\
  apply_acts 64 acts demo_visiting = Some s' /\
  po_entries s' !! 0%nat = Some (mkEntry (mkMailbox 1024 []) (apply_fsm 0, kv)) /\
  applied_index_ kv = 2 /\ applied_in_order 0 = Some kv0 /\ mapM applied_in_order (seqZ 1 6) = Some peers /\
  get_from (kv0 :: peers) = Some (KvFormat.kOk, Some new_value) /\
  get_from (kv :: peers) = Some (KvFormat.kOk, Some old_value).
Proof.
  assert (match put_message 1 old_value 0, put_message 2 new_value 0, applied_in_order 0, mapM applied_in_order (seqZ 1 6) with
          | Some m1, Some m2, Some kv0, Some peers =>
              match Handle (apply_fsm 0) m2 (empty_kv 0) with
              | Some kv2 => match Handle (apply_fsm 0) m1 kv2 with
                            | Some kv => (applied_index_ kv, get_from (kv0 :: peers), get_from (kv :: peers))
                            | None => (0, None, None)
                            end
              | None => (0, None, None)
              end
          | _, _, _, _ => (0, None, None)
          end = (2, Some (KvFormat.kOk, Some new_value), Some (KvFormat.kOk, Some old_value))) as H
    by (vm_compute; reflexivity).
  destruct (put_message 1 old_value 0) as [m1|]; [|discriminate H].
  destruct (put_message 2 new_value 0) as [m2|]; [|discriminate H].
  destruct (applied_in_order 0) as [kv0|]; [|discriminate H].
  destruct (mapM applied_in_order (seqZ 1 6)) as [peers|]; [|discriminate H].
  destruct (Handle (apply_fsm 0) m2 (empty_kv 0)) as [kv2|] eqn:H2; [|discriminate H].
  destruct (Handle (apply_fsm 0) m1 kv2) as [kv|] eqn:H1; [|discriminate H]. injection H as Ha Hn Ho.
  destruct (ApplyPollLoop_reorders 64 demo_visiting 0 0 1 false false 1024 (apply_fsm 0) (empty_kv 0) kv2 kv m1 m2)
    as (acts & s' & Hrun & _ & _ & He).
  - lia.
  - discriminate.
  - reflexivity.
  - reflexivity.
  - reflexivity.
  - exact H2.
  - exact H1.
  - exists m1, m2, acts, s', kv0, kv, peers. repeat (split; [reflexivity|]). split; [exact Hrun|]. split; [exact He|].
    split; [exact Ha|]. repeat (split; [reflexivity|]). split; [exact Hn|exact Ho].
Defined.
End reorder.

(** Two peers and one thread; the FSM collects what it handles. *)
Definition collect (m : nat) (f : list nat) (g : unit) : option (list nat * unit) := Some (f ++ [m], g).
Definition demo_acts : list (act (Msg := nat) (F := list nat)) :=
  [Run 0; Send 1 7%nat; Send 1 8%nat; Send 1 9%nat; Register 1 []; Send 2 5%nat; Run 0; Run 0; Run 0].
Definition demo_started : Poll nat (list nat) unit := started 1 4096 [[]; []] tt.
Definition demo_polled : Poll nat (list nat) unit :=
  Eval vm_compute in
    default demo_started (do_acts (fun _ => false) collect 2 (peer_bounds [(0, 2)%nat]) demo_acts demo_started).

Lemma PeerPollLoop_in_order_witness :
  BuildPartitions 1 2 = Some [(0, 2)%nat] /\
  do_acts (fun _ => false) collect 2 (peer_bounds [(0, 2)%nat]) demo_acts demo_started = Some demo_polled /\
  exists t, of_entry 1 (po_sent demo_polled) =
      of_entry 1 (po_done demo_polled) ++ in_hand t 1 demo_polled ++ queued 1 demo_polled /\
    of_entry 1 (po_done demo_polled) = [7%nat].
Proof.
  split; [reflexivity|]. split; [vm_compute; reflexivity|].
  destruct (PeerPollLoop_in_order (fun _ => false) collect 2 1 [(0, 2)%nat] 4096 [[]; []] tt demo_acts demo_polled 1)
    as (t & _ & H & _).
  - reflexivity.
  - lia.
  - cbn. lia.
  - vm_compute. reflexivity.
  - repeat constructor.
  - exists t. split; [exact H|reflexivity].
Defined.

Lemma PeerPollLoop_misses_late_peers_witness :
  of_entry 2 (po_done demo_polled) = [] /\ send 2 6%nat demo_polled = None.
Proof.
  destruct (PeerPollLoop_misses_late_peers (fun _ => false) collect 2 1 [(0, 2)%nat] 4096 [[]; []] tt demo_acts demo_polled
    2 (mkEntry (mkMailbox 1 [5%nat]) [])) as (Hd & _ & Hs).
  - reflexivity.
  - vm_compute. reflexivity.
  - cbn. lia.
  - reflexivity.
  - repeat constructor.
  - split; [exact Hd|]. apply Hs. vm_compute. split; [reflexivity|discriminate].
Defined.

Section apply_witness.
#[local] Existing Instance Gf256.isal.
#[local] Existing Instance no_shuffle.
Abbreviation Fsm := (ApplyFsm * KvNode (gmap Slice Slice))%type.

Definition plain_message (idx : Z) : MsgApplyCommitted := mkMsgApplyCommitted idx idx 3 [0; 65].
Definition demo_applied : Poll ApplyMsg Fsm unit :=
  let s := started 1 1024 [(mkApplyFsm 3 0 kLrc 7, empty_kv 0)] tt in
  default s (apply_acts 64 (in_turn (plain_message 1) (plain_message 2)) s).

Lemma ApplyPollLoop_applies_in_order_witness : exists n kv mb,
  po_entries demo_applied !! 0%nat = Some (mkEntry mb (mkApplyFsm 3 0 kLrc 7, kv)) /\
  HandleBatch (mkApplyFsm 3 0 kLrc 7) (take n [plain_message 1; plain_message 2]) (empty_kv 0) = Some kv.
Proof.
  destruct (ApplyPollLoop_applies_in_order 64 1024 [(mkApplyFsm 3 0 kLrc 7, empty_kv 0)]
    (in_turn (plain_message 1) (plain_message 2)) demo_applied 0 (mkApplyFsm 3 0 kLrc 7) (empty_kv 0)
    [plain_message 1; plain_message 2]) as (n & kv & mb & He & Hb & _).
  - vm_compute. reflexivity.
  - reflexivity.
  - vm_compute. reflexivity.
  - exists n, kv, mb. split; [exact He|exact Hb].
Defined.
End apply_witness.
