(* ===== verification/Routing.v ===== *)
(** Routing on a node: the tracker of commits across groups, the table of stripe
    routes and the router of messages to local peers (src/multi-raft/raft_store.h), the
    router of the RPC service (rpc_router.cc), and the list of peers by group
    (peer_list_manager.cc).

    A mailbox is known by its pointer, a number, which is never null here; the
    mailboxes themselves are a store indexed by it. An iteration over an
    [unordered_map] is in the order of an argument [order]. *)

From S2P Require Import Prelude Types Encoder StripeApply Message.

(** ** CrossGroupTracker *)
Definition popcount64 (mask : Z) : Z :=
  Z.of_nat (length (filter (fun b => Z.testbit mask b = true) (seqZ 0 64))).

Record TrackerState := mkTrackerState { ts_mask : Z; ts_cb : option Z }.
Record CrossGroupTracker := mkCrossGroupTracker { num_groups_ : Z; states_ : gmap Z TrackerState }.

Definition CrossGroupTracker_ctor (num_groups : Z) : CrossGroupTracker := mkCrossGroupTracker num_groups ∅.
Definition SetGroupCount (num_groups : Z) (t : CrossGroupTracker) : CrossGroupTracker :=
  mkCrossGroupTracker num_groups (states_ t).
Definition set_states (m : gmap Z TrackerState) (t : CrossGroupTracker) : CrossGroupTracker :=
  mkCrossGroupTracker (num_groups_ t) m.

Definition Tracker_Register (eid : Z) (cb : option Z) (t : CrossGroupTracker) : CrossGroupTracker :=
  set_states (<[eid := mkTrackerState 0 cb]> (states_ t)) t.

(** Answers the call of the callback, if there is one. A shift by 64 or more is
    undefined. *)
Definition OnLocalCommit (eid gid : Z) (t : CrossGroupTracker) : option (option (Z * Z) * CrossGroupTracker) :=
  match states_ t !! eid with
  | None => Some (None, t)
  | Some st =>
      if 64 <=? gid then None else
      let mask := Z.shiftl 1 gid in
      if negb (Z.land (ts_mask st) mask =? 0) then Some (None, t) else
      let new := Z.lor (ts_mask st) mask in
      if popcount64 new =? num_groups_ t then
        Some ((fun cb => (cb, eid)) <$> ts_cb st, set_states (delete eid (states_ t)) t)
      else Some (None, set_states (<[eid := mkTrackerState new (ts_cb st)]> (states_ t)) t)
  end.

Definition Tracker_Abort (eid : Z) (t : CrossGroupTracker) : CrossGroupTracker := set_states (delete eid (states_ t)) t.

(** ** RoutingTableManager *)
Record RoutingTableManager := mkRoutingTableManager { rt_num_groups_ : Z; routing_table_ : RoutingTable }.

Definition RoutingTableManager_ctor (num_groups : Z) : RoutingTableManager := mkRoutingTableManager num_groups ∅.
Definition RoutingTable_SetGroupCount (num_groups : Z) (t : RoutingTableManager) : RoutingTableManager :=
  mkRoutingTableManager num_groups (routing_table_ t).
Definition AddRoute (entry : GroupTopology) (t : RoutingTableManager) : RoutingTableManager :=
  mkRoutingTableManager (rt_num_groups_ t) (<[gt_stripe_id entry := entry]> (routing_table_ t)).
Definition GetRoute (stripe_id : Z) (t : RoutingTableManager) : option GroupTopology := routing_table_ t !! stripe_id.
Definition GetAllRoutes (t : RoutingTableManager) : RoutingTable := routing_table_ t.
Definition RoutingTable_Size (t : RoutingTableManager) : Z := i32 (Z.of_nat (size (routing_table_ t))).

(** Routes that are there stay as they are. *)
Definition merge_route (e : Z * GroupTopology) (m : RoutingTable) : RoutingTable :=
  match m !! e.1 with Some _ => m | None => <[e.1 := e.2]> m end.
Definition MergeRoutes (other : RoutingTable) (ttl : Z) (t : RoutingTableManager) : RoutingTableManager :=
  if ttl <=? 0 then t else
  mkRoutingTableManager (rt_num_groups_ t) (foldr merge_route (routing_table_ t) (map_to_list other)).

(** The first complementary set with the group, over the routes in their order. *)
Definition GetComplementaryGroups (order : list Z) (group_id : Z) (t : RoutingTableManager) : list Z :=
  let sets := omap (fun sid => gt_complementary_sets <$> routing_table_ t !! sid) order in
  default [] (cs_complementary_groups <$>
    head (filter (fun cs => group_id ∈ cs_complementary_groups cs) (concat sets))).

(** ** Keys of peers *)
Definition MakeKey (gid nid : Z) : Z := Z.lor (Z.shiftl gid 32) nid.
Definition GroupFromKey (key : Z) : Z := u32 (Z.shiftr key 32).

(** ** RaftRouter *)
Section router.
(** What a message is after it was moved from; the language leaves it open. *)
Context (moved : PeerMsg -> PeerMsg).

Record RaftRouter := mkRaftRouter { local_peers_ : gmap Z Z; router_mailboxes : gmap Z (Mailbox PeerMsg) }.

Definition Router_Register (gid nid mb : Z) (r : RaftRouter) : RaftRouter :=
  mkRaftRouter (<[MakeKey gid nid := mb]> (local_peers_ r)) (router_mailboxes r).

(** [None]: the sender waits for room, with the router's lock. *)
Definition push_to (ptr : Z) (msg : PeerMsg) (r : RaftRouter) : option RaftRouter :=
  mb ← router_mailboxes r !! ptr; mb ← push msg mb;
  Some (mkRaftRouter (local_peers_ r) (<[ptr := mb]> (router_mailboxes r))).

Definition SendToPeer (to_group to_node : Z) (msg : PeerMsg) (r : RaftRouter) : option (bool * RaftRouter) :=
  match local_peers_ r !! MakeKey to_group to_node with
  | Some ptr => r ← push_to ptr msg r; Some (true, r)
  | None => Some (false, r)
  end.

(** The loop moves from [msg] at every mailbox of the group. *)
Fixpoint broadcast (keys : list Z) (to_group : Z) (msg : PeerMsg) (r : RaftRouter) : option RaftRouter :=
  match keys with
  | [] => Some r
  | key :: keys =>
      match local_peers_ r !! key with
      | Some ptr =>
          if GroupFromKey key =? to_group then r ← push_to ptr msg r; broadcast keys to_group (moved msg) r
          else broadcast keys to_group msg r
      | None => broadcast keys to_group msg r
      end
  end.
Definition BroadcastToGroup (order : list Z) (to_group : Z) (msg : PeerMsg) (r : RaftRouter) : option RaftRouter :=
  broadcast order to_group msg r.

Definition Router_GetGroupMailbox (order : list Z) (to_group : Z) (r : RaftRouter) : option Z :=
  key ← head (filter (fun key => GroupFromKey key = to_group) order); local_peers_ r !! key.
Definition GetLocalPeerCount (r : RaftRouter) : Z := Z.of_nat (size (local_peers_ r)).
End router.

(** ** RpcRouter *)
Record RpcRouter := mkRpcRouter { peers_ : gmap Z Z; group_peers_ : gmap Z (list Z) }.

Definition RpcRouter_ctor : RpcRouter := mkRpcRouter ∅ ∅.
Definition RegisterPeerMailbox (group_id local_id mb : Z) (r : RpcRouter) : RpcRouter :=
  let key := MakeKey group_id local_id in
  mkRpcRouter (<[key := mb]> (peers_ r))
    (<[group_id := default [] (group_peers_ r !! group_id) ++ [key]]> (group_peers_ r)).
Definition UnregisterPeerMailbox (group_id local_id : Z) (r : RpcRouter) : RpcRouter :=
  let key := MakeKey group_id local_id in
  mkRpcRouter (delete key (peers_ r))
    (match group_peers_ r !! group_id with
     | None => group_peers_ r
     | Some keys =>
         match filter (fun k => k <> key) keys with
         | [] => delete group_id (group_peers_ r)
         | keys => <[group_id := keys]> (group_peers_ r)
         end
     end).
Definition GetGroupMailbox (to_group : Z) (r : RpcRouter) : option Z :=
  keys ← group_peers_ r !! to_group; key ← head keys; peers_ r !! key.
Definition GetPeerMailbox (group_id node_id : Z) (r : RpcRouter) : option Z := peers_ r !! MakeKey group_id node_id.
Definition GetRegisteredPeerCount (r : RpcRouter) : Z := Z.of_nat (size (peers_ r)).
Definition GetRegisteredGroupCount (r : RpcRouter) : Z := Z.of_nat (size (group_peers_ r)).
Definition IsGroupRegistered (group_id : Z) (r : RpcRouter) : bool := bool_decide (is_Some (group_peers_ r !! group_id)).
Definition GetGroupPeers (group_id : Z) (r : RpcRouter) : list Z :=
  match group_peers_ r !! group_id with Some keys => omap (fun key => peers_ r !! key) keys | None => [] end.

(** ** The tracker counts groups *)

(** [mask] has the bits of the groups in [G]. *)
Definition mask_of (mask : Z) (G : gset Z) : Prop :=
  (forall g, g ∈ G -> 0 <= g < 64) /\ (forall b, 0 <= b < 64 -> Z.testbit mask b = bool_decide (b ∈ G)).

Lemma popcount64_size mask G : mask_of mask G -> popcount64 mask = Z.of_nat (size G).
Proof.
  intros [Hr Hb]. unfold popcount64. f_equal. unfold size, set_size. cbn.
  apply Permutation_length, NoDup_Permutation; [apply NoDup_filter, NoDup_seqZ|apply NoDup_elements|].
  intros b. rewrite list_elem_of_filter, elem_of_seqZ, elem_of_elements. split.
  - intros [Ht Hin]. rewrite Hb in Ht by lia. by apply bool_decide_eq_true in Ht.
  - intros Hin. pose proof (Hr _ Hin). split; [|lia]. rewrite Hb by lia. by apply bool_decide_eq_true.
Qed.

Lemma testbit_shiftl1 g b : 0 <= g -> 0 <= b -> Z.testbit (Z.shiftl 1 g) b = bool_decide (b = g).
Proof.
  intros. rewrite Z.shiftl_spec by done. destruct (decide (b = g)) as [->|Hne].
  - rewrite Z.sub_diag. by rewrite bool_decide_eq_true_2.
  - rewrite bool_decide_eq_false_2 by done. destruct (decide (b < g)); [by rewrite Z.testbit_neg_r by lia|].
    rewrite Z.bit0_odd || rewrite (Z.bits_above_log2 1); [done|done|cbn; lia].
Qed.

Lemma mask_test mask G g : mask_of mask G -> 0 <= g < 64 ->
  negb (Z.land mask (Z.shiftl 1 g) =? 0) = bool_decide (g ∈ G).
Proof.
  intros [_ Hb] Hg. rewrite <- Hb by done. destruct (Z.eqb_spec (Z.land mask (Z.shiftl 1 g)) 0) as [E|E]; cbn.
  - pose proof (Z.land_spec mask (Z.shiftl 1 g) g) as H. rewrite E, Z.bits_0, testbit_shiftl1 in H by lia.
    rewrite bool_decide_eq_true_2, andb_true_r in H by done. done.
  - destruct (Z.testbit mask g) eqn:Ht; [done|]. destruct E. apply Z.bits_inj'. intros n Hn.
    rewrite Z.land_spec, Z.bits_0, testbit_shiftl1 by lia. destruct (decide (n = g)) as [->|]; [by rewrite Ht|].
    by rewrite bool_decide_eq_false_2, andb_false_r.
Qed.

Lemma mask_add mask G g : mask_of mask G -> 0 <= g < 64 -> mask_of (Z.lor mask (Z.shiftl 1 g)) (G ∪ {[g]}).
Proof.
  intros [Hr Hb] Hg. split.
  - by intros x [Hx%Hr| ->%elem_of_singleton]%elem_of_union.
  - intros b Hbr. rewrite Z.lor_spec, Hb, testbit_shiftl1 by lia.
    apply eq_bool_prop_intro. by rewrite orb_True, !bool_decide_spec, elem_of_union, elem_of_singleton.
Qed.

Lemma mask_of_0 : mask_of 0 ∅.
Proof. split; [set_solver|]. intros b _. by rewrite Z.bits_0, bool_decide_eq_false_2 by set_solver. Qed.

(** The commits that arrive, each with its entry and group. *)
Fixpoint commit_all (cs : list (Z * Z)) (t : CrossGroupTracker) : option (list (Z * Z) * CrossGroupTracker) :=
  match cs with
  | [] => Some ([], t)
  | (eid, gid) :: cs =>
      r ← OnLocalCommit eid gid t;
      rs ← commit_all cs r.2;
      Some (match r.1 with Some c => c :: rs.1 | None => rs.1 end, rs.2)
  end.
(** The groups among [cs] that committed [eid]; the calls that are about [eid]. *)
Definition groups_of (eid : Z) (cs : list (Z * Z)) : gset Z := list_to_set (filter (fun c => c.1 = eid) cs).*2.
Definition calls_for (eid : Z) (calls : list (Z * Z)) : list (Z * Z) := filter (fun c => c.2 = eid) calls.

(** What becomes of [eid], tracked or not. *)
Definition fired (n : Z) (G : gset Z) : Prop := 1 <= n <= Z.of_nat (size G).
#[export] Instance fired_dec n G : Decision (fired n G).
Proof. unfold fired. apply _. Defined.
Definition tracks (n : Z) (eid cb : Z) (G : gset Z) (t : CrossGroupTracker) : Prop :=
  num_groups_ t = n /\
  if decide (fired n G) then states_ t !! eid = None
  else exists mask, states_ t !! eid = Some (mkTrackerState mask (Some cb)) /\ mask_of mask G.

Lemma add_in (G : gset Z) g : g ∈ G -> G ∪ {[g]} = G.
Proof. intros. apply (anti_symm (⊆)); [|apply union_subseteq_l]. by apply union_least, singleton_subseteq_l. Qed.

Lemma size_add (G : gset Z) g : size (G ∪ {[g]}) = if decide (g ∈ G) then size G else S (size G).
Proof.
  case_decide as Hg.
  - by rewrite add_in.
  - rewrite size_union, size_singleton; [lia|]. by apply disjoint_singleton_r.
Qed.

Lemma fired_mono n G g : fired n G -> fired n (G ∪ {[g]}).
Proof. unfold fired. rewrite size_add. case_decide; lia. Qed.

(** One commit, of this entry or of another. *)
Lemma tracks_commit n eid cb G t eid' gid :
  tracks n eid cb G t -> 0 <= gid < 64 -> exists c t', OnLocalCommit eid' gid t = Some (c, t') /\
    let G' := if decide (eid' = eid) then G ∪ {[gid]} else G in
    tracks n eid cb G' t' /\
    (calls_for eid (match c with Some c => [c] | None => [] end) ++ (if decide (fired n G) then [(cb, eid)] else [])) =
      if decide (fired n G') then [(cb, eid)] else [].
Proof.
  intros [Hn Ht] Hg. unfold OnLocalCommit. rewrite (proj2 (Z.leb_gt 64 gid)) by lia. destruct (decide (eid' = eid)) as [->|Hne].
  - destruct (decide (fired n G)) as [Hf|Hf].
    + rewrite Ht. exists None, t. cbv zeta. unfold tracks. rewrite !decide_True by by apply fired_mono. done.
    + destruct Ht as (mask & Hst & Hm). rewrite Hst. cbn [ts_mask ts_cb]. rewrite (mask_test _ _ _ Hm Hg).
      destruct (decide (gid ∈ G)) as [Hin|Hin].
      * rewrite bool_decide_eq_true_2 by done. exists None, t. cbv zeta.
        rewrite add_in by done. unfold tracks. rewrite !decide_False by done.
        split_and!; [done|done|by eauto|done].
      * rewrite bool_decide_eq_false_2 by done. pose proof (mask_add _ _ _ Hm Hg) as Hm'.
        assert (size (G ∪ {[gid]}) = S (size G)) as Hsz by (rewrite size_add; by rewrite decide_False).
        rewrite (popcount64_size _ _ Hm'), Hn, Hsz. cbv zeta. unfold tracks. destruct (Z.eqb_spec (Z.of_nat (S (size G))) n) as [E|E].
        -- assert (fired n (G ∪ {[gid]})) as Hf' by (unfold fired in *; rewrite Hsz; lia).
           eexists _, _. split; [done|]. rewrite !decide_True by done. cbn [set_states num_groups_ states_].
           rewrite lookup_delete_eq. split; [done|]. unfold calls_for. cbn. by rewrite decide_True.
        -- assert (~ fired n (G ∪ {[gid]})) as Hf' by (unfold fired in *; rewrite Hsz; lia).
           eexists _, _. split; [done|]. rewrite !decide_False by done. cbn [set_states num_groups_ states_].
           rewrite lookup_insert_eq. split; [|done]. split; [done|]. eauto.
  - assert (forall c t', states_ t' !! eid = states_ t !! eid -> num_groups_ t' = n -> calls_for eid c = [] ->
      tracks n eid cb G t' /\ calls_for eid c ++ (if decide (fired n G) then [(cb, eid)] else []) =
        (if decide (fired n G) then [(cb, eid)] else [])) as Hsame.
    { intros c t' E En Ec. unfold tracks. rewrite E, Ec. done. }
    assert (forall o : option Z, calls_for eid (match (fun cb => (cb, eid')) <$> o with Some c => [c] | None => [] end) = [])
      as Hother by (intros [|]; unfold calls_for; cbn; [by rewrite decide_False|done]).
    destruct (states_ t !! eid') as [st|] eqn:Est; [|eexists _, _; split; [done|]; by apply Hsame].
    destruct (negb _); [eexists _, _; split; [done|]; by apply Hsame|].
    destruct (popcount64 _ =? _); (eexists _, _; split; [done|]); apply Hsame; try done.
    + cbn; by rewrite lookup_delete_ne.
    + cbn; by rewrite lookup_insert_ne.
Qed.

Lemma groups_of_cons eid eid' gid cs :
  groups_of eid ((eid', gid) :: cs) = if decide (eid' = eid) then {[gid]} ∪ groups_of eid cs else groups_of eid cs.
Proof. unfold groups_of. rewrite filter_cons. cbn. by case_decide. Qed.

Lemma commit_all_tracks n eid cb cs : forall G t,
  tracks n eid cb G t -> Forall (fun c => 0 <= c.2 < 64) cs ->
  exists calls t', commit_all cs t = Some (calls, t') /\ tracks n eid cb (G ∪ groups_of eid cs) t' /\
    calls_for eid calls ++ (if decide (fired n G) then [(cb, eid)] else []) =
      if decide (fired n (G ∪ groups_of eid cs)) then [(cb, eid)] else [].
Proof.
  induction cs as [|[eid' gid] cs IH]; intros G t Ht Hcs.
  - exists [], t. unfold groups_of. cbn. rewrite union_empty_r_L. done.
  - apply Forall_cons in Hcs as [Hg Hcs]. cbn [commit_all snd] in *.
    destruct (tracks_commit n eid cb G t eid' gid Ht Hg) as (c & t1 & -> & Ht1 & Hc). cbn [mbind option_bind fst snd].
    destruct (IH _ _ Ht1 Hcs) as (calls & t' & -> & Ht' & Hcalls). cbn [mbind option_bind fst snd].
    set (G' := if decide (eid' = eid) then G ∪ {[gid]} else G) in *.
    assert (G' ∪ groups_of eid cs = G ∪ groups_of eid ((eid', gid) :: cs)) as E.
    { rewrite groups_of_cons. subst G'. destruct (decide (eid' = eid)); [by rewrite (assoc_L (∪))|done]. }
    rewrite <- E. eexists _, t'. split; [done|]. split; [done|].
    assert (forall l, calls_for eid (match c with Some c => c :: l | None => l end) =
      calls_for eid (match c with Some c => [c] | None => [] end) ++ calls_for eid l) as ->.
    { intros l. unfold calls_for. destruct c; [by rewrite <- filter_app|done]. }
    destruct (decide (fired n G')) as [Hf|Hf].
    + assert (calls_for eid calls = []) as Hnil.
      { destruct (calls_for eid calls) as [|x l]; [done|]. apply (f_equal length) in Hcalls. rewrite length_app in Hcalls.
        cbn in Hcalls. case_decide; cbn in Hcalls; lia. }
      rewrite Hnil in *. by rewrite app_nil_r, Hc.
    + apply app_nil in Hc as [-> ->]. done.
Qed.

(** [C36] The callback of an entry fires exactly once, as soon as as many different
    groups as the tracker was given have committed the entry, and never before;
    repeated commits of a group count once, commits of other entries not at all. The
    entry is tracked until then. A tracker made for no group, as the store makes
    it, never calls back. *)
Theorem CrossGroupTracker_fires_once (t : CrossGroupTracker) (eid cb : Z) (cs : list (Z * Z))
    (Hcs : Forall (fun c => 0 <= c.2 < 64) cs) :
  let complete := 1 <= num_groups_ t <= Z.of_nat (size (groups_of eid cs)) in
  exists calls t', commit_all cs (Tracker_Register eid (Some cb) t) = Some (calls, t') /\
    (complete -> calls_for eid calls = [(cb, eid)] /\ states_ t' !! eid = None) /\
    (~ complete -> calls_for eid calls = [] /\ is_Some (states_ t' !! eid)).
Proof.
  cbv zeta. destruct (commit_all_tracks (num_groups_ t) eid cb cs ∅ (Tracker_Register eid (Some cb) t))
    as (calls & t' & H & [_ Ht] & Hc); [|done|].
  - split; [done|]. rewrite decide_False by (unfold fired; rewrite size_empty; lia).
    exists 0. split; [apply lookup_insert_eq|exact mask_of_0].
  - rewrite union_empty_l_L in *.
    assert (~ fired (num_groups_ t) ∅) as H0 by (unfold fired; rewrite size_empty; lia).
    rewrite (decide_False (P := fired _ ∅)), app_nil_r in Hc by done. exists calls, t'. split; [done|].
    split; intros Hcomp; (destruct (decide (fired _ _)) as [Hf|Hf]; [|]); try done.
    destruct Ht as (m & Hm & _). eauto.
Qed.

(** ** The index of the RPC router *)
Lemma GroupFromKey_MakeKey g n : is_u32 g -> is_u32 n -> GroupFromKey (MakeKey g n) = g.
Proof.
  unfold is_u32. intros Hg Hn. unfold GroupFromKey, MakeKey.
  rewrite Z.shiftr_lor, Z.shiftr_shiftl_l, Z.shiftl_0_r, (Z.shiftr_div_pow2 n), Z.div_small, Z.lor_0_r by lia.
  by apply u32_small.
Qed.

Lemma MakeKey_node g n : is_u32 g -> is_u32 n -> u32 (MakeKey g n) = n.
Proof.
  unfold is_u32. intros Hg Hn. unfold u32, MakeKey. rewrite <- Z.land_ones, Z.land_lor_distr_l by lia.
  rewrite !Z.land_ones, Z.shiftl_mul_pow2, Z.mod_mul, Z.mod_small by lia. done.
Qed.


Inductive router_op := OpRegister (gid nid mb : Z) | OpUnregister (gid nid : Z).
Definition op_ids (o : router_op) : Z * Z :=
  match o with OpRegister g n _ => (g, n) | OpUnregister g n => (g, n) end.
Definition router_do (o : router_op) (r : RpcRouter) : RpcRouter :=
  match o with
  | OpRegister g n mb => RegisterPeerMailbox g n mb r
  | OpUnregister g n => UnregisterPeerMailbox g n r
  end.
Definition router_run (ops : list router_op) : RpcRouter := foldl (fun r o => router_do o r) RpcRouter_ctor ops.

(** The index lists, without empty lists, exactly the keys that are there, each under
    its own group. *)
Record router_ok (r : RpcRouter) : Prop := {
  ro_nonempty : forall g, group_peers_ r !! g <> Some [];
  ro_index : forall key, is_Some (peers_ r !! key) <-> key ∈ default [] (group_peers_ r !! GroupFromKey key);
  ro_group : forall g key, key ∈ default [] (group_peers_ r !! g) -> GroupFromKey key = g
}.

Lemma router_ok_empty : router_ok RpcRouter_ctor.
Proof.
  split; cbn.
  - intros g. by rewrite lookup_empty.
  - intros key. rewrite !lookup_empty. cbn. split; [by intros []|by intros ?%not_elem_of_nil].
  - intros g key. rewrite lookup_empty. by intros ?%not_elem_of_nil.
Qed.

Lemma router_ok_register g n mb r :
  is_u32 g -> is_u32 n -> router_ok r -> router_ok (RegisterPeerMailbox g n mb r).
Proof.
  intros Hg Hn [Hne Hidx Hgrp]. pose proof (GroupFromKey_MakeKey g n Hg Hn) as Hkey. split; cbn.
  - intros g'. destruct (decide (g = g')) as [<-|]; [|by rewrite lookup_insert_ne].
    rewrite lookup_insert_eq. by destruct (default [] _).
  - intros key. destruct (decide (MakeKey g n = key)) as [<-|Hk].
    + rewrite lookup_insert_eq, Hkey, lookup_insert_eq. cbn. split; [|by eauto]. intros _. apply elem_of_app. right. by left.
    + rewrite lookup_insert_ne, Hidx by done. destruct (decide (g = GroupFromKey key)) as [->|]; [|by rewrite lookup_insert_ne].
      rewrite lookup_insert_eq. cbn. rewrite elem_of_app, list_elem_of_singleton. split; [by left|]. by intros [?|?].
  - intros g' key. destruct (decide (g = g')) as [<-|]; [|rewrite lookup_insert_ne by done; apply Hgrp].
    rewrite lookup_insert_eq. cbn. rewrite elem_of_app, list_elem_of_singleton. intros [?| ->]; [by apply Hgrp|done].
Qed.

(** The index after [key] was taken out of group [g]. *)
Lemma unregister_index g n r g' :
  default [] (group_peers_ (UnregisterPeerMailbox g n r) !! g') =
  let keys := default [] (group_peers_ r !! g') in
  if decide (g' = g) then filter (fun k => k <> MakeKey g n) keys else keys.
Proof.
  unfold UnregisterPeerMailbox. cbn. destruct (group_peers_ r !! g) as [keys|] eqn:E.
  - destruct (filter _ keys) as [|k l] eqn:F; case_decide as Hd; subst.
    + rewrite lookup_delete_eq, E. cbn. by rewrite F.
    + by rewrite lookup_delete_ne.
    + rewrite lookup_insert_eq, E. cbn. by rewrite F.
    + by rewrite lookup_insert_ne.
  - case_decide; [|done]. subst. by rewrite E.
Qed.

Lemma router_ok_unregister g n r : is_u32 g -> is_u32 n -> router_ok r -> router_ok (UnregisterPeerMailbox g n r).
Proof.
  intros Hg Hn [Hne Hidx Hgrp]. pose proof (GroupFromKey_MakeKey g n Hg Hn) as Hkey. split.
  - intros g' Hnil. unfold UnregisterPeerMailbox in Hnil. cbn in Hnil.
    destruct (group_peers_ r !! g) as [keys|] eqn:E; [|by eapply Hne].
    destruct (filter _ keys) as [|k l]; [apply lookup_delete_Some in Hnil as [_ H]; by eapply Hne|].
    apply lookup_insert_Some in Hnil as [[_ ?]|[_ H]]; [done|by eapply Hne].
  - intros key. rewrite unregister_index. cbn [UnregisterPeerMailbox peers_].
    destruct (decide (MakeKey g n = key)) as [<-|Hk].
    + rewrite lookup_delete_eq, Hkey, decide_True, list_elem_of_filter by done. split; [by intros []|by intros []].
    + rewrite lookup_delete_ne, Hidx by done. cbv zeta. case_decide; [|done].
      rewrite list_elem_of_filter. split; [intros ?; split; [congruence|done]|by intros []].
  - intros g' key. rewrite unregister_index. cbv zeta. case_decide; [|apply Hgrp].
    rewrite list_elem_of_filter. intros [_ ?]. by apply Hgrp.
Qed.

Lemma router_run_ok ops :
  Forall (fun o => is_u32 (op_ids o).1 /\ is_u32 (op_ids o).2) ops -> router_ok (router_run ops).
Proof.
  unfold router_run. intros Hops. pose proof router_ok_empty as Hok. revert Hok.
  generalize RpcRouter_ctor as r. induction Hops as [|o ops [Hg Hn] _ IH]; intros r Hok; [done|]. cbn. apply IH.
  destruct o; [by apply router_ok_register|by apply router_ok_unregister].
Qed.

(** [C37] Well-formedness of the RPC router: whatever mailboxes are registered and
    unregistered, in whatever order, its index by group and its map of mailboxes agree.
    So a group is registered exactly when one of its nodes has a mailbox, a message to
    the group goes to the mailbox of a node of that group, and the peers of a group
    are exactly the mailboxes registered under it. *)
Theorem RpcRouter_consistent (ops : list router_op) (gid : Z)
    (Hops : Forall (fun o => is_u32 (op_ids o).1 /\ is_u32 (op_ids o).2) ops) :
  let r := router_run ops in
  router_ok r /\
  (IsGroupRegistered gid r = true <-> is_Some (GetGroupMailbox gid r)) /\
  (forall mb, GetGroupMailbox gid r = Some mb -> exists key, peers_ r !! key = Some mb /\ GroupFromKey key = gid) /\
  (forall nid mb, is_u32 gid -> is_u32 nid -> GetPeerMailbox gid nid r = Some mb ->
     IsGroupRegistered gid r = true /\ mb ∈ GetGroupPeers gid r) /\
  (forall mb, mb ∈ GetGroupPeers gid r -> exists key, peers_ r !! key = Some mb /\ GroupFromKey key = gid).
Proof.
  cbv zeta. pose proof (router_run_ok ops Hops) as Hok. generalize dependent (router_run ops). intros r [Hne Hidx Hgrp].
  assert (forall key, key ∈ default [] (group_peers_ r !! gid) -> is_Some (peers_ r !! key) /\ GroupFromKey key = gid)
    as Hin by (intros key Hk; pose proof (Hgrp _ _ Hk) as E; split; [apply Hidx; by rewrite E|done]).
  unfold IsGroupRegistered, GetGroupMailbox, GetGroupPeers, GetPeerMailbox in *. split; [by split|].
  specialize (Hne gid). rewrite bool_decide_eq_true. split_and!.
  - destruct (group_peers_ r !! gid) as [[|k l]|]; cbn in *; [done| |split; by intros []].
    split; [intros _; by apply (Hin k); left|by eauto].
  - intros mb. destruct (group_peers_ r !! gid) as [[|k l]|]; cbn in *; [done| |done].
    intros Hmb. exists k. split; [done|]. by apply (Hin k); left.
  - intros nid mb Hg Hn Hmb. assert (MakeKey gid nid ∈ default [] (group_peers_ r !! gid)) as Hk.
    { pose proof (proj1 (Hidx (MakeKey gid nid)) ltac:(by eauto)) as H. by rewrite GroupFromKey_MakeKey in H. }
    destruct (group_peers_ r !! gid) as [keys|]; [|by apply not_elem_of_nil in Hk]. split; [by eauto|].
    apply list_elem_of_omap. eauto.
  - intros mb. destruct (group_peers_ r !! gid) as [keys|]; [|by intros ?%not_elem_of_nil].
    intros (key & Hk & Hmb)%list_elem_of_omap. exists key. split; [done|]. by apply Hin.
Qed.

(** ** Merging route tables *)
Lemma merge_lookup (l : list (Z * GroupTopology)) (m : RoutingTable) : NoDup l.*1 ->
  forall i, foldr merge_route m l !! i = (m ∪ list_to_map l) !! i.
Proof.
  induction l as [|[sid e] l IH]; [intros _ i; cbn; by rewrite (right_id_L ∅ (∪))|].
  intros [Hnin Hnd]%NoDup_cons i. specialize (IH Hnd). cbn [foldr]. unfold merge_route at 1. cbn [fst snd].
  change (list_to_map ((sid, e) :: l)) with (<[sid := e]> (list_to_map l : RoutingTable)).
  assert ((list_to_map l : RoutingTable) !! sid = None) as Hnone by exact (not_elem_of_list_to_map_1 (M := gmap Z) _ _ Hnin).
  rewrite (IH sid), lookup_union, Hnone, (right_id_L None _). rewrite lookup_union.
  destruct (m !! sid) as [x|] eqn:Em; destruct (decide (sid = i)) as [<-|Hne].
  - rewrite IH, lookup_union, Em, lookup_insert_eq, Hnone. done.
  - by rewrite IH, lookup_union, lookup_insert_ne.
  - by rewrite !lookup_insert_eq, Em.
  - by rewrite !lookup_insert_ne, IH, lookup_union.
Qed.

(** [MergeRoutes] with hops left adds the routes this node has not, and changes none. *)
Lemma MergeRoutes_union other ttl t : 0 < ttl ->
  routing_table_ (MergeRoutes other ttl t) = routing_table_ t ∪ other.
Proof.
  intros. unfold MergeRoutes. rewrite (proj2 (Z.leb_gt ttl 0)) by done. cbn. apply map_eq. intros i.
  rewrite merge_lookup by apply NoDup_fst_map_to_list. by rewrite list_to_map_to_list.
Qed.

(** ** Broadcasts *)

Lemma push_to_unbounded p msg r q : router_mailboxes r !! p = Some (mkMailbox 0 q) ->
  push_to p msg r = Some (mkRaftRouter (local_peers_ r) (<[p := mkMailbox 0 (q ++ [msg])]> (router_mailboxes r))).
Proof. intros H. unfold push_to. by rewrite H. Qed.

(** The loop of [BroadcastToGroup] moves the message into the first mailbox of the
    group; a second mailbox of the group gets what is left of it. *)
Lemma BroadcastToGroup_moves (moved : PeerMsg -> PeerMsg) gid n1 n2 p1 p2 msg r :
  is_u32 gid -> is_u32 n1 -> is_u32 n2 -> p1 <> p2 ->
  local_peers_ r !! MakeKey gid n1 = Some p1 -> local_peers_ r !! MakeKey gid n2 = Some p2 ->
  router_mailboxes r !! p1 = Some (mkMailbox 0 []) -> router_mailboxes r !! p2 = Some (mkMailbox 0 []) ->
  exists r', BroadcastToGroup moved [MakeKey gid n1; MakeKey gid n2] gid msg r = Some r' /\
    router_mailboxes r' !! p1 = Some (mkMailbox 0 [msg]) /\ router_mailboxes r' !! p2 = Some (mkMailbox 0 [moved msg]).
Proof.
  intros Hg H1 H2 Hne E1 E2 M1 M2. unfold BroadcastToGroup. cbn [broadcast].
  rewrite E1, GroupFromKey_MakeKey, Z.eqb_refl, (push_to_unbounded p1 _ _ []) by done. cbn [mbind option_bind app local_peers_].
  rewrite E2, GroupFromKey_MakeKey, Z.eqb_refl, (push_to_unbounded p2 _ _ []) by (done || (cbn; by rewrite lookup_insert_ne)).
  eexists. split; [done|]. cbn. by rewrite lookup_insert_ne, !lookup_insert_eq by done.
Qed.

(** ** PeerListManager *)
Record PhysicalNodeInfo := mkPhysicalNodeInfo { physical_node_id : Z; pn_raft_rpc_addr : Slice; pn_kv_rpc_addr : Slice }.
Record PeerList := mkPeerList { pl_group_id : Z; member_nodes : list Z; node_info : gmap Z PhysicalNodeInfo }.

Definition AddMember (id : Z) (info : PhysicalNodeInfo) (g : PeerList) : PeerList :=
  mkPeerList (pl_group_id g) (if decide (id ∈ member_nodes g) then member_nodes g else member_nodes g ++ [id])
    (<[id := info]> (node_info g)).
Definition RemoveMember (id : Z) (g : PeerList) : PeerList :=
  mkPeerList (pl_group_id g) (filter (fun n => n <> id) (member_nodes g)) (delete id (node_info g)).
Definition HasMember (id : Z) (g : PeerList) : bool := bool_decide (is_Some (node_info g !! id)).
Definition PeerList_Size (g : PeerList) : Z := Z.of_nat (length (member_nodes g)).

Abbreviation PeerLists := (gmap Z PeerList).
Definition AddGroup (group_id : Z) (m : PeerList) (p : PeerLists) : PeerLists := <[group_id := m]> p.
Definition RemoveGroup (group_id : Z) (p : PeerLists) : PeerLists := delete group_id p.
Definition UpdateGroupMembership (group_id : Z) (m : PeerList) (p : PeerLists) : PeerLists := <[group_id := m]> p.
Definition AddGroupMember (group_id id : Z) (info : PhysicalNodeInfo) (p : PeerLists) : PeerLists :=
  alter (AddMember id info) group_id p.
Definition RemoveGroupMember (group_id id : Z) (p : PeerLists) : PeerLists := alter (RemoveMember id) group_id p.
Definition GetGroupMembership (group_id : Z) (p : PeerLists) : option PeerList := p !! group_id.
Definition GetAllGroups (p : PeerLists) : list Z := sorted_keys p.
Definition HasGroup (group_id : Z) (p : PeerLists) : bool := bool_decide (is_Some (p !! group_id)).

(** The members are listed once each, and exactly those with details. *)
Record members_ok (g : PeerList) : Prop := {
  mo_once : NoDup (member_nodes g);
  mo_info : forall n, n ∈ member_nodes g <-> HasMember n g = true
}.

Lemma AddMember_ok id info g : members_ok g -> members_ok (AddMember id info g).
Proof.
  intros [Hn Hi]. unfold HasMember in *. setoid_rewrite bool_decide_eq_true in Hi.
  split; cbn; [|intros n; unfold HasMember; rewrite bool_decide_eq_true; cbn].
  - case_decide; [done|]. apply NoDup_app. split; [done|]. split; [|apply NoDup_singleton].
    intros x Hx ->%list_elem_of_singleton. done.
  - rewrite lookup_insert_is_Some', <- Hi. case_decide as Hd; [split; [by right|by intros [<-|?]]|].
    rewrite elem_of_app, list_elem_of_singleton. split; intros [?|?]; subst; auto.
Qed.

Lemma RemoveMember_ok id g : members_ok g -> members_ok (RemoveMember id g).
Proof.
  intros [Hn Hi]. unfold HasMember in *. setoid_rewrite bool_decide_eq_true in Hi.
  split; cbn; [by apply NoDup_filter|]. intros n. unfold HasMember. rewrite bool_decide_eq_true. cbn.
  rewrite list_elem_of_filter, lookup_delete_is_Some, Hi. split; intros [??]; auto.
Qed.

(** ** Examples *)
Lemma CrossGroupTracker_fires_once_witness :
  exists calls t', commit_all [(5, 0); (6, 1); (5, 0); (5, 63); (5, 2)] (Tracker_Register 5 (Some 9) (CrossGroupTracker_ctor 2)) =
    Some (calls, t') /\ calls_for 5 calls = [(9, 5)] /\ states_ t' !! 5 = None.
Proof.
  destruct (CrossGroupTracker_fires_once (CrossGroupTracker_ctor 2) 5 9 [(5, 0); (6, 1); (5, 0); (5, 63); (5, 2)])
    as (calls & t' & H & Hc & _).
  - apply (bool_decide_unpack _). vm_compute. exact I.
  - exists calls, t'. split; [exact H|]. apply Hc. apply (bool_decide_unpack _). vm_compute. exact I.
Defined.

Lemma RpcRouter_consistent_witness :
  GetGroupMailbox 3 (router_run [OpRegister 3 0 10; OpRegister 4 0 11; OpRegister 3 1 12; OpUnregister 3 0]) = Some 12 /\
  router_ok (router_run [OpRegister 3 0 10; OpRegister 4 0 11; OpRegister 3 1 12; OpUnregister 3 0]).
Proof.
  split; [vm_compute; reflexivity|]. apply (RpcRouter_consistent _ 3). repeat constructor; cbn; lia.
Defined.
