(* ===== verification/Config.v ===== *)
(** The configuration of a Multi-Raft server: network addresses, the configuration file
    and the uniform memberships made from it (src/bench/bench_server_multiraft.cc,
    src/kv/config.h, src/kv/type.h, [GroupMembership] of src/multi-raft/raft_store.h).

    [None] is an exception of [std::stoi] or of the parser. Members a default
    constructor leaves unset come from [unset]; a file is its bytes. *)

From stdpp Require Import strings pretty.
From Stdlib Require Import Ascii.
From S2P Require Import Prelude Types Bytes.

(** ** Numbers and addresses *)
Definition is_space (b : Z) : bool := (b =? 32) || ((9 <=? b) && (b <=? 13)).
Definition is_digit (b : Z) : bool := (48 <=? b) && (b <=? 57).

Fixpoint skip_space (s : Slice) : Slice :=
  match s with b :: s' => if is_space b then skip_space s' else s | [] => [] end.
Fixpoint read_digits (acc : Z) (s : Slice) : Z :=
  match s with b :: s => if is_digit b then read_digits (acc * 10 + (b - 48)) s else acc | [] => acc end.

(** [std::stoi]: leading space, a sign, digits; what follows them is ignored. *)
Definition stoi (s : Slice) : option Z :=
  let s := skip_space s in
  let '(sign, s) := match s with
                    | b :: s' => if b =? 45 then (-1, s') else if b =? 43 then (1, s') else (1, s)
                    | [] => (1, []) end in
  match s with
  | b :: _ =>
      if is_digit b then
        let n := sign * read_digits 0 s in
        if decide (- 2 ^ 31 <= n < 2 ^ 31) then Some n else None
      else None
  | [] => None
  end.

Record NetAddress := mkNetAddress { ip : Slice; port : Z }.
Definition u16 (z : Z) : Z := z mod 2 ^ 16.
Definition colon : Z := 58.

(** What is in front of the first colon and behind it. *)
Fixpoint split_first (c : Z) (s : Slice) : option (Slice * Slice) :=
  match s with
  | [] => None
  | b :: s => if b =? c then Some ([], s) else (fun p => (b :: p.1, p.2)) <$> split_first c s
  end.
(** The same for the last colon. *)
Fixpoint split_last (c : Z) (s : Slice) : option (Slice * Slice) :=
  match s with
  | [] => None
  | b :: s => match split_last c s with
              | Some p => Some (b :: p.1, p.2)
              | None => if b =? c then Some ([], s) else None
              end
  end.

(** [ParseAddressStr]: [Some None] when there is no colon. *)
Definition ParseAddressStr (addr : Slice) : option (option (Slice * Z)) :=
  match split_first colon addr with
  | None => Some None
  | Some (host, rest) => port ← stoi rest; Some (Some (host, port))
  end.
(** The address the server keeps: [def] unless the string has a colon. *)
Definition server_address (def : NetAddress) (addr : Slice) : option NetAddress :=
  r ← ParseAddressStr addr;
  Some (match r with Some (host, port) => mkNetAddress host (u16 port) | None => def end).

(** The address of a member in a group notification, cut at the last colon. *)
Definition member_address (def : NetAddress) (addr : Slice) : option NetAddress :=
  match split_last colon addr with
  | None => Some def
  | Some (host, rest) => port ← stoi rest; Some (mkNetAddress host (u16 port))
  end.

(** ** Memberships *)
Record KvServiceNodeConfig := mkKvServiceNodeConfig {
  nc_id : Z; nc_group_id : Z; nc_kv_rpc_addr : NetAddress; nc_raft_rpc_addr : NetAddress;
  nc_raft_log_filename : Slice; nc_kv_dbname : Slice
}.
Abbreviation KvClusterConfig := (gmap Z KvServiceNodeConfig).

Record GroupMembership := mkGroupMembership {
  gm_group_id : Z; gm_local_node_id : Z; gm_group_cluster_cfg : KvClusterConfig
}.

(** [ConstructRaftClusterConfig]. *)
Definition ConstructRaftClusterConfig (config : KvClusterConfig) : gmap Z NetAddress := nc_raft_rpc_addr <$> config.

(** ** The configuration file *)
Record RawNodeLine := mkRawNodeLine {
  rl_local_node_id : Z; rl_raft_addr : Slice; rl_kv_addr : Slice; rl_raft_log : Slice; rl_kv_db : Slice
}.
Record ParsedConfig := mkParsedConfig { cluster_size : Z; cfg_nodes : list RawNodeLine }.

Definition newline : Z := 10.

(** [std::getline] until the end of the file. *)
Fixpoint file_lines (cur : Slice) (s : Slice) : list Slice :=
  match s with
  | [] => match cur with [] => [] | _ => [cur] end
  | b :: s => if b =? newline then cur :: file_lines [] s else file_lines (cur ++ [b]) s
  end.

(** The next word of a line; nothing when there is none. *)
Fixpoint take_word (s : Slice) : Slice * Slice :=
  match s with
  | b :: s' => if is_space b then ([], s) else let r := take_word s' in (b :: r.1, r.2)
  | [] => ([], [])
  end.
Definition next_word (s : Slice) : Slice * Slice := take_word (skip_space s).

(** One line, after those before it gave [acc]: the size, once it was read. *)
Definition parse_line (line : Slice) (acc : option Z * list RawNodeLine) : option (option Z * list RawNodeLine) :=
  if match line with [] => true | b :: _ => b =? 35 end then Some acc else
  let '(first, rest) := next_word line in
  match acc.1 with
  | None =>
      n ← stoi first;
      if n <=? 0 then None else Some (Some n, acc.2)
  | Some n =>
      id ← stoi first;
      let '(raft_addr, rest) := next_word rest in
      let '(kv_addr, rest) := next_word rest in
      let '(raft_log, rest) := next_word rest in
      let '(kv_db, _) := next_word rest in
      Some (Some n, acc.2 ++ [mkRawNodeLine (u32 id) raft_addr kv_addr raft_log kv_db])
  end.
Fixpoint parse_lines (lines : list Slice) (acc : option Z * list RawNodeLine) : option (option Z * list RawNodeLine) :=
  match lines with
  | [] => Some acc
  | line :: lines => acc ← parse_line line acc; parse_lines lines acc
  end.
Definition ParseConfig (file : Slice) : option ParsedConfig :=
  r ← parse_lines (file_lines [] file) (None, []);
  Some (mkParsedConfig (default 0 r.1) r.2).

(** ** Phases 2 and 3: the addresses.
    The server takes the line at the position of its own number. *)
Definition own_addresses (me : Z) (raw : ParsedConfig) : option (NetAddress * NetAddress) :=
  n ← arr_get (cfg_nodes raw) me;
  r ← server_address (mkNetAddress (rl_raft_addr n) 0) (rl_raft_addr n);
  k ← server_address (mkNetAddress (rl_kv_addr n) 0) (rl_kv_addr n);
  Some (r, k).
Definition peer_addresses (unset : NetAddress) (raw : ParsedConfig) : option (list (NetAddress * NetAddress)) :=
  mapM (fun n => r ← server_address unset (rl_raft_addr n); k ← server_address unset (rl_kv_addr n); Some (r, k))
    (cfg_nodes raw).

(** ** Phase 4: N groups of all nodes *)
Section uniform.
Context (unset : NetAddress).

Definition uniform_node (g : Z) (n : RawNodeLine) : option KvServiceNodeConfig :=
  r ← server_address unset (rl_raft_addr n);
  k ← server_address unset (rl_kv_addr n);
  Some (mkKvServiceNodeConfig (rl_local_node_id n) (u32 g) k r
    (rl_raft_log n ++ str ".g" ++ to_string g) (rl_kv_db n ++ str ".g" ++ to_string g)).
Definition add_node (acc : KvClusterConfig) (nc : KvServiceNodeConfig) : KvClusterConfig := <[nc_id nc := nc]> acc.
Definition uniform_membership (me : Z) (nodes : list RawNodeLine) (g : Z) : option GroupMembership :=
  ncs ← mapM (uniform_node g) nodes;
  Some (mkGroupMembership (u32 g) (u32 me) (foldl add_node ∅ ncs)).
(** The memberships of node [me], if there are as many nodes as the file says. *)
Definition uniform_memberships (me : Z) (raw : ParsedConfig) : option (list GroupMembership) :=
  if negb (i32 (Z.of_nat (length (cfg_nodes raw))) =? cluster_size raw) then None else
  mapM (uniform_membership me (cfg_nodes raw)) (seqZ 0 (cluster_size raw)).
End uniform.

(** ** Addresses can be read back *)
Lemma split_first_app c a b : c ∉ a -> split_first c (a ++ c :: b) = Some (a, b).
Proof.
  induction a as [|x a IH]; cbn; [by rewrite Z.eqb_refl|]. intros [Hne Hin]%not_elem_of_cons.
  rewrite (proj2 (Z.eqb_neq x c)) by done. by rewrite IH.
Qed.

Lemma split_last_none c b : c ∉ b -> split_last c b = None.
Proof.
  induction b as [|x b IH]; cbn; [done|]. intros [Hne Hin]%not_elem_of_cons.
  rewrite IH by done. by rewrite (proj2 (Z.eqb_neq x c)).
Qed.

Lemma split_last_app c a b : c ∉ b -> split_last c (a ++ c :: b) = Some (a, b).
Proof.
  intros Hb. induction a as [|x a IH]; cbn; [|by rewrite IH]. by rewrite split_last_none, Z.eqb_refl.
Qed.

Lemma pretty_N_char_digit (x : N) : (x < 10)%N ->
  Z.of_N (N_of_ascii (pretty_N_char x)) = 48 + Z.of_N x.
Proof.
  intros Hx. assert (x = 0 \/ x = 1 \/ x = 2 \/ x = 3 \/ x = 4 \/ x = 5 \/ x = 6 \/ x = 7 \/ x = 8 \/ x = 9)%N as H by lia.
  destruct_or! H; by subst.
Qed.

(** The digits of [x] in front of [s]. *)
Lemma pretty_N_go_reads x : forall s, (0 < x)%N ->
  Forall (fun b => is_digit b = true) (str s) ->
  Forall (fun b => is_digit b = true) (str (pretty_N_go x s)) /\
  read_digits 0 (str (pretty_N_go x s)) = read_digits (Z.of_N x) (str s).
Proof.
  induction (N.lt_wf_0 x) as [x _ IH]. intros s Hx Hs. rewrite pretty_N_go_step by done.
  set (d := (x mod 10)%N). assert (d < 10)%N as Hd by (apply N.mod_lt; lia).
  assert (is_digit (48 + Z.of_N d) = true) as Hdig
    by (unfold is_digit; rewrite andb_true_iff, !Z.leb_le; lia).
  assert (Forall (fun b => is_digit b = true) (str (String (pretty_N_char d) s))) as Hs'.
  { cbn. rewrite pretty_N_char_digit by done. by constructor. }
  assert (forall acc, read_digits acc (str (String (pretty_N_char d) s)) = read_digits (acc * 10 + Z.of_N d) (str s)) as Hr.
  { intros acc. cbn. rewrite pretty_N_char_digit, Hdig by done. f_equal. lia. }
  pose proof (N.div_mod x 10 ltac:(lia)) as Hdm. fold d in Hdm.
  destruct (decide (x / 10 = 0)%N) as [E|E].
  - rewrite E, pretty_N_go_0. split; [done|]. rewrite Hr. f_equal. lia.
  - destruct (IH (x / 10)%N ltac:(apply N.div_lt; lia) _ ltac:(lia) Hs') as [Hf Hrd]. split; [done|].
    rewrite Hrd, Hr. f_equal. lia.
Qed.

Lemma to_string_reads n : 0 <= n ->
  to_string n <> [] /\ Forall (fun b => is_digit b = true) (to_string n) /\ read_digits 0 (to_string n) = n.
Proof.
  intros Hn. assert (forall x : N, (0 < x)%N -> str (pretty x) <> [] /\
    Forall (fun b => is_digit b = true) (str (pretty x)) /\ read_digits 0 (str (pretty x)) = Z.of_N x) as Hpos.
  { intros x Hx. unfold pretty, pretty_N. rewrite decide_False by lia.
    destruct (pretty_N_go_reads x EmptyString Hx ltac:(constructor)) as [Hf Hr].
    split; [|split; [exact Hf|by rewrite Hr]]. intros E. rewrite E in Hr. cbn in Hr. lia. }
  destruct n as [|p|p]; [|exact (Hpos (N.pos p) ltac:(lia))|lia].
  repeat split; [discriminate|repeat constructor].
Qed.

Lemma digit_not_space b : is_digit b = true -> is_space b = false.
Proof. unfold is_digit, is_space. rewrite andb_true_iff, !Z.leb_le. intros. apply not_true_iff_false. lia. Qed.

(** [std::stoi] reads back what [std::to_string] wrote. *)
Lemma stoi_to_string n : 0 <= n < 2 ^ 31 -> stoi (to_string n) = Some n.
Proof.
  intros Hn. destruct (to_string_reads n ltac:(lia)) as (Hne & Hd & Hr). unfold stoi.
  destruct (to_string n) as [|b l] eqn:E; [done|]. pose proof (Forall_inv Hd) as Hb.
  cbn [skip_space]. rewrite (digit_not_space b Hb).
  assert (b <> 45 /\ b <> 43) as [H1 H2] by (unfold is_digit in Hb; rewrite andb_true_iff, !Z.leb_le in Hb; lia).
  rewrite (proj2 (Z.eqb_neq b 45)), (proj2 (Z.eqb_neq b 43)), Hb by done. rewrite Hr, Z.mul_1_l.
  by rewrite decide_True by lia.
Qed.

Lemma to_string_no c n : 0 <= n -> is_digit c = false -> c ∉ to_string n.
Proof. intros Hn Hc Hin. destruct (to_string_reads n Hn) as (_ & Hd & _). rewrite Forall_forall in Hd.
  by rewrite (Hd _ Hin) in Hc. Qed.

Definition show_address (a : NetAddress) : Slice := ip a ++ colon :: to_string (port a).
Definition address_ok (a : NetAddress) : Prop := 0 <= port a < 2 ^ 16.

(** An address in a notification is read back whatever its host is; the server's own
    parser cuts at the first colon and needs a host without one. *)
Lemma member_address_show def a : address_ok a -> member_address def (show_address a) = Some a.
Proof.
  unfold address_ok. intros Hp. unfold member_address, show_address. rewrite split_last_app by (apply to_string_no; [lia|done]).
  rewrite stoi_to_string by lia. cbn. unfold u16. rewrite Z.mod_small by done. by destruct a.
Qed.

Lemma server_address_show def a : address_ok a -> colon ∉ ip a -> server_address def (show_address a) = Some a.
Proof.
  unfold address_ok. intros Hp Hc. unfold server_address, ParseAddressStr, show_address. rewrite split_first_app by done.
  rewrite stoi_to_string by lia. cbn. unfold u16. rewrite Z.mod_small by done. by destruct a.
Qed.

(** ** The configuration file can be read back *)
Definition word (w : Slice) : Prop := w <> [] /\ Forall (fun b => is_space b = false) w.

(** Space inside a line, and what can stand behind a word. *)
Definition blank (s : Slice) : Prop := Forall (fun b => is_space b = true /\ b <> newline) s.
Definition gap (s : Slice) : Prop := s <> [] /\ blank s.
Definition word_end (s : Slice) : Prop := match s with [] => True | b :: _ => is_space b = true end.

Lemma take_word_app w rest : Forall (fun b => is_space b = false) w -> word_end rest -> take_word (w ++ rest) = (w, rest).
Proof.
  intros Hw He. induction Hw as [|b w Hb _ IH]; cbn; [|by rewrite Hb, IH].
  destruct rest as [|b rest]; [done|]. cbn in *. by rewrite He.
Qed.

(** Whatever space there is in front of a word is skipped. *)
Lemma next_word_app lead w rest : blank lead -> word w -> word_end rest -> next_word (lead ++ w ++ rest) = (w, rest).
Proof.
  intros Hl [Hne Hw] He. unfold next_word. induction Hl as [|b lead [Hb _] _ IH]; [|cbn; by rewrite Hb].
  destruct w as [|b w]; [done|]. cbn [app skip_space]. rewrite (Forall_inv Hw). by apply (take_word_app (b :: w)).
Qed.

Lemma gap_end g s : gap g -> word_end (g ++ s).
Proof. intros [Hne Hg]. destruct g as [|b g]; [done|]. by apply Forall_inv in Hg as [? _]. Qed.
Lemma gap_blank g : gap g -> blank g.
Proof. by intros [_ ?]. Qed.
Lemma blank_no_newline s : blank s -> newline ∉ s.
Proof. intros Hs Hin. by destruct (proj1 (Forall_forall _ _) Hs _ Hin). Qed.

Lemma to_string_word n : 0 <= n -> word (to_string n).
Proof.
  intros Hn. destruct (to_string_reads n Hn) as (Hne & Hd & _). split; [done|].
  eapply Forall_impl; [exact Hd|]. apply digit_not_space.
Qed.

(** A node's line as somebody typed it: the fields with any spaces and tabs in front of
    and between them, and behind the last one more space or more fields, which nobody
    reads. *)
Record NodeText := mkNodeText {
  nt_node : RawNodeLine; nt_lead : Slice; nt_gap1 : Slice; nt_gap2 : Slice; nt_gap3 : Slice; nt_gap4 : Slice; nt_rest : Slice
}.
Definition show_node (t : NodeText) : Slice :=
  let n := nt_node t in
  nt_lead t ++ to_string (rl_local_node_id n) ++ nt_gap1 t ++ rl_raft_addr n ++ nt_gap2 t ++ rl_kv_addr n ++
  nt_gap3 t ++ rl_raft_log n ++ nt_gap4 t ++ rl_kv_db n ++ nt_rest t.
Record node_line_ok (n : RawNodeLine) : Prop := {
  nl_id : 0 <= rl_local_node_id n < 2 ^ 31;
  nl_raft : word (rl_raft_addr n);
  nl_kv : word (rl_kv_addr n);
  nl_log : word (rl_raft_log n);
  nl_db : word (rl_kv_db n)
}.
Record node_text_ok (t : NodeText) : Prop := {
  tx_node : node_line_ok (nt_node t);
  tx_lead : blank (nt_lead t);
  tx_gap1 : gap (nt_gap1 t);
  tx_gap2 : gap (nt_gap2 t);
  tx_gap3 : gap (nt_gap3 t);
  tx_gap4 : gap (nt_gap4 t);
  tx_rest : word_end (nt_rest t) /\ newline ∉ nt_rest t
}.

(** A line that starts with space or with a number is not skipped. *)
Lemma number_line lead n rest : blank lead -> 0 <= n ->
  match lead ++ to_string n ++ rest with [] => true | b :: _ => b =? 35 end = false.
Proof.
  intros Hl Hn. destruct Hl as [|b lead [Hb _] _]; cbn.
  - destruct (to_string_reads n Hn) as (Hne & Hdig & _). destruct (to_string n) as [|b l]; [done|]. cbn.
    apply Forall_inv in Hdig. unfold is_digit in Hdig. rewrite andb_true_iff, !Z.leb_le in Hdig. apply Z.eqb_neq. lia.
  - apply Z.eqb_neq. intros ->. by vm_compute in Hb.
Qed.

Lemma parse_line_node t size ns : node_text_ok t ->
  parse_line (show_node t) (Some size, ns) = Some (Some size, ns ++ [nt_node t]).
Proof.
  intros [[Hid Hr Hk Hl Hd] Hld H1 H2 H3 H4 [He _]]. unfold parse_line, show_node. rewrite number_line by (done || lia).
  rewrite next_word_app by (done || (apply to_string_word; lia) || by apply gap_end). cbn [fst].
  rewrite stoi_to_string by done. cbn [mbind option_bind].
  do 3 rewrite next_word_app by (done || by apply gap_end || by apply gap_blank).
  rewrite next_word_app by (done || by apply gap_blank).
  rewrite u32_small by (unfold is_u32; lia). by destruct (nt_node t).
Qed.

(** The line with the number of nodes. *)
Record SizeText := mkSizeText { st_size : Z; st_lead : Slice; st_rest : Slice }.
Definition show_size (t : SizeText) : Slice := st_lead t ++ to_string (st_size t) ++ st_rest t.
Record size_text_ok (t : SizeText) : Prop := {
  sx_size : 0 < st_size t < 2 ^ 31;
  sx_lead : blank (st_lead t);
  sx_rest : word_end (st_rest t) /\ newline ∉ st_rest t
}.

Lemma parse_line_size t ns : size_text_ok t -> parse_line (show_size t) (None, ns) = Some (Some (st_size t), ns).
Proof.
  intros [Hs Hl [He _]]. unfold parse_line, show_size. rewrite number_line by (done || lia).
  rewrite next_word_app by (done || (apply to_string_word; lia)). cbn [fst]. rewrite stoi_to_string by lia. cbn.
  by rewrite (proj2 (Z.leb_gt _ 0)) by lia.
Qed.

(** A comment or an empty line. *)
Definition comment (l : Slice) : Prop := (newline ∉ l) /\ (l = [] \/ head l = Some 35).
(** A line below the size: a comment, or a node. *)
Abbreviation Line := (Slice + NodeText)%type.
Definition show_line (l : Line) : Slice := match l with inl c => c | inr t => show_node t end.
Definition line_ok (l : Line) : Prop := match l with inl c => comment c | inr t => node_text_ok t end.
Definition nodes_of (body : list Line) : list RawNodeLine :=
  omap (fun l => match l with inl _ => None | inr t => Some (nt_node t) end) body.

Definition ended (l : Slice) : Slice := l ++ [newline].
(** A file: comments, the size, then the other lines; the last line may lack its end. *)
Definition show_config (before : list Slice) (size : SizeText) (body : list Line) (last : option Line) : Slice :=
  concat (ended <$> (before ++ [show_size size] ++ (show_line <$> body))) ++ from_option show_line [] last.

Lemma file_lines_line cur l rest : newline ∉ l -> file_lines cur (l ++ newline :: rest) = (cur ++ l) :: file_lines [] rest.
Proof.
  revert cur. induction l as [|b l IH]; intros cur; cbn; [by rewrite app_nil_r|]. intros [Hne Hin]%not_elem_of_cons.
  rewrite (proj2 (Z.eqb_neq b newline)) by done. by rewrite IH, <- app_assoc.
Qed.

Lemma file_lines_all ls rest : Forall (fun l => newline ∉ l) ls ->
  file_lines [] (concat (ended <$> ls) ++ rest) = ls ++ file_lines [] rest.
Proof.
  induction 1 as [|l ls Hl _ IH]; [done|]. cbn [fmap list_fmap concat]. unfold ended at 1. rewrite <- !app_assoc. cbn [app].
  rewrite file_lines_line by done. cbn [app]. by f_equal.
Qed.

(** A last line without its end is a line, unless it is empty. *)
Lemma file_lines_last l : newline ∉ l -> file_lines [] l = match l with [] => [] | _ => [l] end.
Proof.
  assert (forall l cur, newline ∉ l -> file_lines cur l = match cur ++ l with [] => [] | c => [c] end) as H.
  2:{ intros Hl. rewrite (H l []) by done. by destruct l. }
  clear l. induction l as [|b l IH]; intros cur; cbn; [rewrite app_nil_r; by destruct cur|].
  intros [Hne Hin]%not_elem_of_cons. rewrite (proj2 (Z.eqb_neq b newline)) by done. by rewrite IH, <- app_assoc.
Qed.

Lemma word_no_newline w : word w -> newline ∉ w.
Proof. intros [_ Hw] Hin. rewrite Forall_forall in Hw. by specialize (Hw _ Hin). Qed.

Lemma line_no_newline l : line_ok l -> newline ∉ show_line l.
Proof.
  destruct l as [c|t]; [by intros [? _]|]. intros [[Hid Hr Hk Hl Hd] Hld [_ H1] [_ H2] [_ H3] [_ H4] [_ He]]. cbn. unfold show_node.
  rewrite !elem_of_app. pose proof (word_no_newline _ (to_string_word _ (proj1 Hid))).
  pose proof (word_no_newline _ Hr). pose proof (word_no_newline _ Hk). pose proof (word_no_newline _ Hl).
  pose proof (word_no_newline _ Hd). pose proof (blank_no_newline _ Hld). pose proof (blank_no_newline _ H1).
  pose proof (blank_no_newline _ H2). pose proof (blank_no_newline _ H3). pose proof (blank_no_newline _ H4). tauto.
Qed.

Lemma size_no_newline t : size_text_ok t -> newline ∉ show_size t.
Proof.
  intros [Hs Hl [_ He]]. unfold show_size. rewrite !elem_of_app.
  pose proof (word_no_newline _ (to_string_word (st_size t) ltac:(lia))). pose proof (blank_no_newline _ Hl). tauto.
Qed.

Lemma parse_line_comment c acc : comment c -> parse_line c acc = Some acc.
Proof.
  intros [_ Hc]. unfold parse_line. destruct c as [|b c]; [done|]. destruct Hc as [|[= ->]]; [done|]. done.
Qed.

Lemma parse_lines_comments before rest acc : Forall comment before -> parse_lines (before ++ rest) acc = parse_lines rest acc.
Proof. induction 1 as [|c before Hc _ IH]; cbn; [done|]. by rewrite parse_line_comment by done. Qed.

Lemma parse_lines_app ls1 ls2 acc : parse_lines (ls1 ++ ls2) acc = (acc ← parse_lines ls1 acc; parse_lines ls2 acc).
Proof. revert acc. induction ls1 as [|l ls1 IH]; intros acc; cbn; [done|]. destruct (parse_line l acc) as [acc'|]; cbn; auto. Qed.

Lemma parse_lines_body body size ns : Forall line_ok body ->
  parse_lines (show_line <$> body) (Some size, ns) = Some (Some size, ns ++ nodes_of body).
Proof.
  intros Hb. revert ns. induction Hb as [|[c|t] body Hl _ IH]; intros ns; cbn; [by rewrite app_nil_r| |].
  - rewrite parse_line_comment by done. apply IH.
  - rewrite parse_line_node by done. cbn. by rewrite IH, <- app_assoc.
Qed.

Lemma parse_lines_last last size ns : Forall line_ok (option_list last) ->
  parse_lines (file_lines [] (from_option show_line [] last)) (Some size, ns) =
    Some (Some size, ns ++ nodes_of (option_list last)).
Proof.
  destruct last as [l|]; cbn [from_option option_list]; intros Hl; [|cbn; by rewrite app_nil_r].
  pose proof (Forall_inv Hl) as Hok. pose proof (parse_lines_body [l] size ns Hl) as Hp. cbn [fmap list_fmap] in Hp.
  rewrite file_lines_last by by apply line_no_newline. by destruct (show_line l) as [|b t] eqn:E; [exact Hp|].
Qed.

Lemma ParseConfig_reads before size body last : Forall comment before -> size_text_ok size ->
  Forall line_ok (body ++ option_list last) ->
  ParseConfig (show_config before size body last) =
    Some (mkParsedConfig (st_size size) (nodes_of (body ++ option_list last))).
Proof.
  intros Hc Hs [Hb Hl]%Forall_app. unfold ParseConfig, show_config. rewrite file_lines_all.
  - rewrite <- !app_assoc, parse_lines_comments by done. cbn [app parse_lines]. rewrite parse_line_size by done.
    cbn [mbind option_bind]. rewrite parse_lines_app, parse_lines_body by done. cbn [mbind option_bind].
    rewrite parse_lines_last by done. cbn. unfold nodes_of. by rewrite omap_app.
  - apply Forall_app. split; [eapply Forall_impl; [exact Hc|]; by intros l []|]. constructor; [by apply size_no_newline|].
    apply Forall_fmap. eapply Forall_impl; [exact Hb|]. apply line_no_newline.
Qed.

(** ** From the file to the memberships *)

(** The line is the node with this id and these addresses. *)
Record describes (n : RawNodeLine) (raft kv : NetAddress) : Prop := {
  ds_raft : rl_raft_addr n = show_address raft;
  ds_kv : rl_kv_addr n = show_address kv;
  ds_raft_ok : address_ok raft /\ colon ∉ ip raft;
  ds_kv_ok : address_ok kv /\ colon ∉ ip kv
}.
Definition group_file (base : Slice) (g : Z) : Slice := base ++ str ".g" ++ to_string g.
(** What group [g] knows of a node. *)
Definition group_node_config (addr : RawNodeLine -> NetAddress * NetAddress) (g : Z) (n : RawNodeLine) : KvServiceNodeConfig :=
  mkKvServiceNodeConfig (rl_local_node_id n) g (addr n).2 (addr n).1 (group_file (rl_raft_log n) g) (group_file (rl_kv_db n) g).

Section memberships.
Context (unset : NetAddress) (addr : RawNodeLine -> NetAddress * NetAddress).

Lemma uniform_nodes g ns : is_u32 g -> Forall (fun n => describes n (addr n).1 (addr n).2) ns ->
  mapM (uniform_node unset g) ns = Some (group_node_config addr g <$> ns).
Proof.
  intros Hg. induction 1 as [|n ns [Hr Hk [? ?] [? ?]] _ IH]; [done|].
  assert (uniform_node unset g n = Some (group_node_config addr g n)) as E.
  { unfold uniform_node. rewrite Hr, Hk, !server_address_show, u32_small by done. done. }
  cbn. rewrite E. cbn. by rewrite IH.
Qed.

Lemma add_nodes_lookup (l : list KvServiceNodeConfig) : forall (m : KvClusterConfig) nc, NoDup (nc_id <$> l) -> nc ∈ l ->
  foldl add_node m l !! nc_id nc = Some nc.
Proof.
  induction l as [|x l IH]; intros m nc; cbn; [by intros _ ?%not_elem_of_nil|].
  intros [Hx Hnd]%NoDup_cons [->|Hin]%elem_of_cons; [|by apply IH].
  assert (forall m : KvClusterConfig, foldl add_node m l !! nc_id x = m !! nc_id x) as ->; [|by apply lookup_insert_eq].
  clear IH Hnd. induction l as [|y l IHl]; intros m'; cbn in *; [done|]. apply not_elem_of_cons in Hx as [Hne Hx].
  rewrite IHl by done. unfold add_node. by rewrite lookup_insert_ne.
Qed.

Lemma add_nodes_dom (l : list KvServiceNodeConfig) : forall (m : KvClusterConfig) id,
  is_Some (foldl add_node m l !! id) -> is_Some (m !! id) \/ id ∈ (nc_id <$> l).
Proof.
  induction l as [|x l IH]; intros m id; cbn; [by left|]. intros [H|H]%IH; [|right; by right].
  unfold add_node in H. destruct (decide (nc_id x = id)) as [<-|]; [right; left|].
  left. by rewrite lookup_insert_ne in H.
Qed.

(** [C13] From the configuration file to the groups. In the file comments and empty lines
    may stand anywhere, the fields of a line are apart by any spaces and tabs, more of
    them or more fields may follow, and the last line may lack its end; the ids are
    decimal, different, and as many as the size says. Reading it gives one group per
    node, numbered from 0, and every group has exactly the nodes of the file, each
    with its own addresses and with log and database files of that group. *)
Theorem config_file_groups (before : list Slice) (size : SizeText) (me : Z) (body : list Line) (last : option Line)
    (Hbefore : Forall comment before) (Hsize : size_text_ok size) (Hbody : Forall line_ok (body ++ option_list last))
    (Hlen : Z.of_nat (length (nodes_of (body ++ option_list last))) = st_size size) (Hme : is_u32 me)
    (Hids : NoDup (rl_local_node_id <$> nodes_of (body ++ option_list last)))
    (Haddr : Forall (fun n => describes n (addr n).1 (addr n).2) (nodes_of (body ++ option_list last))) :
  exists raw ms, ParseConfig (show_config before size body last) = Some raw /\ uniform_memberships unset me raw = Some ms /\
    gm_group_id <$> ms = seqZ 0 (st_size size) /\
    forall m, m ∈ ms -> gm_local_node_id m = me /\
      (forall n, n ∈ nodes_of (body ++ option_list last) ->
         gm_group_cluster_cfg m !! rl_local_node_id n = Some (group_node_config addr (gm_group_id m) n)) /\
      (forall id, is_Some (gm_group_cluster_cfg m !! id) -> id ∈ rl_local_node_id <$> nodes_of (body ++ option_list last)).
Proof.
  pose proof (sx_size _ Hsize) as Hs. pose proof (ParseConfig_reads before size body last Hbefore Hsize Hbody) as Hp.
  set (ns := nodes_of (body ++ option_list last)) in *.
  set (mem g := mkGroupMembership g me (foldl add_node ∅ (group_node_config addr g <$> ns))).
  exists (mkParsedConfig (st_size size) ns), (mem <$> seqZ 0 (st_size size)). split; [done|].
  assert (mapM (uniform_membership unset me ns) (seqZ 0 (st_size size)) = Some (mem <$> seqZ 0 (st_size size))) as Hmap.
  { apply mapM_Some. apply Forall2_fmap_r, Forall_Forall2_diag, Forall_forall. intros g Hg%elem_of_seqZ.
    unfold uniform_membership. assert (is_u32 g) by (unfold is_u32; lia).
    rewrite uniform_nodes by done. cbn. by rewrite !u32_small. }
  split; [unfold uniform_memberships; cbn; by rewrite Hlen, i32_small, Z.eqb_refl by lia|].
  split; [rewrite <- list_fmap_compose; apply list_fmap_id|].
  intros m (g & -> & Hg)%list_elem_of_fmap. split; [done|]. cbn.
  assert (nc_id <$> (group_node_config addr g <$> ns) = rl_local_node_id <$> ns) as Hnc by (by rewrite <- list_fmap_compose).
  split.
  - intros n Hn. apply (add_nodes_lookup _ ∅ (group_node_config addr g n)); [by rewrite Hnc|by apply list_elem_of_fmap_2].
  - intros id [[? H]|H]%add_nodes_dom; [by rewrite lookup_empty in H|by rewrite Hnc in H].
Qed.
End memberships.

(** A file of two nodes in the layout of the repository's conf/multi-raft-11-localtest.conf
    (two spaces between the fields, the last line without its end), behind a comment. *)
Definition local_addr (n : RawNodeLine) : NetAddress * NetAddress :=
  (mkNetAddress (str "127.0.0.1") (51010 + rl_local_node_id n), mkNetAddress (str "127.0.0.1") (60010 + rl_local_node_id n)).
Definition local_node (id : Z) : RawNodeLine :=
  mkRawNodeLine id (show_address (mkNetAddress (str "127.0.0.1") (51010 + id)))
    (show_address (mkNetAddress (str "127.0.0.1") (60010 + id)))
    (str "/tmp/raft_log" ++ to_string id) (str "/tmp/mr_n" ++ to_string id).
Definition local_text (id : Z) : NodeText := let g := str "  " in mkNodeText (local_node id) [] g g g g [].

Example local_file :
  show_config [str "# two nodes"] (mkSizeText 2 [] []) [inr (local_text 0)] (Some (inr (local_text 1))) =
    str "# two nodes" ++ newline :: str "2" ++ newline ::
    str "0  127.0.0.1:51010  127.0.0.1:60010  /tmp/raft_log0  /tmp/mr_n0" ++ newline ::
    str "1  127.0.0.1:51011  127.0.0.1:60011  /tmp/raft_log1  /tmp/mr_n1".
Proof. reflexivity. Qed.

Lemma local_text_ok id : id = 0 \/ id = 1 -> node_text_ok (local_text id).
Proof.
  assert (gap (str "  ")) by (split; [done|]; by repeat constructor).
  intros [->| ->]; split; try done; try (by constructor); try (split; [done|apply not_elem_of_nil]);
    (split; [cbn; lia|..]); (split; [done|]); apply (bool_decide_unpack _); vm_compute; exact I.
Qed.
Lemma local_describes id : id = 0 \/ id = 1 ->
  describes (local_node id) (local_addr (local_node id)).1 (local_addr (local_node id)).2.
Proof.
  intros [->| ->]; split; try reflexivity; (split; [unfold address_ok; cbn; lia|]);
    apply (bool_decide_unpack _); vm_compute; exact I.
Qed.
Lemma two_nodes_comment : comment (str "# two nodes").
Proof. split; [apply (bool_decide_unpack _); vm_compute; exact I|right; reflexivity]. Qed.

Lemma config_file_groups_witness : exists raw ms,
  ParseConfig (show_config [str "# two nodes"] (mkSizeText 2 [] []) [inr (local_text 0)] (Some (inr (local_text 1)))) = Some raw /\
  uniform_memberships (mkNetAddress [] 0) 0 raw = Some ms /\ gm_group_id <$> ms = [0; 1].
Proof.
  destruct (config_file_groups (mkNetAddress [] 0) local_addr [str "# two nodes"] (mkSizeText 2 [] []) 0
    [inr (local_text 0)] (Some (inr (local_text 1)))) as (raw & ms & Hr & Hm & Hg & _).
  - apply Forall_singleton. apply two_nodes_comment.
  - split; [cbn; lia|apply Forall_nil; exact I|split; [exact I|apply not_elem_of_nil]].
  - apply Forall_cons. split; [apply local_text_ok; auto|]. apply Forall_singleton. apply local_text_ok. auto.
  - reflexivity.
  - unfold is_u32. lia.
  - apply (bool_decide_unpack _). vm_compute. exact I.
  - apply Forall_cons. split; [apply local_describes; auto|]. apply Forall_singleton. apply local_describes. auto.
  - exists raw, ms. split; [exact Hr|]. split; [exact Hm|exact Hg].
Defined.
