(* ===== verification/RaftStore.v ===== *)
(** The store of a physical node (src/multi-raft/raft_store.h, the class [RaftStore],
    with [GroupRegistry] of group_registry.cc and [KvServiceNode] of src/kv/kv_node.cc):
    how the Raft instances of all groups are created, wired to one another,
    initialised, started and stopped, and how memberships are collected.

    Objects that the code reaches by pointer live in [service_nodes] and
    [raft_objects]; a pointer whose object was destroyed is not there. The FSMs of the
    batch system are the entries of two lists, and a mailbox is the position of its
    entry. [None] is an abort, an exception or the use of a destroyed object.

    Parameters: [open_db] opens the store with that name ([StorageEngine::Default]),
    [uninit] is what a new Raft state finds in its memory, [unset] a default
    constructed address, and [each] the order in which a hash table is traversed. *)

From S2P Require Import Prelude Types Bytes StripeFormat Engine LogManager Encoder Lrc Latency Grouper Storage Serializer StripeApply PersistQueue Monitors RaftBase RaftEncode RaftCore Transport BatchTransport RaftNode KvServer GroupRegistry Message BatchSystem Routing Config.

(** The order of a traversal. *)
Class HashOrder := {
  each {K A : Type} `{Countable K} : gmap K A -> list (K * A);
  each_perm {K A : Type} `{Countable K} (m : gmap K A) : each m ≡ₚ map_to_list m
}.

(** ** The objects *)
Record PeerFsm := mkPeerFsm { pf_group_id : Z; pf_node_id : Z; pf_kv_node : Z; pf_apply_mb : Z }.

Section store.
Context {DB : Type} {engine : StorageEngine DB} {St : Type} {store : Storage St} {isal : IsaL} {alloc : Allocator}
  {indet0 : Indeterminate} {ho : HashOrder} {ls : LatencySource}.
Context (open_db : Slice -> option DB) (uninit : Z -> Uninit) (unset : NetAddress).

Record KvServiceNode := mkKvServiceNode {
  sn_config : KvClusterConfig; sn_id : Z; kv_server_ : KvServer DB; sn_raft : option Z
}.

Record Registry := mkRegistry {
  reg_nodes : gmap (Z * Z) Z;
  reg_local : gmap Z Z;
  rpc_router_ : RpcRouter;
  reg_encoding_mode : EncodingMode
}.

Record RaftStore := mkRaftStore {
  node_id_ : Z; k_ : Z; r_ : Z; l_ : Z; local_k_ : Z;
  memberships_ : list GroupMembership;
  tracker_ : CrossGroupTracker;
  st_routing_table : RoutingTableManager;
  registry_ : Registry;
  router_ : RaftRouter;
  peer_entries_ : list (Entry PeerMsg PeerFsm);
  apply_entries_ : list (Entry ApplyMsg (ApplyFsm * Z));
  batch_running_ : bool;
  callback_set : bool;
  registered_ : gmap Z Z;
  transport_manager : option RaftBatchTransportManager;
  handlers_ : gmap Z Z;
  st_raft_nodes : gmap Z Z;
  apply_bridge : gmap Z (option Z);
  peer_raft_addrs_ : list NetAddress; peer_kv_addrs_ : list NetAddress; cluster_size_ : Z;
  kv_listen_addr_ : NetAddress; raft_listen_addr_ : NetAddress;
  collect_only_ : bool; remote_group_notification_count_ : Z; local_kv_db_base_ : Slice;
  physical_cluster_size_ : Z; st_encoding_mode : EncodingMode;
  latency_matrix_ : option LatencyMatrix; st_lrc_grouper : option LrcComplementaryGrouper; latency_aware_enabled_ : bool;
  service_nodes : gmap Z KvServiceNode;
  raft_objects : gmap Z (RaftNode St);
  next_object : Z
}.
Implicit Types (st : RaftStore) (m : GroupMembership).
Definition RaftStore_eta st : RaftStore :=
  mkRaftStore (node_id_ st) (k_ st) (r_ st) (l_ st) (local_k_ st) (memberships_ st) (tracker_ st)
    (st_routing_table st) (registry_ st) (router_ st) (peer_entries_ st) (apply_entries_ st)
    (batch_running_ st) (callback_set st) (registered_ st) (transport_manager st) (handlers_ st)
    (st_raft_nodes st) (apply_bridge st) (peer_raft_addrs_ st) (peer_kv_addrs_ st)
    (cluster_size_ st) (kv_listen_addr_ st) (raft_listen_addr_ st) (collect_only_ st)
    (remote_group_notification_count_ st) (local_kv_db_base_ st) (physical_cluster_size_ st)
    (st_encoding_mode st) (latency_matrix_ st) (st_lrc_grouper st) (latency_aware_enabled_ st)
    (service_nodes st) (raft_objects st) (next_object st).
Definition set_memberships_ : list GroupMembership -> RaftStore -> RaftStore := ltac:(setter_of RaftStore_eta memberships_).
Definition set_tracker_ : CrossGroupTracker -> RaftStore -> RaftStore := ltac:(setter_of RaftStore_eta tracker_).
Definition set_st_routing_table : RoutingTableManager -> RaftStore -> RaftStore := ltac:(setter_of RaftStore_eta st_routing_table).
Definition set_registry_ : Registry -> RaftStore -> RaftStore := ltac:(setter_of RaftStore_eta registry_).
Definition set_router_ : RaftRouter -> RaftStore -> RaftStore := ltac:(setter_of RaftStore_eta router_).
Definition set_peer_entries_ : list (Entry PeerMsg PeerFsm) -> RaftStore -> RaftStore := ltac:(setter_of RaftStore_eta peer_entries_).
Definition set_apply_entries_ : list (Entry ApplyMsg (ApplyFsm * Z)) -> RaftStore -> RaftStore := ltac:(setter_of RaftStore_eta apply_entries_).
Definition set_batch_running_ : bool -> RaftStore -> RaftStore := ltac:(setter_of RaftStore_eta batch_running_).
Definition set_callback_set : bool -> RaftStore -> RaftStore := ltac:(setter_of RaftStore_eta callback_set).
Definition set_registered_ : gmap Z Z -> RaftStore -> RaftStore := ltac:(setter_of RaftStore_eta registered_).
Definition set_transport_manager : option RaftBatchTransportManager -> RaftStore -> RaftStore := ltac:(setter_of RaftStore_eta transport_manager).
Definition set_handlers_ : gmap Z Z -> RaftStore -> RaftStore := ltac:(setter_of RaftStore_eta handlers_).
Definition set_st_raft_nodes : gmap Z Z -> RaftStore -> RaftStore := ltac:(setter_of RaftStore_eta st_raft_nodes).
Definition set_apply_bridge : gmap Z (option Z) -> RaftStore -> RaftStore := ltac:(setter_of RaftStore_eta apply_bridge).
Definition set_collect_only_ : bool -> RaftStore -> RaftStore := ltac:(setter_of RaftStore_eta collect_only_).
Definition set_remote_group_notification_count_ : Z -> RaftStore -> RaftStore := ltac:(setter_of RaftStore_eta remote_group_notification_count_).
Definition set_local_kv_db_base_ : Slice -> RaftStore -> RaftStore := ltac:(setter_of RaftStore_eta local_kv_db_base_).
Definition set_physical_cluster_size_ : Z -> RaftStore -> RaftStore := ltac:(setter_of RaftStore_eta physical_cluster_size_).
Definition set_st_encoding_mode : EncodingMode -> RaftStore -> RaftStore := ltac:(setter_of RaftStore_eta st_encoding_mode).
Definition set_latency_matrix_ : option LatencyMatrix -> RaftStore -> RaftStore := ltac:(setter_of RaftStore_eta latency_matrix_).
Definition set_st_lrc_grouper : option LrcComplementaryGrouper -> RaftStore -> RaftStore := ltac:(setter_of RaftStore_eta st_lrc_grouper).
Definition set_latency_aware_enabled_ : bool -> RaftStore -> RaftStore := ltac:(setter_of RaftStore_eta latency_aware_enabled_).
Definition set_service_nodes : gmap Z KvServiceNode -> RaftStore -> RaftStore := ltac:(setter_of RaftStore_eta service_nodes).
Definition set_raft_objects : gmap Z (RaftNode St) -> RaftStore -> RaftStore := ltac:(setter_of RaftStore_eta raft_objects).
Definition set_next_object : Z -> RaftStore -> RaftStore := ltac:(setter_of RaftStore_eta next_object).

Definition RaftStore_ctor (node_id : Z) (raft_listen_addr kv_listen_addr : NetAddress) (k r : Z) : RaftStore :=
  mkRaftStore node_id k r 1 k [] (CrossGroupTracker_ctor 0) (RoutingTableManager_ctor 0)
    (mkRegistry ∅ ∅ RpcRouter_ctor kRsF) (mkRaftRouter ∅ ∅) [] [] false false ∅ None ∅ ∅ ∅ [] [] 0
    kv_listen_addr raft_listen_addr false 0 [] 0 kRsF None None false ∅ ∅ 0.

(** A new address. *)
Definition allocate st : Z * RaftStore := (next_object st, set_next_object (next_object st + 1) st).
Definition service_node (q : Z) st : option KvServiceNode := service_nodes st !! q.
Definition raft_object (p : Z) st : option (RaftNode St) := raft_objects st !! p.
Definition update_object (p : Z) (rn : RaftNode St) st : RaftStore := set_raft_objects (<[p := rn]> (raft_objects st)) st.
Definition update_service (q : Z) (sn : KvServiceNode) st : RaftStore := set_service_nodes (<[q := sn]> (service_nodes st)) st.

(** ** KvServiceNode *)
Definition NewKvServiceNodeWithoutRPC (config : KvClusterConfig) (id : Z) : option KvServiceNode :=
  nc ← config !! id;
  db ← open_db (nc_kv_dbname nc);
  kv ← NewKvServer db (sorted_keys config) id;
  Some (mkKvServiceNode config id kv None).
Definition with_server (kv : KvServer DB) (sn : KvServiceNode) : KvServiceNode :=
  mkKvServiceNode (sn_config sn) (sn_id sn) kv (sn_raft sn).

Definition InitServiceNodeState (now q : Z) st : option RaftStore :=
  sn ← service_node q st;
  match sn_raft sn with
  | None => Some st
  | Some p => rn ← raft_object p st; rn ← RaftNode_Init (uninit p) now rn; Some (update_object p rn st)
  end.
Definition StartServiceNode (q : Z) st : option RaftStore :=
  sn ← service_node q st; p ← sn_raft sn;
  rn ← KvServer_Start (raft_object p st); Some (update_object p rn st).
Definition StopServiceNode (q : Z) st : option RaftStore :=
  sn ← service_node q st;
  if kv_exit_ (kv_server_ sn) then Some st else
  p ← sn_raft sn;
  r ← KvServer_Exit (raft_object p st) (kv_server_ sn);
  Some (update_service q (with_server r.2 sn) (update_object p r.1 st)).
(** The destructor. *)
Definition destroy_service (q : Z) st : option RaftStore :=
  st ← StopServiceNode q st; Some (set_service_nodes (delete q (service_nodes st)) st).
Definition SetKVPeerServers (peers : list NetAddress) (q : Z) st : option RaftStore :=
  sn ← service_node q st;
  Some (update_service q (with_server (foldl (fun kv i => AddKVPeer i kv) (kv_server_ sn) (seqZ 0 (Z.of_nat (length peers)))) sn) st).

(** ** GroupRegistry *)
Definition registry_Get (gid local_nid : Z) st : option Z := reg_nodes (registry_ st) !! (gid, local_nid).
Definition registry_insert (gid local_nid q : Z) st : RaftStore :=
  let r := registry_ st in
  set_registry_ (mkRegistry (<[(gid, local_nid) := q]> (reg_nodes r))
    (if local_nid =? u32 (node_id_ st) then <[gid := q]> (reg_local r) else reg_local r)
    (rpc_router_ r) (reg_encoding_mode r)) st.
(** The new node is constructed before the one it replaces is destroyed. *)
Definition registry_Register (gid local_nid : Z) (cfg : KvClusterConfig) st : option (Z * RaftStore) :=
  sn ← NewKvServiceNodeWithoutRPC cfg local_nid;
  let '(q, st) := allocate st in
  let st := update_service q sn st in
  st ← match registry_Get gid local_nid st with Some old => destroy_service old st | None => Some st end;
  Some (q, registry_insert gid local_nid q st).

(** A loop over objects. *)
Definition for_each {A} (f : A -> RaftStore -> option RaftStore) (l : list A) st : option RaftStore :=
  foldl (fun acc a => st ← acc; f a st) (Some st) l.
Definition InitAll (now : Z) st : option RaftStore := for_each (fun kq => InitServiceNodeState now kq.2) (each (reg_nodes (registry_ st))) st.
Definition StartAll st : option RaftStore := for_each (fun kq => StartServiceNode kq.2) (each (reg_nodes (registry_ st))) st.
Definition StopAll st : option RaftStore := for_each (fun kq => StopServiceNode kq.2) (each (reg_nodes (registry_ st))) st.

(** ** CreateRaftInstances *)
Definition node_config m st : NodeConfig St :=
  mkNodeConfig (gm_local_node_id m) (sorted_keys (ConstructRaftClusterConfig (gm_group_cluster_cfg m))) None false
    (physical_cluster_size_ st) 0 (mode_to_byte (st_encoding_mode st)).

(** [raft_nodes_[group] = make_unique<RaftNode>(config)], which destroys the node that
    was there, then the unified service and the bridge are set. *)
Definition new_raft_node m st : Z * RaftStore :=
  let gid := gm_group_id m in
  let rn := SetRsmAndApplyMailbox gid (gm_local_node_id m) (SetUnifiedRpcService (RaftNode_ctor (node_config m st))) in
  let '(p, st) := allocate st in
  let objects := match st_raft_nodes st !! gid with Some old => delete old (raft_objects st) | None => raft_objects st end in
  (p, set_st_raft_nodes (<[gid := p]> (st_raft_nodes st)) (set_raft_objects (<[p := rn]> objects) st)).

Definition inject_raft_node (q p : Z) st : option RaftStore :=
  sn ← service_node q st; rn ← raft_object p st; rn ← SetRaftNode (Some rn);
  Some (update_service q (mkKvServiceNode (sn_config sn) (sn_id sn) (kv_server_ sn) (Some p)) (update_object p rn st)).

Definition cluster_n m st : Z :=
  if 0 <? physical_cluster_size_ st then physical_cluster_size_ st else i32 (Z.of_nat (size (gm_group_cluster_cfg m))).
Definition new_apply_fsm m (q : Z) st : Z * RaftStore :=
  (Z.of_nat (length (apply_entries_ st)),
   set_apply_entries_ (apply_entries_ st ++
     [mkEntry (mkMailbox 1024 []) (mkApplyFsm (gm_group_id m) (gm_local_node_id m) (st_encoding_mode st) (cluster_n m st), q)]) st).
(** [RaftNode::RegisterApplyMailbox]; the table of the bridge belongs to the process. *)
Definition RegisterApplyMailbox (p apply_mb : Z) st : option RaftStore :=
  rn ← raft_object p st;
  Some (if node_bridge_ rn
        then set_apply_bridge (entry_map (RegisterMailbox (batch_system_group_id_ rn) (batch_system_node_id_ rn) apply_mb
               (mkBridge (apply_bridge st) ∅))) st
        else st).
Definition new_peer_fsm m (q apply_mb : Z) st : Z * RaftStore :=
  (Z.of_nat (length (peer_entries_ st)),
   set_peer_entries_ (peer_entries_ st ++
     [mkEntry (mkMailbox 4096 []) (mkPeerFsm (gm_group_id m) (gm_local_node_id m) q apply_mb)]) st).
Definition register_routes m (peer_mb : Z) st : RaftStore :=
  let r := registry_ st in
  set_registry_ (mkRegistry (reg_nodes r) (reg_local r)
      (RegisterPeerMailbox (gm_group_id m) (gm_local_node_id m) peer_mb (rpc_router_ r)) (reg_encoding_mode r))
    (set_router_ (Router_Register (gm_group_id m) (gm_local_node_id m) peer_mb (router_ st)) st).

(** What follows the creation of the service node [q] and of the Raft node [p]. *)
Definition connect_instance (kv_peers : list NetAddress) m (q p : Z) st : option RaftStore :=
  st ← inject_raft_node q p st;
  st ← SetKVPeerServers kv_peers q st;
  let '(apply_mb, st) := new_apply_fsm m q st in
  st ← RegisterApplyMailbox p apply_mb st;
  let '(peer_mb, st) := new_peer_fsm m q apply_mb st in
  Some (register_routes m peer_mb st).

(** The instance of one group; [kv_peers] are the peers whose stubs are set. *)
Definition create_instance (kv_peers : list NetAddress) m st : option RaftStore :=
  r ← registry_Register (gm_group_id m) (gm_local_node_id m) (gm_group_cluster_cfg m) st;
  let '(q, st) := r in
  let '(p, st) := new_raft_node m st in
  connect_instance kv_peers m q p st.

(** The tests in front of it; a membership that fails them aborts the process. *)
Definition membership_valid m : bool :=
  bool_decide (gm_group_cluster_cfg m <> ∅) && bool_decide (is_Some (gm_group_cluster_cfg m !! gm_local_node_id m)).
Definition checked_instance m st : option RaftStore :=
  if membership_valid m then create_instance (peer_kv_addrs_ st) m st else None.

(** The address under which a node was first seen. *)
Definition peer_addrs (memberships : list GroupMembership) : gmap Z NetAddress :=
  foldl (fun acc m => acc ∪ ConstructRaftClusterConfig (gm_group_cluster_cfg m)) ∅ memberships.
Definition init_transport (addrs : gmap Z NetAddress) st : RaftStore :=
  if bool_decide (addrs = ∅) then st
  else set_handlers_ ∅ (set_transport_manager (Some (RaftBatchTransportManager_Init (u32 (node_id_ st)) (sorted_keys addrs))) st).

Definition CreateRaftInstances (memberships : list GroupMembership) st : option RaftStore :=
  for_each checked_instance memberships (init_transport (peer_addrs memberships) (set_memberships_ memberships st)).

(** ** InitRaftInstances.
    The state of a group is known to the service and to the transport by its node. *)
Definition post_init m st : option RaftStore :=
  match registry_Get (gm_group_id m) (gm_local_node_id m) st with
  | None => Some st
  | Some q =>
      sn ← service_node q st;
      match sn_raft sn with
      | None => Some st
      | Some p =>
          rn ← raft_object p st;
          let '(state, rn) := PostInit (gm_group_id m) true rn in
          let st := update_object p rn st in
          let st := if bool_decide (is_Some state) then set_registered_ (<[gm_group_id m := p]> (registered_ st)) st else st in
          Some (match transport_manager st with
                | Some _ => set_handlers_ (<[gm_group_id m := p]> (handlers_ st)) st
                | None => st end)
      end
  end.
Definition InitRaftInstances (now : Z) st : option RaftStore :=
  st ← InitAll now (set_callback_set true st);
  for_each post_init (memberships_ st) st.

(** ** StartRaftInstances *)
Definition start_raft_node (p : Z) st : option RaftStore :=
  rn ← raft_object p st; rn ← RaftNode_Start rn; Some (update_object p rn st).
Definition manager_started st : RaftStore := set_transport_manager (manager_Start <$> transport_manager st) st.
Definition StartRaftInstances st : option RaftStore :=
  st ← for_each (fun gp => start_raft_node gp.2) (each (st_raft_nodes st)) (manager_started st);
  st ← StartAll st;
  Some (set_batch_running_ true st).

(** The phases of a server's start, in the order of [bench_server_multiraft.cc]. *)
Definition boot (now : Z) (memberships : list GroupMembership) st : option RaftStore :=
  st ← CreateRaftInstances memberships st;
  st ← InitRaftInstances now st;
  StartRaftInstances st.

(** ** Stop.
    The batch system gets its stop messages in a state in which they find room. *)
Definition RemoveHandlers st : RaftStore :=
  set_handlers_ (foldl (fun h m => delete (gm_group_id m) h) (handlers_ st) (memberships_ st)) st.
Definition UnregisterStates st : RaftStore :=
  set_registered_ (foldl (fun h m => delete (gm_group_id m) h) (registered_ st) (memberships_ st)) st.
Definition push_entry {Msg F} (msg : Msg) (e : Entry Msg F) : option (Entry Msg F) :=
  mb ← push msg (en_mb e); Some (mkEntry mb (en_fsm e)).
Definition stop_batch_system st : option RaftStore :=
  peers ← mapM (push_entry MsgStop) (peer_entries_ st);
  applies ← mapM (push_entry MsgApplyStop) (apply_entries_ st);
  Some (set_peer_entries_ peers (set_apply_entries_ applies (set_batch_running_ false st))).
Definition RaftStore_Stop (now : Z) st : option RaftStore :=
  st ← stop_batch_system (RemoveHandlers st);
  StopAll (UnregisterStates (set_transport_manager (manager_Stop now <$> transport_manager st) st)).

(** ** Memberships from other nodes *)
Fixpoint c_str (s : Slice) : Slice :=
  match s with b :: s => if b =? 0 then [] else b :: c_str s | [] => [] end.
(** [snprintf(buf, 256, "%s.g%u", base, group)]. *)
Definition snprintf_db (base : Slice) (gid : Z) : Slice := take 255 (c_str base ++ str ".g" ++ to_string gid).

Definition is_member (me : Z) (g : GroupInfo) : bool := existsb (fun mem => gmi_node_id mem =? me) (gi_members g).
(** The configuration of one member; [dbname] is its database. *)
Definition member_config (gid : Z) (dbname : GroupMemberInfo -> Slice) (mem : GroupMemberInfo) : option KvServiceNodeConfig :=
  r ← member_address unset (raft_rpc_addr mem);
  k ← member_address unset (kv_rpc_addr mem);
  Some (mkKvServiceNodeConfig (gmi_node_id mem) gid k r (raft_log_filename mem) (dbname mem)).
Definition members_config (gid : Z) (dbname : GroupMemberInfo -> Slice) (members : list GroupMemberInfo) : option KvClusterConfig :=
  ncs ← mapM (member_config gid dbname) members; Some (foldl add_node ∅ ncs).

(** The database of a member, as [CollectMembershipOnly] and as
    [HandleGroupNotification] choose it. *)
Definition collected_db (gid : Z) st (mem : GroupMemberInfo) : Slice :=
  if (gmi_node_id mem =? u32 (node_id_ st)) && negb (valid (kv_dbname mem))
  then snprintf_db (local_kv_db_base_ st) gid else kv_dbname mem.
Definition notified_db (gid : Z) st (mem : GroupMemberInfo) : Slice :=
  if gmi_node_id mem =? u32 (node_id_ st) then
    if valid (kv_dbname mem) then kv_dbname mem ++ str ".g" ++ to_string gid
    else if valid (local_kv_db_base_ st) then snprintf_db (local_kv_db_base_ st) gid else []
  else [].

(** The entry [CollectMembershipOnly] makes up when this node is missing. *)
Definition dot : Z := 46.
Definition local_config (gid : Z) (cfg : KvClusterConfig) st : KvServiceNodeConfig :=
  let me := u32 (node_id_ st) in
  match each cfg with
  | [] => mkKvServiceNodeConfig me gid (kv_listen_addr_ st) (raft_listen_addr_ st) [] []
  | (_, other) :: _ =>
      mkKvServiceNodeConfig me gid (kv_listen_addr_ st) (raft_listen_addr_ st)
        (match split_last dot (nc_raft_log_filename other) with
         | Some (base, _) => base ++ str ".g" ++ to_string gid
         | None => str "/tmp/raft_g" ++ to_string gid ++ str "_n" ++ to_string (node_id_ st) end)
        (if valid (local_kv_db_base_ st) then snprintf_db (local_kv_db_base_ st) gid else [])
  end.
Definition with_local (gid : Z) (cfg : KvClusterConfig) st : KvClusterConfig :=
  let me := u32 (node_id_ st) in
  match cfg !! me with Some _ => cfg | None => <[me := local_config gid cfg st]> cfg end.

Definition same_member m m' : bool :=
  (gm_group_id m =? gm_group_id m') && (gm_local_node_id m =? gm_local_node_id m').
(** Pushed unless it is there already. *)
Definition push_membership m st : RaftStore :=
  if existsb (same_member m) (memberships_ st) then st else set_memberships_ (memberships_ st ++ [m]) st.

Definition collect_group (g : GroupInfo) st : option RaftStore :=
  if negb (is_member (u32 (node_id_ st)) g) then Some st else
  cfg ← members_config (gi_group_id g) (collected_db (gi_group_id g) st) (gi_members g);
  Some (push_membership (mkGroupMembership (gi_group_id g) (u32 (node_id_ st)) (with_local (gi_group_id g) cfg st)) st).
(** [args.groups[i]] for [i] below [total_groups]. *)
Definition notified_groups (args : GroupNotificationArgs) : option (list GroupInfo) :=
  mapM (arr_get (gna_groups args)) (seqZ 0 (total_groups args)).
Definition CollectMembershipOnly (args : GroupNotificationArgs) st : option RaftStore :=
  groups ← notified_groups args;
  st ← for_each collect_group groups st;
  Some (set_remote_group_notification_count_ (remote_group_notification_count_ st + 1) st).

Definition InjectMembership m st : option RaftStore :=
  if membership_valid m then Some (push_membership m st) else None.

(** ** HandleGroupNotification *)
Definition notify_group (g : GroupInfo) st : option RaftStore :=
  if negb (is_member (u32 (node_id_ st)) g) then Some st else
  cfg ← members_config (gi_group_id g) (notified_db (gi_group_id g) st) (gi_members g);
  let m := mkGroupMembership (gi_group_id g) (u32 (node_id_ st)) cfg in
  if collect_only_ st then Some (push_membership m st) else
  st ← create_instance [] m st;
  Some (set_memberships_ (memberships_ st ++ [m]) st).
Definition HandleGroupNotification (args : GroupNotificationArgs) st : option RaftStore :=
  groups ← notified_groups args; for_each notify_group groups st.

(** ** Parameters of a store *)
Definition SetCollectOnly (enable : bool) st : RaftStore := set_collect_only_ enable st.
Definition ResetRemoteGroupNotificationCount st : RaftStore := set_remote_group_notification_count_ 0 st.
Definition SetLocalKvDbBase (base : Slice) st : RaftStore := set_local_kv_db_base_ base st.
Definition Store_SetPhysicalClusterSize (N : Z) st : RaftStore := set_physical_cluster_size_ N st.
Definition Store_SetEncodingMode (mode : EncodingMode) st : RaftStore :=
  let r := registry_ st in
  set_registry_ (mkRegistry (reg_nodes r) (reg_local r) (rpc_router_ r) mode) (set_st_encoding_mode mode st).
Definition SetPeerAddrs (raft_addrs kv_addrs : list NetAddress) (cluster_size : Z) st : RaftStore :=
  mkRaftStore (node_id_ st) (k_ st) (r_ st) (l_ st) (local_k_ st) (memberships_ st) (tracker_ st)
    (st_routing_table st) (registry_ st) (router_ st) (peer_entries_ st) (apply_entries_ st)
    (batch_running_ st) (callback_set st) (registered_ st) (transport_manager st) (handlers_ st)
    (st_raft_nodes st) (apply_bridge st) raft_addrs kv_addrs cluster_size
    (kv_listen_addr_ st) (raft_listen_addr_ st) (collect_only_ st)
    (remote_group_notification_count_ st) (local_kv_db_base_ st) (physical_cluster_size_ st)
    (st_encoding_mode st) (latency_matrix_ st) (st_lrc_grouper st) (latency_aware_enabled_ st)
    (service_nodes st) (raft_objects st) (next_object st).
(** The peers are the positions of the addresses. *)
Definition InitBatchTransport st : RaftStore :=
  init_transport (list_to_map (imap (fun i a => (Z.of_nat i, a)) (peer_raft_addrs_ st))) st.
Definition SetLrcParams (k l r : Z) st : option RaftStore :=
  if l =? 0 then None else
  Some (mkRaftStore (node_id_ st) k r l (cdiv k l) (memberships_ st) (SetGroupCount l (tracker_ st))
    (RoutingTable_SetGroupCount l (st_routing_table st)) (registry_ st) (router_ st) (peer_entries_ st) (apply_entries_ st)
    (batch_running_ st) (callback_set st) (registered_ st) (transport_manager st) (handlers_ st)
    (st_raft_nodes st) (apply_bridge st) (peer_raft_addrs_ st) (peer_kv_addrs_ st)
    (cluster_size_ st) (kv_listen_addr_ st) (raft_listen_addr_ st) (collect_only_ st)
    (remote_group_notification_count_ st) (local_kv_db_base_ st) (physical_cluster_size_ st)
    (st_encoding_mode st) (latency_matrix_ st) (st_lrc_grouper st) (latency_aware_enabled_ st)
    (service_nodes st) (raft_objects st) (next_object st)).

(** ** Latency-aware groups *)
Definition latency_seed (num_nodes : Z) : Z := u64 (num_nodes * 2654435761).
Definition InitLatencyMatrix (num_nodes : Z) st : option RaftStore :=
  if num_nodes <? 3 then Some st else
  m ← LatencyMatrix_ctor num_nodes;
  m ← GenerateRandomMatrix 30 300 (latency_seed num_nodes) m;
  Some (set_latency_matrix_ (Some m) st).
Definition BuildLrcGroups (fuel : nat) (num_nodes : Z) st : option RaftStore :=
  match latency_matrix_ st with
  | None => Some st
  | Some m =>
      if num_nodes <? 3 then Some st else
      gr ← LrcComplementaryGrouper_ctor num_nodes;
      gr ← BuildComplementaryGroups fuel m gr;
      let lp := lrc_params_ gr in
      SetLrcParams (lrc_k lp) (lrc_l lp) (lrc_r lp) (set_latency_aware_enabled_ true (set_st_lrc_grouper (Some gr) st))
  end.
Definition InitLatencyAware (fuel : nat) (num_nodes : Z) st : option RaftStore :=
  st ← InitLatencyMatrix num_nodes st;
  if 5 <=? num_nodes then BuildLrcGroups fuel num_nodes st else Some st.

Definition set_grouper (p : Z) st : option RaftStore :=
  rn ← raft_object p st; r ← RaftNode_SetLrcGrouper (st_lrc_grouper st) rn; Some (update_object p r.2 st).
Definition DistributeLrcGrouperToRaftNodes st : option RaftStore :=
  match st_lrc_grouper st with
  | None => Some st
  | Some _ => for_each (fun gp => set_grouper gp.2) (each (st_raft_nodes st)) st
  end.
Definition SetGroupDynamicK (group_id k : Z) st : option RaftStore :=
  match st_raft_nodes st !! group_id with
  | None => Some st
  | Some p => rn ← raft_object p st; r ← RaftNode_SetDynamicK k rn; Some (update_object p r.2 st)
  end.
Definition AddRouteEntry (stripe_id entry_id : Z) (data_groups : list Z) (has_global_parities : bool)
    (global_parity_groups : list Z) st : RaftStore :=
  set_st_routing_table (AddRoute (mkGroupTopology stripe_id entry_id data_groups global_parity_groups []
    (local_k_ st) (r_ st) has_global_parities) (st_routing_table st)) st.
Definition MergeRoutingTable (routes : RoutingTable) (ttl : Z) st : RaftStore :=
  set_st_routing_table (MergeRoutes routes ttl (st_routing_table st)) st.
End store.
Arguments RaftStore DB St : clear implicits.
Arguments KvServiceNode DB : clear implicits.
