(* ===== verification/Memberships.v ===== *)
(** The memberships a store collects from notifications and injections
    (src/multi-raft/raft_store.h, [CollectMembershipOnly], [HandleGroupNotification] of
    a collecting store and [InjectMembership]), and loops over the parts of a store. *)

From S2P Require Import Prelude Types Bytes StripeFormat Engine LogManager Encoder Lrc Grouper Storage Serializer StripeApply PersistQueue Monitors RaftBase RaftEncode RaftCore Transport BatchTransport RaftNode KvServer GroupRegistry Message BatchSystem Routing Config RaftStore.

Section collecting.
Context {DB : Type} {St : Type} {store : Storage St} {isal : IsaL} {alloc : Allocator}
  {indet0 : Indeterminate} {ho : HashOrder} {engine : StorageEngine DB}.
Context (open_db : Slice -> option DB) (unset : NetAddress).
Implicit Types (st : RaftStore DB St) (m : GroupMembership).

Definition membership_key m : Z * Z := (gm_group_id m, gm_local_node_id m).
Record memberships_ok (ms : list GroupMembership) : Prop := {
  mo_unique : NoDup (membership_key <$> ms);
  mo_valid : Forall (fun m => membership_valid m = true) ms
}.

Lemma for_each_cons {A} (f : A -> RaftStore DB St -> option (RaftStore DB St)) a l st :
  for_each f (a :: l) st = (st ← f a st; for_each f l st).
Proof.
  unfold for_each. cbn [foldl mbind option_bind]. destruct (f a st) as [st'|]; cbn [mbind option_bind]; [done|].
  induction l as [|b l IH]; [done|exact IH].
Qed.
Lemma for_each_app {A} (f : A -> RaftStore DB St -> option (RaftStore DB St)) l1 l2 st :
  for_each f (l1 ++ l2) st = (st ← for_each f l1 st; for_each f l2 st).
Proof.
  revert st. induction l1 as [|a l1 IH]; intros st; [done|]. cbn [app]. rewrite !for_each_cons.
  destruct (f a st); cbn [mbind option_bind]; [apply IH|done].
Qed.

Lemma for_each_ind {A} (P : RaftStore DB St -> Prop) (f : A -> RaftStore DB St -> option (RaftStore DB St)) l :
  (forall a st st', a ∈ l -> P st -> f a st = Some st' -> P st') ->
  forall st st', P st -> for_each f l st = Some st' -> P st'.
Proof.
  induction l as [|a l IH]; intros Hf st st' HP; [by intros [= <-]|]. rewrite for_each_cons.
  intros (st1 & H1 & H2)%option.bind_Some. eapply IH, H2; [|eapply Hf, H1; [left|done]].
  intros b s s' Hb. apply Hf. by right.
Qed.

Lemma same_member_spec m m' : same_member m m' = true <-> membership_key m = membership_key m'.
Proof. unfold same_member, membership_key. rewrite andb_true_iff, !Z.eqb_eq. split; [by intros [-> ->]|by intros [= -> ->]]. Qed.
Lemma existsb_same_member m ms : existsb (same_member m) ms = true <-> membership_key m ∈ membership_key <$> ms.
Proof.
  rewrite existsb_exists, list_elem_of_fmap. split; intros (m' & H1 & H2); exists m'.
  - apply same_member_spec in H2. split; [done|by apply list_elem_of_In].
  - split; [by apply list_elem_of_In|by apply same_member_spec].
Qed.

Lemma push_membership_ok m st : membership_valid m = true -> memberships_ok (memberships_ st) ->
  memberships_ok (memberships_ (push_membership m st)).
Proof.
  intros Hm [Hnd Hv]. unfold push_membership. destruct (existsb _ _) eqn:E; [by split|]. cbn.
  split; [|apply Forall_app; by split; [|apply Forall_singleton]].
  rewrite fmap_app. apply NoDup_app. split; [done|]. split; [|apply NoDup_singleton].
  intros k Hk ->%list_elem_of_singleton. apply existsb_same_member in Hk. by rewrite Hk in E.
Qed.
Lemma push_membership_in m st : membership_key m ∈ membership_key <$> memberships_ (push_membership m st).
Proof.
  unfold push_membership. destruct (existsb _ _) eqn:E; [by apply existsb_same_member|].
  cbn. rewrite fmap_app. apply elem_of_app. right. by left.
Qed.
Lemma push_membership_keeps m st k : k ∈ membership_key <$> memberships_ st -> k ∈ membership_key <$> memberships_ (push_membership m st).
Proof. unfold push_membership. destruct (existsb _ _); [done|]. cbn. rewrite fmap_app, elem_of_app. by left. Qed.
Lemma push_membership_frame m st :
  node_id_ (push_membership m st) = node_id_ st /\ collect_only_ (push_membership m st) = collect_only_ st.
Proof. unfold push_membership. by destruct (existsb _ _). Qed.

Lemma foldl_add_node_has l : forall (cfg : KvClusterConfig) id, id ∈ (nc_id <$> l) \/ is_Some (cfg !! id) ->
  is_Some (foldl add_node cfg l !! id).
Proof.
  induction l as [|nc l IH]; intros cfg id; cbn; [by intros [?%not_elem_of_nil|?]|]. intros H. apply IH.
  destruct (decide (nc_id nc = id)) as [<-|Hne]; [right; unfold add_node; rewrite lookup_insert_eq; by eexists|].
  destruct H as [[->|H]%elem_of_cons|H]; [done|by left|right; unfold add_node; by rewrite lookup_insert_ne].
Qed.

Lemma members_config_has gid dbname members cfg me : members_config unset gid dbname members = Some cfg ->
  existsb (fun mem => gmi_node_id mem =? me) members = true -> is_Some (cfg !! me).
Proof.
  unfold members_config. intros (ncs & Hncs & [= <-])%option.bind_Some (mem & Hin & He)%existsb_exists.
  apply foldl_add_node_has. left. apply Z.eqb_eq in He. apply mapM_Some in Hncs.
  apply list_elem_of_In, list_elem_of_lookup in Hin as [i Hi].
  destruct (Forall2_lookup_l _ _ _ _ _ Hncs Hi) as (nc & Hnc & Hmc).
  apply list_elem_of_fmap. exists nc. split; [|by eapply list_elem_of_lookup_2].
  unfold member_config in Hmc. apply option.bind_Some in Hmc as (r & _ & Hmc). apply option.bind_Some in Hmc as (k & _ & [= <-]).
  done.
Qed.

Lemma valid_membership gid me cfg : is_Some (cfg !! me) -> membership_valid (mkGroupMembership gid me cfg) = true.
Proof.
  intros Hm. unfold membership_valid. cbn. rewrite (bool_decide_true (is_Some _)) by done.
  rewrite bool_decide_true; [done|]. intros ->. rewrite lookup_empty in Hm. by destruct Hm.
Qed.

(** What a collecting store has been told. *)
Inductive collect_op := OpCollect (args : GroupNotificationArgs) | OpInject (m : GroupMembership) | OpNotify (args : GroupNotificationArgs).
Definition collect_do (o : collect_op) st : option (RaftStore DB St) :=
  match o with
  | OpCollect args => CollectMembershipOnly unset args st
  | OpInject m => InjectMembership m st
  | OpNotify args => HandleGroupNotification open_db unset args st
  end.
(** The groups of this node an operation names. *)
Definition op_keys (me : Z) (o : collect_op) : list (Z * Z) :=
  match o with
  | OpInject m => [membership_key m]
  | OpCollect args | OpNotify args =>
      (fun g => (gi_group_id g, me)) <$> filter (fun g => is_member me g = true) (default [] (notified_groups args))
  end.

Record collected (me : Z) st : Prop := {
  co_me : u32 (node_id_ st) = me;
  co_only : collect_only_ st = true;
  co_ok : memberships_ok (memberships_ st)
}.

(** One group adds its membership, once, and keeps those that are there. *)
Definition adds (me : Z) (key : option (Z * Z)) st st' : Prop :=
  collected me st' /\ (forall k, k ∈ membership_key <$> memberships_ st -> k ∈ membership_key <$> memberships_ st') /\
  (forall k, key = Some k -> k ∈ membership_key <$> memberships_ st').
Definition group_key (me : Z) (g : GroupInfo) : option (Z * Z) := if is_member me g then Some (gi_group_id g, me) else None.

Lemma adds_push me m st : collected me st -> membership_valid m = true -> adds me (Some (membership_key m)) st (push_membership m st).
Proof.
  intros [Hme Ho Hok] Hm. destruct (push_membership_frame m st) as [Hi Hc]. split; [|split].
  - split; [by rewrite Hi|by rewrite Hc|by apply push_membership_ok].
  - intros k. apply push_membership_keeps.
  - intros k [= <-]. apply push_membership_in.
Qed.
Lemma adds_nothing me st : collected me st -> adds me None st st.
Proof. intros Hc. split; [done|]. by split. Qed.

Lemma collect_group_adds me g st st' : collected me st -> collect_group unset g st = Some st' -> adds me (group_key me g) st st'.
Proof.
  intros Hc. pose proof (co_me _ _ Hc) as Hme. unfold collect_group, group_key. rewrite Hme.
  destruct (is_member me g) eqn:Hg; cbn [negb]; [|by intros [= <-]; apply adds_nothing].
  intros (cfg & Hcfg & [= <-])%option.bind_Some. apply members_config_has with (me := me) in Hcfg; [|done].
  apply (adds_push me (mkGroupMembership (gi_group_id g) me _)); [done|]. apply valid_membership.
  unfold with_local. rewrite Hme. destruct (cfg !! me) as [nc|] eqn:E; [|by destruct Hcfg]. by rewrite E.
Qed.

Lemma notify_group_adds me g st st' : collected me st -> notify_group open_db unset g st = Some st' -> adds me (group_key me g) st st'.
Proof.
  intros Hc. pose proof (co_me _ _ Hc) as Hme. unfold notify_group, group_key. rewrite Hme.
  destruct (is_member me g) eqn:Hg; cbn [negb]; [|by intros [= <-]; apply adds_nothing].
  intros (cfg & Hcfg & H)%option.bind_Some. apply members_config_has with (me := me) in Hcfg; [|done].
  cbn zeta in H. rewrite (co_only _ _ Hc) in H. injection H as <-.
  apply (adds_push me (mkGroupMembership (gi_group_id g) me _)); [done|]. by apply valid_membership.
Qed.

Lemma for_each_adds me f groups :
  (forall g st st', collected me st -> f g st = Some st' -> adds me (group_key me g) st st') ->
  forall st st', collected me st -> for_each f groups st = Some st' ->
  collected me st' /\ (forall k, k ∈ membership_key <$> memberships_ st -> k ∈ membership_key <$> memberships_ st') /\
  (forall g, g ∈ groups -> is_member me g = true -> (gi_group_id g, me) ∈ membership_key <$> memberships_ st').
Proof.
  intros Hf. induction groups as [|g groups IH]; intros st st' Hc.
  - intros [= <-]. split_and!; [done|done|]. by intros g ?%not_elem_of_nil.
  - rewrite for_each_cons. intros (st1 & H1 & H2)%option.bind_Some.
    destruct (Hf _ _ _ Hc H1) as (Hc1 & Hk1 & Hn1). destruct (IH _ _ Hc1 H2) as (Hc2 & Hk2 & Hn2).
    split_and!; [done|by intros k Hk; apply Hk2, Hk1|]. intros g' [->|Hg]%elem_of_cons Hm; [|by apply Hn2].
    apply Hk2, Hn1. unfold group_key. by rewrite Hm.
Qed.

Lemma collect_do_adds me o st st' : collected me st -> collect_do o st = Some st' ->
  collected me st' /\ (forall k, k ∈ membership_key <$> memberships_ st -> k ∈ membership_key <$> memberships_ st') /\
  (forall k, k ∈ op_keys me o -> k ∈ membership_key <$> memberships_ st').
Proof.
  intros Hc. destruct o as [args|m|args]; cbn [collect_do op_keys].
  - intros (groups & -> & H)%option.bind_Some. apply option.bind_Some in H as (st1 & H1 & [= <-]).
    destruct (for_each_adds me _ _ (fun g s s' => collect_group_adds me g s s') _ _ Hc H1) as ([? ? ?] & Hk & Hn).
    split; [by split|]. split; [done|]. intros k (g & -> & [Hm Hg]%list_elem_of_filter)%list_elem_of_fmap. by apply Hn.
  - unfold InjectMembership. destruct (membership_valid m) eqn:Hm; [|done]. intros [= <-].
    destruct (adds_push me m st Hc Hm) as (Hc' & Hk & Hn). split_and!; [done|done|].
    intros k ->%list_elem_of_singleton. by apply Hn.
  - intros (groups & -> & H)%option.bind_Some.
    destruct (for_each_adds me _ _ (fun g s s' => notify_group_adds me g s s') _ _ Hc H) as (Hc' & Hk & Hn).
    split_and!; [done|done|]. intros k (g & -> & [Hm Hg]%list_elem_of_filter)%list_elem_of_fmap. by apply Hn.
Qed.

(** However the memberships of a node are collected, by notifications in either
    form and by injection, repeated or not, they stay pairwise different and pass the
    tests of [CreateRaftInstances], which therefore never aborts on them; and every
    group that was named with this node among its members is there. *)
Theorem collected_memberships_valid (ops : list collect_op) st st'
    (Hnone : memberships_ st = []) (Honly : collect_only_ st = true) (Hrun : for_each collect_do ops st = Some st') :
  memberships_ok (memberships_ st') /\
  forall o k, o ∈ ops -> k ∈ op_keys (u32 (node_id_ st)) o -> k ∈ membership_key <$> memberships_ st'.
Proof.
  assert (collected (u32 (node_id_ st)) st) as Hc.
  { split; [done|done|]. rewrite Hnone. split; [apply NoDup_nil_2|done]. }
  set (me := u32 (node_id_ st)) in *. clearbody me. clear Hnone Honly. revert st Hc Hrun.
  induction ops as [|o ops IH]; intros st Hc; [intros [= <-]; split; [by destruct Hc|by intros o k ?%not_elem_of_nil]|].
  rewrite for_each_cons. intros (st1 & H1 & H2)%option.bind_Some.
  destruct (collect_do_adds _ _ _ _ Hc H1) as (Hc1 & Hk1 & Hn1). destruct (IH _ Hc1 H2) as [Hok Hn]. split; [done|].
  intros o' k [->|Ho]%elem_of_cons Hk; [|by eapply Hn].
  assert (forall k, k ∈ membership_key <$> memberships_ st1 -> k ∈ membership_key <$> memberships_ st') as Hkeep; [|by apply Hkeep, Hn1].
  clear - Hc1 H2. revert st1 Hc1 H2. induction ops as [|o ops IH]; intros st1 Hc; [by intros [= <-]|].
  rewrite for_each_cons. intros (st2 & H1 & H2)%option.bind_Some k Hk.
  destruct (collect_do_adds _ _ _ _ Hc H1) as (Hc2 & Hk2 & _). eapply IH; [done|done|by apply Hk2].
Qed.
End collecting.

(** ** A witness: node 0 hears of the group 5 twice and of the group 6 once *)
Section witness.
#[local] Instance demo_alloc_store : Allocator := fun _ => true.
#[local] Instance demo_indet_store : Indeterminate := 0.
#[local] Existing Instance Gf256.isal.
Definition demo_order : HashOrder :=
  {| each K A _ _ m := map_to_list m; each_perm K A _ _ m := Permutation_refl _ |}.
#[local] Existing Instance demo_order.

Definition demo_open (name : Slice) : option (gmap Slice Slice) := Some ∅.
Definition demo_address (port : Z) : NetAddress := mkNetAddress (str "10.0.0.1") port.
Definition demo_group_config (gid : Z) : KvClusterConfig :=
  foldl add_node ∅ ((fun id => mkKvServiceNodeConfig id gid (demo_address (6000 + id)) (demo_address (5000 + id)) [] (str "/tmp/db")) <$> [0; 1; 2]).
Definition demo_membership (gid : Z) : GroupMembership := mkGroupMembership gid 0 (demo_group_config gid).
Definition demo_new_store : RaftStore (gmap Slice Slice) MemStorage :=
  Store_SetEncodingMode kLrc (Store_SetPhysicalClusterSize 3
    (SetPeerAddrs (demo_address <$> [5000; 5001; 5002]) (demo_address <$> [6000; 6001; 6002]) 3
      (RaftStore_ctor 0 (demo_address 5000) (demo_address 6000) 3 0))).
Definition demo_info : GroupInfo := mkGroupInfo 5 0 0 0 []
  ((fun id => mkGroupMemberInfo id (str "10.0.0.1:5000") (str "10.0.0.1:6000") [] (str "/tmp/db")) <$> [0; 1; 2]).
Definition demo_notification : GroupNotificationArgs := mkGroupNotificationArgs 1 1 [demo_info].
Definition demo_collect_ops : list collect_op := [OpCollect demo_notification; OpNotify demo_notification; OpInject (demo_membership 6)].
Definition demo_collecting : RaftStore (gmap Slice Slice) MemStorage := SetCollectOnly true demo_new_store.

Lemma collected_memberships_valid_witness : exists st',
  for_each (collect_do demo_open (demo_address 0)) demo_collect_ops demo_collecting = Some st' /\
  memberships_ok (memberships_ st') /\ (5, 0) ∈ membership_key <$> memberships_ st'.
Proof.
  destruct (for_each (collect_do demo_open (demo_address 0)) demo_collect_ops demo_collecting) as [st'|] eqn:E.
  - exists st'. split; [reflexivity|].
    destruct (collected_memberships_valid demo_open (demo_address 0) demo_collect_ops demo_collecting st') as [Hok Hin];
      [reflexivity|reflexivity|exact E|].
    split; [exact Hok|]. apply (Hin (OpCollect demo_notification)); [left|]. vm_compute. left.
  - exfalso. apply (f_equal (fun o => match o with Some _ => true | None => false end)) in E. vm_compute in E. discriminate.
Defined.
End witness.
