(* ===== verification/RaftBoot.v ===== *)
(** The start of a node: what [boot] of RaftStore.v makes of its memberships
    (src/multi-raft/raft_store.h, [CreateRaftInstances], [InitRaftInstances] and
    [StartRaftInstances]), and what a restart and a late notification do to a group.

    The instance of the [i]-th membership is made of the objects [2 * i] and
    [2 * i + 1] and of the [i]-th entry of both lists of FSMs. *)

From S2P Require Import Prelude Types Bytes StripeFormat Engine LogManager Encoder Lrc Latency Grouper Storage Serializer StripeApply PersistQueue Monitors Transport BatchTransport RaftNode KvServer GroupRegistry Message BatchSystem Routing Config RaftStore Memberships RaftBase RaftEncode RaftCore RaftFrames RaftVote.

(** ** Keys *)
Lemma MakeKey_inj g n g' n' : is_u32 g -> is_u32 n -> is_u32 g' -> is_u32 n' -> MakeKey g n = MakeKey g' n' -> g = g' /\ n = n'.
Proof.
  intros Hg Hn Hg' Hn' E. split.
  - rewrite <- (GroupFromKey_MakeKey g n), <- (GroupFromKey_MakeKey g' n') by done. by rewrite E.
  - rewrite <- (MakeKey_node g n), <- (MakeKey_node g' n') by done. by rewrite E.
Qed.

(** ** A Raft state without storage *)
Section fresh.
Context {St : Type} {store : Storage St} {isal : IsaL} {alloc : Allocator} {indet0 : Indeterminate}.

Lemma elem_of_set_insert x l y : y ∈ set_insert x l <-> y = x \/ y ∈ l.
Proof.
  induction l as [|z l IH]; cbn; [by rewrite elem_of_cons|].
  destruct (x <? z); [by rewrite elem_of_cons|]. destruct (Z.eqb_spec x z) as [->|].
  - rewrite elem_of_cons. tauto.
  - rewrite elem_of_cons, IH, elem_of_cons. tauto.
Qed.
Lemma elem_of_inserted l : forall (s : list Z) y, y ∈ foldl (fun s x => set_insert x s) s l <-> y ∈ l \/ y ∈ s.
Proof.
  induction l as [|x l IH]; intros s y; cbn; [split; [by right|by intros [?%not_elem_of_nil|]]|].
  rewrite IH, elem_of_set_insert, elem_of_cons. tauto.
Qed.

Lemma add_peers_run ids : Forall (fun id => 0 <= id < 32) ids -> forall s : RaftState St,
  length (raft_peer_ s) = 32%nat -> length (rpc_clients_ s) = 32%nat ->
  exists rc rp, foldl add_peer (Some s) ((fun id => (id, true)) <$> ids) =
    Some (set_rpc_clients_ rc (set_raft_peer_ rp (set_peers_ (foldl (fun s x => set_insert x s) (peers_ s) ids) s))).
Proof.
  induction 1 as [|id ids Hid _ IH]; intros s Hrp Hrc; [exists (rpc_clients_ s), (raft_peer_ s); by destruct s|].
  cbn [fmap list_fmap foldl]. unfold add_peer at 2. cbn [mbind option_bind]. rewrite (proj2 (Z.ltb_lt id 32)) by lia.
  rewrite !arr_set_in by lia. cbn [mbind option_bind].
  edestruct IH as (rc' & rp' & ->); [| |exists rc', rp'; by destruct s]; cbn; by rewrite length_insert.
Qed.

(** The state of a node that never ran: no storage, no vote, nothing logged. *)
Record fresh_state (me gid bgid : Z) (peers : list Z) (N mode : Z) (s : RaftState St) : Prop := {
  fs_id : id_ s = me;
  fs_group : group_id_ s = gid;
  fs_role : role_ s = kFollower;
  fs_term : current_term_ s = 0;
  fs_vote : vote_for_ s = kNotVoted;
  fs_storage : storage_ s = None;
  fs_log : lm_ s = LogManager_ctor 100000;
  fs_commit : commit_index_ s = 0 /\ last_applied_ s = 0;
  fs_peers : forall id, id ∈ peers_ s <-> id ∈ peers;
  fs_N : N_physical_nodes_ s = N;
  fs_mode : encoding_mode_ s = mode;
  fs_bridge : batch_system_bridge_ s = Some [] /\ bridge_group_id_ s = bgid /\ bridge_node_id_ s = me;
  fs_limits : electionTimeLimitMin_ s = kElectionTimeoutMin /\ electionTimeLimitMax_ s = kElectionTimeoutMax;
  fs_monitor : lv_me (live_monitor_ s) = me /\ lv_node_num (live_monitor_ s) = Z.of_nat (length peers) + 1 /\ length (response (live_monitor_ s)) = 10%nat /\
    length (response_time (live_monitor_ s)) = 10%nat
}.
Definition arrays_ok (u : Uninit) : Prop := length (un_response u) = 10%nat /\ length (un_response_time u) = 10%nat.

(** The node [CreateRaftInstances] makes for a membership. *)
Definition created (me gid : Z) (servers : list Z) (N mode : Z) : RaftNode St :=
  SetRsmAndApplyMailbox gid me (SetUnifiedRpcService (RaftNode_ctor (mkNodeConfig me servers None false N 0 mode))).
Definition running_with (started : bool) (P : RaftState St -> Prop) (rn : RaftNode St) : Prop :=
  started_ rn = started /\ destroyed_ rn = false /\ exists s, raft_state_ rn = Some s /\ P s.

Lemma create_clients_keys me gid servers N mode id :
  is_Some (create_clients (created me gid servers N mode) !! id) <-> id ∈ servers /\ id <> me.
Proof.
  unfold create_clients. cbn. induction servers as [|x servers IH]; cbn.
  - rewrite lookup_empty, is_Some_alt, elem_of_nil. split; [done|by intros []].
  - rewrite elem_of_cons. destruct (Z.eqb_spec x me) as [->|Hx].
    { rewrite IH. split; [intros []; by split; [right|]|]. intros [[->|?] ?]; by split. }
    destruct (foldr _ _ servers !! x) eqn:E.
    + rewrite IH. split; [intros []; by split; [right|]|]. intros [[->|?] ?]; [|by split].
      apply IH. by eexists.
    + destruct (decide (x = id)) as [->|Hne].
      * rewrite lookup_insert_eq. split; [by split; [left|]|by eexists].
      * rewrite lookup_insert_ne, IH by done. split; [intros []; by split; [right|]|]. intros [[->|?] ?]; by split.
Qed.

Lemma RaftNode_Init_created me gid servers N mode u now : 0 <= me -> Forall (fun id => 0 <= id < 32) servers -> NoDup servers -> arrays_ok u ->
  exists rn, RaftNode_Init u now (created me gid servers N mode) = Some rn /\
    running_with false (fresh_state me 0 gid (filter (fun id => id <> me) servers) N mode) rn.
Proof.
  intros Hme Hs Hnd [Hr Ht]. unfold RaftNode_Init, NewRaftState. cbn -[create_clients add_peer foldl].
  set (ids := sorted_keys (create_clients (created me gid servers N mode))).
  assert (forall id, id ∈ ids <-> id ∈ servers /\ id <> me) as Hids
    by (intros id; unfold ids; rewrite elem_of_sorted_keys; apply create_clients_keys).
  match goal with |- context [foldl add_peer (Some ?s0) _] => set (s := s0) end.
  destruct (add_peers_run ids) with (s := s) as (rc & rp & E); [|done|done|].
  { apply Forall_forall. intros id Hid. rewrite Forall_forall in Hs. apply Hs. by apply Hids. }
  fold ids. rewrite E. cbn [mbind option_bind]. eexists. split; [reflexivity|].
  split; [done|]. split; [done|]. eexists. split; [reflexivity|]. split; try done.
  - intros id. cbn. rewrite elem_of_inserted, Hids, list_elem_of_filter, elem_of_nil. tauto.
  - assert (ids ≡ₚ filter (fun id => id <> me) servers) as Hperm.
    { apply NoDup_Permutation; [apply NoDup_sorted_keys|by apply NoDup_filter|]. intros id. rewrite Hids, list_elem_of_filter. tauto. }
    split; [done|]. split; [|done]. cbn. by rewrite length_fmap, Hperm.
Qed.

Lemma PostInit_fresh me gid g0 bgid peers N mode rn : running_with false (fresh_state me g0 bgid peers N mode) rn ->
  exists s rn', PostInit gid true rn = (Some s, rn') /\ running_with false (fresh_state me gid bgid peers N mode) rn'.
Proof.
  intros (Hst & Hd & s & Hs & Hf). unfold PostInit. rewrite Hs. do 2 eexists. split; [reflexivity|].
  split; [done|]. split; [done|]. eexists. split; [reflexivity|]. by destruct Hf; split.
Qed.

Lemma RaftNode_Start_fresh me gid bgid peers N mode rn : 0 <= me < kMaxNodeNum ->
  running_with false (fresh_state me gid bgid peers N mode) rn ->
  exists rn', RaftNode_Start rn = Some rn' /\ running_with true (fresh_state me gid bgid peers N mode) rn'.
Proof.
  intros Hme (Hst & Hd & s & Hs & Hf). pose proof (fs_limits _ _ _ _ _ _ _ Hf) as [Hmin Hmax].
  destruct (fs_monitor _ _ _ _ _ _ _ Hf) as (Hlm & Hln & Hlr & Hlt).
  unfold RaftNode_Start. rewrite Hst, Hs. unfold Init, resetElectionTimer, draw, update_live_monitor, assertM, bind, get, modify, lift, ret.
  rewrite Hmin, Hmax, (proj2 (Z.leb_le kElectionTimeoutMin _)) by done.
  cbn -[LivenessMonitor_Init]. unfold LivenessMonitor_Init. cbn -[arr_set kMaxNodeNum].
  rewrite Hlm, (proj2 (Z.ltb_lt me kMaxNodeNum)), !arr_set_in by (unfold kMaxNodeNum in *; lia). cbn.
  eexists. split; [reflexivity|]. split; [done|]. split; [done|]. eexists. split; [reflexivity|].
  destruct Hf; split; try done. cbn. rewrite !length_insert. done.
Qed.
Lemma RaftNode_Start_again (rn : RaftNode St) : started_ rn = true -> RaftNode_Start rn = Some rn.
Proof. unfold RaftNode_Start. by intros ->. Qed.
End fresh.

(** ** Creating the instances *)
Section boot.
Context {DB : Type} {engine : StorageEngine DB} {St : Type} {store : Storage St} {isal : IsaL} {alloc : Allocator}
  {indet0 : Indeterminate} {ho : HashOrder} {ls : LatencySource}.
Context (open_db : Slice -> option DB) (uninit : Z -> Uninit).
Implicit Types (st : RaftStore DB St) (m : GroupMembership).

(** What one membership of node [me] needs. *)
Record bootable (me : Z) m : Prop := {
  bo_local : gm_local_node_id m = me;
  bo_group : is_u32 (gm_group_id m);
  bo_ids : forall id, is_Some (gm_group_cluster_cfg m !! id) -> 0 <= id < 32;
  bo_db : exists nc db, gm_group_cluster_cfg m !! me = Some nc /\ open_db (nc_kv_dbname nc) = Some db
}.

Definition servers_of m : list Z := sorted_keys (ConstructRaftClusterConfig (gm_group_cluster_cfg m)).
Definition node_of m st : RaftNode St :=
  created (gm_local_node_id m) (gm_group_id m) (servers_of m) (physical_cluster_size_ st) (mode_to_byte (st_encoding_mode st)).

(** The parts of the instance of a membership, and how they hold on to one another. *)
Record wired (i : nat) m st : Prop := {
  w_service : exists kv, service_nodes st !! (2 * Z.of_nat i) =
      Some (mkKvServiceNode (gm_group_cluster_cfg m) (gm_local_node_id m) kv (Some (2 * Z.of_nat i + 1)));
  w_registry : reg_nodes (registry_ st) !! (gm_group_id m, gm_local_node_id m) = Some (2 * Z.of_nat i);
  w_local : reg_local (registry_ st) !! gm_group_id m = Some (2 * Z.of_nat i);
  w_raft : st_raft_nodes st !! gm_group_id m = Some (2 * Z.of_nat i + 1);
  w_bridge : apply_bridge st !! MakeKeyInternal (gm_group_id m) (gm_local_node_id m) = Some (Some (Z.of_nat i));
  w_apply : apply_entries_ st !! i = Some (mkEntry (mkMailbox 1024 [])
      (mkApplyFsm (gm_group_id m) (gm_local_node_id m) (st_encoding_mode st) (cluster_n m st), 2 * Z.of_nat i));
  w_peer : peer_entries_ st !! i = Some (mkEntry (mkMailbox 4096 [])
      (mkPeerFsm (gm_group_id m) (gm_local_node_id m) (2 * Z.of_nat i) (Z.of_nat i)));
  w_router : local_peers_ (router_ st) !! MakeKey (gm_group_id m) (gm_local_node_id m) = Some (Z.of_nat i);
  w_rpc : GetPeerMailbox (gm_group_id m) (gm_local_node_id m) (rpc_router_ (registry_ st)) = Some (Z.of_nat i)
}.

(** After the instances of [ms] were created, and nothing else. *)
Record instances (ms : list GroupMembership) st : Prop := {
  in_next : next_object st = 2 * Z.of_nat (length ms);
  in_entries : length (apply_entries_ st) = length ms /\ length (peer_entries_ st) = length ms;
  in_wired : forall i m, ms !! i = Some m -> wired i m st /\ raft_objects st !! (2 * Z.of_nat i + 1) = Some (node_of m st);
  in_nodes : forall k q, reg_nodes (registry_ st) !! k = Some q ->
    exists i m, ms !! i = Some m /\ k = (gm_group_id m, gm_local_node_id m) /\ q = 2 * Z.of_nat i;
  in_raft : forall g p, st_raft_nodes st !! g = Some p ->
    exists i m, ms !! i = Some m /\ g = gm_group_id m /\ p = 2 * Z.of_nat i + 1
}.

Definition settings st := (node_id_ st, memberships_ st, transport_manager st, handlers_ st, registered_ st,
  physical_cluster_size_ st, st_encoding_mode st, peer_kv_addrs_ st, batch_running_ st, callback_set st, collect_only_ st, local_kv_db_base_ st).

Lemma AddKVPeers_frame l : forall kv : KvServer DB, kv_exit_ (foldl (fun kv i => AddKVPeer i kv) kv l) = kv_exit_ kv.
Proof. induction l as [|i l IH]; intros kv; cbn; [done|]. by rewrite IH. Qed.

(** What creating an instance changes, when its group is new. *)
Record adds_instance m st st' : Prop := {
  ad_next : next_object st' = next_object st + 1 + 1;
  ad_service : exists kv, service_nodes st' !! next_object st =
    Some (mkKvServiceNode (gm_group_cluster_cfg m) (gm_local_node_id m) kv (Some (next_object st + 1)));
  ad_services x : x <> next_object st -> service_nodes st' !! x = service_nodes st !! x;
  ad_object : raft_objects st' !! (next_object st + 1) = Some (node_of m st);
  ad_objects x : x <> next_object st + 1 -> raft_objects st' !! x = raft_objects st !! x;
  ad_nodes : reg_nodes (registry_ st') = <[(gm_group_id m, gm_local_node_id m) := next_object st]> (reg_nodes (registry_ st));
  ad_local : reg_local (registry_ st') = <[gm_group_id m := next_object st]> (reg_local (registry_ st));
  ad_raft : st_raft_nodes st' = <[gm_group_id m := next_object st + 1]> (st_raft_nodes st);
  ad_bridge : apply_bridge st' = <[MakeKeyInternal (gm_group_id m) (gm_local_node_id m) :=
    Some (Z.of_nat (length (apply_entries_ st)))]> (apply_bridge st);
  ad_apply : apply_entries_ st' = apply_entries_ st ++ [mkEntry (mkMailbox 1024 []) (mkApplyFsm (gm_group_id m)
    (gm_local_node_id m) (st_encoding_mode st) (cluster_n m st), next_object st)];
  ad_peer : peer_entries_ st' = peer_entries_ st ++ [mkEntry (mkMailbox 4096 []) (mkPeerFsm (gm_group_id m)
    (gm_local_node_id m) (next_object st) (Z.of_nat (length (apply_entries_ st))))];
  ad_router : local_peers_ (router_ st') = <[MakeKey (gm_group_id m) (gm_local_node_id m) :=
    Z.of_nat (length (peer_entries_ st))]> (local_peers_ (router_ st));
  ad_rpc : Routing.peers_ (rpc_router_ (registry_ st')) = <[MakeKey (gm_group_id m) (gm_local_node_id m) :=
    Z.of_nat (length (peer_entries_ st))]> (Routing.peers_ (rpc_router_ (registry_ st)));
  ad_settings : settings st' = settings st
}.

Lemma inject_raft_node_run q p sn rn st : service_nodes st !! q = Some sn -> raft_objects st !! p = Some rn -> raft_state_ rn = None ->
  inject_raft_node q p st =
    Some (update_service q (mkKvServiceNode (sn_config sn) (sn_id sn) (kv_server_ sn) (Some p)) (update_object p rn st)).
Proof.
  unfold inject_raft_node, service_node, raft_object. intros -> -> Hrn. cbn [mbind option_bind]. unfold SetRaftNode. by rewrite Hrn.
Qed.
Lemma SetKVPeerServers_run kvs q sn st : service_nodes st !! q = Some sn ->
  exists kv, SetKVPeerServers kvs q st = Some (update_service q (mkKvServiceNode (sn_config sn) (sn_id sn) kv (sn_raft sn)) st).
Proof. unfold SetKVPeerServers, service_node. intros ->. by eexists. Qed.

(** What connecting a service node and a Raft node changes. *)
Record connects m (q p : Z) (sn : KvServiceNode DB) (rn : RaftNode St) st st' : Prop := {
  cn_next : next_object st' = next_object st;
  cn_service : exists kv, service_nodes st' !! q = Some (mkKvServiceNode (sn_config sn) (sn_id sn) kv (Some p));
  cn_services x : x <> q -> service_nodes st' !! x = service_nodes st !! x;
  cn_object : raft_objects st' !! p = Some rn;
  cn_objects x : x <> p -> raft_objects st' !! x = raft_objects st !! x;
  cn_nodes : reg_nodes (registry_ st') = reg_nodes (registry_ st);
  cn_local : reg_local (registry_ st') = reg_local (registry_ st);
  cn_raft : st_raft_nodes st' = st_raft_nodes st;
  cn_bridge : apply_bridge st' = <[MakeKeyInternal (batch_system_group_id_ rn) (batch_system_node_id_ rn) :=
    Some (Z.of_nat (length (apply_entries_ st)))]> (apply_bridge st);
  cn_apply : apply_entries_ st' = apply_entries_ st ++ [mkEntry (mkMailbox 1024 []) (mkApplyFsm (gm_group_id m)
    (gm_local_node_id m) (st_encoding_mode st) (cluster_n m st), q)];
  cn_peer : peer_entries_ st' = peer_entries_ st ++ [mkEntry (mkMailbox 4096 []) (mkPeerFsm (gm_group_id m)
    (gm_local_node_id m) q (Z.of_nat (length (apply_entries_ st))))];
  cn_router : local_peers_ (router_ st') = <[MakeKey (gm_group_id m) (gm_local_node_id m) :=
    Z.of_nat (length (peer_entries_ st))]> (local_peers_ (router_ st));
  cn_rpc : Routing.peers_ (rpc_router_ (registry_ st')) = <[MakeKey (gm_group_id m) (gm_local_node_id m) :=
    Z.of_nat (length (peer_entries_ st))]> (Routing.peers_ (rpc_router_ (registry_ st)));
  cn_settings : settings st' = settings st
}.

Lemma connect_instance_run kvs m q p sn rn st : service_nodes st !! q = Some sn -> raft_objects st !! p = Some rn ->
  raft_state_ rn = None -> node_bridge_ rn = true ->
  exists st', connect_instance kvs m q p st = Some st' /\ connects m q p sn rn st st'.
Proof.
  intros Hq Hp Hs Hb. unfold connect_instance. rewrite (inject_raft_node_run q p sn rn) by done. cbn [mbind option_bind].
  set (st1 := update_service q _ _).
  destruct (SetKVPeerServers_run kvs q _ st1 ltac:(apply lookup_insert_eq)) as [kv ->]. cbn [mbind option_bind sn_config sn_id sn_raft].
  cbn [new_apply_fsm]. unfold RegisterApplyMailbox, raft_object.
  match goal with |- context [raft_objects ?s !! p] => change (raft_objects s) with (<[p := rn]> (raft_objects st)) end.
  rewrite lookup_insert_eq. cbn [mbind option_bind]. rewrite Hb. eexists. split; [reflexivity|]. split; try reflexivity.
  - exists kv. apply lookup_insert_eq.
  - intros x Hx. cbn. by rewrite !lookup_insert_ne by done.
  - cbn. apply lookup_insert_eq.
  - intros x Hx. cbn. by rewrite lookup_insert_ne by done.
Qed.

(** The registry makes a service node; [st1] is the store after the one of the same
    group, if any, was destroyed. *)
Lemma registry_Register_run me m st st1 : u32 (node_id_ st1) = me -> gm_local_node_id m = me ->
  (exists nc db, gm_group_cluster_cfg m !! me = Some nc /\ open_db (nc_kv_dbname nc) = Some db) ->
  (forall sn, sn_raft sn = None -> sn_config sn = gm_group_cluster_cfg m -> sn_id sn = me ->
     match registry_Get (gm_group_id m) me st with
     | Some old => destroy_service old (update_service (next_object st) sn (set_next_object (next_object st + 1) st))
     | None => Some (update_service (next_object st) sn (set_next_object (next_object st + 1) st)) end
     = Some (update_service (next_object st) sn st1)) ->
  exists sn, registry_Register open_db (gm_group_id m) (gm_local_node_id m) (gm_group_cluster_cfg m) st =
      Some (next_object st, set_registry_ (mkRegistry (<[(gm_group_id m, me) := next_object st]> (reg_nodes (registry_ st1)))
        (<[gm_group_id m := next_object st]> (reg_local (registry_ st1))) (rpc_router_ (registry_ st1)) (reg_encoding_mode (registry_ st1)))
        (update_service (next_object st) sn st1)) /\
    sn_config sn = gm_group_cluster_cfg m /\ sn_id sn = me.
Proof.
  intros Hme Hl (nc & db & Hnc & Hdb) Hold. unfold registry_Register, NewKvServiceNodeWithoutRPC, NewKvServer. rewrite Hl, Hnc.
  cbn [mbind option_bind]. rewrite Hdb. cbn [mbind option_bind]. rewrite bool_decide_true by (apply elem_of_sorted_keys; by eexists).
  cbn [mbind option_bind allocate]. eexists (mkKvServiceNode _ _ _ None). split; [|split; reflexivity].
  match goal with |- context [registry_Get ?g ?n (update_service ?q ?x ?s)] => change (registry_Get g n (update_service q x s)) with (registry_Get g n st) end.
  rewrite Hold by done. cbn [mbind option_bind]. unfold registry_insert. cbn [node_id_ update_service set_service_nodes].
  by rewrite Hme, Z.eqb_refl.
Qed.

(** A Raft node; the one it replaces is destroyed. *)
Definition without_old m st : gmap Z (RaftNode St) :=
  match st_raft_nodes st !! gm_group_id m with Some old => delete old (raft_objects st) | None => raft_objects st end.
Lemma new_raft_node_run m st : new_raft_node m st = (next_object st, set_st_raft_nodes (<[gm_group_id m := next_object st]> (st_raft_nodes st))
  (set_raft_objects (<[next_object st := node_of m st]> (without_old m st)) (set_next_object (next_object st + 1) st))).
Proof. reflexivity. Qed.

Lemma create_instance_adds me m kvs st : u32 (node_id_ st) = me -> bootable me m ->
  registry_Get (gm_group_id m) me st = None -> st_raft_nodes st !! gm_group_id m = None ->
  exists st', create_instance open_db kvs m st = Some st' /\ adds_instance m st st'.
Proof.
  intros Hme [Hl _ _ Hdb] Hnone Hr. unfold create_instance. set (q := next_object st).
  destruct (registry_Register_run me m st (set_next_object (q + 1) st) Hme Hl Hdb) as (sn & -> & Hcfg & Hid).
  { intros sn _ _ _. by rewrite Hnone. }
  cbn [mbind option_bind]. rewrite new_raft_node_run. cbn [next_object set_registry_ update_service set_service_nodes set_next_object].
  match goal with |- context [connect_instance kvs m _ _ ?s] => set (st1 := s) end.
  destruct (connect_instance_run kvs m q (q + 1) sn (node_of m st) st1) as (st' & Hc & [Hn Hsn Hs Ho Hos Hrn Hrl Hrr Hb Ha Hp Hro Hrp Hset]);
    [apply lookup_insert_eq|cbn; by rewrite lookup_insert_eq|done|done|].
  exists st'. split; [exact Hc|]. rewrite Hcfg, Hid in Hsn. split.
  - exact Hn.
  - rewrite Hl. exact Hsn.
  - intros x Hx. rewrite Hs by done. by apply lookup_insert_ne.
  - exact Ho.
  - intros x Hx. rewrite Hos by done. etransitivity; [by apply lookup_insert_ne|]. unfold without_old. cbn. by rewrite Hr.
  - rewrite Hrn, Hl. reflexivity.
  - exact Hrl.
  - exact Hrr.
  - exact Hb.
  - exact Ha.
  - exact Hp.
  - exact Hro.
  - exact Hrp.
  - exact Hset.
Qed.

Lemma settings_nodes st st' : settings st' = settings st -> forall m, node_of m st' = node_of m st /\ cluster_n m st' = cluster_n m st /\
  st_encoding_mode st' = st_encoding_mode st.
Proof. unfold settings, node_of, cluster_n. intros [= _ _ _ _ _ HN HM _ _ _ _ _] m. by rewrite HN, HM. Qed.

(** The new instance. *)
Lemma wired_new ms m st st' : instances ms st -> adds_instance m st st' ->
  wired (length ms) m st' /\ raft_objects st' !! (2 * Z.of_nat (length ms) + 1) = Some (node_of m st').
Proof.
  intros [Hnext [Ha Hp] _ _ _] Had. destruct (settings_nodes _ _ (ad_settings _ _ _ Had) m) as (HN & Hc & HM).
  destruct Had as [_ Hs _ Ho _ Hn Hlo Hr Hb Hap Hpe Hro Hrp _]. rewrite <- Hnext.
  split; [|by rewrite HN]. split; rewrite <- ?Hnext.
  - exact Hs.
  - rewrite Hn. apply lookup_insert_eq.
  - rewrite Hlo. apply lookup_insert_eq.
  - rewrite Hr. apply lookup_insert_eq.
  - rewrite Hb, Ha. apply lookup_insert_eq.
  - rewrite Hap, lookup_app_r, Ha, Nat.sub_diag by lia. cbn. by rewrite HM, Hc.
  - rewrite Hpe, lookup_app_r, Hp, Nat.sub_diag by lia. cbn. by rewrite Ha.
  - rewrite Hro, Hp. apply lookup_insert_eq.
  - unfold GetPeerMailbox. rewrite Hrp, Hp. apply lookup_insert_eq.
Qed.

(** The instances that were there. *)
Lemma wired_old i m m' st st' n : wired i m' st -> adds_instance m st st' -> next_object st = 2 * n -> Z.of_nat i < n ->
  gm_local_node_id m = gm_local_node_id m' -> gm_group_id m <> gm_group_id m' ->
  is_u32 (gm_group_id m) -> is_u32 (gm_group_id m') -> is_u32 (gm_local_node_id m') -> wired i m' st'.
Proof.
  intros [Hs Hn Hlo Hr Hb Ha Hp Hro Hrp] Had Hnext Hi Hl Hg Hu Hu' Hul.
  assert (MakeKey (gm_group_id m) (gm_local_node_id m) <> MakeKey (gm_group_id m') (gm_local_node_id m')) as Hkey.
  { rewrite Hl. intros [E _]%MakeKey_inj; done. }
  destruct (settings_nodes _ _ (ad_settings _ _ _ Had) m') as (HN & Hc & HM).
  destruct Had as [_ _ Hs' _ _ Hn' Hlo' Hr' Hb' Ha' Hp' Hro' Hrp' _]. split.
  - rewrite Hs' by lia. exact Hs.
  - rewrite Hn', lookup_insert_ne; [done|]. by intros [= E].
  - by rewrite Hlo', lookup_insert_ne.
  - by rewrite Hr', lookup_insert_ne.
  - rewrite Hb', lookup_insert_ne; [done|]. exact Hkey.
  - rewrite Ha', HM, Hc. by apply lookup_app_l_Some.
  - rewrite Hp'. by apply lookup_app_l_Some.
  - by rewrite Hro', lookup_insert_ne.
  - unfold GetPeerMailbox in *. by rewrite Hrp', lookup_insert_ne.
Qed.

Lemma create_instance_step me ms m kvs st : is_u32 me -> u32 (node_id_ st) = me ->
  Forall (bootable me) (ms ++ [m]) -> NoDup (gm_group_id <$> ms ++ [m]) -> instances ms st ->
  exists st', create_instance open_db kvs m st = Some st' /\ instances (ms ++ [m]) st' /\ settings st' = settings st.
Proof.
  intros Hme32 Hme [Hms Hm]%Forall_app Hnd Hin. apply Forall_inv in Hm.
  rewrite fmap_app in Hnd. apply NoDup_app in Hnd as (_ & Hnew & _).
  assert (forall i m', ms !! i = Some m' -> gm_group_id m <> gm_group_id m' /\ bootable me m') as Hne.
  { intros i m' Hi. apply list_elem_of_lookup_2 in Hi. rewrite Forall_forall in Hms. split; [|by apply Hms].
    intros E. eapply Hnew; [|cbn; left; reflexivity]. rewrite E. by apply list_elem_of_fmap_2. }
  destruct (create_instance_adds me m kvs st) as (st' & Hc & Had); [done|done| | |].
  { apply eq_None_not_Some. intros [q Hq]. apply (in_nodes _ _ Hin) in Hq as (i & m' & Hi & [= E] & _). by apply Hne in Hi as []. }
  { apply eq_None_not_Some. intros [q Hq]. apply (in_raft _ _ Hin) in Hq as (i & m' & Hi & E & _). by apply Hne in Hi as []. }
  exists st'. split; [done|]. split; [|by apply (ad_settings _ _ _ Had)]. split.
  - rewrite (ad_next _ _ _ Had), (in_next _ _ Hin), length_app. cbn. lia.
  - rewrite (ad_apply _ _ _ Had), (ad_peer _ _ _ Had), !length_app. destruct (in_entries _ _ Hin) as [-> ->]. done.
  - intros i m' [Hi|[Hi Hlast]]%lookup_app_Some.
    + destruct (Hne _ _ Hi) as [Hg Hb']. pose proof (lookup_lt_Some _ _ _ Hi) as Hlt.
      destruct (in_wired _ _ Hin _ _ Hi) as [Hw Ho]. split.
      * eapply wired_old; [exact Hw|exact Had|exact (in_next _ _ Hin)|lia| | | | |]; try done.
        -- by rewrite (bo_local _ _ Hm), (bo_local _ _ Hb').
        -- apply Hm.
        -- apply Hb'.
        -- by rewrite (bo_local _ _ Hb').
      * rewrite (ad_objects _ _ _ Had) by (rewrite (in_next _ _ Hin); lia).
        by destruct (settings_nodes _ _ (ad_settings _ _ _ Had) m') as (-> & _).
    + assert (i = length ms /\ m' = m) as [-> ->].
      { destruct (i - length ms)%nat eqn:E; cbn in Hlast; [injection Hlast as ->; split; [lia|done]|done]. }
      by apply wired_new with (st := st).
  - intros k q. rewrite (ad_nodes _ _ _ Had), lookup_insert_Some. intros [[<- <-]|[_ Hk]].
    + exists (length ms), m. rewrite (in_next _ _ Hin). split; [by apply list_lookup_middle|done].
    + apply (in_nodes _ _ Hin) in Hk as (i & m' & Hi & Hk & Hq). exists i, m'. by split; [apply lookup_app_l_Some|].
  - intros g p. rewrite (ad_raft _ _ _ Had), lookup_insert_Some. intros [[<- <-]|[_ Hk]].
    + exists (length ms), m. rewrite (in_next _ _ Hin). split; [by apply list_lookup_middle|done].
    + apply (in_raft _ _ Hin) in Hk as (i & m' & Hi & Hk & Hq). exists i, m'. by split; [apply lookup_app_l_Some|].
Qed.

Lemma bootable_valid me m : bootable me m -> membership_valid m = true.
Proof. intros [Hl _ _ (nc & _ & Hnc & _)]. destruct m. cbn in *. subst. apply valid_membership. by eexists. Qed.

Lemma create_all me ms' : forall ms st, is_u32 me -> u32 (node_id_ st) = me ->
  Forall (bootable me) (ms ++ ms') -> NoDup (gm_group_id <$> ms ++ ms') -> instances ms st ->
  exists st', for_each (checked_instance open_db) ms' st = Some st' /\ instances (ms ++ ms') st' /\ settings st' = settings st.
Proof.
  induction ms' as [|m ms' IH]; intros ms st Hu Hme Hb Hnd Hin.
  { exists st. by rewrite app_nil_r. }
  rewrite for_each_cons. assert (ms ++ m :: ms' = (ms ++ [m]) ++ ms') as E by by rewrite <- app_assoc.
  rewrite E in *. assert (checked_instance open_db m st = create_instance open_db (peer_kv_addrs_ st) m st) as ->.
  { unfold checked_instance. rewrite (bootable_valid me m); [done|]. rewrite Forall_forall in Hb. apply Hb.
    rewrite !elem_of_app. left. right. by left. }
  destruct (create_instance_step me ms m (peer_kv_addrs_ st) st) as (st1 & H1 & Hin1 & Hset); try done.
  { by apply Forall_app in Hb as []. }
  { rewrite fmap_app in Hnd. by apply NoDup_app in Hnd as []. }
  rewrite H1. cbn [mbind option_bind]. destruct (IH (ms ++ [m]) st1) as (st' & H2 & Hin' & Hset'); try done.
  { injection Hset as HN _. by rewrite HN. }
  exists st'. split; [done|]. split; [done|]. by rewrite Hset'.
Qed.

(** ** Loops over the Raft nodes.
    Each round replaces one node, which no other round touches; [X] is what else the
    loop writes. *)
Section loop.
Context {A X : Type} (f : A -> RaftStore DB St -> option (RaftStore DB St)) (ptr : A -> Z) (upd : A -> X -> X).
Context (mk : gmap Z (RaftNode St) -> X -> RaftStore DB St) (P Q : A -> RaftNode St -> Prop).

Lemma objects_loop l :
  (forall a objs x rn, a ∈ l -> objs !! ptr a = Some rn -> P a rn ->
     exists rn', f a (mk objs x) = Some (mk (<[ptr a := rn']> objs) (upd a x)) /\ Q a rn') ->
  NoDup (ptr <$> l) -> forall objs x, (forall a, a ∈ l -> exists rn, objs !! ptr a = Some rn /\ P a rn) ->
  exists objs', for_each f l (mk objs x) = Some (mk objs' (foldl (fun x a => upd a x) x l)) /\
    (forall a, a ∈ l -> exists rn, objs' !! ptr a = Some rn /\ Q a rn) /\
    (forall p, p ∉ ptr <$> l -> objs' !! p = objs !! p).
Proof.
  induction l as [|a l IH]; intros Hf Hnd objs x Hobjs; [exists objs; split; [done|]; split; [by intros a ?%not_elem_of_nil|done]|].
  cbn [fmap list_fmap] in Hnd. apply NoDup_cons in Hnd as [Ha Hnd]. rewrite for_each_cons.
  destruct (Hobjs a) as (rn & Hrn & HP); [by left|]. destruct (Hf a objs x rn) as (rn' & -> & HQ); [by left|done|done|].
  cbn [mbind option_bind foldl]. destruct (IH) with (objs := <[ptr a := rn']> objs) (x := upd a x) as (objs' & Hl & HQs & Hrest).
  - intros b objs0 x0 rn0 Hb. apply Hf. by right.
  - done.
  - intros b Hb. rewrite lookup_insert_ne; [by apply Hobjs; right|]. intros E. apply Ha. rewrite E. by apply list_elem_of_fmap_2.
  - exists objs'. split; [done|]. split.
    + intros b [->|Hb]%elem_of_cons; [|by apply HQs]. exists rn'. split; [|done]. by rewrite Hrest, lookup_insert_eq.
    + cbn [fmap list_fmap]. intros p [Hpa Hp]%not_elem_of_cons. by rewrite Hrest, lookup_insert_ne.
Qed.
End loop.

Lemma set_own_objects st : set_raft_objects (raft_objects st) st = st.
Proof. by destruct st. Qed.
Lemma wired_objects i m objs st : wired i m st -> wired i m (set_raft_objects objs st).
Proof. by intros []; split. Qed.

(** The nodes of the groups [ms] are in stage [Q]. *)
Definition nodes_in (ms : list GroupMembership) (Q : GroupMembership -> RaftNode St -> Prop) st : Prop :=
  forall i m, ms !! i = Some m -> exists rn, raft_objects st !! (2 * Z.of_nat i + 1) = Some rn /\ Q m rn.
Definition all_wired (ms : list GroupMembership) st : Prop := forall i m, ms !! i = Some m -> wired i m st.
(** The registry and the table of nodes hold the instances of [ms] and no other. *)
Record tables (ms : list GroupMembership) st : Prop := {
  tb_nodes : forall k q, reg_nodes (registry_ st) !! k = Some q ->
    exists i m, ms !! i = Some m /\ k = (gm_group_id m, gm_local_node_id m) /\ q = 2 * Z.of_nat i;
  tb_raft : forall g p, st_raft_nodes st !! g = Some p ->
    exists i m, ms !! i = Some m /\ g = gm_group_id m /\ p = 2 * Z.of_nat i + 1
}.

(** A loop over a table that lists every group once. *)
Lemma table_loop {K} `{Countable K} (t : gmap K Z) (key : GroupMembership -> K) (off : Z) f ms (P Q : GroupMembership -> RaftNode St -> Prop) st :
  (forall k q, t !! k = Some q -> exists i m, ms !! i = Some m /\ k = key m /\ q + off = 2 * Z.of_nat i + 1) ->
  (forall i m, ms !! i = Some m -> t !! key m = Some (2 * Z.of_nat i + 1 - off)) ->
  (forall i m objs rn, ms !! i = Some m -> objs !! (2 * Z.of_nat i + 1) = Some rn -> P m rn ->
     exists rn', f (key m, 2 * Z.of_nat i + 1 - off) (set_raft_objects objs st) =
       Some (set_raft_objects (<[2 * Z.of_nat i + 1 := rn']> objs) st) /\ Q m rn') ->
  nodes_in ms P st ->
  exists objs', for_each f (each t) st = Some (set_raft_objects objs' st) /\ nodes_in ms Q (set_raft_objects objs' st).
Proof.
  intros Ht Hall Hf HP.
  assert (forall kq, kq ∈ each t <-> t !! kq.1 = Some kq.2) as Heach.
  { intros [k q]. by rewrite each_perm, elem_of_map_to_list. }
  set (R (S : GroupMembership -> RaftNode St -> Prop) (kq : K * Z) rn := exists i m, ms !! i = Some m /\ kq.2 + off = 2 * Z.of_nat i + 1 /\ S m rn).
  destruct (objects_loop f (fun kq => kq.2 + off) (fun _ x => x) (fun objs (_ : unit) => set_raft_objects objs st) (R P) (R Q) (each t))
    with (objs := raft_objects st) (x := tt) as (objs' & Hl & HQ & _).
  - intros [k q] objs [] rn Hin%Heach Hrn (i & m & Hi & Hp & HPm). cbn [fst snd] in *. rewrite Hp in Hrn.
    destruct (Hf i m objs rn Hi Hrn HPm) as (rn' & Hrun & HQm). exists rn'. split; [|by exists i, m].
    destruct (Ht _ _ Hin) as (j & m' & Hj & -> & Hq). assert (j = i) as -> by lia. rewrite Hi in Hj. injection Hj as <-.
    rewrite Hp. replace q with (2 * Z.of_nat i + 1 - off) by lia. exact Hrun.
  - rewrite each_perm. apply NoDup_fmap_2_strong; [|apply NoDup_map_to_list].
    intros [k1 q1] [k2 q2] H1%elem_of_map_to_list H2%elem_of_map_to_list E. cbn in E.
    destruct (Ht _ _ H1) as (i1 & m1 & Hi1 & -> & Hq1). destruct (Ht _ _ H2) as (i2 & m2 & Hi2 & -> & Hq2).
    assert (i1 = i2) as -> by lia. rewrite Hi1 in Hi2. injection Hi2 as <-. f_equal. lia.
  - intros [k q] Hin%Heach. cbn in Hin. destruct (Ht _ _ Hin) as (i & m & Hi & _ & Hq). cbn [snd]. rewrite Hq.
    destruct (HP _ _ Hi) as (rn & Hrn & HPm). exists rn. split; [done|]. by exists i, m.
  - rewrite set_own_objects in Hl. exists objs'. split; [exact Hl|]. intros i m Hi.
    destruct (HQ (key m, 2 * Z.of_nat i + 1 - off)) as (rn & Hrn & (j & m' & Hj & Hq & HQm)); [by apply Heach, Hall|].
    cbn [snd] in *. exists rn. rewrite Z.sub_add in Hrn. split; [done|].
    assert (j = i) as -> by lia. rewrite Hi in Hj. by injection Hj as <-.
Qed.

(** ** The stages of a node *)
Definition peers_of m : list Z := filter (fun id => id <> gm_local_node_id m) (servers_of m).
Definition stage (started : bool) (group : GroupMembership -> Z) (N : Z) (mode : EncodingMode) m (rn : RaftNode St) : Prop :=
  running_with started (fresh_state (gm_local_node_id m) (group m) (gm_group_id m) (peers_of m) N (mode_to_byte mode)) rn.

Lemma servers_bound me m : bootable me m -> Forall (fun id => 0 <= id < 32) (servers_of m).
Proof.
  intros Hb. apply Forall_forall. intros id [x Hx]%elem_of_sorted_keys. apply (bo_ids _ _ Hb).
  unfold ConstructRaftClusterConfig in Hx. rewrite lookup_fmap in Hx. by destruct (gm_group_cluster_cfg m !! id).
Qed.

(** Every node of [ms] is reached through its service node. *)
Lemma reached i m st objs : wired i m st -> exists kv,
  service_node (2 * Z.of_nat i) (set_raft_objects objs st) =
    Some (mkKvServiceNode (gm_group_cluster_cfg m) (gm_local_node_id m) kv (Some (2 * Z.of_nat i + 1))).
Proof. intros Hw. exact (w_service _ _ _ Hw). Qed.

Lemma set_objects_twice a b st : set_raft_objects a (set_raft_objects b st) = set_raft_objects a st.
Proof. done. Qed.

Lemma InitAll_run me ms now st : 0 <= me -> Forall (bootable me) ms -> (forall p, arrays_ok (uninit p)) ->
  all_wired ms st -> tables ms st -> nodes_in ms (fun m rn => rn = node_of m st) st ->
  exists objs, InitAll uninit now st = Some (set_raft_objects objs st) /\
    nodes_in ms (stage false (fun _ => 0) (physical_cluster_size_ st) (st_encoding_mode st)) (set_raft_objects objs st).
Proof.
  intros Hme Hb Harr Hw [Hn _] Hnodes. unfold InitAll.
  apply (table_loop (reg_nodes (registry_ st)) (fun m => (gm_group_id m, gm_local_node_id m)) 1 _ ms (fun m rn => rn = node_of m st)).
  - intros k q (i & m & Hi & -> & ->)%Hn. by exists i, m.
  - intros i m Hi. rewrite (w_registry _ _ _ (Hw _ _ Hi)). f_equal. lia.
  - intros i m objs rn Hi Hrn ->. cbn [snd]. replace (2 * Z.of_nat i + 1 - 1) with (2 * Z.of_nat i) by lia.
    pose proof (Hw _ _ Hi) as Hwi. destruct (reached i m st objs Hwi) as [kv Hsn].
    assert (bootable me m) as Hbm by (rewrite Forall_forall in Hb; apply Hb; by eapply list_elem_of_lookup_2).
    destruct (RaftNode_Init_created (gm_local_node_id m) (gm_group_id m) (servers_of m) (physical_cluster_size_ st)
      (mode_to_byte (st_encoding_mode st)) (uninit (2 * Z.of_nat i + 1)) now) as (rn' & Hinit & Hst).
    { by rewrite (bo_local _ _ Hbm). }
    { by eapply servers_bound. }
    { apply NoDup_sorted_keys. }
    { apply Harr. }
    exists rn'. split; [|exact Hst]. unfold InitServiceNodeState. rewrite Hsn. cbn [mbind option_bind sn_raft].
    unfold raft_object. cbn [raft_objects set_raft_objects]. rewrite Hrn. cbn [mbind option_bind]. unfold node_of.
    rewrite Hinit. cbn [mbind option_bind]. done.
  - exact Hnodes.
Qed.

(** [post_init] over the memberships. *)
Definition with_wiring st objs (x : gmap Z Z * gmap Z Z) : RaftStore DB St :=
  set_handlers_ x.2 (set_registered_ x.1 (set_raft_objects objs st)).
Definition wiring_of st m (x : gmap Z Z * gmap Z Z) : gmap Z Z * gmap Z Z :=
  let p := default 0 (st_raft_nodes st !! gm_group_id m) in (<[gm_group_id m := p]> x.1, <[gm_group_id m := p]> x.2).

Lemma wirings_lookup st l : forall x, NoDup (gm_group_id <$> l) ->
  (forall g, g ∉ gm_group_id <$> l -> (foldl (fun x m => wiring_of st m x) x l).1 !! g = x.1 !! g /\
     (foldl (fun x m => wiring_of st m x) x l).2 !! g = x.2 !! g) /\
  (forall m, m ∈ l -> (foldl (fun x m => wiring_of st m x) x l).1 !! gm_group_id m = Some (default 0 (st_raft_nodes st !! gm_group_id m)) /\
     (foldl (fun x m => wiring_of st m x) x l).2 !! gm_group_id m = Some (default 0 (st_raft_nodes st !! gm_group_id m))).
Proof.
  induction l as [|m l IH]; intros x; cbn [fmap list_fmap foldl]; [split; [done|by intros m ?%not_elem_of_nil]|].
  intros [Hm Hnd]%NoDup_cons. destruct (IH (wiring_of st m x) Hnd) as [Hout Hin]. split.
  - intros g [Hg Hgl]%not_elem_of_cons. destruct (Hout g Hgl) as [-> ->]. cbn. by rewrite !lookup_insert_ne.
  - intros m' [->|Hm']%elem_of_cons; [|by apply Hin]. destruct (Hout _ Hm) as [-> ->]. cbn. by rewrite !lookup_insert_eq.
Qed.

Lemma post_init_one st m q sn p rn s rn' tm : registry_Get (gm_group_id m) (gm_local_node_id m) st = Some q ->
  service_nodes st !! q = Some sn -> sn_raft sn = Some p -> raft_objects st !! p = Some rn ->
  PostInit (gm_group_id m) true rn = (Some s, rn') -> transport_manager st = Some tm ->
  post_init m st = Some (with_wiring st (<[p := rn']> (raft_objects st))
    (<[gm_group_id m := p]> (registered_ st), <[gm_group_id m := p]> (handlers_ st))).
Proof.
  unfold post_init, service_node, raft_object. intros -> -> Hp Hrn HPost Htm. cbn [mbind option_bind]. rewrite Hp, Hrn.
  cbn [mbind option_bind]. rewrite HPost. rewrite bool_decide_true by by eexists. cbn. by rewrite Htm.
Qed.

Lemma post_init_run ms N mode st tm : transport_manager st = Some tm -> NoDup (gm_group_id <$> ms) -> all_wired ms st ->
  nodes_in ms (stage false (fun _ => 0) N mode) st ->
  exists objs reg h, for_each post_init ms st = Some (with_wiring st objs (reg, h)) /\
    nodes_in ms (stage false gm_group_id N mode) (with_wiring st objs (reg, h)) /\
    forall i m, ms !! i = Some m -> reg !! gm_group_id m = Some (2 * Z.of_nat i + 1) /\ h !! gm_group_id m = Some (2 * Z.of_nat i + 1).
Proof.
  intros Htm Hnd Hw Hnodes.
  assert (forall i m, ms !! i = Some m -> default 0 (st_raft_nodes st !! gm_group_id m) = 2 * Z.of_nat i + 1) as Hptr.
  { intros i m Hi. by rewrite (w_raft _ _ _ (Hw _ _ Hi)). }
  destruct (objects_loop post_init (fun m => default 0 (st_raft_nodes st !! gm_group_id m)) (wiring_of st) (with_wiring st)
    (stage false (fun _ => 0) N mode) (stage false gm_group_id N mode) ms) with (objs := raft_objects st) (x := (registered_ st, handlers_ st))
    as (objs & Hl & HQ & _).
  - intros m objs x rn [i Hi]%list_elem_of_lookup Hrn HP. rewrite (Hptr _ _ Hi) in *. destruct (Hw _ _ Hi) as [[kv Hs] Hreg _ Hr _ _ _ _ _].
    destruct (PostInit_fresh _ (gm_group_id m) _ _ _ _ _ rn HP) as (s & rn' & HPost & HQ). exists rn'. split; [|exact HQ].
    erewrite post_init_one; [|exact Hreg|exact Hs|done|exact Hrn|exact HPost|exact Htm].
    unfold wiring_of. rewrite (Hptr _ _ Hi). done.
  - apply NoDup_fmap_2_strong; [|by eapply NoDup_fmap_1].
    intros m1 m2 [i1 H1]%list_elem_of_lookup [i2 H2]%list_elem_of_lookup. rewrite (Hptr _ _ H1), (Hptr _ _ H2). intros E.
    assert (i1 = i2) as -> by lia. congruence.
  - intros m [i Hi]%list_elem_of_lookup. rewrite (Hptr _ _ Hi). by apply Hnodes.
  - assert (with_wiring st (raft_objects st) (registered_ st, handlers_ st) = st) as E by by destruct st.
    rewrite E in Hl. destruct (foldl _ _ ms) as [reg h] eqn:Ex.
    destruct (wirings_lookup st ms (registered_ st, handlers_ st) Hnd) as [_ Hin]. rewrite Ex in Hin. cbn [fst snd] in Hin.
    exists objs, reg, h. split; [exact Hl|]. split.
    + intros i m Hi. destruct (HQ m) as (rn & Hrn & HQm); [by eapply list_elem_of_lookup_2|]. rewrite (Hptr _ _ Hi) in Hrn. by exists rn.
    + intros i m Hi. rewrite <- (Hptr _ _ Hi). apply Hin. by eapply list_elem_of_lookup_2.
Qed.

Lemma start_nodes_run me ms N mode st : 0 <= me < kMaxNodeNum -> Forall (bootable me) ms -> all_wired ms st -> tables ms st ->
  nodes_in ms (stage false gm_group_id N mode) st ->
  exists objs, for_each (fun gp => start_raft_node gp.2) (each (st_raft_nodes st)) st = Some (set_raft_objects objs st) /\
    nodes_in ms (stage true gm_group_id N mode) (set_raft_objects objs st).
Proof.
  intros Hme Hb Hw [_ Hr] Hnodes. eapply (table_loop (st_raft_nodes st) gm_group_id 0); [| | |exact Hnodes].
  - intros g p (i & m & Hi & -> & ->)%Hr. exists i, m. split_and!; [done|done|lia].
  - intros i m Hi. rewrite (w_raft _ _ _ (Hw _ _ Hi)). f_equal. lia.
  - intros i m objs rn Hi Hrn HP. cbn [snd]. rewrite Z.sub_0_r.
    assert (bootable me m) as Hbm by (rewrite Forall_forall in Hb; apply Hb; by eapply list_elem_of_lookup_2).
    destruct (RaftNode_Start_fresh (gm_local_node_id m) (gm_group_id m) (gm_group_id m) (peers_of m) N (mode_to_byte mode) rn)
      as (rn' & Hrun & HQ); [by rewrite (bo_local _ _ Hbm)|exact HP|].
    exists rn'. split; [|exact HQ]. unfold start_raft_node, raft_object. cbn [raft_objects set_raft_objects]. rewrite Hrn.
    cbn [mbind option_bind]. by rewrite Hrun.
Qed.

(** The service nodes start what is running already. *)
Lemma StartAll_run ms N mode st : all_wired ms st -> tables ms st -> nodes_in ms (stage true gm_group_id N mode) st ->
  exists objs, StartAll st = Some (set_raft_objects objs st) /\ nodes_in ms (stage true gm_group_id N mode) (set_raft_objects objs st).
Proof.
  intros Hw [Hn _] Hnodes. unfold StartAll.
  eapply (table_loop (reg_nodes (registry_ st)) (fun m => (gm_group_id m, gm_local_node_id m)) 1); [| | |exact Hnodes].
  - intros k q (i & m & Hi & -> & ->)%Hn. by exists i, m.
  - intros i m Hi. rewrite (w_registry _ _ _ (Hw _ _ Hi)). f_equal. lia.
  - intros i m objs rn Hi Hrn HP. cbn [snd]. replace (2 * Z.of_nat i + 1 - 1) with (2 * Z.of_nat i) by lia.
    destruct (reached i m st objs (Hw _ _ Hi)) as [kv Hsn]. exists rn. split; [|exact HP].
    unfold StartServiceNode. rewrite Hsn. cbn [mbind option_bind sn_raft]. unfold raft_object. cbn [raft_objects set_raft_objects].
    rewrite Hrn. unfold KvServer_Start. cbn [mbind option_bind]. rewrite RaftNode_Start_again; [done|]. apply HP.
Qed.

(** A store without instances, whatever its parameters are. *)
Record empty_store st : Prop := {
  es_next : next_object st = 0;
  es_entries : apply_entries_ st = [] /\ peer_entries_ st = [];
  es_nodes : reg_nodes (registry_ st) = ∅;
  es_raft : st_raft_nodes st = ∅
}.

Lemma empty_instances st : empty_store st -> instances [] st.
Proof.
  intros [Hn [Ha Hp] Hr Hs]. split; [by rewrite Hn|by rewrite Ha, Hp|done| |].
  - intros k q. by rewrite Hr, lookup_empty.
  - intros k q. by rewrite Hs, lookup_empty.
Qed.

Lemma CreateRaftInstances_run me ms st : is_u32 me -> u32 (node_id_ st) = me -> ms <> [] -> Forall (bootable me) ms ->
  NoDup (gm_group_id <$> ms) -> empty_store st ->
  exists st' tm, CreateRaftInstances open_db ms st = Some st' /\ instances ms st' /\ memberships_ st' = ms /\
    transport_manager st' = Some tm /\ physical_cluster_size_ st' = physical_cluster_size_ st /\
    st_encoding_mode st' = st_encoding_mode st /\ node_id_ st' = node_id_ st /\ collect_only_ st' = collect_only_ st /\
    local_kv_db_base_ st' = local_kv_db_base_ st.
Proof.
  intros Hu Hme Hne Hb Hnd Hempty. unfold CreateRaftInstances.
  assert (peer_addrs ms <> ∅) as Hpa.
  { destruct ms as [|m ms]; [done|]. apply Forall_inv in Hb. destruct (bo_db _ _ Hb) as (nc & _ & Hnc & _). clear - Hnc.
    assert (is_Some (peer_addrs (m :: ms) !! me)) as [a Ha]; [|intros E; by rewrite E, lookup_empty in Ha].
    unfold peer_addrs. cbn [foldl].
    assert (is_Some (((∅ : gmap Z NetAddress) ∪ ConstructRaftClusterConfig (gm_group_cluster_cfg m)) !! me)) as H0.
    { rewrite (left_id_L ∅ (∪)). unfold ConstructRaftClusterConfig. rewrite lookup_fmap, Hnc. by eexists. }
    revert H0. generalize ((∅ : gmap Z NetAddress) ∪ ConstructRaftClusterConfig (gm_group_cluster_cfg m)).
    induction ms as [|m' ms IH]; intros acc Hacc; [done|]. cbn [foldl]. apply IH. destruct Hacc as [x Hx].
    exists x. by apply lookup_union_Some_l. }
  unfold init_transport. rewrite bool_decide_false by done.
  match goal with |- context [for_each _ ms ?s] => set (st0 := s) end.
  destruct (create_all me ms [] st0) as (st' & Hrun & Hin & Hset); [done|done|done|done| |].
  { by apply empty_instances; destruct Hempty; split. }
  injection Hset as Hi Hms Htm _ _ HN HM _ _ _ Hc Hb'. do 2 eexists.
  split_and!; [exact Hrun|exact Hin|exact Hms|exact Htm|exact HN|exact HM|exact Hi|exact Hc|exact Hb'].
Qed.

Lemma wired_frame i m st st' : wired i m st ->
  (service_nodes st', reg_nodes (registry_ st'), reg_local (registry_ st'), st_raft_nodes st', apply_bridge st',
   apply_entries_ st', peer_entries_ st', router_ st', rpc_router_ (registry_ st')) =
  (service_nodes st, reg_nodes (registry_ st), reg_local (registry_ st), st_raft_nodes st, apply_bridge st,
   apply_entries_ st, peer_entries_ st, router_ st, rpc_router_ (registry_ st)) ->
  st_encoding_mode st' = st_encoding_mode st -> physical_cluster_size_ st' = physical_cluster_size_ st -> wired i m st'.
Proof.
  intros [Hs Hn Hl Hr Hb Ha Hp Hro Hrp] [= E1 E2 E3 E4 E5 E6 E7 E8 E9] EM EN.
  split; rewrite ?E1, ?E2, ?E3, ?E4, ?E5, ?E6, ?E7, ?E8, ?E9, ?EM; try done. unfold cluster_n in *. by rewrite EN.
Qed.

Lemma boot_run (now me : Z) (ms : list GroupMembership) st
    (Hempty : empty_store st) (Hid : u32 (node_id_ st) = me) (Hme : 0 <= me < kMaxNodeNum) (Hne : ms <> [])
    (Hms : Forall (bootable me) ms) (Hgroups : NoDup (gm_group_id <$> ms)) (Harr : forall p, arrays_ok (uninit p)) :
  exists st', boot open_db uninit now ms st = Some st' /\ memberships_ st' = ms /\ batch_running_ st' = true /\
    callback_set st' = true /\ (running_ ∘ transport_) <$> transport_manager st' = Some true /\
    (next_object st' = 2 * Z.of_nat (length ms) /\ node_id_ st' = node_id_ st /\ collect_only_ st' = collect_only_ st /\
      local_kv_db_base_ st' = local_kv_db_base_ st) /\
    forall i m, ms !! i = Some m ->
      wired i m st' /\
      registered_ st' !! gm_group_id m = Some (2 * Z.of_nat i + 1) /\ handlers_ st' !! gm_group_id m = Some (2 * Z.of_nat i + 1) /\
      exists rn, raft_objects st' !! (2 * Z.of_nat i + 1) = Some rn /\
        stage true gm_group_id (physical_cluster_size_ st) (st_encoding_mode st) m rn.
Proof.
  assert (is_u32 me) as Hu by (unfold is_u32, kMaxNodeNum in *; lia).
  destruct (CreateRaftInstances_run me ms st) as (st1 & tm & H1 & Hin & Hmem & Htm & HN & HM & Hn & Hc & Hb); try done.
  pose proof (fun i m Hi => proj1 (in_wired _ _ Hin i m Hi)) as Hw1.
  assert (tables ms st1) as Ht1 by (split; [apply (in_nodes _ _ Hin)|apply (in_raft _ _ Hin)]).
  unfold boot. rewrite H1. cbn [mbind option_bind]. unfold InitRaftInstances. set (st1' := set_callback_set true st1).
  destruct (InitAll_run me ms now st1') as (o2 & H2 & Hn2); [lia|done|done| | | |].
  { intros i m Hi. by apply (wired_frame _ _ st1); [apply Hw1| | |]. }
  { by destruct Ht1; split. }
  { intros i m Hi. exists (node_of m st1). split; [apply (in_wired _ _ Hin _ _ Hi)|done]. }
  rewrite H2. cbn [mbind option_bind]. set (st2 := set_raft_objects o2 st1').
  change (memberships_ st2) with (memberships_ st1). rewrite Hmem.
  assert (all_wired ms st2) as Hw2 by (intros i m Hi; by apply (wired_frame _ _ st1); [apply Hw1| | |]).
  change (physical_cluster_size_ st1') with (physical_cluster_size_ st1) in Hn2.
  change (st_encoding_mode st1') with (st_encoding_mode st1) in Hn2. rewrite HN, HM in Hn2.
  destruct (post_init_run ms (physical_cluster_size_ st) (st_encoding_mode st) st2 tm) as (o3 & reg & h & H3 & Hn3 & Hrh); [done..|].
  rewrite H3. cbn [mbind option_bind]. unfold StartRaftInstances. set (st3 := manager_started (with_wiring st2 o3 (reg, h))).
  assert (all_wired ms st3) as Hw3 by (intros i m Hi; by apply (wired_frame _ _ st1); [apply Hw1| | |]).
  destruct (start_nodes_run me ms (physical_cluster_size_ st) (st_encoding_mode st) st3) as (o4 & H4 & Hn4); try done.
  { by destruct Ht1; split. }
  change (st_raft_nodes (with_wiring st2 o3 (reg, h))) with (st_raft_nodes st3). rewrite H4. cbn [mbind option_bind]. set (st4 := set_raft_objects o4 st3).
  destruct (StartAll_run ms (physical_cluster_size_ st) (st_encoding_mode st) st4) as (o5 & H5 & Hn5); [| |done|].
  { intros i m Hi. by apply (wired_frame _ _ st1); [apply Hw1| | |]. }
  { by destruct Ht1; split. }
  rewrite H5. cbn [mbind option_bind]. eexists. split; [reflexivity|]. split; [exact Hmem|]. split; [done|]. split; [done|].
  split. { cbn. rewrite Htm. cbn. f_equal. unfold Start. by destruct (running_ (transport_ tm)) eqn:E. }
  split; [split; [exact (in_next _ _ Hin)|by split]|].
  intros i m Hi. destruct (Hrh _ _ Hi) as [Hr Hh]. split; [by apply (wired_frame _ _ st1); [apply Hw1| | |]|].
  split; [exact Hr|]. split; [exact Hh|]. exact (Hn5 _ _ Hi).
Qed.

(** [C15] Starting a node brings up every group it is a member of: no step fails, and
    for each membership there is one Raft node, started as a follower of term 0 with
    exactly the other members as peers, that the RPC service and the transport know
    under the group's number; its committed entries go to the apply FSM of the group,
    messages for the group to its peer FSM, and both FSMs and the key-value service
    use the one service node that was given this Raft node. *)
Theorem boot_wires_groups (now me : Z) (ms : list GroupMembership) st
    (Hempty : empty_store st) (Hid : u32 (node_id_ st) = me) (Hme : 0 <= me < kMaxNodeNum) (Hne : ms <> [])
    (Hms : Forall (bootable me) ms) (Hgroups : NoDup (gm_group_id <$> ms)) (Harr : forall p, arrays_ok (uninit p)) :
  exists st', boot open_db uninit now ms st = Some st' /\ memberships_ st' = ms /\ batch_running_ st' = true /\
    callback_set st' = true /\ (running_ ∘ transport_) <$> transport_manager st' = Some true /\
    forall i m, ms !! i = Some m ->
      wired i m st' /\
      registered_ st' !! gm_group_id m = Some (2 * Z.of_nat i + 1) /\ handlers_ st' !! gm_group_id m = Some (2 * Z.of_nat i + 1) /\
      exists rn, raft_objects st' !! (2 * Z.of_nat i + 1) = Some rn /\
        stage true gm_group_id (physical_cluster_size_ st) (st_encoding_mode st) m rn.
Proof.
  destruct (boot_run now me ms st) as (st' & H1 & H2 & H3 & H4 & H5 & _ & H6); try done. by exists st'.
Qed.

(** ** A restart *)
Section restart.
Context {writes : StateWrites St}.

(** What the unified service reaches under the numbers of the groups. *)
Definition service_view st : RaftUnifiedRPCService := omap (fun p => rn ← raft_objects st !! p; raft_state_ rn) (registered_ st).

Lemma fresh_grants me gid bgid peers N mode args (s : RaftState St) : fresh_state me gid bgid peers N mode s ->
  0 <= me <= Z.of_nat (length peers) /\ Z.of_nat (length peers) < 10 -> rva_candidate_id args ∈ peers -> 0 <= rva_candidate_id args ->
  1 <= rva_term args -> 0 <= rva_last_log_index args -> 0 <= rva_last_log_term args ->
  exists s', ProcessRequestVote args s = Some (mkRequestVoteReply (rva_term args) true me gid, s') /\
    current_term_ s' = rva_term args /\ vote_for_ s' = rva_candidate_id args.
Proof.
  intros [] Hme Hc Hc0 Ht Hli Hlt. destruct fs_monitor0 as (Hm & Hnum & Hr & Hrt). destruct fs_limits0 as [Hmin Hmax].
  destruct (touch_run (rva_candidate_id args) s) as (mon & Htouch & _); [split; lia|done|].
  unfold ProcessRequestVote. unfold bind at 1. rewrite Htouch. unfold bind at 1, get at 1. cbv zeta.
  set (s1 := set_live_monitor_ mon s).
  assert (IsGroupMember (rva_candidate_id args) s1 = true) as ->.
  { unfold IsGroupMember. apply orb_true_iff. right. apply bool_decide_true. cbn. by apply fs_peers0. }
  change (CurrentTerm s1) with (current_term_ s). rewrite fs_term0, (proj2 (Z.ltb_ge (rva_term args) 0)), (proj2 (Z.ltb_lt 0 (rva_term args))) by lia.
  cbn [negb orb when]. destruct (step_down_run args s1) as (s2 & H2 & Ht2 & Hv2 & _ & Hi2 & Hg2 & _ & Hl2 & Hm1 & Hm2 & _).
  { change (current_term_ s1) with (current_term_ s). lia. }
  change (CurrentTerm s1) with (current_term_ s) in H2. change (current_term_ s1) with (current_term_ s) in Hv2.
  rewrite fs_term0, (proj2 (Z.ltb_lt 0 (rva_term args))) in H2, Hv2 by lia. cbn [orb when] in H2. unfold bind at 1. rewrite H2.
  unfold bind at 1, get at 1. rewrite isLogUpToDate_spec. unfold VoteFor, up_to_date. rewrite Hv2, Hl2.
  change (lm_ s1) with (lm_ s). rewrite fs_log0. cbn [Z.eqb orb].
  assert ((kNotVoted =? kNotVoted) || (kNotVoted =? rva_candidate_id args) = true) as -> by (by rewrite Z.eqb_refl).
  assert ((LastLogEntryTerm (LogManager_ctor 100000) <? rva_last_log_term args) ||
    (LastLogEntryTerm (LogManager_ctor 100000) =? rva_last_log_term args) &&
    (LastLogEntryIndex (LogManager_ctor 100000) <=? rva_last_log_index args) = true) as ->.
  { apply orb_true_iff. rewrite andb_true_iff, Z.ltb_lt, Z.eqb_eq, Z.leb_le. unfold LastLogEntryTerm, LastLogEntryIndex. cbn. lia. }
  cbn [andb]. unfold bind at 1, SetVoteFor at 1, modify at 1. unfold bind at 1.
  edestruct PersistRaftState_set as (o & -> & _). set (s3 := set_storage_ o _).
  destruct (resetElectionTimer_run s3) as (s4 & H4 & Hc4 & _).
  { cbn. rewrite Hm1, Hm2. cbn. rewrite Hmin, Hmax. done. }
  unfold bind at 1. rewrite H4. unfold same, core in Hc4. injection Hc4 as _ _ _ Ht4 Hv4 _ _ _ _ _ _ _ _ _ _.
  unfold ret. exists s4. rewrite Ht4, Hv4. cbn. unfold CurrentTerm. rewrite Ht2. split; [|done].
  by rewrite fs_id0, fs_group0.
Qed.

(** What a node needs to count itself among the members of its group. *)
Definition in_range m : Prop := 0 <= gm_local_node_id m <= Z.of_nat (length (peers_of m)) /\ Z.of_nat (length (peers_of m)) < 10.

Lemma booted_grants (ms : list GroupMembership) N mode st i m args : ms !! i = Some m -> registered_ st !! gm_group_id m = Some (2 * Z.of_nat i + 1) ->
  (exists rn, raft_objects st !! (2 * Z.of_nat i + 1) = Some rn /\ stage true gm_group_id N mode m rn) -> in_range m ->
  rva_candidate_id args ∈ peers_of m -> 0 <= rva_candidate_id args ->
  1 <= rva_term args -> 0 <= rva_last_log_index args -> 0 <= rva_last_log_term args -> forall none,
  exists svc, process (gm_group_id m) (ProcessRequestVote args) none (service_view st) =
    Some (mkRequestVoteReply (rva_term args) true (gm_local_node_id m) (gm_group_id m), svc).
Proof.
  intros Hi Hreg (rn & Hrn & _ & _ & s & Hs & Hf) Hr Hc Hc0 Ht Hli Hlt none.
  assert (service_view st !! gm_group_id m = Some s) as Hsvc.
  { unfold service_view. etransitivity; [exact (lookup_omap (M := gmap Z) _ _ _)|]. rewrite Hreg. cbn [mbind option_bind]. rewrite Hrn. cbn [mbind option_bind]. exact Hs. }
  destruct (fresh_grants _ _ _ _ _ _ args s Hf) as (s' & Hp & _); try done.
  unfold process, target_raft, GetRaftState. rewrite !Hsvc. cbn [mbind option_bind]. rewrite Hp. by eexists.
Qed.

(** [C16] A vote does not survive a restart of a Multi-Raft node: [CreateRaftInstances]
    never names a storage file, so a node that was started, voted for one candidate
    in some term, and is started again votes for another candidate in the same term,
    in every group and whatever the parameters of the store are. *)
Theorem restart_votes_twice (now now' me : Z) (ms : list GroupMembership) st i m a b none
    (Hempty : empty_store st) (Hid : u32 (node_id_ st) = me) (Hme : 0 <= me < kMaxNodeNum)
    (Hms : Forall (bootable me) ms) (Hgroups : NoDup (gm_group_id <$> ms)) (Harr : forall p, arrays_ok (uninit p))
    (Hi : ms !! i = Some m) (Hrange : in_range m) (Ha : a ∈ peers_of m) (Hb : b ∈ peers_of m) (term : Z) (Hterm : 1 <= term) :
  let vote c := ProcessRequestVote (mkRequestVoteArgs term c 0 0 (gm_group_id m) 0) in
  let granted := mkRequestVoteReply term true me (gm_group_id m) in
  exists st1 st2 svc1 svc2,
    boot open_db uninit now ms st = Some st1 /\ process (gm_group_id m) (vote a) none (service_view st1) = Some (granted, svc1) /\
    boot open_db uninit now' ms st = Some st2 /\ process (gm_group_id m) (vote b) none (service_view st2) = Some (granted, svc2).
Proof.
  cbv zeta. assert (ms <> []) as Hne by (intros ->; done).
  assert (bootable me m) as Hbm by (rewrite Forall_forall in Hms; apply Hms; by eapply list_elem_of_lookup_2).
  assert (forall c, c ∈ peers_of m -> 0 <= c) as Hpos.
  { intros c [_ Hc]%list_elem_of_filter. pose proof (servers_bound _ _ Hbm) as Hs. rewrite Forall_forall in Hs. by apply Hs. }
  destruct (boot_run now me ms st) as (st1 & H1 & _ & _ & _ & _ & _ & Hg1); try done.
  destruct (boot_run now' me ms st) as (st2 & H2 & _ & _ & _ & _ & _ & Hg2); try done.
  destruct (Hg1 _ _ Hi) as (_ & Hr1 & _ & Hn1). destruct (Hg2 _ _ Hi) as (_ & Hr2 & _ & Hn2).
  destruct (booted_grants ms _ _ st1 i m (mkRequestVoteArgs term a 0 0 (gm_group_id m) 0) Hi Hr1 Hn1 Hrange) with (none := none) as [svc1 Hv1];
    [done|by apply Hpos|done|done|done|].
  destruct (booted_grants ms _ _ st2 i m (mkRequestVoteArgs term b 0 0 (gm_group_id m) 0) Hi Hr2 Hn2 Hrange) with (none := none) as [svc2 Hv2];
    [done|by apply Hpos|done|done|done|].
  rewrite (bo_local _ _ Hbm) in Hv1, Hv2. exists st1, st2, svc1, svc2. done.
Qed.
End restart.

(** ** A notification for a group that runs *)
Lemma destroy_service_run q sn p rn st : service_nodes st !! q = Some sn -> sn_raft sn = Some p -> raft_objects st !! p = Some rn ->
  exists objs svcs, destroy_service q st = Some (set_service_nodes svcs (set_raft_objects objs st)) /\
    svcs !! q = None /\ (forall x, x <> q -> svcs !! x = service_nodes st !! x).
Proof.
  intros Hq Hp Hrn. unfold destroy_service, StopServiceNode, service_node, raft_object. rewrite Hq. cbn [mbind option_bind].
  destruct (kv_exit_ (kv_server_ sn)).
  - exists (raft_objects st), (delete q (service_nodes st)). cbn [mbind option_bind]. split; [by destruct st|].
    split; [apply lookup_delete_eq|]. intros x Hx. by apply lookup_delete_ne.
  - rewrite Hp. cbn [mbind option_bind]. rewrite Hrn. unfold KvServer_Exit. cbn [mbind option_bind]. do 2 eexists. split; [reflexivity|].
    split; [apply lookup_delete_eq|]. intros x Hx. cbn. by rewrite lookup_delete_ne, lookup_insert_ne by done.
Qed.

(** Destroying a node does not depend on another one, or on the next address. *)
Lemma destroy_service_update old q sn n st st' : old <> q -> destroy_service old st = Some st' ->
  destroy_service old (update_service q sn (set_next_object n st)) = Some (update_service q sn (set_next_object n st')).
Proof.
  intros Hne. unfold destroy_service, StopServiceNode, service_node. cbn [service_nodes update_service set_service_nodes set_next_object].
  rewrite lookup_insert_ne by done. destruct (service_nodes st !! old) as [so|]; [|done]. cbn [mbind option_bind].
  destruct (kv_exit_ (kv_server_ so)).
  { intros [= <-]. cbn. f_equal. unfold update_service. cbn. by rewrite delete_insert_ne. }
  destruct (sn_raft so) as [p|]; [|done]. cbn [mbind option_bind]. unfold raft_object.
  change (raft_objects (update_service q sn (set_next_object n st))) with (raft_objects st).
  destruct (raft_objects st !! p) as [rn|]; [|done]. cbn [mbind option_bind KvServer_Exit]. intros [= <-].
  f_equal. unfold update_service, update_object. cbn. rewrite (insert_insert_ne _ old q) by done. by rewrite delete_insert_ne.
Qed.

(** Creating the instance of a group that has one: the old one is destroyed, and what
    was not told keeps its pointers. *)
Lemma create_instance_replaces me kvs m (i : nat) m' rn st : u32 (node_id_ st) = me -> gm_local_node_id m' = me ->
  gm_group_id m' = gm_group_id m -> gm_local_node_id m = me -> wired i m st -> raft_objects st !! (2 * Z.of_nat i + 1) = Some rn ->
  2 * Z.of_nat i + 1 < next_object st ->
  (exists nc db, gm_group_cluster_cfg m' !! me = Some nc /\ open_db (nc_kv_dbname nc) = Some db) ->
  exists st' rn', create_instance open_db kvs m' st = Some st' /\
    registered_ st' = registered_ st /\ handlers_ st' = handlers_ st /\
    raft_objects st' !! (2 * Z.of_nat i + 1) = None /\ service_nodes st' !! (2 * Z.of_nat i) = None /\
    st_raft_nodes st' !! gm_group_id m = Some (next_object st + 1) /\
    raft_objects st' !! (next_object st + 1) = Some rn' /\ raft_state_ rn' = None /\ started_ rn' = false /\
    (exists es, peer_entries_ st' = peer_entries_ st ++ es) /\ (exists es, apply_entries_ st' = apply_entries_ st ++ es).
Proof.
  intros Hme Hl' Hg Hl [[kv Hs] Hreg _ Hr _ _ _ _ _] Hrn Hnext Hdb. unfold create_instance. set (q := next_object st) in *.
  set (old := mkKvServiceNode (gm_group_cluster_cfg m) (gm_local_node_id m) kv (Some (2 * Z.of_nat i + 1))) in *.
  destruct (destroy_service_run (2 * Z.of_nat i) old (2 * Z.of_nat i + 1) rn st Hs eq_refl Hrn) as (objs & svcs & Hd & Hsvc & Hsvcs).
  destruct (registry_Register_run me m' st (set_next_object (q + 1) (set_service_nodes svcs (set_raft_objects objs st))) Hme Hl' Hdb)
    as (sn & -> & _ & _).
  { intros sn _ _ _. unfold registry_Get. rewrite Hg, <- Hl, Hreg. apply (destroy_service_update (2 * Z.of_nat i) q); [lia|exact Hd]. }
  cbn [mbind option_bind]. rewrite new_raft_node_run. cbn [next_object set_registry_ update_service set_service_nodes set_next_object].
  match goal with |- context [connect_instance kvs m' _ _ ?s] => set (st1 := s) end.
  destruct (connect_instance_run kvs m' q (q + 1) sn (node_of m' st) st1) as (st' & Hc & [_ _ Hs' Ho Hos _ _ Hrr _ Ha Hp _ _ Hset]);
    [apply lookup_insert_eq|cbn; by rewrite lookup_insert_eq|done|done|].
  exists st', (node_of m' st). split; [exact Hc|]. injection Hset as _ _ _ Hh Hreg' _ _ _ _ _ _ _.
  split; [exact Hreg'|]. split; [exact Hh|]. split.
  { rewrite Hos by lia. etransitivity; [apply lookup_insert_ne; lia|]. unfold without_old. cbn. rewrite Hg, Hr. apply lookup_delete_eq. }
  split. { rewrite Hs' by lia. etransitivity; [apply lookup_insert_ne; lia|exact Hsvc]. }
  split. { rewrite Hrr. cbn. rewrite Hg. apply lookup_insert_eq. }
  split; [exact Ho|]. split; [done|]. split; [done|]. rewrite Ha, Hp. split; by eexists.
Qed.

(** [C17] A group notification for a group that already runs, the callback for which is
    installed by [InitRaftInstances], takes the group down on this node: its Raft node
    and service node are destroyed while the RPC service, the transport and the two
    FSMs still point to them, and the node that replaces it is neither initialised nor
    started. *)
Theorem notification_takes_group_down (unset : NetAddress) (now me : Z) (ms : list GroupMembership) st i m args g cfg
    (Hempty : empty_store st) (Hid : u32 (node_id_ st) = me) (Hme : 0 <= me < kMaxNodeNum)
    (Hms : Forall (bootable me) ms) (Hgroups : NoDup (gm_group_id <$> ms)) (Harr : forall p, arrays_ok (uninit p))
    (Hi : ms !! i = Some m) (Honly : collect_only_ st = false)
    (Hargs : notified_groups args = Some [g]) (Hg : gi_group_id g = gm_group_id m) (Hmember : is_member me g = true)
    (Hcfg : members_config unset (gi_group_id g) (notified_db (gi_group_id g) st) (gi_members g) = Some cfg)
    (Hopen : exists nc db, cfg !! me = Some nc /\ open_db (nc_kv_dbname nc) = Some db) :
  let q := 2 * Z.of_nat i in let p := 2 * Z.of_nat i + 1 in let gid := gm_group_id m in
  exists st1 st2 p' rn, boot open_db uninit now ms st = Some st1 /\ callback_set st1 = true /\
    HandleGroupNotification open_db unset args st1 = Some st2 /\
    registered_ st2 !! gid = Some p /\ handlers_ st2 !! gid = Some p /\ raft_objects st2 !! p = None /\
    (pf_kv_node ∘ en_fsm) <$> peer_entries_ st2 !! i = Some q /\ (snd ∘ en_fsm) <$> apply_entries_ st2 !! i = Some q /\
    service_nodes st2 !! q = None /\
    st_raft_nodes st2 !! gid = Some p' /\ raft_objects st2 !! p' = Some rn /\ raft_state_ rn = None /\ started_ rn = false.
Proof.
  cbv zeta. assert (ms <> []) as Hne by (intros ->; done).
  assert (bootable me m) as Hbm by (rewrite Forall_forall in Hms; apply Hms; by eapply list_elem_of_lookup_2).
  destruct (boot_run now me ms st) as (st1 & H1 & _ & _ & Hcb & _ & (Hnext & Hn & Hc & Hb) & Hg1); try done.
  destruct (Hg1 _ _ Hi) as (Hw & Hr & Hh & (rn0 & Hrn & _)). pose proof (lookup_lt_Some _ _ _ Hi) as Hlt.
  destruct (create_instance_replaces me [] m i (mkGroupMembership (gi_group_id g) me cfg) rn0 st1)
    as (st' & rn & Hrun & Hreg & Hhan & Hdead & Hsvc & Hnew & Hobj & Hstate & Hstart & [ps Hps] & [as' Has]);
    [by rewrite Hn|done|done|apply Hbm|done|done|lia|done|].
  exists st1, (set_memberships_ (memberships_ st' ++ [mkGroupMembership (gi_group_id g) me cfg]) st'), (next_object st1 + 1), rn.
  split; [exact H1|]. split; [exact Hcb|]. split.
  { unfold HandleGroupNotification. rewrite Hargs. cbn [mbind option_bind]. rewrite for_each_cons. unfold notify_group.
    rewrite Hn, Hid, Hmember. cbn [negb]. assert (notified_db (gi_group_id g) st1 = notified_db (gi_group_id g) st) as ->
      by (unfold notified_db; by rewrite Hn, Hb).
    rewrite Hcfg. cbn [mbind option_bind]. rewrite Hc, Honly, Hrun. done. }
  cbn. rewrite Hreg, Hhan, Hps, Has. rewrite (lookup_app_l_Some _ _ _ _ (w_peer _ _ _ Hw)), (lookup_app_l_Some _ _ _ _ (w_apply _ _ _ Hw)).
  done.
Qed.
End boot.

(** ** Witnesses: node 0 of three, in the groups 5 and 6 *)
Section witnesses.
#[local] Instance demo_alloc_boot : Allocator := fun _ => true.
#[local] Instance demo_indet_boot : Indeterminate := 0.
#[local] Existing Instance Gf256.isal.
#[local] Existing Instance demo_order.
Lemma demo_in_bounds (seed lo hi : Z) (n : nat) : lo <= hi -> lo <= lo <= hi.
Proof. lia. Qed.
#[local] Instance demo_latencies : LatencySource :=
  {| drawn_latency seed lo hi n := lo; sort_by_second := by_latency;
     drawn_in_bounds := demo_in_bounds; sort_permutes := by_latency_permutes; sort_sorted := by_latency_sorted |}.

Definition demo_uninits (p : Z) : Uninit := demo_uninit.
Definition demo_memberships : list GroupMembership := [demo_membership 5; demo_membership 6].
Lemma demo_bootable : Forall (bootable demo_open 0) demo_memberships.
Proof.
  assert (forall gid, is_u32 gid -> bootable demo_open 0 (demo_membership gid)) as H.
  { intros gid Hg. split; [done|done| |do 2 eexists; split; reflexivity]. cbn. intros id [x Hx].
    rewrite !lookup_insert_Some in Hx. destruct Hx as [[<- _]|[_ [[<- _]|[_ [[<- _]|[_ Hx]]]]]]; try lia. by rewrite lookup_empty in Hx. }
  apply Forall_cons. split; [|apply Forall_singleton]; apply H; unfold is_u32; cbn; lia.
Qed.
Lemma demo_groups : NoDup (gm_group_id <$> demo_memberships).
Proof. apply (bool_decide_unpack _). vm_compute. exact I. Qed.
Lemma demo_empty : empty_store demo_new_store.
Proof. done. Qed.
Lemma demo_arrays p : arrays_ok (demo_uninits p).
Proof. done. Qed.
Lemma demo_peers gid : peers_of (demo_membership gid) = [1; 2].
Proof. reflexivity. Qed.
Lemma demo_range gid : in_range (demo_membership gid).
Proof. unfold in_range. rewrite demo_peers. cbn. lia. Qed.

Lemma boot_wires_groups_witness : exists st',
  boot demo_open demo_uninits 0 demo_memberships demo_new_store = Some st' /\ registered_ st' !! 6 = Some 3.
Proof.
  destruct (boot_wires_groups demo_open demo_uninits 0 0 demo_memberships demo_new_store) as (st' & Hrun & _ & _ & _ & _ & Hg).
  - exact demo_empty.
  - reflexivity.
  - unfold kMaxNodeNum. lia.
  - discriminate.
  - exact demo_bootable.
  - exact demo_groups.
  - exact demo_arrays.
  - exists st'. split; [exact Hrun|]. apply (Hg 1%nat (demo_membership 6)). reflexivity.
Defined.

Lemma restart_votes_twice_witness : exists st1 st2 svc1 svc2,
  boot demo_open demo_uninits 0 demo_memberships demo_new_store = Some st1 /\
  process 5 (ProcessRequestVote (mkRequestVoteArgs 4 1 0 0 5 0)) (mkRequestVoteReply 0 false 0 0) (service_view st1) =
    Some (mkRequestVoteReply 4 true 0 5, svc1) /\
  boot demo_open demo_uninits 9 demo_memberships demo_new_store = Some st2 /\
  process 5 (ProcessRequestVote (mkRequestVoteArgs 4 2 0 0 5 0)) (mkRequestVoteReply 0 false 0 0) (service_view st2) =
    Some (mkRequestVoteReply 4 true 0 5, svc2).
Proof.
  apply (restart_votes_twice demo_open demo_uninits 0 9 0 demo_memberships demo_new_store 0 (demo_membership 5) 1 2
    (mkRequestVoteReply 0 false 0 0)) with (term := 4).
  - exact demo_empty.
  - reflexivity.
  - unfold kMaxNodeNum. lia.
  - exact demo_bootable.
  - exact demo_groups.
  - exact demo_arrays.
  - reflexivity.
  - apply demo_range.
  - rewrite demo_peers. left.
  - rewrite demo_peers. right. left.
  - lia.
Defined.

(** A repeated notification for group 5. *)
Definition demo_notified : KvClusterConfig :=
  default ∅ (members_config (demo_address 0) 5 (notified_db 5 demo_new_store) (gi_members demo_info)).

Lemma notification_takes_group_down_witness : exists st1 st2,
  boot demo_open demo_uninits 0 demo_memberships demo_new_store = Some st1 /\
  HandleGroupNotification demo_open (demo_address 0) demo_notification st1 = Some st2 /\
  registered_ st2 !! 5 = Some 1 /\ raft_objects st2 !! 1 = None.
Proof.
  destruct (notification_takes_group_down demo_open demo_uninits (demo_address 0) 0 0 demo_memberships demo_new_store 0 (demo_membership 5)
    demo_notification demo_info demo_notified) as (st1 & st2 & p & rn & H1 & _ & H2 & Hr & _ & Hdead & _).
  - exact demo_empty.
  - reflexivity.
  - unfold kMaxNodeNum. lia.
  - exact demo_bootable.
  - exact demo_groups.
  - exact demo_arrays.
  - reflexivity.
  - reflexivity.
  - reflexivity.
  - reflexivity.
  - reflexivity.
  - vm_compute. reflexivity.
  - do 2 eexists. split; [vm_compute; reflexivity|reflexivity].
  - exists st1, st2. split; [exact H1|]. split; [exact H2|]. split; [exact Hr|exact Hdead].
Defined.
End witnesses.
