(* ===== verification/PeerFsm.v ===== *)
(** The FSM of a group on a node (src/multi-raft/peer_fsm.h): what the peer threads do
    with each message, on the store the FSM belongs to.

    [Peers] is what the handlers share: the store, the counter of
    [LocalProposeToGroup] and the calls of callbacks, in order. The tracker and the
    store of an FSM are those of the [RaftStore] that creates it, so they are never
    null. [commits] are the commit indices the wait of a put sees and [elapse] the
    time it measures, by the number of the put. *)

From S2P Require Import Prelude Types Bytes StripeFormat KvFormat Engine LogManager Encoder Lrc Grouper Storage Serializer StripeApply StripeRead PersistQueue Monitors RaftBase RaftEncode RaftCore StripeStore Transport RaftNode KvServer GroupRegistry Message BatchSystem Routing Config RaftStore.

(** ** The bytes of a bundle *)
Definition bundle_slice (s : Slice) : Slice := EncodeFixed32 (slice_size s) ++ s.
Definition bundle_slices (ss : list Slice) : Slice := EncodeFixed32 (Z.of_nat (length ss)) ++ concat (bundle_slice <$> ss).
Definition bundle_placement (fp : FragmentPlacement) : Slice :=
  EncodeFixed32 (frag_id fp) ++ EncodeFixed32 (kind_to_Z (kind fp)) ++ EncodeFixed32 (local_group fp) ++
  EncodeFixed32 (node_id fp).

Definition SerializeBundle (b : ShardBundle) : Slice :=
  EncodeFixed64 (sb_entry_id b) ++ EncodeFixed64 (sb_stripe_id b) ++ EncodeFixed32 (sb_group_id b) ++
  EncodeFixed64 (sb_original_size b) ++
  bundle_slices (sb_local_data_shards b) ++
  EncodeFixed32 (slice_size (sb_local_parity b)) ++
  (let parity_len := u32 (slice_size (sb_local_parity b)) in
   if 0 <? parity_len then take (Z.to_nat parity_len) (sb_local_parity b) else []) ++
  bundle_slices (sb_global_parities b) ++
  bundle_slices (sb_all_fragments b) ++
  EncodeFixed32 (Z.of_nat (length (sb_placement b))) ++ concat (bundle_placement <$> sb_placement b) ++
  le 1 (sb_encoding_mode b).

(** The layout the comments document, as a reader; the source has none. *)
Definition read_bundle_slice : Reader Slice := let? len := take32 in read_bytes Reject len.
Definition read_bundle_slices : Reader (list Slice) :=
  let? n := take32 in read_list (Z.to_nat n) read_bundle_slice.
Definition read_bundle_placement : Reader FragmentPlacement :=
  let? f := take32i in let? kz := take32 in let? kd := kind_of_Z kz in
  let? g := take32i in let? n := take32i in rret (mkFragmentPlacement f g n kd).
Definition take64 : Reader Z := read_le Reject 8.
Definition read_bundle : Reader ShardBundle :=
  let? eid := take64 in let? sid := take64 in let? gid := take32 in let? size := take64 in
  let? shards := read_bundle_slices in
  let? parity := read_bundle_slice in
  let? globals := read_bundle_slices in
  let? frags := read_bundle_slices in
  let? count := take32 in
  let? pl := read_list (Z.to_nat count) read_bundle_placement in
  let? mode := read_le Reject 1 in
  rret (mkShardBundle eid sid gid shards parity globals size frags pl mode).

(** ** The handlers *)
Section handlers.
Context {DB : Type} {engine : StorageEngine DB} {St : Type} {store : Storage St} {isal : IsaL} {alloc : Allocator}
  {indet0 : Indeterminate}.
Context (commits : Z -> nat -> Z) (elapse : Z -> Z).

(** A callback is told whether something worked, or the entry it was set for. *)
Inductive CallbackCall := Told (cb : Z) (ok : bool) | Fired (cb entry_id : Z).

Record Peers := mkPeers { ps_store : RaftStore DB St; ps_seq : Z; ps_calls : list CallbackCall }.
Implicit Types (f : PeerFsm) (w : Peers).

Definition with_store (st : RaftStore DB St) w : Peers := mkPeers st (ps_seq w) (ps_calls w).
Definition tell (cb : option Z) (ok : bool) w : Peers :=
  match cb with
  | Some cb => mkPeers (ps_store w) (ps_seq w) (ps_calls w ++ [Told cb ok])
  | None => w
  end.

(** [PeerFsm::IsLeader]. *)
Definition fsm_IsLeader f w : option bool :=
  sn ← service_node (pf_kv_node f) (ps_store w);
  match sn_raft sn with
  | None => Some false
  | Some p => rn ← raft_object p (ps_store w); Some (IsLeader rn)
  end.

Definition shard_command (b : ShardBundle) : CommandData_t := mkCommandData 0 (SerializeBundle b).

Definition Handle_MsgProposeShard (b : ShardBundle) (cb : option Z) f w : option Peers :=
  sn ← service_node (pf_kv_node f) (ps_store w);
  match sn_raft sn with
  | None => Some (tell cb false w)
  | Some p =>
      rn ← raft_object p (ps_store w);
      r ← RaftNode_Propose (shard_command b) rn;
      Some (tell cb (is_leader r.1) (with_store (update_object p r.2 (ps_store w)) w))
  end.

Definition Handle_MsgShardCommitAck (entry_id from_group : Z) w : option Peers :=
  r ← OnLocalCommit entry_id from_group (tracker_ (ps_store w));
  let w := with_store (set_tracker_ r.2 (ps_store w)) w in
  Some (match r.1 with
        | Some (cb, eid) => mkPeers (ps_store w) (ps_seq w) (ps_calls w ++ [Fired cb eid])
        | None => w
        end).

Definition Handle_MsgRoutingTableSync (routes : RoutingTable) (ttl : Z) w : Peers :=
  with_store (MergeRoutingTable routes (ttl - 1) (ps_store w)) w.
Definition Handle_MsgRoutingTableUpdate (stripe_id entry_id : Z) (groups : list Z) (has_global_parities : bool)
    (global_parity_groups : list Z) w : Peers :=
  with_store (AddRouteEntry stripe_id entry_id groups has_global_parities global_parity_groups (ps_store w)) w.

(** [RaftStore::StripePut] on the Raft node of the group. *)
Definition Store_StripePut (gid : Z) (key value : Slice) (seq : Z) (st : RaftStore DB St)
    : option (ErrorType * RaftStore DB St) :=
  match st_raft_nodes st !! gid with
  | None => Some (kNotALeader, st)
  | Some p =>
      rn ← raft_object p st;
      r ← StripePut gid key value (commits seq) (elapse seq) (mkPhysNode (DB := DB) ∅ {[gid := rn]} true (st_encoding_mode st));
      rn ← raft_nodes_ r.2 !! gid;
      Some (r.1.1.1, update_object p rn st)
  end.

(** Answers the call [cb(true, 0)], which does not depend on the put. *)
Definition local_propose_key (seq : Z) : Slice := str "__local_propose_" ++ to_string seq.
Definition LocalProposeToGroup (gid : Z) (data : Slice) w : option ((bool * Z) * Peers) :=
  r ← Store_StripePut gid (local_propose_key (ps_seq w)) data (ps_seq w) (ps_store w);
  Some ((true, 0), mkPeers r.2 (u64 (ps_seq w + 1)) (ps_calls w)).

(** The handler passes a callback of its own, which only prints. *)
Definition Handle_MsgWriteRequest (data : Slice) f w : option Peers :=
  r ← LocalProposeToGroup (pf_group_id f) data w; Some r.2.

Definition Handle_MsgGroupIdUpdate (old_group_id new_group_id : Z) (cb : option Z) f w : PeerFsm * Peers :=
  if negb (old_group_id =? pf_group_id f) then (f, tell cb false w)
  else (mkPeerFsm new_group_id (pf_node_id f) (pf_kv_node f) (pf_apply_mb f), tell cb true w).

(** [false] is the stop of the FSM. *)
Definition HandleOne (m : PeerMsg) f w : option (bool * PeerFsm * Peers) :=
  match m with
  | MsgProposeShard b cb => w ← Handle_MsgProposeShard b cb f w; Some (true, f, w)
  | MsgShardCommitAck eid gid => w ← Handle_MsgShardCommitAck eid gid w; Some (true, f, w)
  | MsgRoutingTableSync routes ttl => Some (true, f, Handle_MsgRoutingTableSync routes ttl w)
  | MsgRoutingTableUpdate sid eid groups has globals =>
      Some (true, f, Handle_MsgRoutingTableUpdate sid eid groups has globals w)
  | MsgWriteRequest data _ => w ← Handle_MsgWriteRequest data f w; Some (true, f, w)
  | MsgGroupIdUpdate old new cb => let '(f, w) := Handle_MsgGroupIdUpdate old new cb f w in Some (true, f, w)
  | MsgRaftMessage _ | MsgTick | MsgLocalEncodeRequest _ _ _ _ _ _ | MsgLocalEncodeResult _ _ _ _ _ => Some (true, f, w)
  | MsgStop => Some (false, f, w)
  end.

Fixpoint peer_HandleBatch (batch : list PeerMsg) f w : option (bool * PeerFsm * Peers) :=
  match batch with
  | [] => Some (true, f, w)
  | m :: batch =>
      r ← HandleOne m f w;
      let '(continue, f, w) := r in
      if (continue : bool) then peer_HandleBatch batch f w else Some (false, f, w)
  end.
End handlers.
Arguments Peers DB St : clear implicits.
Arguments mkPeers {DB St}.

(** ** The format *)
Record bundle_ok (b : ShardBundle) : Prop := {
  bo_ids : 0 <= sb_entry_id b < 2 ^ 64 /\ 0 <= sb_stripe_id b < 2 ^ 64;
  bo_group : is_u32 (sb_group_id b);
  bo_size : 0 <= sb_original_size b < 2 ^ 64;
  bo_counts : Forall (fun ss => is_u32 (Z.of_nat (length ss)))
    [sb_local_data_shards b; sb_global_parities b; sb_all_fragments b];
  bo_slices : Forall (fun s => bytes s /\ is_u32 (slice_size s))
    (sb_local_parity b :: sb_local_data_shards b ++ sb_global_parities b ++ sb_all_fragments b);
  bo_placement : is_u32 (Z.of_nat (length (sb_placement b))) /\ Forall placement_fits (sb_placement b);
  bo_mode : 0 <= sb_encoding_mode b < 256
}.

Lemma exact_take32 v : is_u32 v -> exact take32 (EncodeFixed32 v) v.
Proof. apply (exact_le 4). Qed.
Lemma exact_take64 v : 0 <= v < 2 ^ 64 -> exact take64 (EncodeFixed64 v) v.
Proof. apply (exact_le 8). Qed.
Lemma exact_take32i v : is_int v -> exact take32i (EncodeFixed32 v) v.
Proof.
  intros Hv. unfold take32i, EncodeFixed32. rewrite <- (le_mod 4).
  eapply exact_bind_last; [apply (exact_le 4), u32_range|].
  change (v mod 256 ^ Z.of_nat 4) with (u32 v). rewrite i32_u32 by exact Hv. apply exact_ret.
Qed.

Lemma exact_bundle_slice s : is_u32 (slice_size s) -> exact read_bundle_slice (bundle_slice s) s.
Proof. intros Hs. eapply exact_bind; [by apply exact_take32|]. by apply exact_bytes. Qed.

Lemma exact_bundle_slices ss : is_u32 (Z.of_nat (length ss)) -> Forall (fun s => is_u32 (slice_size s)) ss ->
  exact read_bundle_slices (bundle_slices ss) ss.
Proof.
  intros Hn Hs. eapply exact_bind; [by apply exact_take32|]. apply exact_list; [by rewrite Nat2Z.id|].
  rewrite Forall_forall in Hs. intros s Hin. by apply exact_bundle_slice, Hs.
Qed.

Ltac bundle_field := idtac;
  lazymatch goal with
  | |- exact take32i _ _ => apply exact_take32i; assumption
  | |- exact take32 _ _ => apply exact_take32; assumption
  | |- exact take64 _ _ => apply exact_take64; assumption
  | |- exact read_bundle_slices _ _ => apply exact_bundle_slices; assumption
  end.

Lemma exact_bundle_placement fp : placement_fits fp -> exact read_bundle_placement (bundle_placement fp) fp.
Proof.
  intros []. unfold read_bundle_placement, bundle_placement.
  assert (is_u32 (kind_to_Z (kind fp))) by (unfold is_u32; destruct (kind fp); cbn; lia).
  exact_steps bundle_field. destruct fp. apply exact_ret.
Qed.

Theorem SerializeBundle_roundtrip (b : ShardBundle) (Hb : bundle_ok b) : exact read_bundle (SerializeBundle b) b.
Proof.
  destruct Hb as [[He Hs] Hg Ho Hc Hf [Hpn Hp] Hm]. apply Forall_cons in Hf as [[_ Hpar] Hf].
  rewrite !Forall_app in Hf. destruct Hf as (Hd & Hgl & Hal).
  apply Forall_cons in Hc as [Hcd Hc]. apply Forall_cons in Hc as [Hcg Hc]. apply Forall_inv in Hc.
  assert (forall ss, Forall (fun s : Slice => bytes s /\ is_u32 (slice_size s)) ss -> Forall (fun s => is_u32 (slice_size s)) ss) as Hi
    by (intros ss Hss; eapply Forall_impl; [exact Hss|]; tauto).
  apply Hi in Hd, Hgl, Hal. unfold read_bundle, SerializeBundle. cbv zeta.
  assert ((if 0 <? u32 (slice_size (sb_local_parity b)) then take (Z.to_nat (u32 (slice_size (sb_local_parity b)))) (sb_local_parity b)
           else []) = sb_local_parity b) as ->.
  { rewrite u32_small by done. destruct (Z.ltb_spec 0 (slice_size (sb_local_parity b))) as [H|H].
    - unfold slice_size. rewrite Nat2Z.id. apply firstn_all.
    - destruct (sb_local_parity b); [done|]. unfold slice_size in H. cbn in H. lia. }
  do 5 (eapply exact_bind; [solve [bundle_field]|]).
  eapply exact_bind_assoc; [by apply exact_bundle_slice|].
  do 3 (eapply exact_bind; [solve [bundle_field]|]).
  eapply exact_bind.
  { apply (exact_list _ bundle_placement); [by rewrite Nat2Z.id|]. rewrite Forall_forall in Hp. intros fp Hin.
    by apply exact_bundle_placement, Hp. }
  eapply exact_bind_last; [by apply (exact_le 1)|]. destruct b. apply exact_ret.
Qed.

Lemma bundle_slices_bytes ss : Forall (fun s => bytes s /\ is_u32 (slice_size s)) ss -> bytes (bundle_slices ss).
Proof.
  intros Hs. apply Forall_app. split; [apply le_bytes|]. apply Forall_concat, Forall_fmap.
  eapply Forall_impl; [exact Hs|]. intros s [Hb _]. apply Forall_app. split; [apply le_bytes|exact Hb].
Qed.

Lemma SerializeBundle_bytes b : bundle_ok b -> bytes (SerializeBundle b).
Proof.
  intros [_ _ _ _ Hf _ _]. apply Forall_cons in Hf as [[Hpar _] Hf]. rewrite !Forall_app in Hf. destruct Hf as (Hd & Hg & Ha).
  unfold SerializeBundle. cbv zeta. rewrite !Forall_app. split_and!; try apply le_bytes; try by apply bundle_slices_bytes.
  - destruct (0 <? _); [by apply Forall_take|constructor].
  - apply Forall_concat, Forall_fmap, Forall_true. intros fp. unfold compose, bundle_placement.
    rewrite !Forall_app. split_and!; apply le_bytes.
Qed.

(** ** What becomes of a proposed bundle *)

(** The size of the key as [Propose] computes it from the offset 0. *)
Definition no_key_size : Z := u32 (0 - 29).

Lemma shard_not_extracted (e : LogEntry) : Type_ e = kNormal -> IsLrcEncoded e = true ->
  GetKeySize (GetChunkInfo e) = no_key_size -> slice_size (CommandData e) < 2 ^ 31 -> ExtractApplyMeta e = None.
Proof.
  intros Ht Hl Hk Hs. unfold ExtractApplyMeta. rewrite Ht, Hl, Hk.
  destruct (_ || _); [done|]. rewrite (proj2 (Z.leb_gt _ _)); [done|].
  change no_key_size with 4294967267. destruct (_ && _); lia.
Qed.

(** Adding fragments and the way over the network keep what the extraction reads. *)
Definition same_head (e e' : LogEntry) : Prop :=
  Type_ e' = Type_ e /\ GetChunkInfo e' = GetChunkInfo e /\ command_data_ e' = command_data_ e.

Lemma add_frags_head (l : list (Z * Slice)) e :
  same_head e (foldl (fun e '(fid, frag) => AddFragmentWithId fid frag e) e l).
Proof.
  revert e. induction l as [|[fid frag] l IH]; intros e; [done|]. cbn [foldl]. unfold same_head in *.
  destruct (IH (AddFragmentWithId fid frag e)) as (-> & -> & ->). unfold AddFragmentWithId. by destruct (valid frag).
Qed.

Lemma key_only_no_key ent idx : GetKeySize (GetChunkInfo ent) = no_key_size -> slice_size (CommandData ent) < 2 ^ 31 ->
  Type_ (key_only_entry ent idx) = kNormal /\ GetChunkInfo (key_only_entry ent idx) = GetChunkInfo ent /\
  command_data_ (key_only_entry ent idx) = [].
Proof.
  intros Hk Hs. unfold key_only_entry. rewrite Hk.
  change (u32 (21 + no_key_size)) with 4294967288. rewrite (proj2 (Z.leb_gt 4294967288 _)) by lia.
  by rewrite andb_false_r.
Qed.

Lemma peer_entry_not_extracted ent idx frag_ids e : IsLrcEncoded ent = true ->
  GetKeySize (GetChunkInfo ent) = no_key_size -> slice_size (CommandData ent) < 2 ^ 31 ->
  lrc_new_peer_entry ent idx frag_ids = Some e -> ExtractApplyMeta (received e) = None.
Proof.
  intros Hl Hk Hs. unfold lrc_new_peer_entry. destruct (bool_decide _); [done|]. intros [= <-].
  set (fs := zip _ _). destruct (add_frags_head fs (key_only_entry ent idx)) as (Ht & Hci & Hc).
  destruct (key_only_no_key ent idx Hk Hs) as (Ht' & Hci' & Hc').
  set (e := foldl _ _ _) in *. rewrite Ht' in Ht. rewrite Hci' in Hci. rewrite Hc' in Hc.
  assert (CommandData (received e) = []) as Hd.
  { unfold received, CommandData, is_kNormal. cbn [Type_ command_data_]. rewrite Ht.
    change (bool_decide (kNormal = kNormal)) with true. cbn match. exact Hc. }
  apply shard_not_extracted.
  - exact Ht.
  - unfold IsLrcEncoded in *. change (GetChunkInfo (received e)) with (GetChunkInfo e). by rewrite Hci.
  - change (GetChunkInfo (received e)) with (GetChunkInfo e). by rewrite Hci.
  - rewrite Hd. done.
Qed.

Section proposed.
Context {DB : Type} {engine : StorageEngine DB} {St : Type} {store : Storage St} {isal : IsaL} {alloc : Allocator}
  {indet0 : Indeterminate}.
Context (gf_mul : Z -> Z -> Z) (gr g : LrcComplementaryGrouper) (b : ShardBundle).
Local Abbreviation p := (lrc_params_ gr).
Local Abbreviation N := (N_ gr).
Local Abbreviation size := (slice_size (SerializeBundle b)).
Context (Hc : cluster_ok gf_mul gr g) (Hb : bundle_ok b) (Hsize : size < 2 ^ 31 /\ size <= lrc_k p * (2 ^ 20 - 1)).

Lemma shard_encodes (s : RaftState St) : 0 <= id_ s < N -> exists grp pl F fs,
  propose_lrc (shard_command b) g s = Some (Some (mkChunkInfo (lrc_k p) 0 (lrc_l p) (lrc_r p) grp no_key_size size, pl, F)) /\
  placement_spec N (lrc_k p) g pl /\ 0 <= grp < 2 * N /\ Z.of_nat (length F) = 2 * N /\
  Forall (fun f => length f = fs) F /\ (0 < fs)%nat /\ Z.of_nat fs < 2 ^ 20.
Proof.
  intros Hid. destruct (propose_lrc_encodes gf_mul gr g s (shard_command b) (SerializeBundle b) Hc Hid)
    as (grp & pl & F & fs & Hpr & Hps & Hg & HF & Hfs & H0 & H1 & _).
  - cbn [cd_start_fragment_offset cd_command_data shard_command]. pose proof (slice_size_nonneg (SerializeBundle b)). lia.
  - apply drop_0.
  - done.
  - by apply SerializeBundle_bytes.
  - tauto.
  - exists grp, pl, F, fs. split; [|tauto]. rewrite Hpr.
    cbn [cd_start_fragment_offset cd_command_data shard_command]. rewrite Z.sub_0_r, (u32_small size); [done|].
    pose proof (slice_size_nonneg (SerializeBundle b)). unfold is_u32. lia.
Qed.

Section logged.
Context (idx term grp : Z) (pl : list FragmentPlacement) (F : list Slice) (fs : nat).
Context (Hps : placement_spec N (lrc_k p) g pl) (Hgrp : 0 <= grp < 2 * N) (HF : Z.of_nat (length F) = 2 * N).
Context (Hfs : Forall (fun f => length f = fs) F) (H0 : (0 < fs)%nat) (H1 : Z.of_nat fs < 2 ^ 20) (Hidx : is_u32 idx).
Let ci := mkChunkInfo (lrc_k p) 0 (lrc_l p) (lrc_r p) grp no_key_size size.
Let ent := logged_entry (shard_command b) term idx (ci, pl, F).

Lemma logged_frags (command : CommandData_t) (c : ChunkInfo) : Fragments (logged_entry command term idx (c, pl, F)) = F.
Proof using Hfs H0.
  unfold logged_entry, proposed_entry. cbn [fst snd]. rewrite foldl_AddFragment; [done|done|done|].
  eapply Forall_impl; [exact Hfs|]. intros [|x f] Hf; [cbn in Hf; lia|done].
Qed.

Lemma logged_head : Type_ ent = kNormal /\ IsLrcEncoded ent = true /\ GetKeySize (GetChunkInfo ent) = no_key_size /\
  CommandData ent = SerializeBundle b.
Proof using Hc Hfs H0 Hgrp.
  assert (ent = SetChunkInfo (SetRaftIndex idx ci) (SetIndex idx (proposed_entry (shard_command b) term (Some (ci, pl, F))))) as -> by done.
  unfold proposed_entry. rewrite foldl_AddFragment; [|done|done|].
  - split_and!; [done| |done|done]. unfold IsLrcEncoded, ChunkInfo_IsLrcEncoded. cbn.
    pose proof (lrc_params_facts p (cl_params _ _ _ Hc)). rewrite !bool_decide_true by lia. done.
  - eapply Forall_impl; [exact Hfs|]. intros [|x f] Hf; [cbn in Hf; lia|done].
Qed.

Lemma leader_entry_not_applied : ExtractApplyMeta ent = None.
Proof using All.
  destruct logged_head as (Ht & Hl & Hk & Hcmd). apply shard_not_extracted; [done..|]. rewrite Hcmd. tauto.
Qed.

Lemma peer_entry_not_applied n : 0 <= n < N -> exists frag_ids e,
  GetFragmentsForNode n g = Some frag_ids /\ lrc_new_peer_entry ent idx frag_ids = Some e /\ ExtractApplyMeta (received e) = None.
Proof using All.
  intros Hn. pose proof (sizes gf_mul gr g Hc) as (? & ? & ? & ?).
  destruct (peer_view p g N pl Hps ltac:(lia) F fs Hfs ltac:(lia) HF 0 idx term grp [0] []
    Hidx ltac:(lia) ltac:(unfold is_u32; lia) ltac:(lia) ltac:(unfold is_u32; lia) ltac:(done)
    ltac:(unfold slice_size; cbn; lia) ltac:(unfold slice_size; cbn; lia) n Hn) as (frag_ids & e & Hg & He & _).
  exists frag_ids. destruct logged_head as (Ht & Hl & Hk & Hcmd).
  destruct (lrc_new_peer_entry ent idx frag_ids) as [e'|] eqn:He'.
  - exists e'. split_and!; [done|done|]. eapply peer_entry_not_extracted; [exact Hl|exact Hk| |exact He'].
    rewrite Hcmd. tauto.
  - exfalso. revert He He'. unfold lrc_new_peer_entry, ent. rewrite !logged_frags. by destruct (bool_decide _).
Qed.
End logged.
End proposed.

(** [C32] A bundle that is proposed in LRC mode reaches the logs and no store. At the
    leader of a group in that mode, for a bundle of less than 2^31 bytes whose
    fragments are smaller than 1 MiB, the callback is told that the bundle was
    accepted, the log gets one entry whose command is read back as the bundle, and
    every peer is sent its fragments; but from neither the leader's entry nor the
    entry in any of these messages, as it is received, can a key be extracted, so the
    apply FSM is told of none of them. (Entries in the other encoding modes, and those
    sent again later, are not the subject.) *)
Theorem proposed_shard_never_applied {DB : Type} {engine : StorageEngine DB} {St : Type} {store : Storage St} {isal : IsaL}
    {alloc : Allocator} {indet0 : Indeterminate} (commits : Z -> nat -> Z) (elapse : Z -> Z)
    (gf_mul : Z -> Z -> Z) (gr g : LrcComplementaryGrouper) (b : ShardBundle) (cb : Z) (f : PeerFsm) (w : Peers DB St)
    (sn : KvServiceNode DB) (rp : Z) (rn : RaftNode St) (s : RaftState St) (l : list LogEntry)
    (Halloc : forall n, new_array_ok n = true) (Hc : cluster_ok gf_mul gr g) (Hb : bundle_ok b)
    (Hsize : slice_size (SerializeBundle b) < 2 ^ 31 /\ slice_size (SerializeBundle b) <= lrc_k (lrc_params_ gr) * (2 ^ 20 - 1))
    (Hsn : service_node (pf_kv_node f) (ps_store w) = Some sn) (Hrp : sn_raft sn = Some rp)
    (Hrn : raft_object rp (ps_store w) = Some rn) (Hs : live_state rn = Some s)
    (Hrole : role_ s = kLeader) (Hmode : encoding_mode_ s = 2) (Hgr : lrc_grouper_ s = Some g)
    (Hlog : represents (lm_ s) l) (Hcap : Z.of_nat (length l) < 2 ^ 27) (Hid : 0 <= id_ s < N_ gr)
    (Hpeers : forall q, q ∈ RaftBase.peers_ s -> 0 <= q < N_ gr /\ arr_get (rpc_clients_ s) q = Some true) :
  let idx := Z.of_nat (length l) + 1 in
  exists s' ent ms,
    HandleOne commits elapse (MsgProposeShard b (Some cb)) f w =
      Some (true, f, mkPeers (update_object rp (set_raft_state (Some s') rn) (ps_store w)) (ps_seq w) (ps_calls w ++ [Told cb true])) /\
    represents (lm_ s') (l ++ [ent]) /\ read_bundle (CommandData ent) = Ok (b, []) /\
    (forall gid, apply_message gid ent = None) /\ sent_ s' = sent_ s ++ ms /\
    Forall2 (fun peer m => exists e, carries_entry s idx e peer m /\ forall gid, apply_message gid (received e) = None)
      (filter (fun q => q <> id_ s) (RaftBase.peers_ s)) ms.
Proof.
  intros idx. destruct (shard_encodes gf_mul gr g b Hc Hb Hsize s Hid) as (grp & pl & F & fs & Hpr & Hps & Hg & HF & Hfs & H0 & H1).
  assert (is_u32 idx) as Hidx by (unfold is_u32, idx; lia).
  pose proof (logged_head gf_mul gr g b Hc idx (CurrentTerm s) grp pl F fs Hg Hfs H0) as (_ & Hl & _ & Hcmd).
  pose proof (leader_entry_not_applied gf_mul gr g b Hc Hb Hsize idx (CurrentTerm s) grp pl F fs Hps Hg HF Hfs H0 H1 Hidx) as Hlead.
  pose proof (peer_entry_not_applied gf_mul gr g b Hc Hb Hsize idx (CurrentTerm s) grp pl F fs Hps Hg HF Hfs H0 H1 Hidx) as Hpeer.
  destruct (Propose_lrc_run Halloc (shard_command b) g s l _ Hrole Hmode Hgr Hlog Hcap Hpr Hl) as (s' & ms & Hrun & Hrep & Hsent & Hall).
  - intros q Hq _. destruct (Hpeers q Hq) as [Hqn Hrpc]. destruct (Hpeer q Hqn) as (ids & e & Hids & He & _). by exists ids, e.
  - set (ent := logged_entry _ _ idx _) in *. exists s', ent, ms. split_and!; [|exact Hrep| | |exact Hsent|].
    + cbn [HandleOne]. unfold Handle_MsgProposeShard. rewrite Hsn. cbn [mbind option_bind]. rewrite Hrp, Hrn. cbn [mbind option_bind].
      unfold RaftNode_Propose, with_live. rewrite Hs, Hrun. reflexivity.
    + rewrite Hcmd. pose proof (ex_reads _ _ _ (SerializeBundle_roundtrip b Hb) []) as Hr. by rewrite app_nil_r in Hr.
    + intros gid. unfold apply_message. by rewrite Hlead.
    + eapply peer_messages_hold; [exact Hall|]. intros q Hq _. destruct (Hpeers q Hq) as [Hqn _].
      destruct (Hpeer q Hqn) as (ids & e & Hids & He & Hx). exists ids, e. split_and!; [done|done|].
      intros gid. unfold apply_message. by rewrite Hx.
Qed.

(** ** Batches and the other messages *)
Section batches.
Context {DB : Type} {engine : StorageEngine DB} {St : Type} {store : Storage St} {isal : IsaL} {alloc : Allocator}
  {indet0 : Indeterminate}.
Context (commits : Z -> nat -> Z) (elapse : Z -> Z).
Implicit Types (f : PeerFsm) (w : Peers DB St).

(** The form in which the peer threads run the handlers. *)
Definition is_MsgStop (m : PeerMsg) : bool := match m with MsgStop => true | _ => false end.
Definition run_peer (m : PeerMsg) f w : option (PeerFsm * Peers DB St) :=
  r ← HandleOne commits elapse m f w; Some (r.1.2, r.2).
Fixpoint run_peers (batch : list PeerMsg) f w : option (PeerFsm * Peers DB St) :=
  match batch with [] => Some (f, w) | m :: batch => r ← run_peer m f w; run_peers batch r.1 r.2 end.

Lemma HandleOne_continues m f w r : HandleOne commits elapse m f w = Some r -> r.1.1 = negb (is_MsgStop m).
Proof.
  destruct m; cbn [HandleOne]; try (intros [= <-]; done);
    try (intros (w' & _ & H)%option.bind_Some; injection H as <-; done).
  destruct (Handle_MsgGroupIdUpdate _ _ _ _ _) as [f' w']. by intros [= <-].
Qed.

(** A batch is handled up to its first stop message; what follows it is dropped. *)
Lemma HandleBatch_until_stop before rest f w : Forall (fun m => is_MsgStop m = false) before ->
  peer_HandleBatch commits elapse (before ++ rest) f w =
  (r ← run_peers before f w; peer_HandleBatch commits elapse rest r.1 r.2).
Proof.
  revert f w. induction before as [|m before IH]; intros f w Hb; [done|]. apply Forall_cons in Hb as [Hm Hb].
  cbn [app peer_HandleBatch run_peers]. unfold run_peer. destruct (HandleOne commits elapse m f w) as [[[c f'] w']|] eqn:E; [|done].
  pose proof (HandleOne_continues m f w _ E) as Hc. rewrite Hm in Hc. cbn [fst snd negb] in Hc. subst c.
  cbn [mbind option_bind fst snd]. by apply IH.
Qed.

(** The callback of a write request is never called, and the FSM stays as it is. *)
Lemma write_request_silent data cb f w r :
  HandleOne commits elapse (MsgWriteRequest data cb) f w = Some r -> r.1.2 = f /\ ps_calls r.2 = ps_calls w.
Proof.
  cbn [HandleOne]. unfold Handle_MsgWriteRequest, LocalProposeToGroup. intros (w' & H & Hr)%option.bind_Some.
  injection Hr as <-. apply option.bind_Some in H as (q & H & Hq). injection Hq as <-.
  apply option.bind_Some in H as (x & _ & H). injection H as <-. done.
Qed.

(** Requests that the same process makes are stored under different keys. *)
Lemma local_propose_key_inj a b : local_propose_key a = local_propose_key b -> a = b.
Proof. intros H%(inj (app _)). by apply (inj to_string) in H. Qed.

(** A shard is refused without a trace when the group has no Raft node here or the
    node was stopped. *)
Lemma shard_refused b cb f w sn : service_node (pf_kv_node f) (ps_store w) = Some sn ->
  match sn_raft sn with None => True | Some rp => exists rn, raft_object rp (ps_store w) = Some rn /\ live_state rn = None end ->
  exists st, HandleOne commits elapse (MsgProposeShard b (Some cb)) f w =
    Some (true, f, mkPeers st (ps_seq w) (ps_calls w ++ [Told cb false])) /\
    raft_objects st = raft_objects (ps_store w).
Proof.
  intros Hsn H. cbn [HandleOne]. unfold Handle_MsgProposeShard. rewrite Hsn. cbn [mbind option_bind].
  destruct (sn_raft sn) as [rp|]; [|by eexists].
  destruct H as (rn & Hrn & Hl). rewrite Hrn. cbn [mbind option_bind]. unfold RaftNode_Propose, with_live. rewrite Hl.
  cbn [mbind option_bind fst snd]. eexists. split; [reflexivity|].
  change (<[rp := rn]> (raft_objects (ps_store w)) = raft_objects (ps_store w)). by apply insert_id.
Qed.
End batches.

(** ** Witness: the leader of a group of three *)
Section witness.
#[local] Instance demo_alloc_peer : Allocator := fun _ => true.
#[local] Instance demo_indet_peer : Indeterminate := 0.
#[local] Existing Instance Gf256.isal.

Definition shard_leader : RaftState MemStorage :=
  set_lrc_grouper_ (Some grouper3_mapped) (set_encoding_mode_ 2 (set_role_ kLeader (demo_node 0 None))).
Definition shard_node : RaftNode MemStorage :=
  set_raft_state (Some shard_leader) (RaftNode_ctor (mkNodeConfig 0 [0; 1; 2] None false 3 0 2)).
Definition shard_service : KvServiceNode (gmap Slice Slice) :=
  mkKvServiceNode ∅ 0 (mkKvServer (mkKvNode ∅ 0) ∅ false 0 [1; 2] []) (Some 1).
Definition shard_store : RaftStore (gmap Slice Slice) MemStorage :=
  update_object 1 shard_node (update_service 0 shard_service
    (RaftStore_ctor 0 (mkNetAddress [] 0) (mkNetAddress [] 0) 3 0)).
Definition demo_bundle : ShardBundle := mkShardBundle 1 1 3 [[1; 2]] [7] [] 2 [] [mkFragmentPlacement 0 0 1 kData] 2.
Definition demo_peer : PeerFsm := mkPeerFsm 3 0 0 0.

Lemma demo_bundle_ok : bundle_ok demo_bundle.
Proof.
  split; unfold is_u32; cbn; try (split; lia) || lia.
  - repeat constructor; unfold is_u32; cbn; lia.
  - repeat constructor; unfold is_u32, slice_size, byte; cbn; lia.
  - split; [lia|]. apply Forall_singleton. split; unfold is_int; cbn; lia.
Qed.

Lemma proposed_shard_never_applied_witness : exists s' ent,
  HandleOne (fun _ _ => 0) (fun _ => 0) (MsgProposeShard demo_bundle (Some 9)) demo_peer (mkPeers shard_store 0 []) =
    Some (true, demo_peer, mkPeers (update_object 1 (set_raft_state (Some s') shard_node) shard_store) 0 [Told 9 true]) /\
  read_bundle (CommandData ent) = Ok (demo_bundle, []) /\ apply_message 3 ent = None.
Proof.
  destruct (proposed_shard_never_applied (fun _ _ => 0) (fun _ => 0) Gf256.mul grouper3 grouper3_mapped demo_bundle 9 demo_peer
    (mkPeers shard_store 0 []) shard_service 1 shard_node shard_leader []) as (s' & ent & ms & Hrun & _ & Hread & Happ & _).
  - reflexivity.
  - exact cluster3_ok.
  - exact demo_bundle_ok.
  - vm_compute. split; [reflexivity|discriminate].
  - reflexivity.
  - reflexivity.
  - reflexivity.
  - reflexivity.
  - reflexivity.
  - reflexivity.
  - reflexivity.
  - split; [apply LogSpec.wf_ctor; lia|reflexivity].
  - reflexivity.
  - vm_compute. split; [discriminate|reflexivity].
  - intros q Hq. assert (Forall (fun q => 0 <= q < 3 /\ arr_get (RaftBase.rpc_clients_ shard_leader) q = Some true)
      (RaftBase.peers_ shard_leader)) as Hf by (apply (bool_decide_unpack _); vm_compute; exact I).
    rewrite Forall_forall in Hf. by apply Hf.
  - exists s', ent. split; [exact Hrun|]. split; [exact Hread|apply Happ].
Defined.
End witness.
