(* ===== verification/Legacy.v ===== *)
(** Code beside the Multi-Raft server: the RPC service of a single Raft group
    (src/raft/rcf_rpc.cc), the stripe hooks (src/raft/stripe_hooks.cc,
    src/multi-raft/stripe_raft_adapter.cc), the group coordinator
    (group_coordinator.cc), the encoders of bundles that nothing calls
    (raft_store.h) and the keys of the measurements (src/raft/util.h) with the
    warm-up of a store (src/kv/storage_engine.cc).

    [None] is a null dereference, an exception or a call that never returns. *)

From stdpp Require Import pretty strings.
From S2P Require Import Prelude Types Bytes StripeFormat Engine LogManager Encoder Lrc Grouper Storage Serializer StripeApply PersistQueue Monitors RaftBase RaftEncode RaftCore Transport Message Config RaftStore.

(** ** The service of one group.
    [RaftRPCService] holds a pointer, null until [SetRaftState]. *)
Section single.
Context {St : Type} {store : Storage St} {isal : IsaL} {alloc : Allocator} {indet0 : Indeterminate}
  {img : Image} {un : Unset}.
Abbreviation State := (RaftState St).
Implicit Types (raft : option State).

(** [raft_->Process(&args, &reply)]. *)
Definition single_process {A} (h : M State A) raft : option (A * option State) :=
  s ← raft; r ← h s; Some (r.1, Some r.2).

Definition RaftRPCService_RequestVote (arg_buf : Slice) raft : option (Slice * option State) :=
  match Deserialize_RequestVoteArgs arg_buf with
  | Ok (args, _) => r ← single_process (ProcessRequestVote args) raft; Some (Serialize_RequestVoteReply r.1, r.2)
  | _ => None
  end.

(** Without a state the chunk infos of the entries are answered. *)
Definition echo_chunks (args : AppendEntriesArgs) : option AppendEntriesReply :=
  cis ← mapM (fun i => GetChunkInfo <$> arr_get (aea_entries args) i) (seqZ 0 (aea_entry_cnt args));
  Some (mkAppendEntriesReply (aer_term unset_append) (aer_success unset_append) (aer_expect_index unset_append)
    (aer_reply_id unset_append) 0 (u32 (Z.of_nat (length cis))) cis).
Definition RaftRPCService_AppendEntries (arg_buf : Slice) raft : option (Slice * option State) :=
  match Deserialize_AppendEntriesArgs arg_buf with
  | Ok (args, _) =>
      match raft with
      | Some s => r ← ProcessAppendEntries args s; Some (Serialize_AppendEntriesReply r.1, Some r.2)
      | None => reply ← echo_chunks args; Some (Serialize_AppendEntriesReply reply, None)
      end
  | _ => None
  end.

Definition RaftRPCService_RequestFragments (arg_buf : Slice) raft : option (Slice * option State) :=
  match Deserialize_RequestFragmentsArgs arg_buf with
  | Ok (args, _) =>
      r ← single_process (ProcessRequestFragments args) raft;
      bs ← Serialize_RequestFragmentsReply r.1; Some (bs, r.2)
  | _ => None
  end.

(** The static completions; a null pointer is left alone. *)
Definition static_complete (complete : option Slice -> State -> option State) (ret : option Slice) raft : option (option State) :=
  match raft with None => Some None | Some s => Some <$> complete ret s end.
Definition static_onRequestVoteComplete : option Slice -> option State -> option (option State) :=
  static_complete OnRequestVoteComplete.
Definition static_onRequestFragmentsComplete : option Slice -> option State -> option (option State) :=
  static_complete OnRequestFragmentsComplete.

Record RPCStats := mkRPCStats { arg_size : Z; resp_size : Z; total_time : Z; transfer_time : Z; process_time : Z }.
(** A recorder starts with one default result. *)
Definition RPCStatsRecorder_ctor : list RPCStats := [mkRPCStats 0 0 0 0 0].
Definition Recorder_Add (stat : RPCStats) (history : list RPCStats) : list RPCStats := history ++ [stat].
(** [buf] is answered after [time] microseconds; a call that carries entries is recorded. *)
Definition static_onAppendEntriesComplete (size time : Z) (ret : option Slice) raft (history : list RPCStats)
    : option (option State * list RPCStats) :=
  match raft with
  | None => Some (None, history)
  | Some s =>
      s ← OnAppendEntriesComplete ret s;
      Some (Some s, match ret with
                    | Some buf => if kAppendEntriesArgsHdrSize <? size
                                  then Recorder_Add (mkRPCStats size (slice_size buf) time time 0) history else history
                    | None => history end)
  end.
(** The averages [Dump] prints; [None] is a division by zero. *)
Definition average (n : Z) (xs : list Z) : option Z := if n =? 0 then None else Some (u64 (foldr Z.add 0 xs) / n).
Definition Dump_averages (history : list RPCStats) : option (Z * Z * Z) :=
  let n := Z.of_nat (length history) in
  total ← average n (total_time <$> history);
  process ← average n (process_time <$> history);
  transfer ← average n (transfer_time <$> history);
  Some (total, process, transfer).

(** [sendGroupNotification]: the bytes of the call, if the client runs. *)
Definition sendGroupNotification (args : GroupNotificationArgs) (c : RCFRpcClient) : option Slice :=
  if stopped_ c then None else Some (Serialize_GroupNotificationArgs args).

(** A notification sent to a node is the call of its callback. *)
Lemma notification_delivers {S} (callback : GroupNotificationArgs -> M S bool) (args : GroupNotificationArgs) (c : RCFRpcClient)
    (pad : Slice) (st : S) : stopped_ c = false -> notification_ok args ->
  (bs ← sendGroupNotification args c; service_GroupNotification (Some callback) (bs ++ pad) st) =
  (r ← callback args st; Some (Serialize_GroupNotificationReply (mkGroupNotificationReply (b2z r.1) (u32 (-1))), r.2)).
Proof.
  intros Hc Ha. unfold sendGroupNotification. rewrite Hc. cbn [mbind option_bind]. unfold service_GroupNotification.
  by rewrite (reads_notification args Ha pad).
Qed.

(** The group a request names is served as its only group would be. *)
Lemma unified_is_single {A} g (h : M State A) (none : A) (svc : RaftUnifiedRPCService) s : svc !! g = Some s ->
  process g h none svc = (r ← single_process h (Some s); s' ← r.2; Some (r.1, <[g := s']> svc)).
Proof. intros Hs. rewrite (process_registered _ _ _ _ _ Hs). unfold single_process. cbn. by destruct (h s) as [[a s']|]. Qed.
End single.

(** ** Stripe hooks *)
Section hooks.
Context {St : Type}.
Record Hooks := mkHooks {
  g_is_stripe_cmd : option (LogEntry -> bool);
  g_stripe_encode : option (RaftState St -> Z -> option bool)
}.
Definition no_hooks : Hooks := mkHooks None None.
Definition RegisterStripeHooks is_cmd encode : Hooks := mkHooks is_cmd encode.
Definition StripeIsStripeCommand (h : Hooks) (entry : LogEntry) : bool :=
  if negb (is_kNormal entry) then false else
  match g_is_stripe_cmd h with Some f => f entry | None => false end.
Definition StripeTryEncodeReplication (h : Hooks) (s : RaftState St) (raft_index : Z) : option bool :=
  match g_stripe_encode h with Some f => f s raft_index | None => Some false end.
Definition IsStripeCmdHook (entry : LogEntry) : bool :=
  if negb (is_kNormal entry) then false else IsStripeCommand (CommandData entry).
Definition EncodeStripeHook (s : RaftState St) (raft_index : Z) : option bool := Some false.
(** The registration is commented out: only the flag is set. *)
Definition RegisterStripeRaftHooks (once : bool) (h : Hooks) : bool * Hooks := (true, h).

(** Registered or not, no hook ever encodes an entry. *)
Lemma hooks_never_encode once s i :
  StripeTryEncodeReplication (snd (RegisterStripeRaftHooks once no_hooks)) s i = Some false /\
  StripeTryEncodeReplication (RegisterStripeHooks (Some IsStripeCmdHook) (Some EncodeStripeHook)) s i = Some false.
Proof. done. Qed.
End hooks.

(** ** Keys of the measurements and the warm-up of a store *)
Definition zero_char : Z := 48.
(** [append] of a negative number of characters throws. *)
Definition padded (prefix : Slice) (id size : Z) : option Slice :=
  let s := prefix ++ to_string id in
  if size <? slice_size s then None else Some (s ++ replicate (Z.to_nat (size - slice_size s)) zero_char).
Definition util_MakeKey (key_id key_size : Z) : option Slice := padded (str "key") key_id key_size.
Definition MakeValue (value_id value_size : Z) : option Slice := padded (str "value") value_id value_size.

Section warmup.
Context {DB : Type} {engine : StorageEngine DB}.
Definition kKeyRange : Z := 5000.
Definition kKeySize : Z := 64.
Definition kValueSize : Z := 2 * 1024 * 1024.
(** [k] = 1, [m] = 0 and fragment 0. *)
Definition warmup_prefix : Slice := EncodeFixed32 1 ++ EncodeFixed32 0 ++ EncodeFixed32 0.
Definition warm_one (i : Z) (db : DB) : option DB :=
  key ← util_MakeKey i kKeySize;
  value ← MakeValue i kValueSize;
  Some (fst (db_put db key (warmup_prefix ++ value))).
Definition Warmup (db : DB) : option DB :=
  foldl (fun acc i => db ← acc; warm_one i db) (Some db) (seqZ 0 kKeyRange).
End warmup.

(** ** The group coordinator.
    Nothing sets [groups_ready_] or changes a counter. *)
Record GroupCoordinator := mkGroupCoordinator {
  gc_node_id : Z; gc_cluster_size : Z; gc_peer_addrs : list NetAddress;
  local_group_count_ : Z; notified_group_count_ : Z; groups_ready_ : bool;
  gc_rpc_clients : gmap Z RCFRpcClient
}.
Definition set_clients (clients : gmap Z RCFRpcClient) (c : GroupCoordinator) : GroupCoordinator :=
  mkGroupCoordinator (gc_node_id c) (gc_cluster_size c) (gc_peer_addrs c) (local_group_count_ c) (notified_group_count_ c)
    (groups_ready_ c) clients.
Definition GroupCoordinator_ctor (node_id cluster_size : Z) (peer_addrs : list NetAddress) : GroupCoordinator :=
  mkGroupCoordinator node_id cluster_size peer_addrs 0 0 false ∅.
Definition Coordinator_Stop (c : GroupCoordinator) : GroupCoordinator := set_clients ∅ c.
Definition GetRpcClient (target : Z) (c : GroupCoordinator) : option RCFRpcClient * GroupCoordinator :=
  if target =? gc_node_id c then (None, c) else
  match gc_rpc_clients c !! target with
  | Some client => (Some client, c)
  | None =>
      if (0 <=? target) && (target <? Z.of_nat (length (gc_peer_addrs c))) then
        let client := mkRCFRpcClient false false 0 in
        (Some client, set_clients (<[target := client]> (gc_rpc_clients c)) c)
      else (None, c)
  end.
Definition ExecuteGroupingAndNotify (groups_per_node l k r : Z) (c : GroupCoordinator) : GroupCoordinator := c.
Definition GetLocalGroupCount (c : GroupCoordinator) : Z := local_group_count_ c.
(** [None]: the wait goes on. *)
Definition WaitForGroupsReady (expected_groups : Z) (c : GroupCoordinator) : option unit :=
  if groups_ready_ c || (expected_groups <=? notified_group_count_ c) then Some tt else None.

(** ** The encoders of a bundle.
    They answer whether they succeeded; a failure leaves the bundle as it is. *)
Section bundles.
Context {isal : IsaL} {sh : Shuffle}.

Definition with_data_shards (shards : list Slice) (b : ShardBundle) : ShardBundle :=
  mkShardBundle (sb_entry_id b) (sb_stripe_id b) (sb_group_id b) (sb_local_data_shards b ++ shards) (sb_local_parity b)
    (sb_global_parities b) (sb_original_size b) (sb_all_fragments b) (sb_placement b) (sb_encoding_mode b).
Definition with_fragments (frags : list Slice) (pl : list FragmentPlacement) (b : ShardBundle) : ShardBundle :=
  mkShardBundle (sb_entry_id b) (sb_stripe_id b) (sb_group_id b) (sb_local_data_shards b) (sb_local_parity b)
    (sb_global_parities b) (sb_original_size b) (sb_all_fragments b ++ frags) pl (sb_encoding_mode b).

(** The fragment of the group, or the data as they are. *)
Definition EncodeForRsF (k r : Z) (data : Slice) (group_id : Z) (b : ShardBundle) : option (bool * ShardBundle) :=
  if (1 <? k) || (0 <? r) then
    res ← EncodeSlice data k r ∅;
    Some (true, with_data_shards
      [match (if res.1 : bool then (res.2 : EncodingResults) !! group_id else None) with Some frag => frag | None => data end] b)
  else Some (true, with_data_shards [data] b).

(** The first [k_param] fragments of the bundle are its data shards too. *)
Definition repeat_data (k_param : Z) (b : ShardBundle) : option ShardBundle :=
  shards ← mapM (arr_get (sb_all_fragments b)) (seqZ 0 k_param); Some (with_data_shards shards b).

Definition EncodeForRs3F (data : Slice) (group_id N : Z) (b : ShardBundle) : option (bool * ShardBundle) :=
  if N <? 5 then Some (false, b) else
  let F := cdiv N 2 in
  let k_param := F + 1 in
  let m_param := 3 * F + 1 in
  let total := k_param + m_param in
  res ← EncodeSlice data k_param m_param ∅;
  if negb (res.1 : bool) || negb (Z.of_nat (size (res.2 : EncodingResults)) =? total) then Some (false, b) else
  plan ← BuildRsRandomPlacement N total (group_id + 1);
  frags ← mapM (fun i => (res.2 : EncodingResults) !! i) (seqZ 0 total);
  let pl := (fun rp => mkFragmentPlacement (rs_frag_id rp) 0 (rs_node_id rp) (rs_kind k_param (rs_frag_id rp))) <$> plan in
  b ← repeat_data k_param (with_fragments frags (sb_placement b ++ pl) b);
  Some (true, b).

(** Exceptions are caught; [grouper] is the one of the store, where
    [latency_aware_enabled_] is set. *)
Definition EncodeForLrc (grouper : option LrcComplementaryGrouper) (data : Slice) (N : Z) (b : ShardBundle) : option (bool * ShardBundle) :=
  if N <? 5 then Some (false, b) else
  match FromCapacity N 2 with
  | None => Some (false, b)
  | Some lp =>
      if negb (LrcEncoder_ok lp) then Some (false, b) else
      res ← EncodeStripe lp data;
      if negb (res.1 : bool) then Some (false, b) else
      match grouper with
      | None => Some (false, b)
      | Some gr =>
          pl ← GetNodePlacementsVector gr;
          b ← repeat_data (lrc_k lp) (with_fragments
            (take (Z.to_nat (lrc_k lp)) (data_shards res.2) ++ take (Z.to_nat (lrc_l lp)) (local_parities res.2) ++
             take (Z.to_nat (lrc_r lp)) (global_parities res.2)) pl b);
          Some (true, b)
      end
  end.
End bundles.

(** ** Distinct ids, one key *)
Lemma pretty_N_go_app x : forall s, pretty_N_go x s = pretty_N_go x "" +:+ s.
Proof.
  induction (N.lt_wf_0 x) as [x _ IH]. intros s.
  assert (x = 0 \/ 0 < x)%N as [->|Hx] by lia; [by rewrite !pretty_N_go_0|].
  pose proof (IH (x / 10)%N (N.div_lt x 10 Hx eq_refl)) as Hgo. rewrite !(pretty_N_go_step x) by done.
  rewrite (Hgo (String _ s)), (Hgo (String _ "")). generalize (pretty_N_go (x / 10) ""). intros a.
  induction a as [|c a IHa]; [done|].
  change (String c (a +:+ String (pretty_N_char (x mod 10)) s) = String c ((a +:+ String (pretty_N_char (x mod 10)) "") +:+ s)).
  by rewrite IHa.
Qed.

Lemma to_string_times_10 id : 1 <= id -> to_string (10 * id) = to_string id ++ [zero_char].
Proof.
  intros Hid. destruct id as [|q|q]; try lia. unfold to_string.
  change (pretty (10 * Z.pos q)) with (pretty (N.pos (10 * q))). change (pretty (Z.pos q)) with (pretty (N.pos q)).
  unfold pretty, pretty_N. rewrite !decide_False by done. rewrite (pretty_N_go_step (N.pos (10 * q))) by lia.
  change (N.pos (10 * q)) with (10 * N.pos q)%N. rewrite N.mul_comm, N.Div0.mod_mul, N.div_mul by done.
  rewrite pretty_N_go_app, str_app. done.
Qed.

(** A key id and ten times it get the same key: the padding is made of the digit that
    the longer number ends with. So the warm-up writes fewer keys than it counts. *)
Theorem MakeKey_collides (id size : Z) (Hid : 1 <= id) (Hfit : 3 + slice_size (to_string (10 * id)) <= size) :
  util_MakeKey (10 * id) size = util_MakeKey id size /\ is_Some (util_MakeKey id size).
Proof.
  unfold util_MakeKey, padded. rewrite to_string_times_10 in Hfit |- * by done. rewrite !slice_size_app in *.
  change (slice_size (str "key")) with 3. change (slice_size [zero_char]) with 1 in *.
  pose proof (slice_size_nonneg (to_string id)). rewrite !(proj2 (Z.ltb_ge _ _)) by lia. split; [|by eexists]. f_equal.
  rewrite <- !app_assoc. do 2 f_equal. replace (Z.to_nat (size - (3 + slice_size (to_string id))))
    with (S (Z.to_nat (size - (3 + (slice_size (to_string id) + 1))))) by lia. done.
Qed.

(** ** The coordinator *)
Definition idle (c : GroupCoordinator) : Prop := groups_ready_ c = false /\ notified_group_count_ c = 0.
Inductive coordinator_op := OpClient (target : Z) | OpGroup (groups_per_node l k r : Z) | OpStop.
Definition coordinator_do (o : coordinator_op) (c : GroupCoordinator) : GroupCoordinator :=
  match o with
  | OpClient t => (GetRpcClient t c).2
  | OpGroup n l k r => ExecuteGroupingAndNotify n l k r c
  | OpStop => Coordinator_Stop c
  end.
Lemma coordinator_do_idle o c : idle c -> idle (coordinator_do o c).
Proof. intros Hc. destruct o; try done. cbn. unfold GetRpcClient. by repeat case_match. Qed.

(** Who waits for groups waits for ever. *)
Lemma coordinator_never_ready node_id N addrs ops expected : 1 <= expected ->
  WaitForGroupsReady expected (foldl (fun c o => coordinator_do o c) (GroupCoordinator_ctor node_id N addrs) ops) = None.
Proof.
  intros He. assert (forall c, idle c -> idle (foldl (fun c o => coordinator_do o c) c ops)) as H.
  { induction ops as [|o ops IH]; intros c Hc; [done|]. by apply IH, coordinator_do_idle. }
  destruct (H (GroupCoordinator_ctor node_id N addrs)) as [Hr Hn]; [done|]. unfold WaitForGroupsReady. rewrite Hr, Hn.
  by rewrite (proj2 (Z.leb_gt _ _)) by lia.
Qed.

Lemma GetRpcClient_once target c client c' : GetRpcClient target c = (Some client, c') -> GetRpcClient target c' = (Some client, c').
Proof.
  unfold GetRpcClient. destruct (target =? gc_node_id c) eqn:Ht; [done|].
  destruct (gc_rpc_clients c !! target) as [cl|] eqn:Hc.
  - intros [= <- <-]. by rewrite Ht, Hc.
  - destruct (_ && _); [|done]. intros [= <- <-]. cbn. by rewrite Ht, lookup_insert_eq.
Qed.

(** ** A recorder always has a result, so the averages exist *)
Lemma Dump_defined stats : is_Some (Dump_averages (foldl (fun h s => Recorder_Add s h) RPCStatsRecorder_ctor stats)).
Proof.
  assert (forall h, h <> [] -> foldl (fun h s => Recorder_Add s h) h stats <> []) as H.
  { induction stats as [|s stats IH]; intros h Hh; [done|]. apply IH. unfold Recorder_Add. by destruct h. }
  specialize (H RPCStatsRecorder_ctor ltac:(done)). destruct (foldl _ _ _) as [|s h]; [done|].
  unfold Dump_averages, average. cbn [length]. rewrite (proj2 (Z.eqb_neq _ _)) by lia. by eexists.
Qed.

(** ** The encoder of bundles agrees with [EncodeStripePayload] *)
Section agree.
Context {isal : IsaL} {sh : Shuffle}.

Lemma repeat_data_ok k b : 0 <= k <= Z.of_nat (length (sb_all_fragments b)) ->
  repeat_data k b = Some (with_data_shards (take (Z.to_nat k) (sb_all_fragments b)) b).
Proof.
  intros Hk. unfold repeat_data.
  assert (mapM (arr_get (sb_all_fragments b)) (seqZ 0 k) = Some (take (Z.to_nat k) (sb_all_fragments b))) as ->; [|done].
  apply mapM_Some_2, Forall2_same_length_lookup. rewrite length_seqZ, length_take. split; [lia|].
  intros i x y Hi Hy. apply lookup_seqZ in Hi as [-> Hi]. apply lookup_take_Some in Hy as [Hy _].
  unfold arr_get. rewrite decide_True by lia. by rewrite Z.add_0_l, Nat2Z.id.
Qed.

(** What the store would have put in a bundle is what the apply side encodes. *)
Theorem EncodeForRs3F_agrees (N group_id eid : Z) (data : Slice) (b : ShardBundle) (r : StripeEncodeResult)
    (Hr : encode_rs_3f N group_id eid data = Some (Some r)) (Hf : sb_all_fragments b = []) (Hp : sb_placement b = []) :
  exists b', EncodeForRs3F data group_id N b = Some (true, b') /\ sb_all_fragments b' = ser_all_fragments r /\
    sb_placement b' = slm_placement (ser_meta r) /\
    sb_local_data_shards b' = sb_local_data_shards b ++ take (Z.to_nat (cdiv N 2 + 1)) (ser_all_fragments r).
Proof.
  revert Hr. unfold encode_rs_3f, EncodeForRs3F. destruct (Z.ltb_spec N 5) as [|HN]; [done|].
  set (k := cdiv N 2 + 1). set (m := 3 * cdiv N 2 + 1).
  destruct (EncodeSlice data k m ∅) as [[ok F]|]; [|done]. cbn [mbind option_bind fst snd].
  destruct (_ || _); [done|]. destruct (BuildRsRandomPlacement _ _ _) as [plan|]; [|done]. cbn [mbind option_bind].
  destruct (mapM _ (seqZ 0 (k + m))) as [frags|] eqn:Hm; [|done]. cbn [mbind option_bind]. intros [= <-].
  apply mapM_Some_1, Forall2_length in Hm. rewrite length_seqZ in Hm.
  assert (1 <= k <= k + m) as Hk by (unfold k, m, cdiv; zdm; lia).
  rewrite repeat_data_ok by (cbn [sb_all_fragments with_fragments]; rewrite Hf; cbn [app]; lia).
  cbn [mbind option_bind]. eexists. split; [reflexivity|]. cbn [sb_all_fragments sb_placement sb_local_data_shards
    with_data_shards with_fragments ser_all_fragments ser_meta slm_placement encode_meta]. by rewrite Hf, Hp.
Qed.
End agree.
